(** * Webcamoid media pipeline: element life cycle, caps negotiation,
    AAC header derivation, WebM muxing and PipeWire defaults.

  A shallow embedding of
  - [audioencoderfaacelement.cpp]  (module [Faac]),
  - [videoencoderrav1eelement.cpp] (module [Rav1e]),
  - [videomuxerwebmelement.cpp]    (module [Webm]),
  - [audiodevpipewire.cpp]         (module [PipeWire]),
  followed by the properties proved about them. *)

From Stdlib Require Import ZArith String List Bool Lia QArith Qround Sorted.
Import ListNotations.
Open Scope Z_scope.

(* ===================================================================== *)
(** * Machine integers *)
(* ===================================================================== *)

(** C++ fixed-width integers are carried as [Z]; every operation that can
  leave the range is written with its two's-complement wrap-around. *)
Module MachineInt.

Definition to_unsigned (w : Z) (z : Z) : Z := z mod 2 ^ w.

Definition to_signed (w : Z) (z : Z) : Z :=
  (z + 2 ^ (w - 1)) mod 2 ^ w - 2 ^ (w - 1).

Definition int_min : Z := - 2 ^ 31.
Definition int_max : Z := 2 ^ 31 - 1.
Definition qint64_max : Z := 2 ^ 63 - 1.
Definition quint64_max : Z := 2 ^ 64 - 1.

Definition to_int (z : Z) : Z := to_signed 32 z.
Definition to_qint64 (z : Z) : Z := to_signed 64 z.
Definition to_quint32 (z : Z) : Z := to_unsigned 32 z.
Definition to_quint64 (z : Z) : Z := to_unsigned 64 z.

(** [qAbs] on [int]: [t >= 0 ? t : -t], the negation wrapping. *)
Definition qAbs (t : Z) : Z := if 0 <=? t then t else to_int (- t).

(** [qBound(min, val, max)] is [qMax(min, qMin(max, val))]. *)
Definition qBound (lo v hi : Z) : Z := Z.max lo (Z.min hi v).

End MachineInt.

(* ===================================================================== *)
(** * The common caps, packet and element model *)
(* ===================================================================== *)

Module Ak.

(** [AkElement::ElementState]. *)
Inductive ElementState : Type :=
| ElementStateNull
| ElementStatePaused
| ElementStatePlaying.

Definition ElementState_eqb (a b : ElementState) : bool :=
  match a, b with
  | ElementStateNull, ElementStateNull
  | ElementStatePaused, ElementStatePaused
  | ElementStatePlaying, ElementStatePlaying => true
  | _, _ => false
  end.

(** [AkAudioCaps::SampleFormat]; the encoder table only names [s16] and
    [s32] (and [flt], commented out), every other member of the enum is
    one more constructor here. *)
Inductive SampleFormat : Type :=
| SampleFormat_none
| SampleFormat_s8
| SampleFormat_u8
| SampleFormat_s16
| SampleFormat_u16
| SampleFormat_s32
| SampleFormat_u32
| SampleFormat_flt
| SampleFormat_dbl.

Definition SampleFormat_eqb (a b : SampleFormat) : bool :=
  match a, b with
  | SampleFormat_none, SampleFormat_none
  | SampleFormat_s8, SampleFormat_s8
  | SampleFormat_u8, SampleFormat_u8
  | SampleFormat_s16, SampleFormat_s16
  | SampleFormat_u16, SampleFormat_u16
  | SampleFormat_s32, SampleFormat_s32
  | SampleFormat_u32, SampleFormat_u32
  | SampleFormat_flt, SampleFormat_flt
  | SampleFormat_dbl, SampleFormat_dbl => true
  | _, _ => false
  end.

(** Modelled from the spec: [AkAudioCaps::ChannelLayout] and
    [AkAudioCaps::defaultChannelLayout] are declared outside the files at
    hand; the spec's data model gives the layouts as "mono, stereo,
    N-channel" with the channel count read back from the layout. *)
Inductive ChannelLayout : Type :=
| Layout_none
| Layout_mono
| Layout_stereo
| Layout_multi (channels : Z).

Definition ChannelLayout_eqb (a b : ChannelLayout) : bool :=
  match a, b with
  | Layout_none, Layout_none
  | Layout_mono, Layout_mono
  | Layout_stereo, Layout_stereo => true
  | Layout_multi n, Layout_multi m => n =? m
  | _, _ => false
  end.

Definition layoutChannels (l : ChannelLayout) : Z :=
  match l with
  | Layout_none => 0
  | Layout_mono => 1
  | Layout_stereo => 2
  | Layout_multi n => n
  end.

Definition defaultChannelLayout (channels : Z) : ChannelLayout :=
  if channels =? 1 then Layout_mono
  else if channels =? 2 then Layout_stereo
  else if channels <=? 0 then Layout_none
  else Layout_multi channels.

(** [AkAudioCaps]: sample format, channel layout, planar flag, rate. *)
Record AkAudioCaps : Type := mkAudioCaps {
  a_format : SampleFormat;
  a_layout : ChannelLayout;
  a_planar : bool;
  a_rate : Z
}.

Definition a_channels (c : AkAudioCaps) : Z := layoutChannels (a_layout c).

Definition emptyAudioCaps : AkAudioCaps :=
  mkAudioCaps SampleFormat_none Layout_none false 0.

(** Modelled from the spec: [AkAudioCaps::operator bool] is declared
    outside the files at hand; "a caps value is valid iff all required
    fields are non-default/non-unknown" (sample rate in Hz, > 0). *)
Definition audioCapsValid (c : AkAudioCaps) : bool :=
  negb (SampleFormat_eqb (a_format c) SampleFormat_none)
  && negb (ChannelLayout_eqb (a_layout c) Layout_none)
  && (0 <? a_rate c).

Definition AkAudioCaps_eqb (a b : AkAudioCaps) : bool :=
  SampleFormat_eqb (a_format a) (a_format b)
  && ChannelLayout_eqb (a_layout a) (a_layout b)
  && Bool.eqb (a_planar a) (a_planar b)
  && (a_rate a =? a_rate b).

(** [AkCompressedAudioCaps::AudioCodecID]; [AudioCodecID_unknown] is the
    zero value the codec tables use as their end mark. *)
Inductive AudioCodecID : Type :=
| AudioCodecID_unknown
| AudioCodecID_aac
| AudioCodecID_vorbis
| AudioCodecID_opus
| AudioCodecID_mpeg3.

Definition AudioCodecID_eqb (a b : AudioCodecID) : bool :=
  match a, b with
  | AudioCodecID_unknown, AudioCodecID_unknown
  | AudioCodecID_aac, AudioCodecID_aac
  | AudioCodecID_vorbis, AudioCodecID_vorbis
  | AudioCodecID_opus, AudioCodecID_opus
  | AudioCodecID_mpeg3, AudioCodecID_mpeg3 => true
  | _, _ => false
  end.

(** [AkCompressedAudioCaps(codecID, rawCaps)]. *)
Record AkCompressedAudioCaps : Type := mkCompressedAudioCaps {
  ca_codec : AudioCodecID;
  ca_rawCaps : AkAudioCaps
}.

(** The default-constructed [AkCompressedAudioCaps()]. *)
Definition emptyCompressedAudioCaps : AkCompressedAudioCaps :=
  mkCompressedAudioCaps AudioCodecID_unknown emptyAudioCaps.

(** Modelled from the spec: [AkCompressedAudioCaps::operator bool] is
    declared outside the files at hand; compressed caps are valid iff the
    codec is not the "unknown" sentinel and the wrapped raw caps are
    valid. *)
Definition compressedAudioCapsValid (c : AkCompressedAudioCaps) : bool :=
  negb (AudioCodecID_eqb (ca_codec c) AudioCodecID_unknown)
  && audioCapsValid (ca_rawCaps c).

Definition AkCompressedAudioCaps_eqb (a b : AkCompressedAudioCaps) : bool :=
  AudioCodecID_eqb (ca_codec a) (ca_codec b)
  && AkAudioCaps_eqb (ca_rawCaps a) (ca_rawCaps b).

(** [AkFrac]: a rational, numerator over denominator. *)
Record AkFrac : Type := mkFrac {
  f_num : Z;
  f_den : Z
}.

(** Modelled from the spec: [AkAudioPacket] is declared outside the files
    at hand; a raw audio packet carries its caps, its sample count and the
    stream id and index, and "zero-length input packet is rejected", so a
    packet is truthy iff its caps are valid and it holds samples. *)
Record AkAudioPacket : Type := mkAudioPacket {
  ap_caps : AkAudioCaps;
  ap_samples : Z;
  ap_id : Z;
  ap_index : Z
}.

Definition audioPacketValid (p : AkAudioPacket) : bool :=
  audioCapsValid (ap_caps p) && (0 <? ap_samples p).

(** [AkCompressedAudioPacket] as the encoder fills it in; the payload is
    kept by its size, its bytes being the native encoder's business. *)
Record AkCompressedAudioPacket : Type := mkCompressedAudioPacket {
  cap_caps : AkCompressedAudioCaps;
  cap_size : Z;
  cap_pts : Z;
  cap_dts : Z;
  cap_duration : Z;
  cap_timeBase : AkFrac;
  cap_id : Z;
  cap_index : Z
}.

(** Modelled from the spec: [AkElement::setState] of the base class is
    declared outside the files at hand. The subclasses call it only after
    their own work succeeded; the life-cycle contract has the element then
    be in the target state and report success. *)
Definition AkElement_setState (target : ElementState)
  : bool * ElementState := (true, target).

End Ak.

(* ===================================================================== *)
(** * The AAC encoder element (faac) *)
(* ===================================================================== *)

Module Faac.
Import MachineInt Ak.

(** ** [FaacSampleFormatTable] *)

Inductive FaacInputFormat : Type :=
| FAAC_INPUT_NULL
| FAAC_INPUT_16BIT
| FAAC_INPUT_32BIT.

Record FaacSampleFormatTable : Type := mkFmt {
  format : SampleFormat;
  faacFormat : FaacInputFormat
}.

(** [table()], the [SampleFormat_none] row closing it. *)
Definition table : list FaacSampleFormatTable :=
  [ mkFmt SampleFormat_s16 FAAC_INPUT_16BIT;
    mkFmt SampleFormat_s32 FAAC_INPUT_32BIT;
    mkFmt SampleFormat_none FAAC_INPUT_NULL ].

(** [byFormat]: walk the rows up to the [SampleFormat_none] row, which
    is returned when nothing matched. *)
Fixpoint byFormat_from (rows : list FaacSampleFormatTable)
         (fmt : SampleFormat) : FaacSampleFormatTable :=
  match rows with
  | [] => mkFmt SampleFormat_none FAAC_INPUT_NULL
  | row :: rest =>
      if SampleFormat_eqb (format row) SampleFormat_none then row
      else if SampleFormat_eqb (format row) fmt then row
      else byFormat_from rest fmt
  end.

Definition byFormat (fmt : SampleFormat) : FaacSampleFormatTable :=
  byFormat_from table fmt.

(** ** [nearestSampleRate] *)

(** [faacEncSupportedSampleRates], with the closing [0]. *)
Definition faacEncSupportedSampleRates : list Z :=
  [8000; 11025; 12000; 16000; 22050; 24000; 32000; 44100; 48000; 64000;
   88200; 96000; 0].

(** The [for (auto srate = ...; *srate; ++srate)] loop; [k] is the
    [quint64] made from [qAbs] of the [int] difference. Where the
    difference [*srate - rate] is no [int], the C++ has no defined
    behaviour; the loop wraps it around, as the machine does, and
    [nearestSampleRateDefined] below tells the rates this happens for
    from the others. *)
Fixpoint nearestSampleRate_loop (srates : list Z) (rate nearest q : Z) : Z :=
  match srates with
  | [] => nearest
  | srate :: rest =>
      if srate =? 0 then nearest
      else
        let k := to_quint64 (qAbs (to_int (srate - rate))) in
        if k <? q
        then nearestSampleRate_loop rest rate srate k
        else nearestSampleRate_loop rest rate nearest q
  end.

Definition nearestSampleRate (rate : Z) : Z :=
  nearestSampleRate_loop faacEncSupportedSampleRates rate rate quint64_max.

(** No subtraction [*srate - rate] of the loop leaves [int], and no
    [qAbs] negates the least [int]: the run of [nearestSampleRate] has
    defined behaviour. *)
Fixpoint nearestSampleRateDefined_loop (srates : list Z) (rate : Z) : bool :=
  match srates with
  | [] => true
  | srate :: rest =>
      if srate =? 0 then true
      else (int_min <? srate - rate) && (srate - rate <=? int_max)
           && nearestSampleRateDefined_loop rest rate
  end.

Definition nearestSampleRateDefined (rate : Z) : bool :=
  nearestSampleRateDefined_loop faacEncSupportedSampleRates rate.

(** ** [sampleRateIndex] *)

Definition faacEncSampleRateIndex : list Z :=
  [96000; 88200; 64000; 48000; 44100; 32000; 24000; 22050; 16000; 12000;
   11025; 8000; 7350; 0].

Fixpoint sampleRateIndex_loop (tbl : list Z) (i : Z) (rate : Z) : Z :=
  match tbl with
  | [] => 15
  | r :: rest =>
      if r =? 0 then 15
      else if r =? rate then i
      else sampleRateIndex_loop rest (i + 1) rate
  end.

Definition sampleRateIndex (rate : Z) : Z :=
  sampleRateIndex_loop faacEncSampleRateIndex 0 rate.

(** ** Bit packing: [putBits] and [bitsToByteArray] *)

(** A [QBitArray] is its list of bits, index 0 first. *)
Definition QBitArray : Type := list bool.

(** [QBitArray::resize]: cut, or extend with cleared bits. *)
Definition resize (ba : QBitArray) (n : nat) : QBitArray :=
  firstn n ba ++ repeat false (n - length ba).

(** [ba[i] = b]; the indices used below are always in range. *)
Fixpoint setBit (ba : QBitArray) (i : nat) (b : bool) : QBitArray :=
  match ba, i with
  | [], _ => []
  | _ :: rest, O => b :: rest
  | x :: rest, S j => x :: setBit rest j b
  end.

(** The body of [putBits]' loop for [i = 0 .. bits - 1], counted down in
    [todo]: [ba[ba.size() - i - 1] = (value >> i) & 0x1]. *)
Fixpoint putBits_loop (ba : QBitArray) (i todo : nat) (value : Z)
  : QBitArray :=
  match todo with
  | O => ba
  | S todo' =>
      let ba' :=
        setBit ba (length ba - i - 1)
               (Z.odd (Z.land (Z.shiftr value (Z.of_nat i)) 1)) in
      putBits_loop ba' (S i) todo' value
  end.

(** [putBits(ba, bits, value)], [value] a [quint32]. *)
Definition putBits (ba : QBitArray) (bits : nat) (value : Z) : QBitArray :=
  putBits_loop (resize ba (length ba + bits)) 0 bits (to_quint32 value).

(** A [QByteArray] is its list of bytes, each as the unsigned value of
    its eight bits. *)
Definition QByteArray : Type := list Z.

Fixpoint orByte (bytes : QByteArray) (i : nat) (v : Z) : QByteArray :=
  match bytes, i with
  | [], _ => []
  | x :: rest, O => Z.lor x v :: rest
  | x :: rest, S j => x :: orByte rest j v
  end.

(** The loop of [bitsToByteArray]:
    [bytes[i / 8] |= (bits[i] ? 1 : 0) << (7 - (i % 8))]. *)
Fixpoint bitsToByteArray_loop (bits : QBitArray) (i : nat)
         (bytes : QByteArray) : QByteArray :=
  match bits with
  | [] => bytes
  | b :: rest =>
      let v := Z.shiftl (if b then 1 else 0) (7 - Z.of_nat i mod 8) in
      bitsToByteArray_loop rest (S i) (orByte bytes (Nat.div i 8) v)
  end.

Definition bitsToByteArray (bits : QBitArray) : QByteArray :=
  bitsToByteArray_loop bits 0 (repeat 0 (Nat.div (length bits + 7) 8)).

(** ** The element's state *)

(** Modelled from the spec: the faac object-type constant [LOW] comes from
    the native library's header; "object type 2 (LOW)". *)
Definition LOW : Z := 2.

(** [faacEncConfiguration], the fields [init] writes. *)
Record faacEncConfiguration : Type := mkConfig {
  aacObjectType : Z;
  mpegVersion : Z;
  useTns : Z;
  allowMidside : Z;
  bitRate : Z;
  bandWidth : Z;
  outputFormat : Z;
  inputFormat : FaacInputFormat
}.

(** What the element does to the outside: calls into libfaac, calls on
    the [FillAudioGaps] helper element, and emitted signals. *)
Inductive Event : Type :=
| EvEncOpen (rate channels : Z)
| EvEncSetConfiguration (cfg : faacEncConfiguration)
| EvEncClose (handle : Z)
| EvEncEncode (handle : option Z) (samplesInput : Z)
| EvGapsSetFillGaps (on : bool)
| EvGapsSetOutputSamples (n : Z)
| EvGapsSetOutputCaps (caps : AkAudioCaps)
| EvGapsSetState (s : ElementState)
| EvHeadersChanged (headers : QByteArray)
| EvOutputCapsChanged (caps : AkCompressedAudioCaps)
| EvEncodedTimePtsChanged (pts : Z)
| EvOStream (packet : AkCompressedAudioPacket).

(** The public properties the private class reads through [self], the
    members of [AudioEncoderFaacElementPrivate], and the trace of
    [Event]s so far (oldest first). *)
Record State : Type := mkState {
  state : ElementState;
  inputCaps : AkAudioCaps;
  codec : string;
  bitrate : Z;
  fillGaps : bool;
  optMpegVersion : Z;
  optOutputFormat : Z;
  m_outputCaps : AkCompressedAudioCaps;
  m_headers : QByteArray;
  m_encoder : option Z;
  m_config : option faacEncConfiguration;
  m_maxOutputBytes : Z;
  m_initialized : bool;
  m_paused : bool;
  m_id : Z;
  m_index : Z;
  m_pts : Z;
  m_encodedTimePts : Z;
  m_fillAudioGaps : bool;
  trace : list Event
}.

Definition set_state (v : ElementState) (s : State) : State :=
  mkState v (inputCaps s) (codec s) (bitrate s) (fillGaps s)
          (optMpegVersion s) (optOutputFormat s) (m_outputCaps s)
          (m_headers s) (m_encoder s) (m_config s) (m_maxOutputBytes s)
          (m_initialized s) (m_paused s) (m_id s) (m_index s) (m_pts s)
          (m_encodedTimePts s) (m_fillAudioGaps s) (trace s).

Definition set_m_outputCaps (v : AkCompressedAudioCaps) (s : State) : State :=
  mkState (state s) (inputCaps s) (codec s) (bitrate s) (fillGaps s)
          (optMpegVersion s) (optOutputFormat s) v
          (m_headers s) (m_encoder s) (m_config s) (m_maxOutputBytes s)
          (m_initialized s) (m_paused s) (m_id s) (m_index s) (m_pts s)
          (m_encodedTimePts s) (m_fillAudioGaps s) (trace s).

Definition set_m_headers (v : QByteArray) (s : State) : State :=
  mkState (state s) (inputCaps s) (codec s) (bitrate s) (fillGaps s)
          (optMpegVersion s) (optOutputFormat s) (m_outputCaps s)
          v (m_encoder s) (m_config s) (m_maxOutputBytes s)
          (m_initialized s) (m_paused s) (m_id s) (m_index s) (m_pts s)
          (m_encodedTimePts s) (m_fillAudioGaps s) (trace s).

Definition set_m_encoder (v : option Z) (s : State) : State :=
  mkState (state s) (inputCaps s) (codec s) (bitrate s) (fillGaps s)
          (optMpegVersion s) (optOutputFormat s) (m_outputCaps s)
          (m_headers s) v (m_config s) (m_maxOutputBytes s)
          (m_initialized s) (m_paused s) (m_id s) (m_index s) (m_pts s)
          (m_encodedTimePts s) (m_fillAudioGaps s) (trace s).

Definition set_m_config (v : option faacEncConfiguration) (s : State)
  : State :=
  mkState (state s) (inputCaps s) (codec s) (bitrate s) (fillGaps s)
          (optMpegVersion s) (optOutputFormat s) (m_outputCaps s)
          (m_headers s) (m_encoder s) v (m_maxOutputBytes s)
          (m_initialized s) (m_paused s) (m_id s) (m_index s) (m_pts s)
          (m_encodedTimePts s) (m_fillAudioGaps s) (trace s).

Definition set_m_maxOutputBytes (v : Z) (s : State) : State :=
  mkState (state s) (inputCaps s) (codec s) (bitrate s) (fillGaps s)
          (optMpegVersion s) (optOutputFormat s) (m_outputCaps s)
          (m_headers s) (m_encoder s) (m_config s) v
          (m_initialized s) (m_paused s) (m_id s) (m_index s) (m_pts s)
          (m_encodedTimePts s) (m_fillAudioGaps s) (trace s).

Definition set_m_initialized (v : bool) (s : State) : State :=
  mkState (state s) (inputCaps s) (codec s) (bitrate s) (fillGaps s)
          (optMpegVersion s) (optOutputFormat s) (m_outputCaps s)
          (m_headers s) (m_encoder s) (m_config s) (m_maxOutputBytes s)
          v (m_paused s) (m_id s) (m_index s) (m_pts s)
          (m_encodedTimePts s) (m_fillAudioGaps s) (trace s).

Definition set_m_paused (v : bool) (s : State) : State :=
  mkState (state s) (inputCaps s) (codec s) (bitrate s) (fillGaps s)
          (optMpegVersion s) (optOutputFormat s) (m_outputCaps s)
          (m_headers s) (m_encoder s) (m_config s) (m_maxOutputBytes s)
          (m_initialized s) v (m_id s) (m_index s) (m_pts s)
          (m_encodedTimePts s) (m_fillAudioGaps s) (trace s).

Definition set_m_id_index (id index : Z) (s : State) : State :=
  mkState (state s) (inputCaps s) (codec s) (bitrate s) (fillGaps s)
          (optMpegVersion s) (optOutputFormat s) (m_outputCaps s)
          (m_headers s) (m_encoder s) (m_config s) (m_maxOutputBytes s)
          (m_initialized s) (m_paused s) id index (m_pts s)
          (m_encodedTimePts s) (m_fillAudioGaps s) (trace s).

Definition set_m_pts (v : Z) (s : State) : State :=
  mkState (state s) (inputCaps s) (codec s) (bitrate s) (fillGaps s)
          (optMpegVersion s) (optOutputFormat s) (m_outputCaps s)
          (m_headers s) (m_encoder s) (m_config s) (m_maxOutputBytes s)
          (m_initialized s) (m_paused s) (m_id s) (m_index s) v
          (m_encodedTimePts s) (m_fillAudioGaps s) (trace s).

Definition set_m_encodedTimePts (v : Z) (s : State) : State :=
  mkState (state s) (inputCaps s) (codec s) (bitrate s) (fillGaps s)
          (optMpegVersion s) (optOutputFormat s) (m_outputCaps s)
          (m_headers s) (m_encoder s) (m_config s) (m_maxOutputBytes s)
          (m_initialized s) (m_paused s) (m_id s) (m_index s) (m_pts s)
          v (m_fillAudioGaps s) (trace s).

Definition set_inputCaps (v : AkAudioCaps) (s : State) : State :=
  mkState (state s) v (codec s) (bitrate s) (fillGaps s)
          (optMpegVersion s) (optOutputFormat s) (m_outputCaps s)
          (m_headers s) (m_encoder s) (m_config s) (m_maxOutputBytes s)
          (m_initialized s) (m_paused s) (m_id s) (m_index s) (m_pts s)
          (m_encodedTimePts s) (m_fillAudioGaps s) (trace s).

(** Append one event to the trace. *)
Definition emit (e : Event) (s : State) : State :=
  mkState (state s) (inputCaps s) (codec s) (bitrate s) (fillGaps s)
          (optMpegVersion s) (optOutputFormat s) (m_outputCaps s)
          (m_headers s) (m_encoder s) (m_config s) (m_maxOutputBytes s)
          (m_initialized s) (m_paused s) (m_id s) (m_index s) (m_pts s)
          (m_encodedTimePts s) (m_fillAudioGaps s) (trace s ++ [e]).

(** The element right after construction: nothing initialized, the codec
    set to the first (and only) entry of [codecs()]. *)
Definition newElement (gapsPlugin : bool) : State :=
  mkState ElementStateNull emptyAudioCaps "faac" 0 false 0 0
          emptyCompressedAudioCaps [] None None 0 false false 0 0 0 0
          gapsPlugin [].

(** [codecID(codec)]: [aac] for the one codec name, [unknown] otherwise. *)
Definition codecID (c : string) : AudioCodecID :=
  if String.eqb c "faac" then AudioCodecID_aac else AudioCodecID_unknown.

(** ** [sendFrame] and [encodeFrame] *)

Definition sendFrame (samples writtenBytes : Z) (s : State) : State :=
  let packet :=
    mkCompressedAudioPacket
      (m_outputCaps s) writtenBytes (m_pts s) (m_pts s) samples
      (mkFrac 1 (a_rate (ca_rawCaps (m_outputCaps s))))
      (m_id s) (m_index s) in
  let s := emit (EvOStream packet) s in
  set_m_pts (to_qint64 (m_pts s + samples)) s.

(** [encodeFrame]; [writtenBytes] is what [faacEncEncode] returns for
    this frame. *)
Definition encodeFrame (writtenBytes : Z) (src : AkAudioPacket) (s : State)
  : State :=
  if negb (audioPacketValid src) then s
  else
    let s := set_m_id_index (ap_id src) (ap_index src) s in
    let s := emit (EvEncEncode (m_encoder s)
                     (to_quint32 (ap_samples src * a_channels (ap_caps src))))
                  s in
    if writtenBytes <? 0 then s
    else
      let s := if 0 <? writtenBytes
               then sendFrame (ap_samples src) writtenBytes s else s in
      let s := set_m_encodedTimePts
                 (to_qint64 (m_encodedTimePts s + ap_samples src)) s in
      emit (EvEncodedTimePtsChanged (m_encodedTimePts s)) s.

(** The frames the [FillAudioGaps] helper hands over, one after the
    other, each with the encoder's answer. *)
Fixpoint encodeFrames (frames : list (Z * AkAudioPacket)) (s : State)
  : State :=
  match frames with
  | [] => s
  | (writtenBytes, src) :: rest =>
      encodeFrames rest (encodeFrame writtenBytes src s)
  end.


(** ** What the outside answers *)

Record Native : Type := mkNative {
  (** [faacEncOpen]: no handle, or the handle with [inputSamples] and
      [maxOutputBytes]. *)
  encOpen : option (Z * Z * Z);
  (** what [faacEncGetCurrentConfiguration] points to *)
  currentConfiguration : faacEncConfiguration;
  (** [m_config->version == FAAC_CFG_VERSION] *)
  versionMatches : bool;
  (** [faacEncSetConfiguration] succeeded *)
  setConfigurationOk : bool;
  (** the frames [FillAudioGaps] still hands over when set to Null, each
      with the encoder's answer *)
  gapsFlushed : list (Z * AkAudioPacket)
}.

(** ** [uninit] *)

Definition uninit (nat : Native) (s : State) : State :=
  if negb (m_initialized s) then s
  else
    let s := set_m_initialized false s in
    let s := if m_fillAudioGaps s
             then
               (* the helper, set to Null, hands over what it still
                  holds *)
               encodeFrames (gapsFlushed nat)
                            (emit (EvGapsSetState ElementStateNull) s)
             else s in
    let s := match m_encoder s with
             | Some h => set_m_encoder None (emit (EvEncClose h) s)
             | None => s
             end in
    set_m_paused false s.

(** ** [updateHeaders] *)

Definition QByteArray_eqb (a b : QByteArray) : bool :=
  if list_eq_dec Z.eq_dec a b then true else false.

(** The bits of the AudioSpecificConfig, before the final resize. *)
Definition audioSpecificConfig (objectType rate channels : Z) : QBitArray :=
  let ba := putBits [] 5 objectType in
  let sri := sampleRateIndex rate in
  let ba := putBits ba 4 sri in
  let ba := if 15 <=? sri then putBits ba 24 rate else ba in
  let ba := putBits ba 4 channels in
  let ba := putBits ba 1 0 in
  let ba := putBits ba 1 0 in
  let ba := putBits ba 1 0 in
  let ba := putBits ba 11 0x2b7 in
  let ba := putBits ba 5 5 in
  putBits ba 1 0.

(** [updateHeaders]; [cfg] is what [m_config] points to. *)
Definition updateHeaders (cfg : faacEncConfiguration) (s : State) : State :=
  let caps := ca_rawCaps (m_outputCaps s) in
  let bits := audioSpecificConfig (aacObjectType cfg) (a_rate caps)
                                  (a_channels caps) in
  let headers := bitsToByteArray (resize bits (32 * 8)) in
  if QByteArray_eqb (m_headers s) headers then s
  else emit (EvHeadersChanged headers) (set_m_headers headers s).

(** ** [init] *)

Definition init (nat : Native) (s : State) : bool * State :=
  let s := uninit nat s in
  if negb (audioCapsValid (inputCaps s)) then (false, s)
  else
    let raw := ca_rawCaps (m_outputCaps s) in
    let s := emit (EvEncOpen (a_rate raw) (a_channels raw)) s in
    match encOpen nat with
    | None => (false, set_m_encoder None s)
    | Some (h, inputSamples, maxOutputBytes) =>
        let s := set_m_maxOutputBytes maxOutputBytes
                   (set_m_encoder (Some h) s) in
        let s := set_m_config (Some (currentConfiguration nat)) s in
        if negb (versionMatches nat) then (false, emit (EvEncClose h) s)
        else
          (* [bitRate] is [bitrate / channels] in [int]; a division by
             zero channels has no defined behaviour in C++, and the 0 it
             gives here is not the program's: see [initDefined] *)
          let cfg :=
            mkConfig LOW
                     (to_quint32 (optMpegVersion s))
                     0
                     1
                     (Z.quot (bitrate s) (a_channels raw))
                     0
                     (to_quint32 (optOutputFormat s))
                     (faacFormat (byFormat (a_format raw))) in
          let s := set_m_config (Some cfg) s in
          let s := emit (EvEncSetConfiguration cfg) s in
          if negb (setConfigurationOk nat) then (false, emit (EvEncClose h) s)
          else
            let s := updateHeaders cfg s in
            let s :=
              if m_fillAudioGaps s
              then emit (EvGapsSetState ElementStatePlaying)
                     (emit (EvGapsSetOutputSamples
                              (to_int (Z.quot inputSamples (a_channels raw))))
                        (emit (EvGapsSetFillGaps (fillGaps s)) s))
              else s in
            let s := set_m_pts 0 s in
            let s := set_m_encodedTimePts 0 s in
            (true, set_m_initialized true s)
    end.

(** [init] divides by the channels of the output caps, once the encoder
    is open and its version checked. A run that gets there with output
    caps of no channels divides by zero, and has no defined behaviour in
    C++. [initDefined] says that the run of [init] at hand is not such a
    run; [init] above is the program's [init] on these runs only. *)
Definition initDefined (nat : Native) (s : State) : bool :=
  negb (audioCapsValid (inputCaps s))
  || match encOpen nat with
     | None => true
     | Some _ => negb (versionMatches nat)
     end
  || negb (a_channels (ca_rawCaps (m_outputCaps s)) =? 0).

(** ** [updateOutputCaps] *)

Definition updateOutputCaps (inCaps : AkAudioCaps) (s : State) : State :=
  if negb (audioCapsValid inCaps) then
    if negb (compressedAudioCapsValid (m_outputCaps s)) then s
    else
      let s := set_m_outputCaps emptyCompressedAudioCaps s in
      emit (EvOutputCapsChanged (m_outputCaps s)) s
  else
    let cid := codecID (codec s) in
    if AudioCodecID_eqb cid AudioCodecID_unknown then
      if negb (compressedAudioCapsValid (m_outputCaps s)) then s
      else
        let s := set_m_outputCaps emptyCompressedAudioCaps s in
        emit (EvOutputCapsChanged (m_outputCaps s)) s
    else
      let eqFormat := byFormat (a_format inCaps) in
      let eqFormat :=
        if SampleFormat_eqb (format eqFormat) SampleFormat_none
        then byFormat SampleFormat_s16 else eqFormat in
      let channels := qBound 1 (a_channels inCaps) 2 in
      let rate := nearestSampleRate (a_rate inCaps) in
      let rawCaps := mkAudioCaps (format eqFormat)
                                 (defaultChannelLayout channels)
                                 false
                                 rate in
      let outputCaps := mkCompressedAudioCaps cid rawCaps in
      let s := if m_fillAudioGaps s
               then emit (EvGapsSetOutputCaps rawCaps) s else s in
      if AkCompressedAudioCaps_eqb (m_outputCaps s) outputCaps then s
      else emit (EvOutputCapsChanged outputCaps)
                (set_m_outputCaps outputCaps s).

(** [setInputCaps] of the base class stores the caps and, through the
    [inputCapsChanged] connection made in the constructor, runs
    [updateOutputCaps]. *)
Definition setInputCaps (inCaps : AkAudioCaps) (s : State) : State :=
  updateOutputCaps inCaps (set_inputCaps inCaps s).

(** ** [setState] *)

Definition setState (nat : Native) (target : ElementState) (s : State)
  : bool * State :=
  match state s with
  | ElementStateNull =>
      match target with
      | ElementStatePaused =>
          (* falls through into the Playing case *)
          let s := set_m_paused
                     (ElementState_eqb target ElementStatePaused) s in
          let '(ok, s) := init nat s in
          if negb ok then (false, set_m_paused false s)
          else let '(r, st) := AkElement_setState target in
               (r, set_state st s)
      | ElementStatePlaying =>
          let '(ok, s) := init nat s in
          if negb ok then (false, set_m_paused false s)
          else let '(r, st) := AkElement_setState target in
               (r, set_state st s)
      | _ => (false, s)
      end
  | ElementStatePaused =>
      match target with
      | ElementStateNull =>
          let s := uninit nat s in
          let '(r, st) := AkElement_setState target in
          (r, set_state st s)
      | ElementStatePlaying =>
          let s := set_m_paused false s in
          let '(r, st) := AkElement_setState target in
          (r, set_state st s)
      | _ => (false, s)
      end
  | ElementStatePlaying =>
      match target with
      | ElementStateNull =>
          let s := uninit nat s in
          let '(r, st) := AkElement_setState target in
          (r, set_state st s)
      | ElementStatePaused =>
          let s := set_m_paused true s in
          let '(r, st) := AkElement_setState target in
          (r, set_state st s)
      | _ => (false, s)
      end
  end.

End Faac.

(* ===================================================================== *)
(** * Video caps and the AV1 encoder element (rav1e) *)
(* ===================================================================== *)

Module Rav1e.
Import MachineInt Ak.

(** [AkVideoCaps::PixelFormat]: the formats of [Av1PixFormatTable], and
    some of the many the table does not have. *)
Inductive PixelFormat : Type :=
| Format_none
| Format_y8
| Format_y10
| Format_y12
| Format_yuv420p
| Format_yuv420p10
| Format_yuv420p12
| Format_yuv422p
| Format_yuv422p10
| Format_yuv422p12
| Format_yuv444p
| Format_yuv444p10
| Format_yuv444p12
| Format_rgb24
| Format_argb
| Format_yuyv422
| Format_nv12.

Definition PixelFormat_eq_dec (a b : PixelFormat) : {a = b} + {a <> b}.
Proof. decide equality. Defined.

Definition PixelFormat_eqb (a b : PixelFormat) : bool :=
  if PixelFormat_eq_dec a b then true else false.

(** Modelled from the spec: [AkFrac::operator bool] is declared outside
    the files at hand; a frame rate "may be zero = unknown/static", and
    such a fraction is falsy. *)
Definition fracValid (f : AkFrac) : bool :=
  negb (f_num f =? 0) && negb (f_den f =? 0).

Definition AkFrac_eqb (a b : AkFrac) : bool :=
  (f_num a =? f_num b) && (f_den a =? f_den b).

(** [AkVideoCaps(format, width, height, fps)]. *)
Record AkVideoCaps : Type := mkVideoCaps {
  v_format : PixelFormat;
  v_width : Z;
  v_height : Z;
  v_fps : AkFrac
}.

Definition emptyVideoCaps : AkVideoCaps :=
  mkVideoCaps Format_none 0 0 (mkFrac 0 0).

(** Modelled from the spec: [AkVideoCaps::operator bool] is declared
    outside the files at hand; raw video caps need a pixel format and
    "width/height (>0)", the frame rate may be zero. *)
Definition videoCapsValid (c : AkVideoCaps) : bool :=
  negb (PixelFormat_eqb (v_format c) Format_none)
  && (0 <? v_width c) && (0 <? v_height c).

Definition AkVideoCaps_eqb (a b : AkVideoCaps) : bool :=
  PixelFormat_eqb (v_format a) (v_format b)
  && (v_width a =? v_width b) && (v_height a =? v_height b)
  && AkFrac_eqb (v_fps a) (v_fps b).

(** [AkCompressedVideoCaps::VideoCodecID]; [VideoCodecID_unknown] is the
    zero value the codec tables use as their end mark. *)
Inductive VideoCodecID : Type :=
| VideoCodecID_unknown
| VideoCodecID_vp8
| VideoCodecID_vp9
| VideoCodecID_av1
| VideoCodecID_h264
| VideoCodecID_hevc.

Definition VideoCodecID_eq_dec (a b : VideoCodecID) : {a = b} + {a <> b}.
Proof. decide equality. Defined.

Definition VideoCodecID_eqb (a b : VideoCodecID) : bool :=
  if VideoCodecID_eq_dec a b then true else false.

(** [AkCompressedVideoCaps(codecID, rawCaps, bitrate)]. *)
Record AkCompressedVideoCaps : Type := mkCompressedVideoCaps {
  cv_codec : VideoCodecID;
  cv_rawCaps : AkVideoCaps;
  cv_bitrate : Z
}.

Definition emptyCompressedVideoCaps : AkCompressedVideoCaps :=
  mkCompressedVideoCaps VideoCodecID_unknown emptyVideoCaps 0.

(** Modelled from the spec: [AkCompressedVideoCaps::operator bool] is
    declared outside the files at hand; compressed caps are valid iff the
    codec is not the "unknown" sentinel and the wrapped raw caps are
    valid. *)
Definition compressedVideoCapsValid (c : AkCompressedVideoCaps) : bool :=
  negb (VideoCodecID_eqb (cv_codec c) VideoCodecID_unknown)
  && videoCapsValid (cv_rawCaps c).

Definition AkCompressedVideoCaps_eqb (a b : AkCompressedVideoCaps) : bool :=
  VideoCodecID_eqb (cv_codec a) (cv_codec b)
  && AkVideoCaps_eqb (cv_rawCaps a) (cv_rawCaps b)
  && (cv_bitrate a =? cv_bitrate b).

(** ** [Av1PixFormatTable] *)

Inductive RaChromaSampling : Type :=
| RA_CHROMA_SAMPLING_CS400
| RA_CHROMA_SAMPLING_CS420
| RA_CHROMA_SAMPLING_CS422
| RA_CHROMA_SAMPLING_CS444
| RaChromaSampling_minus1.

Record Av1PixFormatTable : Type := mkPix {
  pixFormat : PixelFormat;
  av1Format : RaChromaSampling;
  depth : Z
}.

Definition table : list Av1PixFormatTable :=
  [ mkPix Format_y8 RA_CHROMA_SAMPLING_CS400 8;
    mkPix Format_y10 RA_CHROMA_SAMPLING_CS400 10;
    mkPix Format_y12 RA_CHROMA_SAMPLING_CS400 12;
    mkPix Format_yuv420p RA_CHROMA_SAMPLING_CS420 8;
    mkPix Format_yuv420p10 RA_CHROMA_SAMPLING_CS420 10;
    mkPix Format_yuv420p12 RA_CHROMA_SAMPLING_CS420 12;
    mkPix Format_yuv422p RA_CHROMA_SAMPLING_CS422 8;
    mkPix Format_yuv422p10 RA_CHROMA_SAMPLING_CS422 10;
    mkPix Format_yuv422p12 RA_CHROMA_SAMPLING_CS422 12;
    mkPix Format_yuv444p RA_CHROMA_SAMPLING_CS444 8;
    mkPix Format_yuv444p10 RA_CHROMA_SAMPLING_CS444 10;
    mkPix Format_yuv444p12 RA_CHROMA_SAMPLING_CS444 12;
    mkPix Format_none RaChromaSampling_minus1 0 ].

(** [byPixFormat]: walk the rows up to the [Format_none] row, which is
    returned when nothing matched. *)
Fixpoint byPixFormat_from (rows : list Av1PixFormatTable) (fmt : PixelFormat)
  : Av1PixFormatTable :=
  match rows with
  | [] => mkPix Format_none RaChromaSampling_minus1 0
  | row :: rest =>
      if PixelFormat_eqb (pixFormat row) Format_none then row
      else if PixelFormat_eqb (pixFormat row) fmt then row
      else byPixFormat_from rest fmt
  end.

Definition byPixFormat (fmt : PixelFormat) : Av1PixFormatTable :=
  byPixFormat_from table fmt.

(** ** The part of the element [updateOutputCaps] and [setState] work on *)

Inductive Event : Type :=
| EvOutputCapsChanged (caps : AkCompressedVideoCaps).

Record State : Type := mkState {
  state : ElementState;
  codec : string;
  bitrate : Z;
  m_outputCaps : AkCompressedVideoCaps;
  (** [m_videoConverter.outputCaps()] *)
  converterOutputCaps : AkVideoCaps;
  m_initialized : bool;
  m_paused : bool;
  trace : list Event
}.

Definition codecID (c : string) : VideoCodecID :=
  if String.eqb c "rav1e" then VideoCodecID_av1 else VideoCodecID_unknown.

Definition clearOutputCaps (s : State) : State :=
  mkState (state s) (codec s) (bitrate s) emptyCompressedVideoCaps
          (converterOutputCaps s) (m_initialized s) (m_paused s)
          (trace s ++ [EvOutputCapsChanged emptyCompressedVideoCaps]).

Definition updateOutputCaps (inCaps : AkVideoCaps) (s : State) : State :=
  if negb (videoCapsValid inCaps) then
    if negb (compressedVideoCapsValid (m_outputCaps s)) then s
    else clearOutputCaps s
  else
    let cid := codecID (codec s) in
    if VideoCodecID_eqb cid VideoCodecID_unknown then
      if negb (compressedVideoCapsValid (m_outputCaps s)) then s
      else clearOutputCaps s
    else
      let eqFormat := byPixFormat (v_format inCaps) in
      let eqFormat :=
        if PixelFormat_eqb (pixFormat eqFormat) Format_none
        then byPixFormat Format_yuv420p else eqFormat in
      let fps := v_fps inCaps in
      let fps := if negb (fracValid fps) then mkFrac 30 1 else fps in
      let conv := mkVideoCaps (pixFormat eqFormat) (v_width inCaps)
                              (v_height inCaps) fps in
      let outputCaps := mkCompressedVideoCaps cid conv (bitrate s) in
      if AkCompressedVideoCaps_eqb (m_outputCaps s) outputCaps
      then mkState (state s) (codec s) (bitrate s) (m_outputCaps s) conv
                   (m_initialized s) (m_paused s) (trace s)
      else mkState (state s) (codec s) (bitrate s) outputCaps conv
                   (m_initialized s) (m_paused s)
                   (trace s ++ [EvOutputCapsChanged outputCaps]).

(** ** [setState] *)

Definition set_state (v : ElementState) (s : State) : State :=
  mkState v (codec s) (bitrate s) (m_outputCaps s) (converterOutputCaps s)
          (m_initialized s) (m_paused s) (trace s).

Definition set_m_paused (v : bool) (s : State) : State :=
  mkState (state s) (codec s) (bitrate s) (m_outputCaps s)
          (converterOutputCaps s) (m_initialized s) v (trace s).

Section SetState.

(** The element's [init] and [uninit] drive librav1e; [setState] is
    given here for whatever they do. *)
Variable init : State -> bool * State.
Variable uninit : State -> State.

Definition setState (target : ElementState) (s : State) : bool * State :=
  match state s with
  | ElementStateNull =>
      match target with
      | ElementStatePaused =>
          (* falls through into the Playing case *)
          let s := set_m_paused
                     (ElementState_eqb target ElementStatePaused) s in
          let '(ok, s) := init s in
          if negb ok then (false, set_m_paused false s)
          else let '(r, st) := AkElement_setState target in
               (r, set_state st s)
      | ElementStatePlaying =>
          let '(ok, s) := init s in
          if negb ok then (false, set_m_paused false s)
          else let '(r, st) := AkElement_setState target in
               (r, set_state st s)
      | _ => (false, s)
      end
  | ElementStatePaused =>
      match target with
      | ElementStateNull =>
          let s := uninit s in
          let '(r, st) := AkElement_setState target in
          (r, set_state st s)
      | ElementStatePlaying =>
          let s := set_m_paused false s in
          let '(r, st) := AkElement_setState target in
          (r, set_state st s)
      | _ => (false, s)
      end
  | ElementStatePlaying =>
      match target with
      | ElementStateNull =>
          let s := uninit s in
          let '(r, st) := AkElement_setState target in
          (r, set_state st s)
      | ElementStatePaused =>
          let s := set_m_paused true s in
          let '(r, st) := AkElement_setState target in
          (r, set_state st s)
      | _ => (false, s)
      end
  end.

End SetState.

End Rav1e.

(* ===================================================================== *)
(** * [qreal] arithmetic *)
(* ===================================================================== *)

(** The muxer computes times in [qreal] (a C++ [double]). The operations
    it uses are kept as an interface, so that what is proved about the
    muxer holds whatever the rounding of the arithmetic; exact rationals
    give one instance to compute with. *)
Module QReal.
Import MachineInt Ak.

Class Ops (R : Type) : Type := {
  (** conversion of an integer to [qreal] *)
  of_int : Z -> R;
  mul : R -> R -> R;
  div : R -> R -> R;
  (** [a < b] *)
  ltb : R -> R -> bool;
  (** the cast [uint64_t(x)] *)
  to_uint64 : R -> Z;
  (** [qRound64(x)] *)
  round64 : R -> Z
}.

(** [qMax(a, b)] is [(a < b) ? b : a]. *)
Definition qMax {R} `{Ops R} (a b : R) : R := if ltb a b then b else a.


(** Modelled from the spec: [AkFrac::value] is declared outside the files
    at hand; a time base is "a rational number (seconds per tick)", its
    value the numerator over the denominator as a [qreal]. *)
Definition fracValue {R} `{Ops R} (f : AkFrac) : R :=
  div (of_int (f_num f)) (of_int (f_den f)).

(** The literal [1e9]. *)
Definition nano {R} `{Ops R} : R := of_int 1000000000.

(** Exact rational arithmetic: the cast truncates toward zero,
    [qRound64] rounds half away from zero. *)
Definition Qtruncate (x : Q) : Z := Z.quot (Qnum x) (Zpos (Qden x)).

Definition Qround64 (x : Q) : Z :=
  if Qle_bool 0 x then Qfloor (x + (1 # 2)) else Qceiling (x - (1 # 2)).

#[export] Instance Q_ops : Ops Q := {|
  of_int := inject_Z;
  mul := Qmult;
  div := Qdiv;
  ltb := fun a b => negb (Qle_bool b a);
  to_uint64 := fun x => to_quint64 (Qtruncate x);
  round64 := Qround64
|}.

End QReal.

#[global] Existing Instance QReal.Q_ops.

(* ===================================================================== *)
(** * The WebM muxer element *)
(* ===================================================================== *)

Module Webm.
Import MachineInt Ak Rav1e.
Import QReal.

(** ** The codec tables *)

(** The codec id strings of [mkvmuxer::Tracks]. *)
Inductive CodecStr : Type :=
| kVorbisCodecId
| kOpusCodecId
| kVp8CodecId
| kVp9CodecId
| kAv1CodecId
| kEmptyStr.

Record AudioCodecsTable : Type := mkACodec {
  a_codecID : AudioCodecID;
  a_str : CodecStr
}.

Definition webmAudioCodecsTable : list AudioCodecsTable :=
  [ mkACodec AudioCodecID_vorbis kVorbisCodecId;
    mkACodec AudioCodecID_opus kOpusCodecId;
    mkACodec AudioCodecID_unknown kEmptyStr ].

(** [for (; item->codecID; ++item)]: the walk ends on the row whose codec
    id is zero, i.e. [unknown]. *)
Fixpoint AudioCodecsTable_from (rows : list AudioCodecsTable)
         (id : AudioCodecID) : AudioCodecsTable :=
  match rows with
  | [] => mkACodec AudioCodecID_unknown kEmptyStr
  | row :: rest =>
      if AudioCodecID_eqb (a_codecID row) AudioCodecID_unknown then row
      else if AudioCodecID_eqb (a_codecID row) id then row
      else AudioCodecsTable_from rest id
  end.

Definition AudioCodecsTable_byCodecID (id : AudioCodecID) : AudioCodecsTable :=
  AudioCodecsTable_from webmAudioCodecsTable id.

Record VideoCodecsTable : Type := mkVCodec {
  v_codecID : VideoCodecID;
  v_str : CodecStr
}.

Definition webmVideoCodecsTable : list VideoCodecsTable :=
  [ mkVCodec VideoCodecID_vp8 kVp8CodecId;
    mkVCodec VideoCodecID_vp9 kVp9CodecId;
    mkVCodec VideoCodecID_av1 kAv1CodecId;
    mkVCodec VideoCodecID_unknown kEmptyStr ].

Fixpoint VideoCodecsTable_from (rows : list VideoCodecsTable)
         (id : VideoCodecID) : VideoCodecsTable :=
  match rows with
  | [] => mkVCodec VideoCodecID_unknown kEmptyStr
  | row :: rest =>
      if VideoCodecID_eqb (v_codecID row) VideoCodecID_unknown then row
      else if VideoCodecID_eqb (v_codecID row) id then row
      else VideoCodecsTable_from rest id
  end.

Definition VideoCodecsTable_byCodecID (id : VideoCodecID) : VideoCodecsTable :=
  VideoCodecsTable_from webmVideoCodecsTable id.

(** [VideoCodecsTable::codecs()]: the ids of the rows before the end
    mark. *)
Fixpoint VideoCodecsTable_codecs_from (rows : list VideoCodecsTable)
  : list VideoCodecID :=
  match rows with
  | [] => []
  | row :: rest =>
      if VideoCodecID_eqb (v_codecID row) VideoCodecID_unknown then []
      else v_codecID row :: VideoCodecsTable_codecs_from rest
  end.

Definition VideoCodecsTable_codecs : list VideoCodecID :=
  VideoCodecsTable_codecs_from webmVideoCodecsTable.

(** ** Packets *)

(** [AkPacket::PacketType]. *)
Inductive PacketType : Type :=
| PacketUnknown
| PacketAudio
| PacketAudioCompressed
| PacketVideo
| PacketVideoCompressed
| PacketSubtitle
| PacketSubtitleCompressed.

(** Modelled from the spec: [AkCompressedVideoPacket]'s flag constants
    are declared outside the files at hand; the key-frame flag is one bit
    of the packet's flags. *)
Definition VideoPacketTypeFlag_KeyFrame : Z := 1.

(** An [AkPacket] as the muxer reads it; the payload is kept by its
    size. *)
Record AkPacket : Type := mkPacket {
  p_type : PacketType;
  p_size : Z;
  p_pts : Z;
  p_duration : Z;
  p_timeBase : AkFrac;
  p_flags : Z
}.

(** ** The element's state *)

(** Calls into libwebm and the file system, and calls on the
    [PacketSync] helper element. *)
Inductive Event : Type :=
| EvWriterOpen (path : string)
| EvWriterClose
| EvFileRemove (path : string)
| EvFileRename (from to : string)
| EvSegmentInit
| EvAccurateClusterDuration (on : bool)
| EvUseFixedSizeClusterTimecode (on : bool)
| EvSetMode (live : bool)
| EvSetMaxClusterDuration (d : Z)
| EvSetMaxClusterSize (n : Z)
| EvOutputCues (on : bool)
| EvSetTimecodeScale (scale : Z)
| EvAddVideoTrack (width height : Z)
| EvVideoTrackSetup (track : Z) (codecId : CodecStr) (raw : AkVideoCaps)
| EvAddAudioTrack (rate channels : Z)
| EvAudioTrackSetup (track : Z) (codecId : CodecStr) (raw : AkAudioCaps)
| EvSetCodecPrivate (track : Z) (headers : list Z)
| EvSyncSetAudioEnabled (on : bool)
| EvSyncSetDiscardLast (on : bool)
| EvSyncSetState (s : ElementState)
| EvAddFrame (size track timestamp : Z) (isKey : bool)
| EvSetDuration (ticks : Z)
| EvFinalize
| EvReaderOpen (path : string)
| EvReaderClose
| EvCopyAndMoveCuesBeforeClusters.

Section WithQReal.
Context {R : Type} `{Ops R}.

(** The properties the private class reads through [self], the members
    of [VideoMuxerWebmElementPrivate], the files on disk and the trace of
    [Event]s so far (oldest first). *)
Record State : Type := mkState {
  state : ElementState;
  videoCaps : AkCompressedVideoCaps;
  audioCaps : AkCompressedAudioCaps;
  location : string;
  videoHeaders : list Z;
  audioHeaders : list Z;
  audioStreamDuration : Z;
  videoStreamDuration : Z;
  m_audioTrackIndex : Z;
  m_videoTrackIndex : Z;
  m_accurateClusterDuration : bool;
  m_fixedSizeClusterTimecode : bool;
  m_liveMode : bool;
  m_outputCues : bool;
  m_maxClusterSize : Z;
  m_outputCuesBlockNumber : bool;
  m_cuesBeforeClusters : bool;
  m_maxClusterDuration : Z;
  m_timeCodeScale : Z;
  m_audioDuration : R;
  m_videoDuration : R;
  m_initialized : bool;
  m_paused : bool;
  m_packetSync : bool;
  disk : list string;
  trace : list Event
}.

Definition set_state (v : ElementState) (s : State) : State :=
  mkState v (videoCaps s) (audioCaps s) (location s) (videoHeaders s)
          (audioHeaders s) (audioStreamDuration s) (videoStreamDuration s)
          (m_audioTrackIndex s) (m_videoTrackIndex s)
          (m_accurateClusterDuration s) (m_fixedSizeClusterTimecode s)
          (m_liveMode s) (m_outputCues s) (m_maxClusterSize s)
          (m_outputCuesBlockNumber s) (m_cuesBeforeClusters s)
          (m_maxClusterDuration s) (m_timeCodeScale s) (m_audioDuration s)
          (m_videoDuration s) (m_initialized s) (m_paused s)
          (m_packetSync s) (disk s) (trace s).

Definition set_m_audioTrackIndex (v : Z) (s : State) : State :=
  mkState (state s) (videoCaps s) (audioCaps s) (location s) (videoHeaders s)
          (audioHeaders s) (audioStreamDuration s) (videoStreamDuration s)
          v (m_videoTrackIndex s)
          (m_accurateClusterDuration s) (m_fixedSizeClusterTimecode s)
          (m_liveMode s) (m_outputCues s) (m_maxClusterSize s)
          (m_outputCuesBlockNumber s) (m_cuesBeforeClusters s)
          (m_maxClusterDuration s) (m_timeCodeScale s) (m_audioDuration s)
          (m_videoDuration s) (m_initialized s) (m_paused s)
          (m_packetSync s) (disk s) (trace s).

Definition set_m_videoTrackIndex (v : Z) (s : State) : State :=
  mkState (state s) (videoCaps s) (audioCaps s) (location s) (videoHeaders s)
          (audioHeaders s) (audioStreamDuration s) (videoStreamDuration s)
          (m_audioTrackIndex s) v
          (m_accurateClusterDuration s) (m_fixedSizeClusterTimecode s)
          (m_liveMode s) (m_outputCues s) (m_maxClusterSize s)
          (m_outputCuesBlockNumber s) (m_cuesBeforeClusters s)
          (m_maxClusterDuration s) (m_timeCodeScale s) (m_audioDuration s)
          (m_videoDuration s) (m_initialized s) (m_paused s)
          (m_packetSync s) (disk s) (trace s).

Definition set_m_audioDuration (v : R) (s : State) : State :=
  mkState (state s) (videoCaps s) (audioCaps s) (location s) (videoHeaders s)
          (audioHeaders s) (audioStreamDuration s) (videoStreamDuration s)
          (m_audioTrackIndex s) (m_videoTrackIndex s)
          (m_accurateClusterDuration s) (m_fixedSizeClusterTimecode s)
          (m_liveMode s) (m_outputCues s) (m_maxClusterSize s)
          (m_outputCuesBlockNumber s) (m_cuesBeforeClusters s)
          (m_maxClusterDuration s) (m_timeCodeScale s) v
          (m_videoDuration s) (m_initialized s) (m_paused s)
          (m_packetSync s) (disk s) (trace s).

Definition set_m_videoDuration (v : R) (s : State) : State :=
  mkState (state s) (videoCaps s) (audioCaps s) (location s) (videoHeaders s)
          (audioHeaders s) (audioStreamDuration s) (videoStreamDuration s)
          (m_audioTrackIndex s) (m_videoTrackIndex s)
          (m_accurateClusterDuration s) (m_fixedSizeClusterTimecode s)
          (m_liveMode s) (m_outputCues s) (m_maxClusterSize s)
          (m_outputCuesBlockNumber s) (m_cuesBeforeClusters s)
          (m_maxClusterDuration s) (m_timeCodeScale s) (m_audioDuration s)
          v (m_initialized s) (m_paused s)
          (m_packetSync s) (disk s) (trace s).

Definition set_m_initialized (v : bool) (s : State) : State :=
  mkState (state s) (videoCaps s) (audioCaps s) (location s) (videoHeaders s)
          (audioHeaders s) (audioStreamDuration s) (videoStreamDuration s)
          (m_audioTrackIndex s) (m_videoTrackIndex s)
          (m_accurateClusterDuration s) (m_fixedSizeClusterTimecode s)
          (m_liveMode s) (m_outputCues s) (m_maxClusterSize s)
          (m_outputCuesBlockNumber s) (m_cuesBeforeClusters s)
          (m_maxClusterDuration s) (m_timeCodeScale s) (m_audioDuration s)
          (m_videoDuration s) v (m_paused s)
          (m_packetSync s) (disk s) (trace s).

Definition set_m_paused (v : bool) (s : State) : State :=
  mkState (state s) (videoCaps s) (audioCaps s) (location s) (videoHeaders s)
          (audioHeaders s) (audioStreamDuration s) (videoStreamDuration s)
          (m_audioTrackIndex s) (m_videoTrackIndex s)
          (m_accurateClusterDuration s) (m_fixedSizeClusterTimecode s)
          (m_liveMode s) (m_outputCues s) (m_maxClusterSize s)
          (m_outputCuesBlockNumber s) (m_cuesBeforeClusters s)
          (m_maxClusterDuration s) (m_timeCodeScale s) (m_audioDuration s)
          (m_videoDuration s) (m_initialized s) v
          (m_packetSync s) (disk s) (trace s).

Definition set_disk (v : list string) (s : State) : State :=
  mkState (state s) (videoCaps s) (audioCaps s) (location s) (videoHeaders s)
          (audioHeaders s) (audioStreamDuration s) (videoStreamDuration s)
          (m_audioTrackIndex s) (m_videoTrackIndex s)
          (m_accurateClusterDuration s) (m_fixedSizeClusterTimecode s)
          (m_liveMode s) (m_outputCues s) (m_maxClusterSize s)
          (m_outputCuesBlockNumber s) (m_cuesBeforeClusters s)
          (m_maxClusterDuration s) (m_timeCodeScale s) (m_audioDuration s)
          (m_videoDuration s) (m_initialized s) (m_paused s)
          (m_packetSync s) v (trace s).

(** Modelled from the spec: the setters of the muxer's public properties
    (stream caps, location, stream headers, stream durations) belong to
    the base class, outside the files at hand; the application "only
    issues state transitions and reads published property values", so
    setting properties replaces them and leaves the private members
    alone. *)
Definition withProperties (video : AkCompressedVideoCaps)
           (audio : AkCompressedAudioCaps) (path : string)
           (vHeaders aHeaders : list Z) (aDuration vDuration : Z)
           (s : State) : State :=
  mkState (state s) video audio path vHeaders aHeaders aDuration vDuration
          (m_audioTrackIndex s) (m_videoTrackIndex s)
          (m_accurateClusterDuration s) (m_fixedSizeClusterTimecode s)
          (m_liveMode s) (m_outputCues s) (m_maxClusterSize s)
          (m_outputCuesBlockNumber s) (m_cuesBeforeClusters s)
          (m_maxClusterDuration s) (m_timeCodeScale s) (m_audioDuration s)
          (m_videoDuration s) (m_initialized s) (m_paused s)
          (m_packetSync s) (disk s) (trace s).

(** Append one event to the trace. *)
Definition emit (e : Event) (s : State) : State :=
  mkState (state s) (videoCaps s) (audioCaps s) (location s) (videoHeaders s)
          (audioHeaders s) (audioStreamDuration s) (videoStreamDuration s)
          (m_audioTrackIndex s) (m_videoTrackIndex s)
          (m_accurateClusterDuration s) (m_fixedSizeClusterTimecode s)
          (m_liveMode s) (m_outputCues s) (m_maxClusterSize s)
          (m_outputCuesBlockNumber s) (m_cuesBeforeClusters s)
          (m_maxClusterDuration s) (m_timeCodeScale s) (m_audioDuration s)
          (m_videoDuration s) (m_initialized s) (m_paused s)
          (m_packetSync s) (disk s) (trace s ++ [e]).

(** ** The file system, as far as the muxer touches it *)

Definition onDisk (path : string) (files : list string) : bool :=
  existsb (String.eqb path) files.

(** A successful [MkvWriter::Open] creates (or truncates) the file. *)
Definition createFile (path : string) (files : list string) : list string :=
  if onDisk path files then files else path :: files.

(** [QFile::remove]. *)
Definition removeFile (path : string) (files : list string) : list string :=
  filter (fun f => negb (String.eqb path f)) files.

(** [QFile::rename]: nothing happens when the source is missing or the
    target exists. *)
Definition renameFile (from to : string) (files : list string)
  : list string :=
  if onDisk from files && negb (onDisk to files)
  then to :: removeFile from files else files.

(** ** [packetReady] *)

Definition isAudioPacket (p : AkPacket) : bool :=
  match p_type p with
  | PacketAudio | PacketAudioCompressed => true
  | _ => false
  end.

Definition isKeyPacket (p : AkPacket) : bool :=
  match p_type p with
  | PacketVideoCompressed =>
      negb (Z.land (p_flags p) VideoPacketTypeFlag_KeyFrame =? 0)
  | _ => true
  end.

(** [packet.pts() * packet.timeBase().value()], the packet's time in
    seconds. *)
Definition packetTime (p : AkPacket) : R :=
  mul (of_int (p_pts p)) (fracValue (p_timeBase p)).

(** [uint64_t(packet.pts() * packet.timeBase().value() * 1e9)]. *)
Definition frameTimestamp (p : AkPacket) : Z :=
  to_uint64 (mul (packetTime p) nano).

(** [(packet.pts() + packet.duration()) * packet.timeBase().value()]. *)
Definition packetEnd (p : AkPacket) : R :=
  mul (of_int (to_qint64 (p_pts p + p_duration p)))
      (fracValue (p_timeBase p)).

Definition packetReady (p : AkPacket) (s : State) : State :=
  let isAudio := isAudioPacket p in
  let track := if isAudio then m_audioTrackIndex s else m_videoTrackIndex s in
  let isKey := isKeyPacket p in
  let s := emit (EvAddFrame (p_size p) track (frameTimestamp p) isKey) s in
  let streamDuration := packetEnd p in
  if isAudio then set_m_audioDuration streamDuration s
  else set_m_videoDuration streamDuration s.

(** The packets the [PacketSync] helper hands over, one after the
    other. *)
Fixpoint packetsReady (ps : list AkPacket) (s : State) : State :=
  match ps with
  | [] => s
  | p :: rest => packetsReady rest (packetReady p s)
  end.

(** ** What the outside answers *)

Record Native : Type := mkNative {
  (** [m_writer.Open(location)] succeeded *)
  writerOpenOk : bool;
  (** [m_muxerSegment.Init] succeeded *)
  segmentInitOk : bool;
  (** the track numbers [AddVideoTrack] and [AddAudioTrack] return *)
  addVideoTrack : Z;
  addAudioTrack : Z;
  (** [GetTrackByNumber] found the video, the audio track *)
  videoTrackFound : bool;
  audioTrackFound : bool;
  (** the packets [PacketSync] still hands over when set to Null *)
  flushed : list AkPacket;
  (** [mkvparser::MkvReader::Open]: zero on success *)
  readerOpen : Z;
  (** the [QTemporaryDir] is valid, and the temporary file's path *)
  tempDirValid : bool;
  tmpPath : string;
  (** [m_writer.Open(tmp)] and [CopyAndMoveCuesBeforeClusters] succeeded *)
  tmpOpenOk : bool;
  copyCuesOk : bool
}.

(** ** [uninit] *)

(** The duration of the audio stream at finalization: the one the
    application set when it is positive, the running one otherwise. *)
Definition finalAudioDuration (s : State) : R :=
  if 0 <? audioStreamDuration s
  then div (of_int (audioStreamDuration s))
           (of_int (a_rate (ca_rawCaps (audioCaps s))))
  else m_audioDuration s.

Definition finalVideoDuration (s : State) : R :=
  if 0 <? videoStreamDuration s
  then div (of_int (videoStreamDuration s))
           (fracValue (v_fps (cv_rawCaps (videoCaps s))))
  else m_videoDuration s.

Definition finalDuration (s : State) : R :=
  if m_audioTrackIndex s <? 1
  then finalVideoDuration s
  else qMax (finalAudioDuration s) (finalVideoDuration s).

(** [qRound64(duration * 1e9 / this->m_timeCodeScale)]. *)
Definition durationTicks (s : State) : Z :=
  round64 (div (mul (finalDuration s) nano) (of_int (m_timeCodeScale s))).

(** [m_writer.Close(); QFile::remove(path)]. *)
Definition closeAndRemove (path : string) (s : State) : State :=
  let s := emit EvWriterClose s in
  emit (EvFileRemove path) (set_disk (removeFile path (disk s)) s).

(** [reader.Close(); m_writer.Close(); QFile::remove(tmp)]. *)
Definition dropTemporary (tmp : string) (s : State) : State :=
  closeAndRemove tmp (emit EvReaderClose s).

(** The [m_cuesBeforeClusters] block. The flag returned is [false] for
    its two early returns out of [uninit], [true] when control reaches
    the end of the block. The code does not look at what
    [QFile::remove] and [QFile::rename] return; here they are the
    operations on the files listed, which do what they are asked, so
    that a run in which one of them fails has no counterpart. The block
    is entered with [m_cuesBeforeClusters] only, which no [Reachable]
    element has. *)
Definition moveCues (nat : Native) (s : State) : State * bool :=
  let s := emit (EvReaderOpen (location s)) s in
  if negb (readerOpen nat =? 0) then (s, false)
  else if negb (tempDirValid nat) then (s, false)
  else
    let tmp := tmpPath nat in
    let s := emit (EvFileRemove tmp) (set_disk (removeFile tmp (disk s)) s) in
    let s := emit (EvWriterOpen tmp) s in
    if tmpOpenOk nat then
      let s := set_disk (createFile tmp (disk s)) s in
      let s := emit EvCopyAndMoveCuesBeforeClusters s in
      if copyCuesOk nat then
        let s := emit EvWriterClose (emit EvReaderClose s) in
        let s := emit (EvFileRemove (location s))
                      (set_disk (removeFile (location s) (disk s)) s) in
        let s := emit (EvFileRename tmp (location s))
                      (set_disk (renameFile tmp (location s) (disk s)) s) in
        (s, true)
      else (dropTemporary tmp s, true)
    else (dropTemporary tmp s, true).

Definition uninit (nat : Native) (s : State) : State :=
  if negb (m_initialized s) then s
  else
    let s := set_m_initialized false s in
    let s := emit (EvSyncSetState ElementStateNull) s in
    (* the helper, set to Null, hands over what it still holds *)
    let s := packetsReady (flushed nat) s in
    let s := emit (EvSetDuration (durationTicks s)) s in
    let s := emit EvFinalize s in
    let s := emit EvWriterClose s in
    if m_cuesBeforeClusters s then
      let '(s, through) := moveCues nat s in
      if through then set_m_paused false s else s
    else set_m_paused false s.

(** ** [init] *)

(** The pass-through configuration of the segment and its info. *)
Definition configureSegment (s : State) : State :=
  let s := emit (EvAccurateClusterDuration (m_accurateClusterDuration s)) s in
  let s := emit (EvUseFixedSizeClusterTimecode
                   (m_fixedSizeClusterTimecode s)) s in
  let s := emit (EvSetMode (m_liveMode s)) s in
  let s := if 0 <? m_maxClusterDuration s
           then emit (EvSetMaxClusterDuration (m_maxClusterDuration s)) s
           else s in
  let s := if 0 <? m_maxClusterSize s
           then emit (EvSetMaxClusterSize (m_maxClusterSize s)) s
           else s in
  let s := emit (EvOutputCues (m_outputCues s)) s in
  emit (EvSetTimecodeScale (m_timeCodeScale s)) s.

(** The part of [init] from "Write the codec headers" on. *)
Definition writeHeadersAndStart (nat : Native) (s : State) : State :=
  let audio := compressedAudioCapsValid (audioCaps s) in
  let s := match videoHeaders s with
           | [] => s
           | _ => emit (EvSetCodecPrivate (m_videoTrackIndex s)
                                          (videoHeaders s)) s
           end in
  let s := if audio then
             match audioHeaders s with
             | [] => s
             | _ => if audioTrackFound nat
                    then emit (EvSetCodecPrivate (m_audioTrackIndex s)
                                                 (audioHeaders s)) s
                    else s
             end
           else s in
  let s := emit (EvSyncSetAudioEnabled audio) s in
  let s := emit (EvSyncSetDiscardLast false) s in
  let s := emit (EvSyncSetState ElementStatePlaying) s in
  set_m_initialized true s.

(** The part of [init] from "Add the audio track to the muxer" on. *)
Definition addAudioAndStart (nat : Native) (acodec : CodecStr) (s : State)
  : bool * State :=
  if compressedAudioCapsValid (audioCaps s) then
    let raw := ca_rawCaps (audioCaps s) in
    let s := emit (EvAddAudioTrack (a_rate raw) (a_channels raw)) s in
    let s := set_m_audioTrackIndex (to_quint64 (addAudioTrack nat)) s in
    if m_audioTrackIndex s <? 1
    then (false, closeAndRemove (location s) s)
    else if negb (audioTrackFound nat)
    then (false, closeAndRemove (location s) s)
    else
      let s := emit (EvAudioTrackSetup (m_audioTrackIndex s) acodec raw) s in
      (true, writeHeadersAndStart nat s)
  else (true, writeHeadersAndStart nat s).

(** The part of [init] from "Add the video track to the muxer" on. *)
Definition addVideoAndStart (nat : Native) (vcodec acodec : CodecStr)
           (s : State) : bool * State :=
  let raw := cv_rawCaps (videoCaps s) in
  let s := emit (EvAddVideoTrack (v_width raw) (v_height raw)) s in
  let s := set_m_videoTrackIndex (to_quint64 (addVideoTrack nat)) s in
  if m_videoTrackIndex s <? 1
  then (false, closeAndRemove (location s) s)
  else if negb (videoTrackFound nat)
  then (false, closeAndRemove (location s) s)
  else
    let s := emit (EvVideoTrackSetup (m_videoTrackIndex s) vcodec raw) s in
    addAudioAndStart nat acodec s.

(** The part of [init] from the opening of the output file on. *)
Definition openAndStart (nat : Native) (vcodec acodec : CodecStr)
           (s : State) : bool * State :=
  let s := emit (EvWriterOpen (location s)) s in
  if negb (writerOpenOk nat) then (false, s)
  else
    let s := set_disk (createFile (location s) (disk s)) s in
    let s := emit EvSegmentInit s in
    if negb (segmentInitOk nat)
    then (false, closeAndRemove (location s) s)
    else addVideoAndStart nat vcodec acodec (configureSegment s).

Definition init (nat : Native) (s : State) : bool * State :=
  let s := uninit nat s in
  if negb (m_packetSync s) then (false, s)
  else
    let s := set_m_audioDuration (of_int 0) s in
    let s := set_m_videoDuration (of_int 0) s in
    let s := set_m_audioTrackIndex 0 s in
    let s := set_m_videoTrackIndex 0 s in
    if negb (compressedVideoCapsValid (videoCaps s)) then (false, s)
    else
      let vcodec := VideoCodecsTable_byCodecID (cv_codec (videoCaps s)) in
      if VideoCodecID_eqb (v_codecID vcodec) VideoCodecID_unknown
      then (false, s)
      else
        let acodec := AudioCodecsTable_byCodecID (ca_codec (audioCaps s)) in
        if compressedAudioCapsValid (audioCaps s)
           && AudioCodecID_eqb (a_codecID acodec) AudioCodecID_unknown
        then (false, s)
        else openAndStart nat (v_str vcodec) (a_str acodec) s.

(** ** [iStream] and [setState] *)

(** [iStream]: a packet goes to the [PacketSync] helper only when the
    element is initialized and not paused; [released] is what the helper
    hands back through [packetReady] in answer. *)
Definition iStream (released : list AkPacket) (s : State) : State :=
  if m_paused s || negb (m_initialized s) || negb (m_packetSync s) then s
  else packetsReady released s.

Definition setState (nat : Native) (target : ElementState) (s : State)
  : bool * State :=
  match state s with
  | ElementStateNull =>
      match target with
      | ElementStatePaused =>
          (* falls through into the Playing case *)
          let s := set_m_paused
                     (ElementState_eqb target ElementStatePaused) s in
          let '(ok, s) := init nat s in
          if negb ok then (false, set_m_paused false s)
          else let '(r, st) := AkElement_setState target in
               (r, set_state st s)
      | ElementStatePlaying =>
          let '(ok, s) := init nat s in
          if negb ok then (false, set_m_paused false s)
          else let '(r, st) := AkElement_setState target in
               (r, set_state st s)
      | _ => (false, s)
      end
  | ElementStatePaused =>
      match target with
      | ElementStateNull =>
          let s := uninit nat s in
          let '(r, st) := AkElement_setState target in
          (r, set_state st s)
      | ElementStatePlaying =>
          let s := set_m_paused false s in
          let '(r, st) := AkElement_setState target in
          (r, set_state st s)
      | _ => (false, s)
      end
  | ElementStatePlaying =>
      match target with
      | ElementStateNull =>
          let s := uninit nat s in
          let '(r, st) := AkElement_setState target in
          (r, set_state st s)
      | ElementStatePaused =>
          let s := set_m_paused true s in
          let '(r, st) := AkElement_setState target in
          (r, set_state st s)
      | _ => (false, s)
      end
  end.


Definition isAddAudioTrack (e : Event) : bool :=
  match e with
  | EvAddAudioTrack _ _ => true
  | _ => false
  end.

(** The durations written to the segment, in order. *)
Fixpoint durationsSet (tr : list Event) : list Z :=
  match tr with
  | [] => []
  | EvSetDuration d :: rest => d :: durationsSet rest
  | _ :: rest => durationsSet rest
  end.

End WithQReal.

Arguments State R : clear implicits.

End Webm.

(* ===================================================================== *)
(** * The PipeWire audio device *)
(* ===================================================================== *)

Module PipeWire.
Import MachineInt Ak.

(** ** [QMap<uint32_t, QString>] *)

(** A [QMap] keeps its entries ordered by key, and [values()] lists the
    values in that order: the map is its list of entries, keys
    ascending. *)
Definition QMap : Type := list (Z * string).

(** [map[key] = value]. *)
Fixpoint qmap_insert (key : Z) (value : string) (m : QMap) : QMap :=
  match m with
  | [] => [(key, value)]
  | (k, v) :: rest =>
      if key <? k then (key, value) :: (k, v) :: rest
      else if key =? k then (key, value) :: rest
      else (k, v) :: qmap_insert key value rest
  end.

(** [map.remove(key)]. *)
Definition qmap_remove (key : Z) (m : QMap) : QMap :=
  filter (fun e => negb (fst e =? key)) m.

(** [map.contains(key)]. *)
Definition qmap_contains (key : Z) (m : QMap) : bool :=
  existsb (fun e => fst e =? key) m.

(** [map.value(key)]: the empty string for an absent key. *)
Fixpoint qmap_value (key : Z) (m : QMap) : string :=
  match m with
  | [] => EmptyString
  | (k, v) :: rest => if k =? key then v else qmap_value key rest
  end.

(** [map.values()]. *)
Definition qmap_values (m : QMap) : list string := map snd m.

(** [QList<QString>::value(i)]: the empty string out of range. *)
Definition qlist_value (l : list string) (i : nat) : string :=
  nth i l EmptyString.

(** [QString::isEmpty]. *)
Definition isEmpty (s : string) : bool := String.eqb s EmptyString.

(** ** The device's state *)

Inductive Event : Type :=
| EvThreadLoopStop (loop : Z)
| EvStreamDisconnect (stream : Z)
| EvStreamDestroy (stream : Z)
| EvContextDestroy (context : Z)
| EvThreadLoopDestroy (loop : Z)
| EvRegistryBind (id : Z)
| EvHookRemove (name : string)
| EvInputsChanged (inputs : list string)
| EvOutputsChanged (outputs : list string)
| EvDefaultInputChanged (name : string)
| EvDefaultOutputChanged (name : string).

(** The members of [AudioDevPipeWirePrivate] the functions below read or
    write, native handles as [option] of an opaque number, and the trace
    of [Event]s so far (oldest first). The maps of descriptions, formats,
    nodes and hooks, which the device callbacks also keep and which
    neither the default devices nor [uninit] read, are left out, and so
    is the mutex. *)
Record State : Type := mkState {
  m_defaultSink : string;
  m_defaultSource : string;
  m_sinks : QMap;
  m_sources : QMap;
  m_deviceIds : QMap;
  m_pwStreamLoop : option Z;
  m_pwStreamContext : option Z;
  m_pwStream : option Z;
  m_buffers : list Z;
  trace : list Event
}.

Definition emit (e : Event) (s : State) : State :=
  mkState (m_defaultSink s) (m_defaultSource s) (m_sinks s) (m_sources s)
          (m_deviceIds s) (m_pwStreamLoop s) (m_pwStreamContext s)
          (m_pwStream s) (m_buffers s) (trace s ++ [e]).

Definition set_m_defaultSink (v : string) (s : State) : State :=
  mkState v (m_defaultSource s) (m_sinks s) (m_sources s)
          (m_deviceIds s) (m_pwStreamLoop s) (m_pwStreamContext s)
          (m_pwStream s) (m_buffers s) (trace s).

Definition set_m_defaultSource (v : string) (s : State) : State :=
  mkState (m_defaultSink s) v (m_sinks s) (m_sources s)
          (m_deviceIds s) (m_pwStreamLoop s) (m_pwStreamContext s)
          (m_pwStream s) (m_buffers s) (trace s).

Definition set_m_sinks (v : QMap) (s : State) : State :=
  mkState (m_defaultSink s) (m_defaultSource s) v (m_sources s)
          (m_deviceIds s) (m_pwStreamLoop s) (m_pwStreamContext s)
          (m_pwStream s) (m_buffers s) (trace s).

Definition set_m_sources (v : QMap) (s : State) : State :=
  mkState (m_defaultSink s) (m_defaultSource s) (m_sinks s) v
          (m_deviceIds s) (m_pwStreamLoop s) (m_pwStreamContext s)
          (m_pwStream s) (m_buffers s) (trace s).

Definition set_m_deviceIds (v : QMap) (s : State) : State :=
  mkState (m_defaultSink s) (m_defaultSource s) (m_sinks s) (m_sources s)
          v (m_pwStreamLoop s) (m_pwStreamContext s)
          (m_pwStream s) (m_buffers s) (trace s).

Definition set_m_pwStreamLoop (v : option Z) (s : State) : State :=
  mkState (m_defaultSink s) (m_defaultSource s) (m_sinks s) (m_sources s)
          (m_deviceIds s) v (m_pwStreamContext s)
          (m_pwStream s) (m_buffers s) (trace s).

Definition set_m_pwStreamContext (v : option Z) (s : State) : State :=
  mkState (m_defaultSink s) (m_defaultSource s) (m_sinks s) (m_sources s)
          (m_deviceIds s) (m_pwStreamLoop s) v
          (m_pwStream s) (m_buffers s) (trace s).

Definition set_m_pwStream (v : option Z) (s : State) : State :=
  mkState (m_defaultSink s) (m_defaultSource s) (m_sinks s) (m_sources s)
          (m_deviceIds s) (m_pwStreamLoop s) (m_pwStreamContext s)
          v (m_buffers s) (trace s).

Definition set_m_buffers (v : list Z) (s : State) : State :=
  mkState (m_defaultSink s) (m_defaultSource s) (m_sinks s) (m_sources s)
          (m_deviceIds s) (m_pwStreamLoop s) (m_pwStreamContext s)
          (m_pwStream s) v (trace s).

(** The device right after construction. *)
Definition newDevice : State :=
  mkState EmptyString EmptyString [] [] [] None None None [] [].

(** ** [defaultInput], [defaultOutput], [inputs], [outputs] *)

Definition defaultInput (s : State) : string :=
  let defaultSource := m_defaultSource s in
  if isEmpty defaultSource
  then qlist_value (qmap_values (m_sources s)) 0
  else defaultSource.

Definition defaultOutput (s : State) : string :=
  let defaultSink := m_defaultSink s in
  if isEmpty defaultSink
  then qlist_value (qmap_values (m_sinks s)) 0
  else defaultSink.

Definition inputs (s : State) : list string := qmap_values (m_sources s).

Definition outputs (s : State) : list string := qmap_values (m_sinks s).

(** ** [uninit] *)

Definition uninit (s : State) : bool * State :=
  let s := match m_pwStreamLoop s with
           | Some loop => emit (EvThreadLoopStop loop) s
           | None => s
           end in
  let s := match m_pwStream s with
           | Some stream =>
               set_m_pwStream None
                 (emit (EvStreamDestroy stream)
                    (emit (EvStreamDisconnect stream) s))
           | None => s
           end in
  let s := match m_pwStreamContext s with
           | Some context =>
               set_m_pwStreamContext None (emit (EvContextDestroy context) s)
           | None => s
           end in
  let s := match m_pwStreamLoop s with
           | Some loop =>
               set_m_pwStreamLoop None (emit (EvThreadLoopDestroy loop) s)
           | None => s
           end in
  (true, set_m_buffers [] s).

(** ** [deviceAdded] and [deviceRemoved] *)

(** The properties [deviceAdded] looks up in the node's dictionary; a
    missing key gives a null pointer, here [None]. *)
Record NodeProps : Type := mkProps {
  mediaClass : option string;
  nodeName : option string;
  nodeDescription : option string
}.

(** A [QString] made from a C string: empty for a null pointer. *)
Definition QString_of (c : option string) : string :=
  match c with
  | Some str => str
  | None => EmptyString
  end.

Definition pipewireAudioSupportedClasses : list string :=
  [ "Stream/Output/Audio"%string;
    "Stream/Input/Audio/Internal"%string;
    "Audio/Source"%string;
    "Audio/Sink"%string ].

(** [deviceAdded]; [isNode] says whether [type] is the node interface,
    [node] is what [pw_registry_bind] returns. The media class is
    compared with [strncmp] over 1024 characters, which for the
    supported class names is equality of strings. *)
Definition deviceAdded (id : Z) (isNode : bool) (props : option NodeProps)
           (node : option Z) (s : State) : State :=
  if negb isNode then s
  else
    match props with
    | None => s
    | Some props =>
        match mediaClass props with
        | None => s
        | Some cls =>
            if negb (existsb (String.eqb cls) pipewireAudioSupportedClasses)
            then s
            else
              let s := emit (EvRegistryBind id) s in
              match node with
              | None => s
              | Some _ =>
                  let name := QString_of (nodeName props) in
                  let isSink := String.eqb cls "Audio/Sink" in
                  let s := if isSink
                           then set_m_sinks (qmap_insert id name (m_sinks s)) s
                           else set_m_sources
                                  (qmap_insert id name (m_sources s)) s in
                  let s := set_m_deviceIds
                             (qmap_insert id name (m_deviceIds s)) s in
                  let s := if isSink
                           then emit (EvOutputsChanged
                                        (qmap_values (m_sinks s))) s
                           else emit (EvInputsChanged
                                        (qmap_values (m_sources s))) s in
                  let s := if isEmpty (m_defaultSource s)
                              && String.eqb cls "Audio/Source"
                           then emit (EvDefaultInputChanged name)
                                     (set_m_defaultSource name s)
                           else s in
                  if isEmpty (m_defaultSink s) && String.eqb cls "Audio/Sink"
                  then emit (EvDefaultOutputChanged name)
                            (set_m_defaultSink name s)
                  else s
              end
        end
    end.

Definition deviceRemoved (id : Z) (s : State) : State :=
  let name := qmap_value id (m_deviceIds s) in
  if isEmpty name then s
  else
    let isSink := qmap_contains id (m_sinks s) in
    let s := if isSink
             then set_m_sinks (qmap_remove id (m_sinks s)) s
             else set_m_sources (qmap_remove id (m_sources s)) s in
    let s := set_m_deviceIds (qmap_remove id (m_deviceIds s)) s in
    let s := emit (EvHookRemove name) s in
    let s := if isSink
             then emit (EvOutputsChanged (qmap_values (m_sinks s))) s
             else emit (EvInputsChanged (qmap_values (m_sources s))) s in
    let s := if String.eqb (m_defaultSource s) name
             then
               let s := set_m_defaultSource
                          (qlist_value (qmap_values (m_sources s)) 0) s in
               emit (EvDefaultInputChanged (m_defaultSource s)) s
             else s in
    if String.eqb (m_defaultSink s) name
    then
      let s := set_m_defaultSink
                 (qlist_value (qmap_values (m_sinks s)) 0) s in
      emit (EvDefaultOutputChanged (m_defaultSink s)) s
    else s.

(** The key order of a [QMap]: keys strictly ascending. *)
Definition qmap_ordered (m : QMap) : Prop :=
  StronglySorted Z.lt (map fst m).

End PipeWire.

(* ===================================================================== *)
(** * Vocabulary of the properties *)
(* ===================================================================== *)

(** The rates libfaac supports: [faacEncSupportedSampleRates] without its
    closing zero. *)
Definition supportedRates : list Z :=
  [8000; 11025; 12000; 16000; 22050; 24000; 32000; 44100; 48000; 64000;
   88200; 96000].

(** [r] is the first entry of [tbl], in table order, among those whose
    [cost] is least. *)
Definition FirstLeast (cost : Z -> Z) (tbl : list Z) (r : Z) : Prop :=
  exists before after,
    tbl = before ++ r :: after
    /\ (forall s, In s before -> cost r < cost s)
    /\ (forall s, In s after -> cost r <= cost s).

(** [r] is a supported rate at least distance from [rate], the first such
    in table order. *)
Definition NearestSupported (rate r : Z) : Prop :=
  FirstLeast (fun s => Z.abs (s - rate)) supportedRates r.

(** The [quint64 k] the loop of [nearestSampleRate] computes for the
    table entry [s]. *)
Definition kdist (rate s : Z) : Z :=
  MachineInt.to_quint64 (MachineInt.qAbs (MachineInt.to_int (s - rate))).

(** Bit [i] of a byte array, bits counted from the most significant bit
    of the first byte on. *)
Definition bitAt (bytes : list Z) (i : nat) : bool :=
  Z.testbit (nth (Nat.div i 8) bytes 0) (7 - Z.of_nat (Nat.modulo i 8)).

(** The unsigned number whose [len] bits, most significant first, are
    the bits [off .. off + len - 1] of [bytes]. *)
Definition readBits (bytes : list Z) (off len : nat) : Z :=
  fold_left (fun acc j => 2 * acc + Z.b2z (bitAt bytes (off + j)))
            (seq 0 len) 0.

(** The head of an AudioSpecificConfig reads: object type [LOW], sample
    rate index 4, two channels. *)
Definition LowStereo44100 (headers : list Z) : Prop :=
  readBits headers 0 5 = Faac.LOW
  /\ readBits headers 5 4 = 4
  /\ readBits headers 9 4 = 2.

(** The sample format the AAC encoder settles on for an input format:
    the input's own when [FaacSampleFormatTable] has it, [s16] otherwise. *)
Definition faacFormatFor (f : Ak.SampleFormat) : Ak.SampleFormat :=
  match f with
  | Ak.SampleFormat_s16 => Ak.SampleFormat_s16
  | Ak.SampleFormat_s32 => Ak.SampleFormat_s32
  | _ => Ak.SampleFormat_s16
  end.

(** The pixel formats [Av1PixFormatTable] has. *)
Definition av1Supported (f : Rav1e.PixelFormat) : bool :=
  match f with
  | Rav1e.Format_y8 | Rav1e.Format_y10 | Rav1e.Format_y12
  | Rav1e.Format_yuv420p | Rav1e.Format_yuv420p10 | Rav1e.Format_yuv420p12
  | Rav1e.Format_yuv422p | Rav1e.Format_yuv422p10 | Rav1e.Format_yuv422p12
  | Rav1e.Format_yuv444p | Rav1e.Format_yuv444p10 | Rav1e.Format_yuv444p12 =>
      true
  | _ => false
  end.

(** The pixel format the AV1 encoder settles on: the input's own when
    the table has it, [yuv420p] otherwise. *)
Definition av1FormatFor (f : Rav1e.PixelFormat) : Rav1e.PixelFormat :=
  if av1Supported f then f else Rav1e.Format_yuv420p.

(** The output caps [Faac.updateOutputCaps] derives on its main path. *)
Definition faacDerived (inCaps : Ak.AkAudioCaps) (cid : Ak.AudioCodecID)
  : Ak.AkCompressedAudioCaps :=
  Ak.mkCompressedAudioCaps cid
    (Ak.mkAudioCaps
       (faacFormatFor (Ak.a_format inCaps))
       (Ak.defaultChannelLayout
          (MachineInt.qBound 1 (Ak.a_channels inCaps) 2))
       false
       (Faac.nearestSampleRate (Ak.a_rate inCaps))).

(** The output caps [Rav1e.updateOutputCaps] derives on its main path,
    the frame rate defaulting to 30/1. *)
Definition rav1eDerived (inCaps : Rav1e.AkVideoCaps)
           (cid : Rav1e.VideoCodecID) (bitrate : Z)
  : Rav1e.AkCompressedVideoCaps :=
  Rav1e.mkCompressedVideoCaps cid
    (Rav1e.mkVideoCaps
       (av1FormatFor (Rav1e.v_format inCaps))
       (Rav1e.v_width inCaps)
       (Rav1e.v_height inCaps)
       (if Rav1e.fracValid (Rav1e.v_fps inCaps)
        then Rav1e.v_fps inCaps else Ak.mkFrac 30 1))
    bitrate.

(** What the AAC encoder's output caps are for valid input caps and a
    known codec: non-empty, with the format, channels and rate adapted. *)
Definition FaacOutputFor (inCaps : Ak.AkAudioCaps) (cid : Ak.AudioCodecID)
           (out : Ak.AkCompressedAudioCaps) : Prop :=
  Ak.compressedAudioCapsValid out = true
  /\ Ak.ca_codec out = cid
  /\ Ak.a_format (Ak.ca_rawCaps out) = faacFormatFor (Ak.a_format inCaps)
  /\ Ak.a_channels (Ak.ca_rawCaps out)
     = Z.max 1 (Z.min 2 (Ak.a_channels inCaps))
  /\ 1 <= Ak.a_channels (Ak.ca_rawCaps out) <= 2
  /\ NearestSupported (Ak.a_rate inCaps) (Ak.a_rate (Ak.ca_rawCaps out)).

(** What the AV1 encoder's output caps are for valid input caps and a
    known codec: non-empty, with the pixel format adapted and the size
    kept. *)
Definition Rav1eOutputFor (inCaps : Rav1e.AkVideoCaps)
           (cid : Rav1e.VideoCodecID) (out : Rav1e.AkCompressedVideoCaps)
  : Prop :=
  Rav1e.compressedVideoCapsValid out = true
  /\ Rav1e.cv_codec out = cid
  /\ Rav1e.v_format (Rav1e.cv_rawCaps out)
     = av1FormatFor (Rav1e.v_format inCaps)
  /\ Rav1e.v_width (Rav1e.cv_rawCaps out) = Rav1e.v_width inCaps
  /\ Rav1e.v_height (Rav1e.cv_rawCaps out) = Rav1e.v_height inCaps.

(** A configuration the WebM muxer cannot work with: the [PacketSync]
    helper is missing, the video caps are empty, the video codec is not
    one of the table's, or there are audio caps whose codec is not one of
    the table's. *)
Definition ConfigurationError {R : Type} (s : Webm.State R) : Prop :=
  Webm.m_packetSync s = false
  \/ Rav1e.compressedVideoCapsValid (Webm.videoCaps s) = false
  \/ ~ In (Rav1e.cv_codec (Webm.videoCaps s)) Webm.VideoCodecsTable_codecs
  \/ (Ak.compressedAudioCapsValid (Webm.audioCaps s) = true
      /\ Ak.ca_codec (Webm.audioCaps s) <> Ak.AudioCodecID_vorbis
      /\ Ak.ca_codec (Webm.audioCaps s) <> Ak.AudioCodecID_opus).

(** Nothing native was touched between [s] and [s']: no call was made
    and the files on disk are the same. *)
Definition Untouched {R : Type} (s s' : Webm.State R) : Prop :=
  Webm.trace s' = Webm.trace s /\ Webm.disk s' = Webm.disk s.

(** The life-cycle invariant of the muxer: an element in the Null state
    is not initialized. *)
Definition NullIsUninitialized {R : Type} (s : Webm.State R) : Prop :=
  Webm.state s = Ak.ElementStateNull -> Webm.m_initialized s = false.

(** The states a muxer element can be in: a new element is in the Null
    state, not initialized and not paused, and has
    [m_cuesBeforeClusters] off, which the class initialises to [false]
    and nothing assigns; from there the application sets properties,
    drives the state and feeds packets. *)
Inductive Reachable {R : Type} `{QReal.Ops R} : Webm.State R -> Prop :=
| Reachable_new (s : Webm.State R) :
    Webm.state s = Ak.ElementStateNull ->
    Webm.m_initialized s = false ->
    Webm.m_paused s = false ->
    Webm.trace s = [] ->
    Webm.m_cuesBeforeClusters s = false ->
    Reachable s
| Reachable_properties video audio path vHeaders aHeaders aDuration
                       vDuration (s : Webm.State R) :
    Reachable s ->
    Reachable (Webm.withProperties video audio path vHeaders aHeaders
                                   aDuration vDuration s)
| Reachable_setState nat target (s : Webm.State R) :
    Reachable s ->
    Reachable (snd (Webm.setState nat target s))
| Reachable_iStream released (s : Webm.State R) :
    Reachable s ->
    Reachable (Webm.iStream released s).

(** A PipeWire device that holds no stream resources. *)
Definition NoStream (s : PipeWire.State) : Prop :=
  PipeWire.m_pwStreamLoop s = None
  /\ PipeWire.m_pwStreamContext s = None
  /\ PipeWire.m_pwStream s = None
  /\ PipeWire.m_buffers s = [].

(** The name a map lists first, that is the one bound to its least id;
    the empty string for an empty map. *)
Definition firstName (m : PipeWire.QMap) : string :=
  match m with
  | [] => EmptyString
  | (_, name) :: _ => name
  end.

(** The running duration of the audio ([audio = true]) or the video
    stream after the packets [ps], from the value [start]: the end of the
    last packet of that kind. *)
Definition lastEnd {R : Type} `{QReal.Ops R} (audio : bool) (start : R)
           (ps : list Webm.AkPacket) : R :=
  fold_left (fun acc p => if Bool.eqb (Webm.isAudioPacket p) audio
                          then Webm.packetEnd p else acc)
            ps start.

(** The duration of one stream at finalization, in seconds: the duration
    the application set for the stream, divided by its units per second,
    when that is positive, and the running duration otherwise. *)
Definition streamSeconds {R : Type} `{QReal.Ops R} (set : Z)
           (unitsPerSecond running : R) : R :=
  if 0 <? set then QReal.div (QReal.of_int set) unitsPerSecond else running.

(** Seconds as ticks of the segment's timecode scale. *)
Definition segmentTicks {R : Type} `{QReal.Ops R} (scale : Z) (seconds : R)
  : Z :=
  QReal.round64 (QReal.div (QReal.mul seconds QReal.nano)
                           (QReal.of_int scale)).

(** The [AddFrame] call [packetReady] makes for [p] in the state [s]. *)
Definition frameEvent {R : Type} `{QReal.Ops R} (s : Webm.State R)
           (p : Webm.AkPacket) : Webm.Event :=
  Webm.EvAddFrame
    (Webm.p_size p)
    (if Webm.isAudioPacket p
     then Webm.m_audioTrackIndex s else Webm.m_videoTrackIndex s)
    (QReal.to_uint64
       (QReal.mul (QReal.mul (QReal.of_int (Webm.p_pts p))
                             (QReal.fracValue (Webm.p_timeBase p)))
                  QReal.nano))
    (Webm.isKeyPacket p).

(** What the muxer never changes once it is set up: caps, the stream
    durations the application set, and the timecode scale. *)
Definition muxerConfig {R : Type} (s : Webm.State R) :=
  (Webm.videoCaps s, Webm.audioCaps s, Webm.videoStreamDuration s,
   Webm.audioStreamDuration s, Webm.m_timeCodeScale s).

(** Events that neither add an audio track nor set the duration. *)
Definition Quiet (added : list Webm.Event) : Prop :=
  existsb Webm.isAddAudioTrack added = false
  /\ Webm.durationsSet added = [].

(** [s'] continues [s] by quiet events and has the same configuration. *)
Definition Continues {R : Type} (s s' : Webm.State R) : Prop :=
  (exists added, Webm.trace s' = Webm.trace s ++ added /\ Quiet added)
  /\ muxerConfig s' = muxerConfig s.

(** [s'] continues [s] and has the same audio track and the same running
    durations. *)
Definition Steady {R : Type} (s s' : Webm.State R) : Prop :=
  Continues s s'
  /\ Webm.m_audioTrackIndex s' = Webm.m_audioTrackIndex s
  /\ Webm.m_audioDuration s' = Webm.m_audioDuration s
  /\ Webm.m_videoDuration s' = Webm.m_videoDuration s.





(** The samples of the frames that make the encoder emit a packet. *)
Fixpoint samplesEmitted (frames : list (Z * Ak.AkAudioPacket)) : Z :=
  match frames with
  | [] => 0
  | (writtenBytes, src) :: rest =>
      (if Ak.audioPacketValid src && (0 <? writtenBytes)
       then Ak.ap_samples src else 0)
      + samplesEmitted rest
  end.


(** ** Sample values the statements are tried on *)

Module Sample.
Import Ak.

Definition stereo44100 : AkAudioCaps :=
  mkAudioCaps SampleFormat_s16 Layout_stereo false 44100.

(** An AAC encoder fed 44100 Hz stereo input. *)
Definition faacElement : Faac.State :=
  Faac.setInputCaps stereo44100 (Faac.newElement true).

(** A libfaac that opens, has the expected version and takes the
    configuration. *)
Definition faacNative : Faac.Native :=
  Faac.mkNative (Some (1, 2048, 1536))
                (Faac.mkConfig 1 0 1 1 0 0 1 Faac.FAAC_INPUT_32BIT)
                true true [].

(** Six-channel float input at 50 kHz: nothing of it is supported. *)
Definition surroundFloat : AkAudioCaps :=
  mkAudioCaps SampleFormat_flt (Layout_multi 6) false 50000.

(** Packed RGB video with an unknown frame rate. *)
Definition rgbVideo : Rav1e.AkVideoCaps :=
  Rav1e.mkVideoCaps Rav1e.Format_rgb24 640 480 (mkFrac 0 0).

Definition rav1eElement : Rav1e.State :=
  Rav1e.mkState ElementStateNull "rav1e" 1500000
                Rav1e.emptyCompressedVideoCaps Rav1e.emptyVideoCaps
                false false [].

(** A muxer asked to write H.264 video, which WebM does not carry. *)
Definition h264Caps : Rav1e.AkCompressedVideoCaps :=
  Rav1e.mkCompressedVideoCaps Rav1e.VideoCodecID_h264
    (Rav1e.mkVideoCaps Rav1e.Format_yuv420p 640 480 (mkFrac 30 1)) 1500000.

Definition vp8Caps : Rav1e.AkCompressedVideoCaps :=
  Rav1e.mkCompressedVideoCaps Rav1e.VideoCodecID_vp8
    (Rav1e.mkVideoCaps Rav1e.Format_yuv420p 640 480 (mkFrac 30 1)) 1500000.

(** A fresh muxer element with the given video caps, no audio caps and
    the library's default options, writing to [out.webm] on an empty
    disk. *)
Definition muxer (video : Rav1e.AkCompressedVideoCaps)
           (videoDuration : Z) : Webm.State Q :=
  Webm.mkState ElementStateNull video emptyCompressedAudioCaps
               "out.webm" [] [] 0 videoDuration 0 0 false false true true 0
               true false 0 100000 (inject_Z 0) (inject_Z 0) false false
               true [] [].

(** A libwebm and a file system where everything works; the first track
    added gets number 1. *)
Definition webmNative : Webm.Native :=
  Webm.mkNative true true 1 2 true true [] 0 true "tmp/out_tmp.webm"
                true true.

(** A PipeWire device that was told of one source node, id 5, whose
    dictionary has no [node.name]. *)
Definition namelessSource : PipeWire.State :=
  PipeWire.deviceAdded 5 true
    (Some (PipeWire.mkProps (Some "Audio/Source"%string) None None))
    (Some 1) PipeWire.newDevice.

(** A PipeWire device that was told of two application streams, which
    count as sources but never become the default. *)
Definition twoStreams : PipeWire.State :=
  PipeWire.deviceAdded 40 true
    (Some (PipeWire.mkProps (Some "Stream/Output/Audio"%string)
                            (Some "browser"%string) None))
    (Some 2)
    (PipeWire.deviceAdded 57 true
       (Some (PipeWire.mkProps (Some "Stream/Output/Audio"%string)
                               (Some "player"%string) None))
       (Some 1) PipeWire.newDevice).

(** A VP8 frame at 30 frames per second, a key frame. *)
Definition videoPacket (pts : Z) : Webm.AkPacket :=
  Webm.mkPacket Webm.PacketVideoCompressed 1000 pts 1 (mkFrac 1 30) 1.

(** A Vorbis packet of 1024 samples at 44100 Hz. *)
Definition audioPacket (pts : Z) : Webm.AkPacket :=
  Webm.mkPacket Webm.PacketAudioCompressed 300 pts 1024 (mkFrac 1 44100) 0.

Definition vorbisCaps : AkCompressedAudioCaps :=
  mkCompressedAudioCaps AudioCodecID_vorbis stereo44100.

(** A muxer with video and audio caps and no stream durations set. *)
Definition avMuxer : Webm.State Q :=
  Webm.mkState ElementStateNull vp8Caps vorbisCaps
               "out.webm" [] [] 0 0 0 0 false false true true 0
               true false 0 100000 (inject_Z 0) (inject_Z 0) false false
               true [] [].

(** The video-only muxer, for which the application set a stream
    duration of 30 frames, after it was started and wrote the frame
    that ends at two seconds. *)
Definition videoOnlyAtTwoSeconds : Webm.State Q :=
  Webm.packetReady (videoPacket 59)
                   (snd (Webm.init webmNative (muxer vp8Caps 30))).

(** The audio and video muxer after audio up to 66150 samples (1.5 s)
    and video up to frame 60 (2 s). *)
Definition avAtTwoSeconds : Webm.State Q :=
  Webm.packetsReady [audioPacket 65126; videoPacket 59]
                    (snd (Webm.init webmNative avMuxer)).

(** Three packets in time order: video at 0 s, audio at about 0.023 s,
    video at about 0.033 s. *)
Definition interleaved : list Webm.AkPacket :=
  [videoPacket 0; audioPacket 1024; videoPacket 1].

(** Three frames for the AAC encoder, the second of which the encoder
    only buffers (it writes no bytes). *)
Definition rawFrame (samples : Z) : AkAudioPacket :=
  mkAudioPacket stereo44100 samples 7 0.

Definition faacFrames : list (Z * AkAudioPacket) :=
  [(371, rawFrame 1024); (0, rawFrame 1024); (402, rawFrame 1024)].

End Sample.

(* ===================================================================== *)
(** * The AAC encoder element: bits, life cycle and signals *)
(* ===================================================================== *)

(** The [n] low bits of [v], most significant first. *)
Definition bitsOf (n : nat) (v : Z) : list bool :=
  rev (map (fun j => Z.testbit v (Z.of_nat j)) (seq 0 n)).

(** The unsigned number a list of bits spells, most significant first. *)
Definition bitsValue (l : list bool) : Z :=
  fold_left (fun acc b => 2 * acc + Z.b2z b) l 0.

(** The rates [faacEncSampleRateIndex] gives an index to. *)
Definition indexedRates : list Z :=
  [96000; 88200; 64000; 48000; 44100; 32000; 24000; 22050; 16000; 12000;
   11025; 8000; 7350].

Module FaacElement.
Import MachineInt Ak Faac.

(** [iAudioStream]: a packet goes to the [FillAudioGaps] helper only when
    the element is initialized and not paused; [released] is what the
    helper hands back through [encodeFrame] in answer, each frame with
    the encoder's answer. *)
Definition iAudioStream (released : list (Z * AkAudioPacket)) (s : State)
  : State :=
  if m_paused s || negb (m_initialized s) || negb (m_fillAudioGaps s) then s
  else encodeFrames released s.

(** Modelled from the spec: the setters of the encoder's public
    properties (codec, bitrate, gap filling, options) belong to the base
    class, outside the files at hand; the application "only issues state
    transitions and reads published property values", so setting
    properties replaces them and leaves the private members alone. *)
Definition withProperties (codec' : string) (bitrate' : Z) (fillGaps' : bool)
           (mpegVersion' outputFormat' : Z) (s : State) : State :=
  mkState (state s) (inputCaps s) codec' bitrate' fillGaps'
          mpegVersion' outputFormat' (m_outputCaps s)
          (m_headers s) (m_encoder s) (m_config s) (m_maxOutputBytes s)
          (m_initialized s) (m_paused s) (m_id s) (m_index s) (m_pts s)
          (m_encodedTimePts s) (m_fillAudioGaps s) (trace s).

(** The caps the [outputCapsChanged] signal was emitted with, in
    order. *)
Fixpoint outputCapsSignals (tr : list Event) : list AkCompressedAudioCaps :=
  match tr with
  | [] => []
  | EvOutputCapsChanged caps :: rest => caps :: outputCapsSignals rest
  | _ :: rest => outputCapsSignals rest
  end.

(** The payloads of the [headersChanged] signal, in order. *)
Fixpoint headersSignals (tr : list Event) : list QByteArray :=
  match tr with
  | [] => []
  | EvHeadersChanged h :: rest => h :: headersSignals rest
  | _ :: rest => headersSignals rest
  end.

End FaacElement.

(** The states an AAC encoder element can be in: a new element, and from
    there the application sets properties and input caps, drives the
    state and feeds packets. *)
Inductive FaacReachable : Faac.State -> Prop :=
| FaacReachable_new gapsPlugin :
    FaacReachable (Faac.newElement gapsPlugin)
| FaacReachable_properties codec bitrate fillGaps mpegVersion outputFormat s :
    FaacReachable s ->
    FaacReachable (FaacElement.withProperties codec bitrate fillGaps
                                              mpegVersion outputFormat s)
| FaacReachable_setInputCaps inCaps s :
    FaacReachable s ->
    FaacReachable (Faac.setInputCaps inCaps s)
| FaacReachable_setState nat target s :
    FaacReachable s ->
    FaacReachable (snd (Faac.setState nat target s))
| FaacReachable_iAudioStream released s :
    FaacReachable s ->
    FaacReachable (FaacElement.iAudioStream released s).

(** The life-cycle flags go with the element state: initialized exactly
    off the Null state, paused exactly in the Paused state. *)
Definition FaacLifeCycle (s : Faac.State) : Prop :=
  match Faac.state s with
  | Ak.ElementStateNull =>
      Faac.m_initialized s = false /\ Faac.m_paused s = false
  | Ak.ElementStatePaused =>
      Faac.m_initialized s = true /\ Faac.m_paused s = true
  | Ak.ElementStatePlaying =>
      Faac.m_initialized s = true /\ Faac.m_paused s = false
  end.

(** libfaac opens, has the expected version and takes the
    configuration. *)
Definition FaacNativeOk (nat : Faac.Native) : Prop :=
  Faac.encOpen nat <> None
  /\ Faac.versionMatches nat = true
  /\ Faac.setConfigurationOk nat = true.

(** The samples of the frames the encoder took in: the valid frames its
    native call did not fail on. *)
Fixpoint samplesAccepted (frames : list (Z * Ak.AkAudioPacket)) : Z :=
  match frames with
  | [] => 0
  | (writtenBytes, src) :: rest =>
      (if Ak.audioPacketValid src && (0 <=? writtenBytes)
       then Ak.ap_samples src else 0)
      + samplesAccepted rest
  end.

(** The caps the AV1 encoder's [outputCapsChanged] signal was emitted
    with, in order. *)
Definition rav1eOutputCapsSignals (tr : list Rav1e.Event)
  : list Rav1e.AkCompressedVideoCaps :=
  map (fun e => match e with Rav1e.EvOutputCapsChanged caps => caps end) tr.


(* ===================================================================== *)
(** * The WebM muxer: outcomes of [init] and [uninit] *)
(* ===================================================================== *)

(** libwebm and the file system play along with the muxer's [init]: the
    file opens, the segment initializes, the video track is added and
    found, and so is the audio track when there are audio caps. *)
Definition WebmNativeOk {R : Type} (nat : Webm.Native) (s : Webm.State R)
  : Prop :=
  Webm.writerOpenOk nat = true
  /\ Webm.segmentInitOk nat = true
  /\ 1 <= MachineInt.to_quint64 (Webm.addVideoTrack nat)
  /\ Webm.videoTrackFound nat = true
  /\ (Ak.compressedAudioCapsValid (Webm.audioCaps s) = true ->
      1 <= MachineInt.to_quint64 (Webm.addAudioTrack nat)
      /\ Webm.audioTrackFound nat = true).

(** What [init] and [uninit] of the muxer never change: the element
    state, the properties the application set and the options. *)
Definition muxerSetup {R : Type} (s : Webm.State R) :=
  (Webm.state s, Webm.location s, Webm.videoCaps s, Webm.audioCaps s,
   Webm.m_cuesBeforeClusters s, Webm.m_packetSync s).

(** The life-cycle flags of the muxer go with the element state:
    initialized exactly off the Null state, and paused in the Paused
    state. *)
Definition WebmLifeCycle {R : Type} (s : Webm.State R) : Prop :=
  match Webm.state s with
  | Ak.ElementStateNull => Webm.m_initialized s = false
  | Ak.ElementStatePaused =>
      Webm.m_initialized s = true /\ Webm.m_paused s = true
  | Ak.ElementStatePlaying => Webm.m_initialized s = true
  end.


(** The last two events of a trace. *)
Definition endsWith (tr : list Webm.Event) (a b : Webm.Event) : Prop :=
  exists before, tr = before ++ [a; b].

(** What a stage of [init] leaves on success and on failure: on success
    the disk as it was, on failure the output file removed, the writer
    closed just before. *)
Definition StageOutcome {R : Type} (s : Webm.State R)
           (r : bool * Webm.State R) : Prop :=
  muxerSetup (snd r) = muxerSetup s
  /\ Webm.m_paused (snd r) = Webm.m_paused s
  /\ (fst r = true -> Webm.disk (snd r) = Webm.disk s)
  /\ (fst r = false ->
      Webm.disk (snd r) = Webm.removeFile (Webm.location s) (Webm.disk s)
      /\ endsWith (Webm.trace (snd r))
                  Webm.EvWriterClose (Webm.EvFileRemove (Webm.location s))).

(** The element as [init] has it when the checks are passed: running
    durations and track numbers reset. *)
Definition resetForInit {R : Type} `{QReal.Ops R} (s : Webm.State R)
  : Webm.State R :=
  Webm.set_m_videoTrackIndex 0
    (Webm.set_m_audioTrackIndex 0
       (Webm.set_m_videoDuration (QReal.of_int 0)
          (Webm.set_m_audioDuration (QReal.of_int 0) s))).

(** Without the cue-moving option, the element is paused in the Paused
    state only. *)
Definition PausedOnlyInPaused {R : Type} (s : Webm.State R) : Prop :=
  Webm.m_cuesBeforeClusters s = false ->
  Webm.state s <> Ak.ElementStatePaused -> Webm.m_paused s = false.

(* ===================================================================== *)
(** * The PipeWire audio device: formats and the stream buffer *)
(* ===================================================================== *)

Module PipeWireIO.
Import MachineInt Ak PipeWire.

(** ** [supportedFormats], [supportedChannelLayouts], [preferredFormat] *)

(** [AudioFormat]. *)
Record AudioFormat : Type := mkAudioFormat {
  af_format : SampleFormat;
  af_layout : ChannelLayout;
  af_planar : bool
}.

(** [QMap<QString, AudioFormats>], read with [value(device)] only: the
    entries, one per device name. *)
Definition FormatsMap : Type := list (string * list AudioFormat).

(** [m_formats.value(device)]: no formats for a device the map does not
    have. *)
Fixpoint formats_value (device : string) (m : FormatsMap)
  : list AudioFormat :=
  match m with
  | [] => []
  | (name, formats) :: rest =>
      if String.eqb name device then formats else formats_value device rest
  end.

(** The loop of [supportedFormats]:
    [if (!formats.contains(format.format)) formats << format.format]. *)
Fixpoint supportedFormats_loop (fs : list AudioFormat)
         (formats : list SampleFormat) : list SampleFormat :=
  match fs with
  | [] => formats
  | format :: rest =>
      supportedFormats_loop rest
        (if existsb (SampleFormat_eqb (af_format format)) formats
         then formats else formats ++ [af_format format])
  end.

Definition supportedFormats (m_formats : FormatsMap) (device : string)
  : list SampleFormat :=
  supportedFormats_loop (formats_value device m_formats) [].

Fixpoint supportedChannelLayouts_loop (fs : list AudioFormat)
         (layouts : list ChannelLayout) : list ChannelLayout :=
  match fs with
  | [] => layouts
  | format :: rest =>
      supportedChannelLayouts_loop rest
        (if existsb (ChannelLayout_eqb (af_layout format)) layouts
         then layouts else layouts ++ [af_layout format])
  end.

Definition supportedChannelLayouts (m_formats : FormatsMap) (device : string)
  : list ChannelLayout :=
  supportedChannelLayouts_loop (formats_value device m_formats) [].

(** [QList::first()] of a list known not to be empty. *)
Definition first {A : Type} (default : A) (l : list A) : A := hd default l.

(** [preferredFormat]; [s] holds the maps of sinks and sources. *)
Definition preferredFormat (m_formats : FormatsMap) (s : State)
           (device : string) : AkAudioCaps :=
  let sampleFormats := supportedFormats m_formats device in
  match sampleFormats with
  | [] => emptyAudioCaps
  | _ =>
      let format :=
        if existsb (SampleFormat_eqb SampleFormat_s16) sampleFormats
        then SampleFormat_s16 else first SampleFormat_none sampleFormats in
      let channelLayouts := supportedChannelLayouts m_formats device in
      match channelLayouts with
      | [] => emptyAudioCaps
      | _ =>
          if existsb (String.eqb device) (qmap_values (m_sinks s)) then
            let layout :=
              if existsb (ChannelLayout_eqb Layout_stereo) channelLayouts
              then Layout_stereo else first Layout_none channelLayouts in
            mkAudioCaps format layout false 48000
          else if existsb (String.eqb device) (qmap_values (m_sources s)) then
            let layout :=
              if existsb (ChannelLayout_eqb Layout_mono) channelLayouts
              then Layout_mono else first Layout_none channelLayouts in
            mkAudioCaps format layout false 8000
          else emptyAudioCaps
      end
  end.

(** ** The stream buffer: [onProcess], [read] and [write] *)

(** [QByteArray::mid(pos, len)] on the byte list, [pos] and [len] being
    [qsizetype]s: nothing for a position past the end, the whole array
    for a negative position that the length makes up for, and otherwise
    the bytes from [pos] on, at most [len] of them. *)
Definition mid (bytes : list Z) (pos len : Z) : list Z :=
  let size := Z.of_nat (length bytes) in
  if size <? pos then []
  else if pos <? 0 then
    if (len <? 0) || (size <=? len + pos) then bytes
    else if len + pos <=? 0 then []
    else firstn (Z.to_nat (len + pos)) bytes
  else
    let len := if (len <? 0) || (size - pos <? len) then size - pos else len in
    firstn (Z.to_nat len) (skipn (Z.to_nat pos) bytes).

(** What [pw_stream_dequeue_buffer] hands out: whether the first data
    block has memory, the bytes of its chunk (what was captured) and its
    [maxsize] (the room for playback). *)
Record PwBuffer : Type := mkPwBuffer {
  hasData : bool;
  chunk : list Z;
  maxsize : Z
}.

(** The calls on the stream and on the two wait conditions. The buffer
    queued back carries the bytes copied into it, if any were. *)
Inductive StreamEvent : Type :=
| EvStreamDequeueBuffer (stream : option Z)
| EvStreamQueueBuffer (stream : option Z) (copied : option (list Z))
| EvWakeNotEmpty
| EvWakeNotFull.

(** The members of [AudioDevPipeWirePrivate] the stream callbacks and
    [read] and [write] work on: those of [State], the size limit of the
    buffer and the direction, and the [StreamEvent]s so far. *)
Record Stream : Type := mkStream {
  device : State;
  m_maxBufferSize : Z;
  m_isCapture : bool;
  streamTrace : list StreamEvent
}.

Definition set_buffers (v : list Z) (d : Stream) : Stream :=
  mkStream (set_m_buffers v (device d)) (m_maxBufferSize d) (m_isCapture d)
           (streamTrace d).

Definition emitStream (e : StreamEvent) (d : Stream) : Stream :=
  mkStream (device d) (m_maxBufferSize d) (m_isCapture d)
           (streamTrace d ++ [e]).

Definition size (bytes : list Z) : Z := Z.of_nat (length bytes).

(** [onProcess]; [buffer] is what [pw_stream_dequeue_buffer] returns.
    The chunk's offset and stride, which [onProcess] sets along with its
    size, describe the sample layout and are not kept. *)
Definition onProcess (buffer : option PwBuffer) (d : Stream) : Stream :=
  let d := emitStream (EvStreamDequeueBuffer (m_pwStream (device d))) d in
  match buffer with
  | None => d
  | Some buffer =>
      if negb (hasData buffer) then d
      else
        let buffers := m_buffers (device d) in
        if m_isCapture d then
          let dataSize := size (chunk buffer) in
          let d :=
            if m_maxBufferSize d <=? dataSize
            then set_buffers (chunk buffer) d
            else
              let totalSize :=
                Z.min (to_quint64 (size buffers + dataSize))
                      (m_maxBufferSize d) in
              let prevSize := to_quint64 (totalSize - dataSize) in
              set_buffers
                (mid buffers (size buffers - to_int prevSize)
                     (to_int prevSize)
                 ++ chunk buffer) d in
          let d := emitStream EvWakeNotEmpty d in
          emitStream (EvStreamQueueBuffer (m_pwStream (device d)) None) d
        else
          let dataSize := maxsize buffer in
          let copySize := Z.min dataSize (size buffers) in
          let remainingSize := size buffers - copySize in
          let d := if 0 <? remainingSize
                   then set_buffers (mid buffers copySize remainingSize) d
                   else set_buffers [] d in
          let d := if size (m_buffers (device d)) <? m_maxBufferSize d
                   then emitStream EvWakeNotFull d else d in
          emitStream
            (EvStreamQueueBuffer
               (m_pwStream (device d))
               (if 0 <? copySize
                then Some (firstn (Z.to_nat copySize) buffers) else None))
            d
  end.

(** The callbacks of the stream thread, one after the other. *)
Fixpoint onProcesses (buffers : list (option PwBuffer)) (d : Stream)
  : Stream :=
  match buffers with
  | [] => d
  | b :: rest => onProcesses rest (onProcess b d)
  end.

(** A wait on a condition, the mutex released meanwhile: whether the
    caller was woken before the timeout, and the callbacks of the stream
    thread that ran while it waited. *)
Record Wait : Type := mkWait {
  woken : bool;
  meanwhile : list (option PwBuffer)
}.

(** [read]. *)
Definition read (wait : Wait) (d : Stream) : list Z * Stream :=
  match m_pwStream (device d) with
  | None => ([], d)
  | Some _ =>
      match m_buffers (device d) with
      | [] =>
          let d := onProcesses (meanwhile wait) d in
          if negb (woken wait) then ([], d)
          else (m_buffers (device d), set_buffers [] d)
      | _ => (m_buffers (device d), set_buffers [] d)
      end
  end.

(** [write]; [converted] is what [m_audioConvert.convert(packet)] gives,
    nothing when the converted packet is not valid. *)
Definition write (packet : AkAudioPacket) (converted : option (list Z))
           (wait : Wait) (d : Stream) : bool * Stream :=
  if negb (audioPacketValid packet) then (false, d)
  else
    match m_pwStream (device d) with
    | None => (false, d)
    | Some _ =>
        let waited := m_maxBufferSize d <=? size (m_buffers (device d)) in
        let d := if waited then onProcesses (meanwhile wait) d else d in
        if waited && negb (woken wait) then (false, d)
        else
          match converted with
          | None => (false, d)
          | Some bytes =>
              (true, set_buffers (m_buffers (device d) ++ bytes) d)
          end
    end.

(** The bytes copied into the buffers queued back, in order. *)
Fixpoint played (tr : list StreamEvent) : list Z :=
  match tr with
  | [] => []
  | EvStreamQueueBuffer _ (Some bytes) :: rest => bytes ++ played rest
  | _ :: rest => played rest
  end.

(** What happens to a playing stream, one step at a time: a callback of
    the stream thread, or a [write] of the application. *)
Inductive StreamStep : Type :=
| StepProcess (buffer : option PwBuffer)
| StepWrite (packet : AkAudioPacket) (converted : option (list Z))
            (wait : Wait).

Definition stepStream (st : StreamStep) (d : Stream) : Stream :=
  match st with
  | StepProcess buffer => onProcess buffer d
  | StepWrite packet converted wait => snd (write packet converted wait d)
  end.

(** The bytes a step adds to the buffer: those of a [write] that
    reports success. *)
Definition stepWritten (st : StreamStep) (d : Stream) : list Z :=
  match st with
  | StepProcess _ => []
  | StepWrite packet converted wait =>
      if fst (write packet converted wait d)
      then match converted with Some bytes => bytes | None => [] end
      else []
  end.

Fixpoint runStream (steps : list StreamStep) (d : Stream) : Stream :=
  match steps with
  | [] => d
  | st :: rest => runStream rest (stepStream st d)
  end.

Fixpoint written (steps : list StreamStep) (d : Stream) : list Z :=
  match steps with
  | [] => []
  | st :: rest => stepWritten st d ++ written rest (stepStream st d)
  end.

End PipeWireIO.

(** The loop of [supportedFormats] and of [supportedChannelLayouts], for
    any projection [key] of the formats. *)
Fixpoint collect {A B : Type} (eqb : B -> B -> bool) (key : A -> B)
         (fs : list A) (acc : list B) : list B :=
  match fs with
  | [] => acc
  | f :: rest =>
      collect eqb key rest (if existsb (eqb (key f)) acc then acc
                            else acc ++ [key f])
  end.

(* ===================================================================== *)
(** * The PipeWire audio device: the registry of devices *)
(* ===================================================================== *)

Module PipeWireRegistry.
Import PipeWire.

(** [m_deviceIds[id]] as [readFormats] and [nodeInfoChanged] take it: a
    reference to the name bound to [id], for which [QMap::operator[]]
    first binds an empty name to an [id] the map does not have. *)
Definition deviceIdRef (id : Z) (s : State) : State :=
  if qmap_contains id (m_deviceIds s) then s
  else set_m_deviceIds (qmap_insert id EmptyString (m_deviceIds s)) s.

(** The devices the registry callbacks can lead to from a new one, when
    every id the registry announces is one the device does not know at
    that time. *)
Inductive Registry : State -> Prop :=
| Registry_new : Registry newDevice
| Registry_added id isNode props node s :
    Registry s ->
    qmap_contains id (m_deviceIds s) = false ->
    Registry (deviceAdded id isNode props node s)
| Registry_removed id s :
    Registry s -> Registry (deviceRemoved id s)
| Registry_ref id s :
    Registry s -> Registry (deviceIdRef id s).

(** The maps agree: they are ordered, what the sinks and the sources
    list is what [m_deviceIds] binds, no id is both a sink and a source,
    and a default that is set names a listed device. *)
Record RegistryOk (s : State) : Prop := mkRegistryOk {
  ok_sinks_ordered : qmap_ordered (m_sinks s);
  ok_sources_ordered : qmap_ordered (m_sources s);
  ok_ids_ordered : qmap_ordered (m_deviceIds s);
  ok_sinks_known : forall e, In e (m_sinks s) -> In e (m_deviceIds s);
  ok_sources_known : forall e, In e (m_sources s) -> In e (m_deviceIds s);
  ok_apart : forall id, qmap_contains id (m_sinks s) = true ->
                        qmap_contains id (m_sources s) = false;
  ok_defaultSource : m_defaultSource s = EmptyString
                     \/ In (m_defaultSource s) (inputs s);
  ok_defaultSink : m_defaultSink s = EmptyString
                   \/ In (m_defaultSink s) (outputs s)
}.

End PipeWireRegistry.

(** ** [Av1PixFormatTable::byAv1Format] *)

Definition RaChromaSampling_eq_dec (a b : Rav1e.RaChromaSampling)
  : {a = b} + {a <> b}.
Proof. decide equality. Defined.

Definition RaChromaSampling_eqb (a b : Rav1e.RaChromaSampling) : bool :=
  if RaChromaSampling_eq_dec a b then true else false.

(** [byAv1Format]: walk the rows up to the [Format_none] row, which is
    returned when nothing matched. *)
Fixpoint byAv1Format_from (rows : list Rav1e.Av1PixFormatTable)
         (format : Rav1e.RaChromaSampling) (depth : Z)
  : Rav1e.Av1PixFormatTable :=
  match rows with
  | [] => Rav1e.mkPix Rav1e.Format_none Rav1e.RaChromaSampling_minus1 0
  | row :: rest =>
      if Rav1e.PixelFormat_eqb (Rav1e.pixFormat row) Rav1e.Format_none
      then row
      else if RaChromaSampling_eqb (Rav1e.av1Format row) format
              && (Rav1e.depth row =? depth)
      then row
      else byAv1Format_from rest format depth
  end.

Definition byAv1Format (format : Rav1e.RaChromaSampling) (depth : Z)
  : Rav1e.Av1PixFormatTable :=
  byAv1Format_from Rav1e.table format depth.

(** A PipeWire device that was told of a source and a sink and then of
    the source going away. *)
Definition sinkLeft : PipeWire.State :=
  PipeWire.deviceRemoved 31
    (PipeWire.deviceAdded 44 true
       (Some (PipeWire.mkProps (Some "Audio/Sink"%string)
                               (Some "speakers"%string) None))
       (Some 2)
       (PipeWire.deviceAdded 31 true
          (Some (PipeWire.mkProps (Some "Audio/Source"%string)
                                  (Some "microphone"%string) None))
          (Some 1) PipeWire.newDevice)).


(* ===================================================================== *)
(** * Properties of [nearestSampleRate] *)
(* ===================================================================== *)

Module NearestProofs.
Import MachineInt Faac.

Lemma to_int_small z : - 2 ^ 31 <= z < 2 ^ 31 -> to_int z = z.
Proof.
  intros Hz. unfold to_int, to_signed.
  rewrite Z.mod_small; lia.
Qed.

Lemma to_int_high z : 2 ^ 31 <= z < 2 ^ 32 + 2 ^ 31 -> to_int z = z - 2 ^ 32.
Proof.
  intros Hz. unfold to_int, to_signed.
  replace (z + 2 ^ (32 - 1)) with ((z - 2 ^ 31) + 1 * 2 ^ 32) by lia.
  rewrite Z.mod_add by lia.
  rewrite Z.mod_small; lia.
Qed.

Lemma to_quint64_small z : 0 <= z < 2 ^ 64 -> to_quint64 z = z.
Proof. intros Hz. unfold to_quint64, to_unsigned. apply Z.mod_small; lia. Qed.

(** Without overflow the loop's [k] is the distance. *)
Lemma kdist_exact rate s :
  - 2 ^ 31 < s - rate < 2 ^ 31 -> kdist rate s = Z.abs (s - rate).
Proof.
  intros Hd. unfold kdist, qAbs.
  rewrite (to_int_small (s - rate)) by lia.
  destruct (0 <=? s - rate) eqn:E.
  - apply Z.leb_le in E. rewrite to_quint64_small by lia. lia.
  - apply Z.leb_gt in E. rewrite to_int_small by lia.
    rewrite to_quint64_small by lia. lia.
Qed.

(** The loop returns the start value when no entry beats [q], and
    otherwise the first entry of least [k]. *)
Lemma FirstLeast_cons_lt (f : Z -> Z) s l r :
  f r < f s -> FirstLeast f l r -> FirstLeast f (s :: l) r.
Proof.
  intros Hlt (before & after & Hl & Hb & Ha).
  exists (s :: before), after. split; [simpl; f_equal; exact Hl|].
  split; [|exact Ha].
  intros x [<- | Hx]; [exact Hlt | apply Hb, Hx].
Qed.

Lemma loop_first_least rate l :
  forall tail nearest q,
    (forall s, In s l -> s <> 0) ->
    let r := nearestSampleRate_loop (l ++ 0 :: tail) rate nearest q in
    (r = nearest /\ forall s, In s l -> q <= kdist rate s)
    \/ (kdist rate r < q /\ FirstLeast (kdist rate) l r).
Proof.
  induction l as [|s l IH]; intros tail nearest q Hnz; simpl.
  - left. split; [reflexivity | intros s []].
  - assert (Hs : s <> 0) by (apply Hnz; left; reflexivity).
    apply Z.eqb_neq in Hs. rewrite Hs.
    assert (Hnz' : forall x, In x l -> x <> 0)
      by (intros x Hx; apply Hnz; right; exact Hx).
    fold (kdist rate s).
    destruct (kdist rate s <? q) eqn:E.
    + apply Z.ltb_lt in E.
      specialize (IH tail s (kdist rate s) Hnz'). simpl in IH.
      remember (nearestSampleRate_loop (l ++ 0 :: tail) rate s (kdist rate s))
        as r eqn:Hr.
      clear Hr. destruct IH as [[Heq Hall] | [Hlt Hfl]].
      * subst r. right. split; [exact E|].
        exists [], l. repeat split; [intros x [] | exact Hall].
      * right. split; [lia|].
        apply FirstLeast_cons_lt; assumption.
    + apply Z.ltb_ge in E.
      specialize (IH tail nearest q Hnz'). simpl in IH.
      remember (nearestSampleRate_loop (l ++ 0 :: tail) rate nearest q)
        as r eqn:Hr.
      clear Hr. destruct IH as [[Heq Hall] | [Hlt Hfl]].
      * left. split; [exact Heq|].
        intros x [<- | Hx]; [exact E | apply Hall, Hx].
      * right. split; [exact Hlt|].
        apply FirstLeast_cons_lt; [lia | assumption].
Qed.

Lemma to_int_range z : - 2 ^ 31 <= to_int z < 2 ^ 31.
Proof.
  unfold to_int, to_signed.
  pose proof (Z.mod_pos_bound (z + 2 ^ (32 - 1)) (2 ^ 32) ltac:(lia)).
  change (2 ^ (32 - 1)) with (2 ^ 31) in *.
  change (2 ^ 32) with (2 * 2 ^ 31) in *. lia.
Qed.

(** Whatever the rate, [k] stays below the start value of [q]: the first
    table entry always replaces the initial [nearest]. *)
Lemma kdist_lt_max rate s : kdist rate s < quint64_max.
Proof.
  unfold kdist, qAbs.
  pose proof (to_int_range (s - rate)) as Ht.
  destruct (0 <=? to_int (s - rate)) eqn:E.
  - apply Z.leb_le in E. rewrite to_quint64_small; unfold quint64_max; lia.
  - apply Z.leb_gt in E.
    destruct (Z.eq_dec (to_int (s - rate)) (- 2 ^ 31)) as [Hm | Hm].
    + rewrite Hm. reflexivity.
    + rewrite to_int_small by lia.
      rewrite to_quint64_small; unfold quint64_max; lia.
Qed.

(** [nearestSampleRate] returns the first supported rate of least [k]. *)
Lemma nearestSampleRate_first_least rate :
  FirstLeast (kdist rate) supportedRates (nearestSampleRate rate).
Proof.
  pose proof (loop_first_least rate supportedRates [] rate quint64_max) as H.
  destruct H as [[_ Hall] | [_ Hfl]].
  - intros s Hs. simpl in Hs.
    repeat (destruct Hs as [<- | Hs]; [discriminate|]). destruct Hs.
  - exfalso. specialize (Hall 8000 (or_introl eq_refl)).
    pose proof (kdist_lt_max rate 8000). lia.
  - exact Hfl.
Qed.

(** Two cost functions that agree on the table have the same first
    least entry. *)
Lemma FirstLeast_ext (f g : Z -> Z) tbl r :
  (forall s, In s tbl -> f s = g s) ->
  FirstLeast f tbl r -> FirstLeast g tbl r.
Proof.
  intros Hfg (before & after & -> & Hb & Ha).
  assert (Hr : f r = g r) by (apply Hfg, in_or_app; right; left; reflexivity).
  exists before, after. repeat split.
  - intros s Hs. rewrite <- Hr, <- (Hfg s); [apply Hb, Hs|].
    apply in_or_app; left; exact Hs.
  - intros s Hs. rewrite <- Hr, <- (Hfg s); [apply Ha, Hs|].
    apply in_or_app; right; right; exact Hs.
Qed.

(** An entry that is strictly least by one cost and least by the other,
    at the head of the table, is the first least of both. *)
Lemma FirstLeast_head (f g : Z -> Z) s tbl r :
  (forall x, In x tbl -> f s <= f x) ->
  (forall x, In x tbl -> g s <= g x) ->
  FirstLeast f (s :: tbl) r -> r = s /\ FirstLeast g (s :: tbl) s.
Proof.
  intros Hf Hg (before & after & Heq & Hb & Ha).
  destruct before as [|b before]; simpl in Heq.
  - injection Heq as <- <-. split; [reflexivity|].
    exists [], tbl. repeat split; [intros x [] | exact Hg].
  - injection Heq as Hsb Htbl.
    assert (Hlt : f r < f b) by (apply Hb; left; reflexivity).
    assert (Hle : f s <= f r).
    { apply Hf. rewrite Htbl. apply in_or_app. right; left; reflexivity. }
    subst b. lia.
Qed.

Lemma FirstLeast_least (f : Z -> Z) tbl r :
  FirstLeast f tbl r -> In r tbl /\ forall x, In x tbl -> f r <= f x.
Proof.
  intros (before & after & -> & Hb & Ha). split.
  - apply in_or_app. right; left; reflexivity.
  - intros x Hx. apply in_app_or in Hx. destruct Hx as [Hx | [<- | Hx]].
    + apply Z.lt_le_incl, Hb, Hx.
    + lia.
    + apply Ha, Hx.
Qed.

(** Above [96000 - 2^31] no subtraction overflows. *)
Lemma nearest_high_range rate :
  96000 - 2 ^ 31 < rate <= int_max ->
  NearestSupported rate (nearestSampleRate rate).
Proof.
  intros Hr. unfold int_max in Hr.
  apply (FirstLeast_ext (kdist rate)); [|apply nearestSampleRate_first_least].
  intros s Hs. apply kdist_exact. simpl in Hs.
  repeat (destruct Hs as [<- | Hs]; [lia|]). destruct Hs.
Qed.

(** The subtractions of the loop stay in [int] exactly for the rates
    above [96000 - 2^31]. *)
Lemma nearestSampleRateDefined_iff rate :
  int_min <= rate <= int_max ->
  nearestSampleRateDefined rate = true <-> 96000 - 2 ^ 31 < rate.
Proof.
  intros Hr. unfold int_min, int_max in Hr.
  unfold nearestSampleRateDefined, faacEncSupportedSampleRates.
  cbn [nearestSampleRateDefined_loop].
  repeat match goal with
         | |- context [?n =? 0] =>
             change (n =? 0) with false || change (n =? 0) with true
         end.
  cbv iota. unfold int_min, int_max.
  rewrite !andb_true_iff, !Z.ltb_lt, !Z.leb_le. lia.
Qed.

End NearestProofs.

(** The nearest-rate property for the rates no subtraction overflows
    on. *)
Lemma nearest_rate_in_range rate :
  96000 - 2 ^ 31 < rate <= MachineInt.int_max ->
  NearestSupported rate (Faac.nearestSampleRate rate).
Proof. apply NearestProofs.nearest_high_range. Qed.

(** C3. For every [int] rate on which the run of [nearestSampleRate] has
    defined behaviour, that is on which no [*srate - rate] leaves [int],
    the function returns an entry of the supported-rate table whose
    absolute distance to the rate is least over the table, and among
    equidistant entries the one that comes first in table order. These
    are the rates above [96000 - 2^31], among them every rate of valid
    caps; on the others the C++ subtraction overflows. *)
Theorem nearestSampleRate_nearest_first :
  forall rate : Z,
    MachineInt.int_min <= rate <= MachineInt.int_max ->
    (Faac.nearestSampleRateDefined rate = true <-> 96000 - 2 ^ 31 < rate)
    /\ (Faac.nearestSampleRateDefined rate = true ->
        NearestSupported rate (Faac.nearestSampleRate rate)).
Proof.
  intros rate Hr.
  pose proof (NearestProofs.nearestSampleRateDefined_iff rate Hr) as Hiff.
  split; [exact Hiff|].
  intros Hd. apply nearest_rate_in_range.
  split; [apply Hiff, Hd | apply Hr].
Qed.

(** The theorem at 46050, midway between 44100 and 48000: 44100, which
    comes first in the table, is the answer. *)
Lemma nearestSampleRate_nearest_first_witness :
  Faac.nearestSampleRateDefined 46050 = true
  /\ Faac.nearestSampleRate 46050 = 44100
  /\ NearestSupported 46050 (Faac.nearestSampleRate 46050).
Proof.
  split; [reflexivity|]. split; [reflexivity|].
  apply (nearestSampleRate_nearest_first 46050).
  - unfold MachineInt.int_min, MachineInt.int_max. lia.
  - reflexivity.
Defined.

(* ===================================================================== *)
(** * Properties of the AAC encoder element *)
(* ===================================================================== *)

Module FaacProofs.
Import MachineInt Ak Faac.

Lemma QByteArray_eqb_eq a b : QByteArray_eqb a b = true -> a = b.
Proof.
  unfold QByteArray_eqb. destruct (list_eq_dec Z.eq_dec a b); congruence.
Qed.

(** Whatever was there before, after [updateHeaders] the stored headers
    are the packed AudioSpecificConfig, 32 bytes long. *)
Lemma updateHeaders_headers cfg s :
  m_headers (updateHeaders cfg s)
  = bitsToByteArray
      (resize (audioSpecificConfig (aacObjectType cfg)
                 (a_rate (ca_rawCaps (m_outputCaps s)))
                 (a_channels (ca_rawCaps (m_outputCaps s))))
              (32 * 8)).
Proof.
  unfold updateHeaders.
  match goal with |- context [QByteArray_eqb ?a ?b] =>
    destruct (QByteArray_eqb a b) eqn:E end.
  - apply QByteArray_eqb_eq in E. exact E.
  - reflexivity.
Qed.

(** Encoding frames leaves the caps, the encoder handle and the
    life-cycle flags alone. *)
Lemma encodeFrame_fields writtenBytes src s :
  m_outputCaps (encodeFrame writtenBytes src s) = m_outputCaps s
  /\ inputCaps (encodeFrame writtenBytes src s) = inputCaps s
  /\ m_encoder (encodeFrame writtenBytes src s) = m_encoder s
  /\ m_initialized (encodeFrame writtenBytes src s) = m_initialized s.
Proof.
  unfold encodeFrame, sendFrame.
  destruct (audioPacketValid src); cbn [negb]; [|repeat split].
  cbv zeta. destruct (writtenBytes <? 0); [repeat split|].
  destruct (0 <? writtenBytes); repeat split.
Qed.

Lemma encodeFrames_fields frames :
  forall s,
    m_outputCaps (encodeFrames frames s) = m_outputCaps s
    /\ inputCaps (encodeFrames frames s) = inputCaps s
    /\ m_encoder (encodeFrames frames s) = m_encoder s
    /\ m_initialized (encodeFrames frames s) = m_initialized s.
Proof.
  induction frames as [|[wb src] frames IH]; intros s; [repeat split|].
  cbn [encodeFrames].
  destruct (IH (encodeFrame wb src s)) as (H1 & H2 & H3 & H4).
  destruct (encodeFrame_fields wb src s) as (G1 & G2 & G3 & G4).
  rewrite H1, H2, H3, H4. repeat split; assumption.
Qed.

Lemma uninit_fields nat s :
  m_outputCaps (uninit nat s) = m_outputCaps s
  /\ inputCaps (uninit nat s) = inputCaps s
  /\ m_initialized (uninit nat s) = false.
Proof.
  unfold uninit. destruct (m_initialized s) eqn:Hi; cbn [negb];
    [|repeat split; exact Hi].
  cbv zeta. cbn [m_fillAudioGaps set_m_initialized].
  destruct (m_fillAudioGaps s).
  - match goal with |- context [encodeFrames ?f ?st] =>
      destruct (encodeFrames_fields f st) as (H1 & H2 & H3 & H4);
      set (e := encodeFrames f st) in *
    end.
    cbn in H1, H2, H3, H4.
    destruct (m_encoder e); cbn; rewrite H1, H2, H4; repeat split.
  - cbn. destruct (m_encoder s); repeat split.
Qed.

Lemma uninit_outputCaps nat s : m_outputCaps (uninit nat s) = m_outputCaps s.
Proof. apply uninit_fields. Qed.

(** A successful [init] leaves the headers [updateHeaders] packs for the
    object type [LOW] and the output caps the element had. *)
Lemma init_headers nat s :
  fst (init nat s) = true ->
  m_headers (snd (init nat s))
  = bitsToByteArray
      (resize (audioSpecificConfig LOW
                 (a_rate (ca_rawCaps (m_outputCaps s)))
                 (a_channels (ca_rawCaps (m_outputCaps s))))
              (32 * 8)).
Proof.
  unfold init.
  destruct (negb (audioCapsValid (inputCaps (uninit nat s))));
    [discriminate|].
  destruct (encOpen nat) as [[[h inputSamples] maxOut]|]; [|discriminate].
  cbv zeta.
  destruct (negb (versionMatches nat)); [discriminate|].
  destruct (negb (setConfigurationOk nat)); [discriminate|].
  intros _. unfold snd.
  match goal with |- context [updateHeaders ?c ?st] =>
    pose proof (updateHeaders_headers c st) as Hh;
    set (u := updateHeaders c st) in *
  end.
  assert (Ho : m_outputCaps (uninit nat s) = m_outputCaps s)
    by apply uninit_outputCaps.
  destruct (m_fillAudioGaps u); cbn [m_headers set_m_initialized set_m_encodedTimePts set_m_pts emit];
  rewrite Hh; cbn [m_outputCaps set_m_config emit set_m_maxOutputBytes set_m_encoder aacObjectType];
  rewrite Ho; reflexivity.
Qed.

End FaacProofs.

(** C2. With output caps of 44100 Hz and two channels, the header blob
    [updateHeaders] produces for the object type [init] configures
    ([LOW]) starts, most significant bit first, with the 5 bits of 2
    ([LOW]), then the 4 bits of sample-rate index 4, then the 4 bits of
    channel count 2; this is the blob a successful [init] leaves. *)
Theorem headers_44100_stereo :
  forall s : Faac.State,
    Ak.a_rate (Ak.ca_rawCaps (Faac.m_outputCaps s)) = 44100 ->
    Ak.a_channels (Ak.ca_rawCaps (Faac.m_outputCaps s)) = 2 ->
    (forall cfg, Faac.aacObjectType cfg = Faac.LOW ->
                 LowStereo44100 (Faac.m_headers (Faac.updateHeaders cfg s)))
    /\ (forall nat, fst (Faac.init nat s) = true ->
                    LowStereo44100 (Faac.m_headers (snd (Faac.init nat s)))).
Proof.
  intros s Hrate Hch. split.
  - intros cfg Hcfg. rewrite FaacProofs.updateHeaders_headers.
    rewrite Hcfg, Hrate, Hch. vm_compute. repeat split.
  - intros nat Hok. rewrite (FaacProofs.init_headers nat s Hok).
    rewrite Hrate, Hch. vm_compute. repeat split.
Qed.

(** The theorem on an encoder fed 44100 Hz stereo input. *)
Lemma headers_44100_stereo_witness :
  fst (Faac.init Sample.faacNative Sample.faacElement) = true
  /\ Faac.m_headers (snd (Faac.init Sample.faacNative Sample.faacElement))
     = 18 :: 16 :: 86 :: 229 :: repeat 0 28
  /\ LowStereo44100
       (Faac.m_headers (snd (Faac.init Sample.faacNative Sample.faacElement))).
Proof.
  split; [reflexivity|]. split; [vm_compute; reflexivity|].
  exact (proj2 (headers_44100_stereo Sample.faacElement eq_refl eq_refl)
               Sample.faacNative eq_refl).
Defined.

(* ===================================================================== *)
(** * Output caps of the encoders *)
(* ===================================================================== *)

Module CapsProofs.
Import MachineInt Ak.

Lemma SampleFormat_eqb_eq a b : SampleFormat_eqb a b = true -> a = b.
Proof. destruct a, b; simpl; congruence. Qed.

Lemma ChannelLayout_eqb_eq a b : ChannelLayout_eqb a b = true -> a = b.
Proof.
  destruct a, b; simpl; try congruence.
  intros E. apply Z.eqb_eq in E. congruence.
Qed.

Lemma AudioCodecID_eqb_eq a b : AudioCodecID_eqb a b = true -> a = b.
Proof. destruct a, b; simpl; congruence. Qed.

Lemma AkAudioCaps_eqb_eq a b : AkAudioCaps_eqb a b = true -> a = b.
Proof.
  destruct a, b. unfold AkAudioCaps_eqb. simpl. intros E.
  repeat (apply andb_true_iff in E; destruct E as [E ?]).
  f_equal.
  - apply SampleFormat_eqb_eq; assumption.
  - apply ChannelLayout_eqb_eq; assumption.
  - apply Bool.eqb_prop; assumption.
  - apply Z.eqb_eq; assumption.
Qed.

Lemma AkCompressedAudioCaps_eqb_eq a b :
  AkCompressedAudioCaps_eqb a b = true -> a = b.
Proof.
  destruct a, b. unfold AkCompressedAudioCaps_eqb. simpl. intros E.
  apply andb_true_iff in E. destruct E as [E1 E2]. f_equal.
  - apply AudioCodecID_eqb_eq; assumption.
  - apply AkAudioCaps_eqb_eq; assumption.
Qed.

Lemma faac_format_choice f :
  Faac.format
    (if SampleFormat_eqb (Faac.format (Faac.byFormat f)) SampleFormat_none
     then Faac.byFormat SampleFormat_s16 else Faac.byFormat f)
  = faacFormatFor f.
Proof. destruct f; reflexivity. Qed.

Lemma faac_updateOutputCaps_main inCaps s :
  audioCapsValid inCaps = true ->
  Faac.codecID (Faac.codec s) <> AudioCodecID_unknown ->
  Faac.m_outputCaps (Faac.updateOutputCaps inCaps s)
  = faacDerived inCaps (Faac.codecID (Faac.codec s)).
Proof.
  intros Hv Hc. unfold Faac.updateOutputCaps. rewrite Hv. cbn [negb].
  destruct (AudioCodecID_eqb (Faac.codecID (Faac.codec s))
                             AudioCodecID_unknown) eqn:E.
  - apply AudioCodecID_eqb_eq in E. contradiction.
  - cbv zeta. rewrite faac_format_choice. fold (faacDerived inCaps
      (Faac.codecID (Faac.codec s))).
    set (d := faacDerived inCaps (Faac.codecID (Faac.codec s))).
    destruct (Faac.m_fillAudioGaps s); cbn [Faac.m_outputCaps Faac.emit].
    + destruct (AkCompressedAudioCaps_eqb (Faac.m_outputCaps s) d) eqn:Eq.
      * apply AkCompressedAudioCaps_eqb_eq in Eq. exact Eq.
      * reflexivity.
    + destruct (AkCompressedAudioCaps_eqb (Faac.m_outputCaps s) d) eqn:Eq.
      * apply AkCompressedAudioCaps_eqb_eq in Eq. exact Eq.
      * reflexivity.
Qed.

(** On the two other paths the output caps end up empty. *)
Lemma faac_updateOutputCaps_empty inCaps s :
  audioCapsValid inCaps = false
  \/ Faac.codecID (Faac.codec s) = AudioCodecID_unknown ->
  compressedAudioCapsValid
    (Faac.m_outputCaps (Faac.updateOutputCaps inCaps s)) = false.
Proof.
  intros Hor. unfold Faac.updateOutputCaps.
  destruct (audioCapsValid inCaps) eqn:Hv; cbn [negb].
  - destruct Hor as [Hor | Hor]; [discriminate|]. rewrite Hor. cbn.
    destruct (compressedAudioCapsValid (Faac.m_outputCaps s)) eqn:Ho;
      cbn; [reflexivity | exact Ho].
  - destruct (compressedAudioCapsValid (Faac.m_outputCaps s)) eqn:Ho;
      cbn; [reflexivity | exact Ho].
Qed.

Lemma nearest_positive rate r : NearestSupported rate r -> 0 < r.
Proof.
  intros Hn. apply NearestProofs.FirstLeast_least in Hn.
  destruct Hn as [Hin _]. simpl in Hin.
  repeat (destruct Hin as [<- | Hin]; [lia|]). destruct Hin.
Qed.

Lemma faacDerived_ok inCaps cid :
  audioCapsValid inCaps = true ->
  a_rate inCaps <= int_max ->
  cid <> AudioCodecID_unknown ->
  FaacOutputFor inCaps cid (faacDerived inCaps cid).
Proof.
  intros Hv Hmax Hc.
  assert (Hrate : 0 < a_rate inCaps).
  { unfold audioCapsValid in Hv.
    apply andb_true_iff in Hv. destruct Hv as [_ Hv].
    apply Z.ltb_lt in Hv. exact Hv. }
  assert (Hn : NearestSupported (a_rate inCaps)
                 (Faac.nearestSampleRate (a_rate inCaps))).
  { apply nearest_rate_in_range. lia. }
  assert (Hch : a_channels
                  (mkAudioCaps (faacFormatFor (a_format inCaps))
                     (defaultChannelLayout (qBound 1 (a_channels inCaps) 2))
                     false (Faac.nearestSampleRate (a_rate inCaps)))
                = Z.max 1 (Z.min 2 (a_channels inCaps))).
  { unfold a_channels at 1, qBound. cbn [a_layout].
    unfold defaultChannelLayout.
    destruct (Z.max 1 (Z.min 2 (a_channels inCaps)) =? 1) eqn:E1.
    - apply Z.eqb_eq in E1. rewrite E1. reflexivity.
    - destruct (Z.max 1 (Z.min 2 (a_channels inCaps)) =? 2) eqn:E2.
      + apply Z.eqb_eq in E2. rewrite E2. reflexivity.
      + apply Z.eqb_neq in E1, E2. lia. }
  unfold FaacOutputFor, faacDerived. cbn [ca_rawCaps ca_codec].
  split; [|split; [reflexivity|split; [reflexivity|]]].
  - unfold compressedAudioCapsValid, audioCapsValid.
    cbn [ca_rawCaps ca_codec a_format a_layout a_rate].
    apply andb_true_iff. split.
    + destruct cid; [contradiction | reflexivity ..].
    + apply andb_true_iff. split; [apply andb_true_iff; split|].
      * destruct (a_format inCaps); reflexivity.
      * unfold a_channels in *. cbn [a_layout] in Hch.
        destruct (defaultChannelLayout _);
          [simpl in Hch; lia | reflexivity ..].
      * apply Z.ltb_lt. eapply nearest_positive. exact Hn.
  - repeat split.
    + exact Hch.
    + rewrite Hch. lia.
    + rewrite Hch. lia.
    + exact Hn.
Qed.

Import Rav1e.

Lemma PixelFormat_eqb_eq a b : PixelFormat_eqb a b = true -> a = b.
Proof.
  unfold PixelFormat_eqb. destruct (PixelFormat_eq_dec a b); congruence.
Qed.

Lemma VideoCodecID_eqb_eq a b : VideoCodecID_eqb a b = true -> a = b.
Proof.
  unfold VideoCodecID_eqb. destruct (VideoCodecID_eq_dec a b); congruence.
Qed.

Lemma AkFrac_eqb_eq a b : AkFrac_eqb a b = true -> a = b.
Proof.
  destruct a, b. unfold AkFrac_eqb. simpl. intros E.
  apply andb_true_iff in E. destruct E as [E1 E2].
  apply Z.eqb_eq in E1, E2. congruence.
Qed.

Lemma AkVideoCaps_eqb_eq a b : AkVideoCaps_eqb a b = true -> a = b.
Proof.
  destruct a, b. unfold AkVideoCaps_eqb. simpl. intros E.
  repeat (apply andb_true_iff in E; destruct E as [E ?]).
  f_equal.
  - apply PixelFormat_eqb_eq; assumption.
  - apply Z.eqb_eq; assumption.
  - apply Z.eqb_eq; assumption.
  - apply AkFrac_eqb_eq; assumption.
Qed.

Lemma AkCompressedVideoCaps_eqb_eq a b :
  AkCompressedVideoCaps_eqb a b = true -> a = b.
Proof.
  destruct a, b. unfold AkCompressedVideoCaps_eqb. simpl. intros E.
  repeat (apply andb_true_iff in E; destruct E as [E ?]).
  f_equal.
  - apply VideoCodecID_eqb_eq; assumption.
  - apply AkVideoCaps_eqb_eq; assumption.
  - apply Z.eqb_eq; assumption.
Qed.

Lemma rav1e_format_choice f :
  pixFormat
    (if PixelFormat_eqb (pixFormat (byPixFormat f)) Format_none
     then byPixFormat Format_yuv420p else byPixFormat f)
  = av1FormatFor f.
Proof. destruct f; reflexivity. Qed.

Lemma rav1e_updateOutputCaps_main inCaps s :
  videoCapsValid inCaps = true ->
  Rav1e.codecID (Rav1e.codec s) <> VideoCodecID_unknown ->
  Rav1e.m_outputCaps (Rav1e.updateOutputCaps inCaps s)
  = rav1eDerived inCaps (Rav1e.codecID (Rav1e.codec s)) (Rav1e.bitrate s).
Proof.
  intros Hv Hc. unfold Rav1e.updateOutputCaps. rewrite Hv. cbn [negb].
  destruct (VideoCodecID_eqb (Rav1e.codecID (Rav1e.codec s))
                             VideoCodecID_unknown) eqn:E.
  - apply VideoCodecID_eqb_eq in E. contradiction.
  - cbv zeta. rewrite rav1e_format_choice.
    assert (Hd : mkCompressedVideoCaps (Rav1e.codecID (Rav1e.codec s))
                   (mkVideoCaps (av1FormatFor (v_format inCaps))
                      (v_width inCaps) (v_height inCaps)
                      (if negb (fracValid (v_fps inCaps))
                       then mkFrac 30 1 else v_fps inCaps))
                   (Rav1e.bitrate s)
                 = rav1eDerived inCaps (Rav1e.codecID (Rav1e.codec s))
                                (Rav1e.bitrate s)).
    { unfold rav1eDerived. destruct (fracValid (v_fps inCaps)); reflexivity. }
    rewrite Hd.
    destruct (AkCompressedVideoCaps_eqb (Rav1e.m_outputCaps s) _) eqn:Eq.
    + apply AkCompressedVideoCaps_eqb_eq in Eq. exact Eq.
    + reflexivity.
Qed.

Lemma rav1e_updateOutputCaps_empty inCaps s :
  videoCapsValid inCaps = false
  \/ Rav1e.codecID (Rav1e.codec s) = VideoCodecID_unknown ->
  compressedVideoCapsValid
    (Rav1e.m_outputCaps (Rav1e.updateOutputCaps inCaps s)) = false.
Proof.
  intros Hor. unfold Rav1e.updateOutputCaps.
  destruct (videoCapsValid inCaps) eqn:Hv; cbn [negb].
  - destruct Hor as [Hor | Hor]; [discriminate|]. rewrite Hor. cbn.
    destruct (compressedVideoCapsValid (Rav1e.m_outputCaps s)) eqn:Ho;
      cbn; [reflexivity | exact Ho].
  - destruct (compressedVideoCapsValid (Rav1e.m_outputCaps s)) eqn:Ho;
      cbn; [reflexivity | exact Ho].
Qed.

Lemma rav1eDerived_ok inCaps cid bitrate :
  videoCapsValid inCaps = true ->
  cid <> VideoCodecID_unknown ->
  Rav1eOutputFor inCaps cid (rav1eDerived inCaps cid bitrate).
Proof.
  intros Hv Hc. unfold Rav1eOutputFor, rav1eDerived.
  cbn [cv_rawCaps cv_codec v_format v_width v_height].
  split; [|repeat split].
  unfold compressedVideoCapsValid, videoCapsValid in *.
  cbn [cv_rawCaps cv_codec v_format v_width v_height].
  apply andb_true_iff in Hv. destruct Hv as [Hv Hh].
  apply andb_true_iff in Hv. destruct Hv as [_ Hw].
  rewrite Hw, Hh.
  assert (Hcid : VideoCodecID_eqb cid VideoCodecID_unknown = false).
  { unfold VideoCodecID_eqb.
    destruct (VideoCodecID_eq_dec cid VideoCodecID_unknown);
      [contradiction | reflexivity]. }
  rewrite Hcid.
  destruct (v_format inCaps); reflexivity.
Qed.

End CapsProofs.

(** C7. For valid input caps and a known codec the derived output caps
    are never empty: the AAC encoder puts [s16] for a sample format it
    does not have, brings the channel count into [1, 2] and takes the
    nearest supported rate; the AV1 encoder puts [yuv420p] for a pixel
    format it does not have. Output caps are empty after the derivation
    exactly when the input caps are empty or the codec is unknown. *)
Theorem output_caps_fall_back_not_fail :
  (forall (inCaps : Ak.AkAudioCaps) (s : Faac.State),
      Ak.audioCapsValid inCaps = true ->
      Ak.a_rate inCaps <= MachineInt.int_max ->
      Faac.codecID (Faac.codec s) <> Ak.AudioCodecID_unknown ->
      FaacOutputFor inCaps (Faac.codecID (Faac.codec s))
                    (Faac.m_outputCaps (Faac.updateOutputCaps inCaps s)))
  /\ (forall (inCaps : Rav1e.AkVideoCaps) (s : Rav1e.State),
         Rav1e.videoCapsValid inCaps = true ->
         Rav1e.codecID (Rav1e.codec s) <> Rav1e.VideoCodecID_unknown ->
         Rav1eOutputFor inCaps (Rav1e.codecID (Rav1e.codec s))
           (Rav1e.m_outputCaps (Rav1e.updateOutputCaps inCaps s)))
  /\ (forall (inCaps : Ak.AkAudioCaps) (s : Faac.State),
         Ak.a_rate inCaps <= MachineInt.int_max ->
         Ak.compressedAudioCapsValid
           (Faac.m_outputCaps (Faac.updateOutputCaps inCaps s)) = false ->
         Ak.audioCapsValid inCaps = false
         \/ Faac.codecID (Faac.codec s) = Ak.AudioCodecID_unknown)
  /\ (forall (inCaps : Rav1e.AkVideoCaps) (s : Rav1e.State),
         Rav1e.compressedVideoCapsValid
           (Rav1e.m_outputCaps (Rav1e.updateOutputCaps inCaps s)) = false ->
         Rav1e.videoCapsValid inCaps = false
         \/ Rav1e.codecID (Rav1e.codec s) = Rav1e.VideoCodecID_unknown).
Proof.
  assert (HA : forall (inCaps : Ak.AkAudioCaps) (s : Faac.State),
             Ak.audioCapsValid inCaps = true ->
             Ak.a_rate inCaps <= MachineInt.int_max ->
             Faac.codecID (Faac.codec s) <> Ak.AudioCodecID_unknown ->
             FaacOutputFor inCaps (Faac.codecID (Faac.codec s))
               (Faac.m_outputCaps (Faac.updateOutputCaps inCaps s))).
  { intros inCaps s Hv Hmax Hc.
    rewrite CapsProofs.faac_updateOutputCaps_main by assumption.
    apply CapsProofs.faacDerived_ok; assumption. }
  assert (HV : forall (inCaps : Rav1e.AkVideoCaps) (s : Rav1e.State),
             Rav1e.videoCapsValid inCaps = true ->
             Rav1e.codecID (Rav1e.codec s) <> Rav1e.VideoCodecID_unknown ->
             Rav1eOutputFor inCaps (Rav1e.codecID (Rav1e.codec s))
               (Rav1e.m_outputCaps (Rav1e.updateOutputCaps inCaps s))).
  { intros inCaps s Hv Hc.
    rewrite CapsProofs.rav1e_updateOutputCaps_main by assumption.
    apply CapsProofs.rav1eDerived_ok; assumption. }
  split; [exact HA|]. split; [exact HV|]. split.
  - intros inCaps s Hmax Hempty.
    destruct (Ak.audioCapsValid inCaps) eqn:Hv; [|left; reflexivity].
    destruct (Ak.AudioCodecID_eqb (Faac.codecID (Faac.codec s))
                                  Ak.AudioCodecID_unknown) eqn:Hc.
    + right. apply CapsProofs.AudioCodecID_eqb_eq. exact Hc.
    + exfalso.
      assert (Hne : Faac.codecID (Faac.codec s) <> Ak.AudioCodecID_unknown)
        by (intros E; rewrite E in Hc; discriminate).
      destruct (HA inCaps s Hv Hmax Hne) as [Hvalid _]. congruence.
  - intros inCaps s Hempty.
    destruct (Rav1e.videoCapsValid inCaps) eqn:Hv; [|left; reflexivity].
    destruct (Rav1e.VideoCodecID_eq_dec (Rav1e.codecID (Rav1e.codec s))
                                        Rav1e.VideoCodecID_unknown)
      as [Hc | Hc]; [right; exact Hc|].
    exfalso. destruct (HV inCaps s Hv Hc) as [Hvalid _]. congruence.
Qed.

(** The theorem on six-channel float audio at 50 kHz, which comes out as
    stereo [s16] at 48 kHz, and on packed RGB video, which comes out as
    [yuv420p]. *)
Lemma output_caps_fall_back_not_fail_witness :
  Faac.m_outputCaps
    (Faac.updateOutputCaps Sample.surroundFloat (Faac.newElement true))
  = Ak.mkCompressedAudioCaps Ak.AudioCodecID_aac
      (Ak.mkAudioCaps Ak.SampleFormat_s16 Ak.Layout_stereo false 48000)
  /\ FaacOutputFor Sample.surroundFloat Ak.AudioCodecID_aac
       (Faac.m_outputCaps
          (Faac.updateOutputCaps Sample.surroundFloat (Faac.newElement true)))
  /\ Rav1eOutputFor Sample.rgbVideo Rav1e.VideoCodecID_av1
       (Rav1e.m_outputCaps
          (Rav1e.updateOutputCaps Sample.rgbVideo Sample.rav1eElement)).
Proof.
  split; [reflexivity|]. split.
  - apply (proj1 output_caps_fall_back_not_fail Sample.surroundFloat
                 (Faac.newElement true)).
    + reflexivity.
    + vm_compute. discriminate.
    + discriminate.
  - apply (proj1 (proj2 output_caps_fall_back_not_fail) Sample.rgbVideo
                 Sample.rav1eElement).
    + reflexivity.
    + discriminate.
Defined.

(* ===================================================================== *)
(** * The element life cycle *)
(* ===================================================================== *)

Module LifeCycleProofs.
Import MachineInt Ak.

Lemma faac_uninit_not_initialized nat s :
  Faac.m_initialized s = false -> Faac.uninit nat s = s.
Proof. intros Hi. unfold Faac.uninit. rewrite Hi. reflexivity. Qed.

Lemma faac_uninit_initialized nat s :
  Faac.m_initialized (Faac.uninit nat s) = false.
Proof. apply FaacProofs.uninit_fields. Qed.

Lemma faac_setState_same nat s :
  Faac.setState nat (Faac.state s) s = (false, s).
Proof. unfold Faac.setState. destruct (Faac.state s); reflexivity. Qed.

Lemma pipewire_uninit_no_stream s :
  NoStream s -> PipeWire.uninit s = (true, s).
Proof.
  intros (Hl & Hc & Hs & Hb). destruct s. simpl in *. subst.
  reflexivity.
Qed.

Lemma pipewire_uninit_leaves_no_stream s :
  NoStream (snd (PipeWire.uninit s)).
Proof.
  destruct s as [dsink dsource sinks sources ids loop context stream
                 buffers tr].
  destruct loop, context, stream; repeat split.
Qed.

Section Muxer.
Context {R : Type} `{QReal.Ops R}.
Implicit Types s : Webm.State R.

Lemma webm_uninit_not_initialized nat s :
  Webm.m_initialized s = false -> Webm.uninit nat s = s.
Proof. intros Hi. unfold Webm.uninit. rewrite Hi. reflexivity. Qed.

Lemma webm_packetReady_initialized p s :
  Webm.m_initialized (Webm.packetReady p s) = Webm.m_initialized s.
Proof.
  unfold Webm.packetReady. destruct (Webm.isAudioPacket p); reflexivity.
Qed.

Lemma webm_packetsReady_initialized ps s :
  Webm.m_initialized (Webm.packetsReady ps s) = Webm.m_initialized s.
Proof.
  revert s. induction ps as [|p ps IH]; intros s; simpl; [reflexivity|].
  rewrite IH. apply webm_packetReady_initialized.
Qed.

Lemma webm_packetsReady_state ps s :
  Webm.state (Webm.packetsReady ps s) = Webm.state s.
Proof.
  revert s. induction ps as [|p ps IH]; intros s; simpl; [reflexivity|].
  rewrite IH. unfold Webm.packetReady.
  destruct (Webm.isAudioPacket p); reflexivity.
Qed.

Lemma webm_moveCues_initialized nat s :
  Webm.m_initialized (fst (Webm.moveCues nat s)) = Webm.m_initialized s.
Proof.
  unfold Webm.moveCues.
  destruct (Webm.readerOpen nat =? 0); cbn; [|reflexivity].
  destruct (Webm.tempDirValid nat); cbn; [|reflexivity].
  destruct (Webm.tmpOpenOk nat); cbn; [|reflexivity].
  destruct (Webm.copyCuesOk nat); reflexivity.
Qed.

Lemma webm_uninit_initialized nat s :
  Webm.m_initialized (Webm.uninit nat s) = false.
Proof.
  unfold Webm.uninit. destruct (Webm.m_initialized s) eqn:Hi; cbn;
    [|exact Hi].
  match goal with |- context [Webm.m_cuesBeforeClusters ?st] =>
    destruct (Webm.m_cuesBeforeClusters st) end.
  - match goal with |- context [Webm.moveCues nat ?st] =>
      pose proof (webm_moveCues_initialized nat st) as Hm;
      destruct (Webm.moveCues nat st) as [s' through]
    end.
    cbn in Hm. rewrite webm_packetsReady_initialized in Hm. cbn in Hm.
    destruct through; cbn; exact Hm.
  - cbn. rewrite webm_packetsReady_initialized. reflexivity.
Qed.

Lemma webm_setState_same nat s :
  Webm.setState nat (Webm.state s) s = (false, s).
Proof. unfold Webm.setState. destruct (Webm.state s); reflexivity. Qed.

End Muxer.
End LifeCycleProofs.

(** C1, as the code has it. [setState] with the current state as target
    (Null to Null, Paused to Paused, Playing to Playing) leaves the
    element as it is, state, members and native resources, and returns
    [false]. *)
Theorem setState_same_state_unchanged_false :
  (forall (nat : Faac.Native) (s : Faac.State),
      Faac.setState nat (Faac.state s) s = (false, s))
  /\ (forall (R : Type) (ops : QReal.Ops R) (nat : Webm.Native)
             (s : Webm.State R),
         Webm.setState nat (Webm.state s) s = (false, s))
  /\ (forall (init : Rav1e.State -> bool * Rav1e.State)
             (uninit : Rav1e.State -> Rav1e.State) (s : Rav1e.State),
         Rav1e.setState init uninit (Rav1e.state s) s = (false, s)).
Proof.
  split; [|split].
  - exact LifeCycleProofs.faac_setState_same.
  - intros R ops. exact LifeCycleProofs.webm_setState_same.
  - intros init uninit s. unfold Rav1e.setState.
    destruct (Rav1e.state s); reflexivity.
Qed.

(** C1 as stated fails on a fresh encoder and on a fresh muxer: Null to
    Null does not return [true]. *)
Lemma setState_null_null_not_true :
  fst (Faac.setState Sample.faacNative Ak.ElementStateNull
                     (Faac.newElement true)) <> true
  /\ fst (Webm.setState Sample.webmNative Ak.ElementStateNull
                        (Sample.muxer Sample.vp8Caps 0)) <> true.
Proof. split; discriminate. Qed.

(** C9. [uninit] on an element that is not initialized changes nothing,
    makes no native call and so releases nothing; after any [uninit] a
    second one changes nothing; and the Null transition of an element in
    the Null state changes nothing either. *)
Theorem uninit_idempotent :
  (forall (nat nat' : Faac.Native) (s : Faac.State),
      (Faac.m_initialized s = false -> Faac.uninit nat s = s)
      /\ Faac.uninit nat' (Faac.uninit nat s) = Faac.uninit nat s)
  /\ (forall (R : Type) (ops : QReal.Ops R) (nat nat' : Webm.Native)
             (s : Webm.State R),
         (Webm.m_initialized s = false -> Webm.uninit nat s = s)
         /\ Webm.uninit nat' (Webm.uninit nat s) = Webm.uninit nat s)
  /\ (forall s : PipeWire.State,
         (NoStream s -> PipeWire.uninit s = (true, s))
         /\ PipeWire.uninit (snd (PipeWire.uninit s))
            = (true, snd (PipeWire.uninit s)))
  /\ PipeWire.uninit PipeWire.newDevice = (true, PipeWire.newDevice)
  /\ (forall (nat : Faac.Native) (s : Faac.State),
         Faac.state s = Ak.ElementStateNull ->
         snd (Faac.setState nat Ak.ElementStateNull s) = s)
  /\ (forall (R : Type) (ops : QReal.Ops R) (nat : Webm.Native)
             (s : Webm.State R),
         Webm.state s = Ak.ElementStateNull ->
         snd (Webm.setState nat Ak.ElementStateNull s) = s).
Proof.
  repeat split.
  - apply LifeCycleProofs.faac_uninit_not_initialized.
  - apply LifeCycleProofs.faac_uninit_not_initialized,
          LifeCycleProofs.faac_uninit_initialized.
  - apply LifeCycleProofs.webm_uninit_not_initialized.
  - apply LifeCycleProofs.webm_uninit_not_initialized,
          LifeCycleProofs.webm_uninit_initialized.
  - apply LifeCycleProofs.pipewire_uninit_no_stream.
  - apply LifeCycleProofs.pipewire_uninit_no_stream,
          LifeCycleProofs.pipewire_uninit_leaves_no_stream.
  - intros nat s Hs. unfold Faac.setState. rewrite Hs. reflexivity.
  - intros R ops nat s Hs. unfold Webm.setState. rewrite Hs. reflexivity.
Qed.

(* ===================================================================== *)
(** * Initialization of the WebM muxer *)
(* ===================================================================== *)

Module MuxerInitProofs.
Import MachineInt Ak Rav1e.

Ltac break_if :=
  match goal with
  | |- context [if ?c then _ else _] => destruct c eqn:?
  end.

Lemma video_codec_unknown_iff c :
  VideoCodecID_eqb (Webm.v_codecID (Webm.VideoCodecsTable_byCodecID c))
                   VideoCodecID_unknown = true
  <-> ~ In c Webm.VideoCodecsTable_codecs.
Proof.
  destruct c; cbn; split; intros Hc; try discriminate; try reflexivity;
    try (exfalso; apply Hc; tauto).
  all: intros Hin; repeat (destruct Hin as [Hin | Hin]; [discriminate|]);
    exact Hin.
Qed.

Lemma audio_codec_unknown_iff c :
  AudioCodecID_eqb (Webm.a_codecID (Webm.AudioCodecsTable_byCodecID c))
                   AudioCodecID_unknown = true
  <-> c <> AudioCodecID_vorbis /\ c <> AudioCodecID_opus.
Proof.
  destruct c; cbn; split; intros Hc; try discriminate; try reflexivity;
    try (split; discriminate); destruct Hc; congruence.
Qed.

Section Muxer.
Context {R : Type} `{QReal.Ops R}.
Implicit Types s : Webm.State R.

(** A configuration error makes [init] fail before it calls anything. *)
Lemma init_configuration_error nat s :
  Webm.m_initialized s = false ->
  ConfigurationError s ->
  fst (Webm.init nat s) = false /\ Untouched s (snd (Webm.init nat s)).
Proof.
  intros Hi Herr. unfold Webm.init.
  rewrite (LifeCycleProofs.webm_uninit_not_initialized nat s Hi).
  cbv zeta.
  destruct (Webm.m_packetSync s) eqn:Hsync; cbn [negb];
    [|split; [reflexivity | split; reflexivity]].
  cbn [Webm.videoCaps Webm.audioCaps Webm.set_m_videoTrackIndex
       Webm.set_m_audioTrackIndex Webm.set_m_videoDuration
       Webm.set_m_audioDuration].
  destruct (compressedVideoCapsValid (Webm.videoCaps s)) eqn:Hv; cbn [negb];
    [|split; [reflexivity | split; reflexivity]].
  destruct (VideoCodecID_eqb
              (Webm.v_codecID
                 (Webm.VideoCodecsTable_byCodecID
                    (cv_codec (Webm.videoCaps s))))
              VideoCodecID_unknown) eqn:Hvc;
    [split; [reflexivity | split; reflexivity]|].
  destruct (compressedAudioCapsValid (Webm.audioCaps s)
            && AudioCodecID_eqb
                 (Webm.a_codecID
                    (Webm.AudioCodecsTable_byCodecID
                       (ca_codec (Webm.audioCaps s))))
                 AudioCodecID_unknown) eqn:Hac;
    [split; [reflexivity | split; reflexivity]|].
  exfalso. destruct Herr as [He | [He | [He | (Ha & Hn1 & Hn2)]]].
  - rewrite He in Hsync. discriminate.
  - rewrite He in Hv. discriminate.
  - apply video_codec_unknown_iff in He. rewrite He in Hvc. discriminate.
  - rewrite Ha in Hac. cbn [andb] in Hac.
    assert (Hu : AudioCodecID_eqb
                   (Webm.a_codecID
                      (Webm.AudioCodecsTable_byCodecID
                         (ca_codec (Webm.audioCaps s))))
                   AudioCodecID_unknown = true)
      by (apply audio_codec_unknown_iff; split; assumption).
    rewrite Hu in Hac. discriminate.
Qed.

(** The helpers of [init] leave the life-cycle state alone, and only
    the last one sets [m_initialized]. *)
Lemma configureSegment_fields s :
  Webm.state (Webm.configureSegment s) = Webm.state s
  /\ Webm.m_initialized (Webm.configureSegment s) = Webm.m_initialized s.
Proof.
  unfold Webm.configureSegment. cbv zeta.
  repeat break_if; split; reflexivity.
Qed.

Lemma writeHeadersAndStart_fields nat s :
  Webm.state (Webm.writeHeadersAndStart nat s) = Webm.state s
  /\ Webm.m_initialized (Webm.writeHeadersAndStart nat s) = true.
Proof.
  unfold Webm.writeHeadersAndStart. cbv zeta.
  destruct (compressedAudioCapsValid (Webm.audioCaps s));
    destruct (Webm.videoHeaders s); cbn;
    destruct (Webm.audioHeaders s); cbn;
    destruct (Webm.audioTrackFound nat); split; reflexivity.
Qed.

Lemma addAudioAndStart_fields nat acodec s :
  Webm.m_initialized s = false ->
  Webm.state (snd (Webm.addAudioAndStart nat acodec s)) = Webm.state s
  /\ Webm.m_initialized (snd (Webm.addAudioAndStart nat acodec s))
     = fst (Webm.addAudioAndStart nat acodec s).
Proof.
  intros Hi. unfold Webm.addAudioAndStart. cbv zeta.
  destruct (compressedAudioCapsValid (Webm.audioCaps s)).
  - repeat (break_if; cbn [negb fst snd]);
      try (split; [reflexivity | exact Hi]).
    match goal with |- context [Webm.writeHeadersAndStart nat ?st] =>
      destruct (writeHeadersAndStart_fields nat st) as [Hs Hm] end.
    rewrite Hs, Hm. split; reflexivity.
  - cbn [fst snd].
    destruct (writeHeadersAndStart_fields nat s) as [Hs Hm].
    rewrite Hs, Hm. split; reflexivity.
Qed.

Lemma uninit_state nat s :
  Webm.m_initialized s = false ->
  Webm.state (Webm.uninit nat s) = Webm.state s.
Proof.
  intros Hi. rewrite LifeCycleProofs.webm_uninit_not_initialized by exact Hi.
  reflexivity.
Qed.

Lemma addVideoAndStart_fields nat vcodec acodec s :
  Webm.m_initialized s = false ->
  Webm.state (snd (Webm.addVideoAndStart nat vcodec acodec s)) = Webm.state s
  /\ Webm.m_initialized (snd (Webm.addVideoAndStart nat vcodec acodec s))
     = fst (Webm.addVideoAndStart nat vcodec acodec s).
Proof.
  intros Hi. unfold Webm.addVideoAndStart. cbv zeta.
  repeat (break_if; cbn [negb fst snd]);
    try (split; [reflexivity | exact Hi]).
  match goal with |- context [Webm.addAudioAndStart nat ?c ?st] =>
    destruct (addAudioAndStart_fields nat c st Hi) as [Hs Hm];
    rewrite Hs, Hm
  end.
  split; reflexivity.
Qed.

Lemma openAndStart_fields nat vcodec acodec s :
  Webm.m_initialized s = false ->
  Webm.state (snd (Webm.openAndStart nat vcodec acodec s)) = Webm.state s
  /\ Webm.m_initialized (snd (Webm.openAndStart nat vcodec acodec s))
     = fst (Webm.openAndStart nat vcodec acodec s).
Proof.
  intros Hi. unfold Webm.openAndStart. cbv zeta.
  repeat (break_if; cbn [negb fst snd]);
    try (split; [reflexivity | exact Hi]).
  match goal with |- context [Webm.addVideoAndStart nat ?v ?a ?st] =>
    assert (Hst : Webm.m_initialized st = false)
      by (rewrite (proj2 (configureSegment_fields _)); exact Hi);
    destruct (addVideoAndStart_fields nat v a st Hst) as [Hs Hm];
    rewrite Hs, Hm
  end.
  split; [|reflexivity].
  rewrite (proj1 (configureSegment_fields _)). reflexivity.
Qed.

(** [init] never changes the life-cycle state, and leaves the element
    initialized exactly when it reports success. *)
Lemma init_fields nat s :
  Webm.state (snd (Webm.init nat s)) = Webm.state (Webm.uninit nat s)
  /\ Webm.m_initialized (snd (Webm.init nat s)) = fst (Webm.init nat s).
Proof.
  unfold Webm.init.
  pose proof (LifeCycleProofs.webm_uninit_initialized nat s) as Hu.
  set (u := Webm.uninit nat s) in *. clearbody u. cbv zeta.
  repeat (break_if; cbn [negb fst snd]);
    try (split; [reflexivity | exact Hu]).
  match goal with |- context [Webm.openAndStart nat ?v ?a ?st] =>
    destruct (openAndStart_fields nat v a st Hu) as [Hs Hm];
    rewrite Hs, Hm
  end.
  split; reflexivity.
Qed.

(** [setState] keeps the invariant that a Null element is not
    initialized, which is what [init] finds when [setState] calls it. *)
Lemma setState_keeps_invariant nat target s :
  NullIsUninitialized s ->
  NullIsUninitialized (snd (Webm.setState nat target s)).
Proof.
  intros Hinv. unfold NullIsUninitialized in *. unfold Webm.setState.
  destruct (Webm.state s) eqn:Hst; destruct target; cbn [snd];
    try (intros _; apply Hinv; reflexivity);
    try (rewrite Hst; discriminate);
    try discriminate.
  - destruct (init_fields nat
                (Webm.set_m_paused
                   (ElementState_eqb ElementStatePaused ElementStatePaused)
                   s)) as [_ Hi].
    destruct (Webm.init nat _) as [ok s']. cbn [fst snd] in Hi.
    destruct ok; cbn; [discriminate | intros _; exact Hi].
  - destruct (init_fields nat s) as [_ Hi].
    destruct (Webm.init nat s) as [ok s']. cbn [fst snd] in Hi.
    destruct ok; cbn; [discriminate | intros _; exact Hi].
  - intros _. cbn. apply LifeCycleProofs.webm_uninit_initialized.
  - intros _. cbn. apply LifeCycleProofs.webm_uninit_initialized.
Qed.

Lemma iStream_keeps_invariant released s :
  NullIsUninitialized s -> NullIsUninitialized (Webm.iStream released s).
Proof.
  intros Hinv. unfold Webm.iStream.
  destruct (Webm.m_paused s || negb (Webm.m_initialized s)
            || negb (Webm.m_packetSync s)); [exact Hinv|].
  unfold NullIsUninitialized in *.
  rewrite LifeCycleProofs.webm_packetsReady_initialized.
  rewrite LifeCycleProofs.webm_packetsReady_state. exact Hinv.
Qed.

(** Every reachable muxer in the Null state is not initialized. *)
Lemma reachable_invariant s : Reachable s -> NullIsUninitialized s.
Proof.
  induction 1 as [s Hst Hi Hp Ht Hcues | v a l vh ah ad vd s Hr IH
                  | nat target s Hr IH | released s Hr IH].
  - intros _. exact Hi.
  - exact IH.
  - apply setState_keeps_invariant. exact IH.
  - apply iStream_keeps_invariant. exact IH.
Qed.

(** From the Null state, a configuration error makes both the Paused
    and the Playing transition fail with the element still in Null and
    nothing touched. *)
Lemma setState_configuration_error nat target s :
  Webm.state s = ElementStateNull ->
  Webm.m_initialized s = false ->
  ConfigurationError s ->
  target <> ElementStateNull ->
  fst (Webm.setState nat target s) = false
  /\ Webm.state (snd (Webm.setState nat target s)) = ElementStateNull
  /\ Untouched s (snd (Webm.setState nat target s)).
Proof.
  intros Hst Hi Herr Htarget. unfold Webm.setState. rewrite Hst.
  destruct target; [contradiction| |].
  - set (s1 := Webm.set_m_paused
                 (ElementState_eqb ElementStatePaused ElementStatePaused) s).
    assert (Herr1 : ConfigurationError s1) by exact Herr.
    destruct (init_configuration_error nat s1 Hi Herr1) as (Hf & Ht & Hd).
    destruct (init_fields nat s1) as [Hs' _].
    rewrite (uninit_state nat s1 Hi) in Hs'.
    destruct (Webm.init nat s1) as [ok s'].
    cbn [fst snd] in *. subst ok. cbn.
    repeat split; [rewrite Hs'; exact Hst | exact Ht | exact Hd].
  - destruct (init_configuration_error nat s Hi Herr) as (Hf & Ht & Hd).
    destruct (init_fields nat s) as [Hs' _].
    rewrite (uninit_state nat s Hi) in Hs'.
    destruct (Webm.init nat s) as [ok s'].
    cbn [fst snd] in *. subst ok. cbn.
    repeat split; [rewrite Hs'; exact Hst | exact Ht | exact Hd].
Qed.

End Muxer.
End MuxerInitProofs.

(** C4. A configuration error, be it empty video caps, a video codec
    outside {vp8, vp9, av1}, or audio caps with a codec the muxer does
    not carry, makes [init] on an element that is not initialized return
    failure before the output file is opened: no native call is made and
    the disk is as it was. [setState] calls [init] only from the Null
    state, where every reachable element is not initialized: the Paused
    and Playing transitions then fail, stay in Null and touch nothing. *)
Theorem init_rejects_configuration_errors :
  forall (R : Type) (ops : QReal.Ops R) (nat : Webm.Native)
         (s : Webm.State R),
    ConfigurationError s ->
    Webm.VideoCodecsTable_codecs
    = [Rav1e.VideoCodecID_vp8; Rav1e.VideoCodecID_vp9;
       Rav1e.VideoCodecID_av1]
    /\ (Webm.m_initialized s = false ->
        fst (Webm.init nat s) = false
        /\ Untouched s (snd (Webm.init nat s)))
    /\ (Reachable s ->
        Webm.state s = Ak.ElementStateNull ->
        forall target, target <> Ak.ElementStateNull ->
          fst (Webm.setState nat target s) = false
          /\ Webm.state (snd (Webm.setState nat target s))
             = Ak.ElementStateNull
          /\ Untouched s (snd (Webm.setState nat target s))).
Proof.
  intros R ops nat s Herr.
  split; [reflexivity|]. split.
  - intros Hi. apply MuxerInitProofs.init_configuration_error; assumption.
  - intros Hr Hst target Ht.
    apply MuxerInitProofs.setState_configuration_error; try assumption.
    apply (MuxerInitProofs.reachable_invariant s Hr Hst).
Qed.

(** The theorem on a new muxer asked to write H.264: [init] fails and so
    does the Playing transition, the trace is empty and so is the disk. *)
Lemma init_rejects_configuration_errors_witness :
  ConfigurationError (Sample.muxer Sample.h264Caps 0)
  /\ Reachable (Sample.muxer Sample.h264Caps 0)
  /\ fst (Webm.init Sample.webmNative (Sample.muxer Sample.h264Caps 0))
     = false
  /\ Webm.trace
       (snd (Webm.init Sample.webmNative (Sample.muxer Sample.h264Caps 0)))
     = []
  /\ Webm.disk
       (snd (Webm.init Sample.webmNative (Sample.muxer Sample.h264Caps 0)))
     = []
  /\ fst (Webm.setState Sample.webmNative Ak.ElementStatePlaying
                        (Sample.muxer Sample.h264Caps 0)) = false.
Proof.
  assert (Herr : ConfigurationError (Sample.muxer Sample.h264Caps 0)).
  { right. right. left. cbn. intros [E | [E | [E | []]]]; discriminate. }
  assert (Hr : Reachable (Sample.muxer Sample.h264Caps 0))
    by (apply Reachable_new; reflexivity).
  destruct (init_rejects_configuration_errors Q QReal.Q_ops
              Sample.webmNative (Sample.muxer Sample.h264Caps 0) Herr)
    as (_ & Hinit & Hset).
  destruct (Hinit eq_refl) as (Hf & Ht & Hd).
  destruct (Hset Hr eq_refl Ak.ElementStatePlaying
                 ltac:(discriminate)) as (Hsf & _).
  repeat split; assumption.
Defined.

(** The theorem of C9 on a fresh encoder and a fresh muxer. *)
Lemma uninit_idempotent_witness :
  Faac.uninit Sample.faacNative (Faac.newElement true)
  = Faac.newElement true
  /\ Webm.uninit Sample.webmNative (Sample.muxer Sample.vp8Caps 0)
     = Sample.muxer Sample.vp8Caps 0.
Proof.
  split.
  - exact (proj1 (proj1 uninit_idempotent Sample.faacNative
                        Sample.faacNative (Faac.newElement true)) eq_refl).
  - exact (proj1 (proj1 (proj2 uninit_idempotent) Q QReal.Q_ops
                        Sample.webmNative Sample.webmNative
                        (Sample.muxer Sample.vp8Caps 0)) eq_refl).
Defined.

(* ===================================================================== *)
(** * Default devices of the PipeWire backend *)
(* ===================================================================== *)

Module PipeWireProofs.
Import PipeWire.

Lemma isEmpty_true str : isEmpty str = true <-> str = EmptyString.
Proof. unfold isEmpty. apply String.eqb_eq. Qed.

Lemma isEmpty_false str : isEmpty str = false <-> str <> EmptyString.
Proof. unfold isEmpty. apply String.eqb_neq. Qed.

Lemma first_value m : qlist_value (qmap_values m) 0 = firstName m.
Proof. destruct m as [|[k v] m]; reflexivity. Qed.

Lemma qmap_insert_keys key value m x :
  In x (map fst (qmap_insert key value m)) -> x = key \/ In x (map fst m).
Proof.
  induction m as [|[k v] m IH]; simpl.
  - intros [<- | []]. left; reflexivity.
  - destruct (key <? k) eqn:E1; simpl.
    + intros [<- | Hx]; [left; reflexivity | right; exact Hx].
    + destruct (key =? k) eqn:E2; simpl.
      * intros [<- | Hx]; [left; reflexivity | right; right; exact Hx].
      * intros [<- | Hx]; [right; left; reflexivity|].
        destruct (IH Hx) as [-> | Hin]; [left; reflexivity|].
        right; right; exact Hin.
Qed.

(** [map[key] = value] keeps the keys ascending. *)
Lemma qmap_insert_ordered key value m :
  qmap_ordered m -> qmap_ordered (qmap_insert key value m).
Proof.
  unfold qmap_ordered. induction m as [|[k v] m IH]; simpl; intros Hs.
  - repeat constructor.
  - apply StronglySorted_inv in Hs. destruct Hs as [Hs Hall].
    destruct (key <? k) eqn:E1; simpl.
    + apply Z.ltb_lt in E1. constructor.
      * constructor; assumption.
      * constructor; [exact E1|].
        rewrite Forall_forall in *. intros x Hx.
        specialize (Hall x Hx). lia.
    + destruct (key =? k) eqn:E2; simpl.
      * apply Z.eqb_eq in E2. subst k. constructor; assumption.
      * apply Z.ltb_ge in E1. apply Z.eqb_neq in E2.
        constructor; [apply IH; exact Hs|].
        rewrite Forall_forall in *. intros x Hx.
        apply qmap_insert_keys in Hx. destruct Hx as [-> | Hx];
          [lia | apply Hall, Hx].
Qed.

(** [map.remove(key)] keeps the keys ascending. *)
Lemma qmap_remove_ordered key m :
  qmap_ordered m -> qmap_ordered (qmap_remove key m).
Proof.
  unfold qmap_ordered, qmap_remove.
  induction m as [|[k v] m IH]; simpl; intros Hs; [constructor|].
  apply StronglySorted_inv in Hs. destruct Hs as [Hs Hall].
  destruct (negb (k =? key)); simpl; [|apply IH; exact Hs].
  constructor; [apply IH; exact Hs|].
  rewrite Forall_forall in *. intros x Hx. apply Hall.
  apply in_map_iff in Hx. destruct Hx as (e & <- & He).
  apply filter_In in He. apply in_map. apply He.
Qed.

(** In an ordered map the first name is bound to the least id. *)
Lemma firstName_least m :
  qmap_ordered m ->
  forall id name, In (id, name) m ->
    exists id0, id0 <= id /\ In (id0, firstName m) m.
Proof.
  unfold qmap_ordered. destruct m as [|[k v] m]; simpl; intros Hs id name Hin;
    [destruct Hin|].
  apply StronglySorted_inv in Hs. destruct Hs as [_ Hall].
  exists k. split; [|left; reflexivity].
  destruct Hin as [E | Hin].
  - injection E as -> _. lia.
  - rewrite Forall_forall in Hall.
    assert (k < id) by (apply Hall; apply (in_map fst _ _ Hin)). lia.
Qed.

(** The device callbacks keep both maps ordered. *)
Lemma deviceAdded_ordered id isNode props node s :
  qmap_ordered (m_sources s) /\ qmap_ordered (m_sinks s) ->
  qmap_ordered (m_sources (deviceAdded id isNode props node s))
  /\ qmap_ordered (m_sinks (deviceAdded id isNode props node s)).
Proof.
  intros [Hso Hsi]. unfold deviceAdded.
  destruct isNode; cbn [negb]; [|split; assumption].
  destruct props as [props|]; [|split; assumption].
  destruct (mediaClass props) as [cls|]; [|split; assumption].
  destruct (existsb (String.eqb cls) pipewireAudioSupportedClasses);
    cbn [negb]; [|split; assumption].
  destruct node as [n|]; [|split; assumption].
  cbv zeta.
  destruct (String.eqb cls "Audio/Sink"); cbn;
    repeat match goal with
           | |- context [if ?c then _ else _] => destruct c; cbn
           end;
    split; try assumption; apply qmap_insert_ordered; assumption.
Qed.

Lemma deviceRemoved_ordered id s :
  qmap_ordered (m_sources s) /\ qmap_ordered (m_sinks s) ->
  qmap_ordered (m_sources (deviceRemoved id s))
  /\ qmap_ordered (m_sinks (deviceRemoved id s)).
Proof.
  intros [Hso Hsi]. unfold deviceRemoved.
  destruct (isEmpty (qmap_value id (m_deviceIds s))); [split; assumption|].
  cbv zeta.
  destruct (qmap_contains id (m_sinks s)); cbn;
    repeat match goal with
           | |- context [if ?c then _ else _] => destruct c; cbn
           end;
    split; try assumption; apply qmap_remove_ordered; assumption.
Qed.

End PipeWireProofs.

(** C10, as the code has it. With no default source set, [defaultInput]
    returns the name the source map lists first, which in the ordered
    map is the name bound to the least id; with a default set it returns
    that. It returns the empty string exactly when no default is set and
    the first name is empty, which is so for an empty map. The same holds
    for [defaultOutput] and the sinks. *)
Theorem default_device_falls_back_to_first :
  forall s : PipeWire.State,
    (PipeWire.m_defaultSource s = EmptyString ->
     PipeWire.defaultInput s = firstName (PipeWire.m_sources s))
    /\ (PipeWire.m_defaultSink s = EmptyString ->
        PipeWire.defaultOutput s = firstName (PipeWire.m_sinks s))
    /\ (PipeWire.m_defaultSource s <> EmptyString ->
        PipeWire.defaultInput s = PipeWire.m_defaultSource s)
    /\ (PipeWire.m_defaultSink s <> EmptyString ->
        PipeWire.defaultOutput s = PipeWire.m_defaultSink s)
    /\ (PipeWire.qmap_ordered (PipeWire.m_sources s) ->
        forall id name, In (id, name) (PipeWire.m_sources s) ->
          exists id0, id0 <= id
            /\ In (id0, firstName (PipeWire.m_sources s))
                  (PipeWire.m_sources s))
    /\ (PipeWire.qmap_ordered (PipeWire.m_sinks s) ->
        forall id name, In (id, name) (PipeWire.m_sinks s) ->
          exists id0, id0 <= id
            /\ In (id0, firstName (PipeWire.m_sinks s))
                  (PipeWire.m_sinks s))
    /\ (PipeWire.defaultInput s = EmptyString <->
        PipeWire.m_defaultSource s = EmptyString
        /\ firstName (PipeWire.m_sources s) = EmptyString)
    /\ (PipeWire.defaultOutput s = EmptyString <->
        PipeWire.m_defaultSink s = EmptyString
        /\ firstName (PipeWire.m_sinks s) = EmptyString)
    /\ firstName [] = EmptyString.
Proof.
  intros s.
  assert (HI : PipeWire.m_defaultSource s = EmptyString ->
               PipeWire.defaultInput s = firstName (PipeWire.m_sources s)).
  { intros He. unfold PipeWire.defaultInput. rewrite He. cbn.
    apply PipeWireProofs.first_value. }
  assert (HO : PipeWire.m_defaultSink s = EmptyString ->
               PipeWire.defaultOutput s = firstName (PipeWire.m_sinks s)).
  { intros He. unfold PipeWire.defaultOutput. rewrite He. cbn.
    apply PipeWireProofs.first_value. }
  assert (HI' : PipeWire.m_defaultSource s <> EmptyString ->
                PipeWire.defaultInput s = PipeWire.m_defaultSource s).
  { intros Hne. unfold PipeWire.defaultInput.
    apply PipeWireProofs.isEmpty_false in Hne. rewrite Hne. reflexivity. }
  assert (HO' : PipeWire.m_defaultSink s <> EmptyString ->
                PipeWire.defaultOutput s = PipeWire.m_defaultSink s).
  { intros Hne. unfold PipeWire.defaultOutput.
    apply PipeWireProofs.isEmpty_false in Hne. rewrite Hne. reflexivity. }
  repeat split; try assumption.
  - apply PipeWireProofs.firstName_least.
  - apply PipeWireProofs.firstName_least.
  - destruct (string_dec (PipeWire.m_defaultSource s) EmptyString) as [E|E];
      [exact E | rewrite (HI' E) in H; contradiction].
  - destruct (string_dec (PipeWire.m_defaultSource s) EmptyString) as [E|E];
      [rewrite <- (HI E); exact H | rewrite (HI' E) in H; contradiction].
  - intros [He Hf]. rewrite (HI He). exact Hf.
  - destruct (string_dec (PipeWire.m_defaultSink s) EmptyString) as [E|E];
      [exact E | rewrite (HO' E) in H; contradiction].
  - destruct (string_dec (PipeWire.m_defaultSink s) EmptyString) as [E|E];
      [rewrite <- (HO E); exact H | rewrite (HO' E) in H; contradiction].
  - intros [He Hf]. rewrite (HO He). exact Hf.
Qed.

(** The theorem on a device that knows two application streams and has
    no default source: the stream with the least id, added last, is the
    answer. *)
Lemma default_device_falls_back_to_first_witness :
  PipeWire.m_defaultSource Sample.twoStreams = EmptyString
  /\ PipeWire.m_sources Sample.twoStreams
     = [(40, "browser"%string); (57, "player"%string)]
  /\ PipeWire.defaultInput Sample.twoStreams = "browser"%string.
Proof.
  split; [reflexivity|]. split; [reflexivity|].
  exact (proj1 (default_device_falls_back_to_first Sample.twoStreams)
               eq_refl).
Defined.

(** C10 as stated fails on a device told of one source whose dictionary
    has no [node.name]: a source is known, yet [defaultInput] is the
    empty string. *)
Lemma defaultInput_empty_with_known_source :
  PipeWire.m_sources Sample.namelessSource = [(5, EmptyString)]
  /\ PipeWire.inputs Sample.namelessSource <> []
  /\ PipeWire.defaultInput Sample.namelessSource = EmptyString
  /\ ~ (PipeWire.defaultInput Sample.namelessSource = EmptyString ->
        PipeWire.m_sources Sample.namelessSource = []).
Proof.
  split; [reflexivity|]. split; [discriminate|]. split; [reflexivity|].
  intros Himp. specialize (Himp eq_refl). discriminate Himp.
Qed.

(* ===================================================================== *)
(** * Frames and durations of the WebM muxer *)
(* ===================================================================== *)

Module MuxerTraceProofs.
Import MachineInt Ak Rav1e.
Import MuxerInitProofs.

Lemma durationsSet_app a b :
  Webm.durationsSet (a ++ b) = Webm.durationsSet a ++ Webm.durationsSet b.
Proof.
  induction a as [|e a IH]; simpl; [reflexivity|].
  destruct e; simpl; rewrite ?IH; reflexivity.
Qed.


Lemma Quiet_nil : Quiet [].
Proof. split; reflexivity. Qed.

Lemma Quiet_app a b : Quiet a -> Quiet b -> Quiet (a ++ b).
Proof.
  intros [Ha1 Ha2] [Hb1 Hb2]. split.
  - rewrite existsb_app, Ha1, Hb1. reflexivity.
  - rewrite durationsSet_app, Ha2, Hb2. reflexivity.
Qed.

Section Muxer.
Context {R : Type} `{QReal.Ops R}.
Implicit Types s : Webm.State R.

Lemma Continues_refl s : Continues s s.
Proof.
  split; [|reflexivity]. exists []. rewrite app_nil_r.
  split; [reflexivity | apply Quiet_nil].
Qed.

Lemma Continues_trans s1 s2 s3 :
  Continues s1 s2 -> Continues s2 s3 -> Continues s1 s3.
Proof.
  intros [(a & Ha & Qa) Ca] [(b & Hb & Qb) Cb]. split.
  - exists (a ++ b). rewrite Hb, Ha, app_assoc.
    split; [reflexivity | apply Quiet_app; assumption].
  - rewrite Cb. exact Ca.
Qed.

(** One quiet event more. *)
Lemma Continues_emit e s :
  Webm.isAddAudioTrack e = false ->
  Webm.durationsSet [e] = [] ->
  Continues s (Webm.emit e s).
Proof.
  intros He Hd. split; [|reflexivity].
  exists [e]. split; [reflexivity|]. split; [|exact Hd].
  simpl. rewrite He. reflexivity.
Qed.

Lemma Steady_refl s : Steady s s.
Proof. split; [apply Continues_refl | repeat split]. Qed.

Lemma Steady_trans s1 s2 s3 : Steady s1 s2 -> Steady s2 s3 -> Steady s1 s3.
Proof.
  intros (C1 & A1 & B1 & D1) (C2 & A2 & B2 & D2).
  split; [eapply Continues_trans; eassumption|].
  rewrite A2, B2, D2. repeat split; assumption.
Qed.

Lemma Steady_emit e s :
  Webm.isAddAudioTrack e = false ->
  Webm.durationsSet [e] = [] ->
  Steady s (Webm.emit e s).
Proof.
  intros He Hd. split; [apply Continues_emit; assumption | repeat split].
Qed.

(** A change of members other than the trace, the configuration, the
    audio track and the running durations. *)
Lemma Steady_same s s' :
  Webm.trace s' = Webm.trace s ->
  muxerConfig s' = muxerConfig s ->
  Webm.m_audioTrackIndex s' = Webm.m_audioTrackIndex s ->
  Webm.m_audioDuration s' = Webm.m_audioDuration s ->
  Webm.m_videoDuration s' = Webm.m_videoDuration s ->
  Steady s s'.
Proof.
  intros Ht Hc Ha Hb Hd. split; [|repeat split; assumption].
  split; [|exact Hc]. exists []. rewrite app_nil_r.
  split; [exact Ht | apply Quiet_nil].
Qed.

(** [Steady] for a target state that is the source under [emit]s and
    updates of other members: read the added events off the trace. *)
Ltac steady_direct :=
  split;
  [ split;
    [ eexists; split;
      [ first [ cbn; rewrite <- ?app_assoc; reflexivity
              | instantiate (1 := []); rewrite app_nil_r; reflexivity ]
      | split; reflexivity ]
    | reflexivity ]
  | repeat split ].

Lemma closeAndRemove_steady path s : Steady s (Webm.closeAndRemove path s).
Proof. unfold Webm.closeAndRemove. cbv zeta. steady_direct. Qed.

Lemma configureSegment_steady s : Steady s (Webm.configureSegment s).
Proof.
  unfold Webm.configureSegment. cbv zeta.
  repeat break_if; steady_direct.
Qed.

Lemma writeHeadersAndStart_steady nat s :
  Steady s (Webm.writeHeadersAndStart nat s).
Proof.
  unfold Webm.writeHeadersAndStart. cbv zeta.
  destruct (compressedAudioCapsValid (Webm.audioCaps s));
    destruct (Webm.videoHeaders s); cbn;
    destruct (Webm.audioHeaders s); cbn;
    destruct (Webm.audioTrackFound nat); steady_direct.
Qed.

(** Without audio caps, nothing of [init] after the checks adds an audio
    track or sets a duration. *)
Lemma addAudioAndStart_steady nat acodec s :
  compressedAudioCapsValid (Webm.audioCaps s) = false ->
  Steady s (snd (Webm.addAudioAndStart nat acodec s)).
Proof.
  intros Ha. unfold Webm.addAudioAndStart. rewrite Ha. cbn [snd].
  apply writeHeadersAndStart_steady.
Qed.

Lemma Steady_audioCaps s s' :
  Steady s s' -> Webm.audioCaps s' = Webm.audioCaps s.
Proof.
  intros ((_ & Hc) & _). unfold muxerConfig in Hc. congruence.
Qed.

Lemma addVideoAndStart_steady nat vcodec acodec s :
  compressedAudioCapsValid (Webm.audioCaps s) = false ->
  Steady s (snd (Webm.addVideoAndStart nat vcodec acodec s)).
Proof.
  intros Ha. unfold Webm.addVideoAndStart. cbv zeta.
  repeat (break_if; cbn [negb fst snd]).
  - eapply Steady_trans; [|apply closeAndRemove_steady]. steady_direct.
  - eapply Steady_trans; [|apply closeAndRemove_steady]. steady_direct.
  - eapply Steady_trans; [|apply addAudioAndStart_steady; exact Ha].
    steady_direct.
Qed.

Lemma openAndStart_steady nat vcodec acodec s :
  compressedAudioCapsValid (Webm.audioCaps s) = false ->
  Steady s (snd (Webm.openAndStart nat vcodec acodec s)).
Proof.
  intros Ha. unfold Webm.openAndStart. cbv zeta.
  repeat (break_if; cbn [negb fst snd]).
  - steady_direct.
  - eapply Steady_trans; [|apply closeAndRemove_steady]. steady_direct.
  - eapply Steady_trans; [|apply addVideoAndStart_steady].
    + eapply Steady_trans; [|apply configureSegment_steady]. steady_direct.
    + rewrite (Steady_audioCaps _ _ (configureSegment_steady _)). exact Ha.
Qed.

(** A successful [init] without audio caps: quiet events only, no audio
    track, both running durations zero. *)
Lemma init_video_only nat s :
  Webm.m_initialized s = false ->
  compressedAudioCapsValid (Webm.audioCaps s) = false ->
  fst (Webm.init nat s) = true ->
  Continues s (snd (Webm.init nat s))
  /\ Webm.m_audioTrackIndex (snd (Webm.init nat s)) = 0
  /\ Webm.m_audioDuration (snd (Webm.init nat s)) = QReal.of_int 0
  /\ Webm.m_videoDuration (snd (Webm.init nat s)) = QReal.of_int 0.
Proof.
  intros Hi Ha. unfold Webm.init.
  rewrite (LifeCycleProofs.webm_uninit_not_initialized nat s Hi).
  cbv zeta.
  repeat (break_if; cbn [negb fst snd]); try discriminate.
  intros _.
  match goal with |- context [Webm.openAndStart nat ?v ?a ?st] =>
    destruct (openAndStart_steady nat v a st Ha) as (Hc & Hx & Hy & Hz);
    rewrite Hx, Hy, Hz
  end.
  split; [|repeat split].
  eapply Continues_trans; [|exact Hc].
  split; [|reflexivity]. exists []. rewrite app_nil_r.
  split; [reflexivity | apply Quiet_nil].
Qed.

(** ** [packetReady] *)

Lemma packetReady_spec p s :
  Webm.trace (Webm.packetReady p s) = Webm.trace s ++ [frameEvent s p]
  /\ Webm.m_audioDuration (Webm.packetReady p s)
     = (if Webm.isAudioPacket p then Webm.packetEnd p
        else Webm.m_audioDuration s)
  /\ Webm.m_videoDuration (Webm.packetReady p s)
     = (if Webm.isAudioPacket p then Webm.m_videoDuration s
        else Webm.packetEnd p)
  /\ Webm.m_audioTrackIndex (Webm.packetReady p s) = Webm.m_audioTrackIndex s
  /\ Webm.m_videoTrackIndex (Webm.packetReady p s) = Webm.m_videoTrackIndex s
  /\ muxerConfig (Webm.packetReady p s) = muxerConfig s
  /\ Webm.m_cuesBeforeClusters (Webm.packetReady p s)
     = Webm.m_cuesBeforeClusters s
  /\ Webm.location (Webm.packetReady p s) = Webm.location s.
Proof.
  unfold Webm.packetReady, frameEvent. cbv zeta.
  destruct (Webm.isAudioPacket p); repeat split.
Qed.

Lemma packetsReady_spec ps :
  forall s,
    Webm.trace (Webm.packetsReady ps s)
    = Webm.trace s ++ map (frameEvent s) ps
    /\ Webm.m_audioDuration (Webm.packetsReady ps s)
       = lastEnd true (Webm.m_audioDuration s) ps
    /\ Webm.m_videoDuration (Webm.packetsReady ps s)
       = lastEnd false (Webm.m_videoDuration s) ps
    /\ Webm.m_audioTrackIndex (Webm.packetsReady ps s)
       = Webm.m_audioTrackIndex s
    /\ Webm.m_videoTrackIndex (Webm.packetsReady ps s)
       = Webm.m_videoTrackIndex s
    /\ muxerConfig (Webm.packetsReady ps s) = muxerConfig s
    /\ Webm.m_cuesBeforeClusters (Webm.packetsReady ps s)
       = Webm.m_cuesBeforeClusters s
    /\ Webm.location (Webm.packetsReady ps s) = Webm.location s.
Proof.
  induction ps as [|p ps IH]; intros s.
  - simpl. rewrite app_nil_r. repeat split.
  - simpl Webm.packetsReady.
    destruct (IH (Webm.packetReady p s))
      as (Ht & Ha & Hv & Hai & Hvi & Hc & Hcu & Hl).
    destruct (packetReady_spec p s)
      as (Ht' & Ha' & Hv' & Hai' & Hvi' & Hc' & Hcu' & Hl').
    rewrite Ht, Ha, Hv, Hai, Hvi, Hc, Hcu, Hl.
    rewrite Ht', Ha', Hv', Hai', Hvi', Hc', Hcu', Hl'.
    repeat split.
    + rewrite <- app_assoc. simpl. f_equal. f_equal.
      apply map_ext. intros q. unfold frameEvent.
      rewrite Hai', Hvi'. reflexivity.
    + unfold lastEnd. simpl. destruct (Webm.isAudioPacket p); reflexivity.
    + unfold lastEnd. simpl. destruct (Webm.isAudioPacket p); reflexivity.
Qed.

Lemma frameEvents_quiet s ps : Quiet (map (frameEvent s) ps).
Proof.
  induction ps as [|p ps [IH1 IH2]]; [apply Quiet_nil|].
  split; simpl; assumption.
Qed.


(** ** [uninit] *)

Lemma moveCues_quiet nat s :
  exists cues,
    Webm.trace (fst (Webm.moveCues nat s)) = Webm.trace s ++ cues
    /\ Quiet cues.
Proof.
  unfold Webm.moveCues, Webm.dropTemporary, Webm.closeAndRemove. cbv zeta.
  repeat (break_if; cbn [negb fst snd]);
    cbn; rewrite <- ?app_assoc; cbn;
    eexists; (split; [reflexivity | split; reflexivity]).
Qed.

(** What an initialized muxer does on [uninit]: it sets the helper to
    Null, writes what the helper still hands over, sets the duration,
    finalizes and closes; the duration is taken from the audio and the
    video stream when there is an audio track, from the video stream
    alone otherwise. *)
Lemma uninit_trace nat s :
  Webm.m_initialized s = true ->
  exists cues,
    Quiet cues
    /\ Webm.trace (Webm.uninit nat s)
       = Webm.trace s
         ++ Webm.EvSyncSetState ElementStateNull
            :: map (frameEvent s) (Webm.flushed nat)
         ++ Webm.EvSetDuration
              (segmentTicks (Webm.m_timeCodeScale s)
                 (let audio :=
                    streamSeconds
                      (Webm.audioStreamDuration s)
                      (QReal.of_int (a_rate (ca_rawCaps (Webm.audioCaps s))))
                      (lastEnd true (Webm.m_audioDuration s)
                               (Webm.flushed nat)) in
                  let video :=
                    streamSeconds
                      (Webm.videoStreamDuration s)
                      (QReal.fracValue (v_fps (cv_rawCaps (Webm.videoCaps s))))
                      (lastEnd false (Webm.m_videoDuration s)
                               (Webm.flushed nat)) in
                  if 1 <=? Webm.m_audioTrackIndex s
                  then QReal.qMax audio video else video))
            :: Webm.EvFinalize :: Webm.EvWriterClose :: cues.
Proof.
  intros Hi. unfold Webm.uninit. rewrite Hi. cbn [negb]. cbv zeta.
  set (s0 := Webm.emit (Webm.EvSyncSetState ElementStateNull)
                       (Webm.set_m_initialized false s)).
  destruct (packetsReady_spec (Webm.flushed nat) s0)
    as (Ht & Ha & Hv & Hai & Hvi & Hc & Hcu & Hl).
  set (s1 := Webm.packetsReady (Webm.flushed nat) s0) in *.
  assert (Hticks :
            Webm.durationTicks s1
            = segmentTicks (Webm.m_timeCodeScale s)
                (let audio :=
                   streamSeconds
                     (Webm.audioStreamDuration s)
                     (QReal.of_int (a_rate (ca_rawCaps (Webm.audioCaps s))))
                     (lastEnd true (Webm.m_audioDuration s)
                              (Webm.flushed nat)) in
                 let video :=
                   streamSeconds
                     (Webm.videoStreamDuration s)
                     (QReal.fracValue (v_fps (cv_rawCaps (Webm.videoCaps s))))
                     (lastEnd false (Webm.m_videoDuration s)
                              (Webm.flushed nat)) in
                 if 1 <=? Webm.m_audioTrackIndex s
                 then QReal.qMax audio video else video)).
  { unfold Webm.durationTicks, Webm.finalDuration, Webm.finalAudioDuration,
           Webm.finalVideoDuration, segmentTicks, streamSeconds.
    unfold muxerConfig in Hc. injection Hc as Hc1 Hc2 Hc3 Hc4 Hc5.
    rewrite Ha, Hv, Hai, Hc1, Hc2, Hc3, Hc4, Hc5. cbn.
    rewrite Z.leb_antisym.
    destruct (Webm.m_audioTrackIndex s <? 1); reflexivity. }
  assert (Hframes : map (frameEvent s0) (Webm.flushed nat)
                    = map (frameEvent s) (Webm.flushed nat))
    by reflexivity.
  set (s2 := Webm.emit Webm.EvWriterClose
               (Webm.emit Webm.EvFinalize
                  (Webm.emit (Webm.EvSetDuration (Webm.durationTicks s1))
                             s1))).
  assert (Ht2 : Webm.trace s2
                = Webm.trace s
                  ++ Webm.EvSyncSetState ElementStateNull
                     :: map (frameEvent s) (Webm.flushed nat)
                  ++ [Webm.EvSetDuration (Webm.durationTicks s1);
                      Webm.EvFinalize; Webm.EvWriterClose]).
  { unfold s2. cbn. rewrite Ht, Hframes. unfold s0. cbn.
    rewrite <- !app_assoc. reflexivity. }
  change (Webm.m_cuesBeforeClusters
            (Webm.emit Webm.EvWriterClose
               (Webm.emit Webm.EvFinalize
                  (Webm.emit (Webm.EvSetDuration (Webm.durationTicks s1))
                             s1))))
    with (Webm.m_cuesBeforeClusters s2).
  destruct (Webm.m_cuesBeforeClusters s2).
  - destruct (moveCues_quiet nat s2) as (cues & Hcues & Hq).
    exists cues. split; [exact Hq|].
    fold s2. destruct (Webm.moveCues nat s2) as [s3 through].
    cbn [fst] in Hcues.
    assert (Hres : Webm.trace (if through then Webm.set_m_paused false s3
                               else s3) = Webm.trace s3)
      by (destruct through; reflexivity).
    rewrite Hres, Hcues, Ht2, Hticks. cbv zeta.
    repeat (rewrite <- app_assoc || rewrite <- app_comm_cons).
    reflexivity.
  - exists []. split; [apply Quiet_nil|].
    fold s2. change (Webm.trace (Webm.set_m_paused false s2))
      with (Webm.trace s2).
    rewrite Ht2, Hticks. reflexivity.
Qed.

End Muxer.
End MuxerTraceProofs.

(** C5, as the code has it. For every packet the muxer writes, the frame
    timestamp passed to the container is [pts * timeBase * 1e9] cast to an
    unsigned 64-bit integer, and the running duration of the packet's
    stream becomes [(pts + duration) * timeBase], the other stream's
    being kept; so after a sequence of packets the running duration of a
    stream is the end of its last packet. On finalize each stream's duration is the one the
    application set for it (in samples over the rate, in frames over the
    frame rate) when that is positive, and the running duration
    otherwise; the duration written to the segment, in ticks of the
    timecode scale, is the greater of the two when there is an audio
    track and the video one otherwise. *)
Theorem muxer_frame_times_and_duration :
  forall (R : Type) (ops : QReal.Ops R),
    (forall (p : Webm.AkPacket) (s : Webm.State R),
        Webm.trace (Webm.packetReady p s) = Webm.trace s ++ [frameEvent s p]
        /\ Webm.m_audioDuration (Webm.packetReady p s)
           = (if Webm.isAudioPacket p
              then QReal.mul
                     (QReal.of_int
                        (MachineInt.to_qint64
                           (Webm.p_pts p + Webm.p_duration p)))
                     (QReal.fracValue (Webm.p_timeBase p))
              else Webm.m_audioDuration s)
        /\ Webm.m_videoDuration (Webm.packetReady p s)
           = (if Webm.isAudioPacket p
              then Webm.m_videoDuration s
              else QReal.mul
                     (QReal.of_int
                        (MachineInt.to_qint64
                           (Webm.p_pts p + Webm.p_duration p)))
                     (QReal.fracValue (Webm.p_timeBase p))))
    /\ (forall (ps : list Webm.AkPacket) (s : Webm.State R),
           Webm.trace (Webm.packetsReady ps s)
           = Webm.trace s ++ map (frameEvent s) ps
           /\ Webm.m_audioDuration (Webm.packetsReady ps s)
              = lastEnd true (Webm.m_audioDuration s) ps
           /\ Webm.m_videoDuration (Webm.packetsReady ps s)
              = lastEnd false (Webm.m_videoDuration s) ps)
    /\ (forall (nat : Webm.Native) (s : Webm.State R),
           Webm.m_initialized s = true ->
           Webm.durationsSet (Webm.trace (Webm.uninit nat s))
           = Webm.durationsSet (Webm.trace s)
             ++ [segmentTicks (Webm.m_timeCodeScale s)
                   (let audio :=
                      streamSeconds
                        (Webm.audioStreamDuration s)
                        (QReal.of_int
                           (Ak.a_rate (Ak.ca_rawCaps (Webm.audioCaps s))))
                        (lastEnd true (Webm.m_audioDuration s)
                                 (Webm.flushed nat)) in
                    let video :=
                      streamSeconds
                        (Webm.videoStreamDuration s)
                        (QReal.fracValue
                           (Rav1e.v_fps
                              (Rav1e.cv_rawCaps (Webm.videoCaps s))))
                        (lastEnd false (Webm.m_videoDuration s)
                                 (Webm.flushed nat)) in
                    if 1 <=? Webm.m_audioTrackIndex s
                    then QReal.qMax audio video else video)]).
Proof.
  intros R ops. split; [|split].
  - intros p s.
    destruct (MuxerTraceProofs.packetReady_spec p s) as (Ht & Ha & Hv & _).
    split; [exact Ht|]. split; [exact Ha | exact Hv].
  - intros ps s.
    destruct (MuxerTraceProofs.packetsReady_spec ps s) as (Ht & Ha & Hv & _).
    split; [exact Ht|]. split; [exact Ha | exact Hv].
  - intros nat s Hi.
    destruct (MuxerTraceProofs.uninit_trace nat s Hi) as (cues & Hq & Ht).
    rewrite Ht. rewrite MuxerTraceProofs.durationsSet_app. f_equal.
    cbn [Webm.durationsSet].
    rewrite MuxerTraceProofs.durationsSet_app.
    destruct (MuxerTraceProofs.frameEvents_quiet s (Webm.flushed nat))
      as [_ Hfq].
    rewrite Hfq. cbn. destruct Hq as [_ Hq]. rewrite Hq. reflexivity.
Qed.

(** The theorem on a muxer with both tracks and no stream durations set,
    audio at 1.5 s and video at 2 s: the segment gets 2 s, that is 20000
    ticks of 100 microseconds. *)
Lemma muxer_frame_times_and_duration_witness :
  Webm.m_initialized Sample.avAtTwoSeconds = true
  /\ Webm.m_audioTrackIndex Sample.avAtTwoSeconds = 2
  /\ Webm.durationsSet
       (Webm.trace (Webm.uninit Sample.webmNative Sample.avAtTwoSeconds))
     = [20000].
Proof.
  split; [reflexivity|]. split; [reflexivity|].
  rewrite (proj2 (proj2 (muxer_frame_times_and_duration Q QReal.Q_ops))
                 Sample.webmNative Sample.avAtTwoSeconds eq_refl).
  vm_compute. reflexivity.
Defined.

(** C5 as stated fails on a video-only muxer for which the application
    set a stream duration of 30 frames (one second) and whose running
    video duration is two seconds: the segment gets 10000 ticks, one
    second, not the 20000 of the running duration. *)
Lemma finalize_prefers_set_stream_duration :
  Webm.m_audioTrackIndex Sample.videoOnlyAtTwoSeconds = 0
  /\ segmentTicks (Webm.m_timeCodeScale Sample.videoOnlyAtTwoSeconds)
                  (Webm.m_videoDuration Sample.videoOnlyAtTwoSeconds)
     = 20000
  /\ Webm.durationsSet
       (Webm.trace
          (Webm.uninit Sample.webmNative Sample.videoOnlyAtTwoSeconds))
     = [10000]
  /\ Webm.durationsSet
       (Webm.trace
          (Webm.uninit Sample.webmNative Sample.videoOnlyAtTwoSeconds))
     <> [segmentTicks (Webm.m_timeCodeScale Sample.videoOnlyAtTwoSeconds)
           (Webm.m_videoDuration Sample.videoOnlyAtTwoSeconds)].
Proof.
  split; [reflexivity|]. split; [vm_compute; reflexivity|].
  split; [vm_compute; reflexivity|].
  vm_compute. discriminate.
Qed.

Module SessionProofs.
Import MachineInt Ak Rav1e.
Import MuxerInitProofs MuxerTraceProofs.

Lemma lastEnd_app {R : Type} `{QReal.Ops R} audio (start : R) ps qs :
  lastEnd audio (lastEnd audio start ps) qs = lastEnd audio start (ps ++ qs).
Proof. unfold lastEnd. rewrite fold_left_app. reflexivity. Qed.

Lemma existsb_frameEvents {R : Type} `{QReal.Ops R} (s : Webm.State R) ps :
  existsb Webm.isAddAudioTrack (map (frameEvent s) ps) = false.
Proof. apply (proj1 (frameEvents_quiet s ps)). Qed.




(** ** The AAC encoder's packet times *)


Lemma to_qint64_small z : 0 <= z <= qint64_max -> to_qint64 z = z.
Proof.
  intros Hz. unfold qint64_max in Hz. unfold to_qint64, to_signed.
  rewrite Z.mod_small; lia.
Qed.






(** ** A session of the muxer *)

(** From a started muxer without an audio track to the end of [uninit]:
    the events added to those of [s] have no [AddAudioTrack], and the one
    duration set is the video stream's. *)
Lemma session_from_started {R : Type} `{QReal.Ops R} nat'
      (s s1 : Webm.State R) ps :
  Continues s s1 ->
  Webm.m_audioTrackIndex s1 = 0 ->
  Webm.m_videoDuration s1 = QReal.of_int 0 ->
  Webm.m_initialized s1 = true ->
  exists added,
    Webm.trace (Webm.uninit nat' (Webm.packetsReady ps s1))
    = Webm.trace s ++ added
    /\ existsb Webm.isAddAudioTrack added = false
    /\ Webm.durationsSet added
       = [segmentTicks (Webm.m_timeCodeScale s)
            (streamSeconds
               (Webm.videoStreamDuration s)
               (QReal.fracValue (v_fps (cv_rawCaps (Webm.videoCaps s))))
               (lastEnd false (QReal.of_int 0)
                        (ps ++ Webm.flushed nat')))].
Proof.
  intros ((a1 & Ht1 & Hq1a & Hq1d) & Hc1) Hai1 Hv1 Hinit.
  destruct (packetsReady_spec ps s1)
    as (Ht2 & _ & Hv2 & Hai2 & _ & Hc2 & _).
  assert (Hi2 : Webm.m_initialized (Webm.packetsReady ps s1) = true)
    by (rewrite LifeCycleProofs.webm_packetsReady_initialized; exact Hinit).
  set (s2 := Webm.packetsReady ps s1) in *.
  destruct (uninit_trace nat' s2 Hi2) as (cues & [Hqa Hqd] & Ht3).
  rewrite Hai2, Hai1 in Ht3. cbn [Z.leb Z.compare] in Ht3. cbv zeta in Ht3.
  unfold muxerConfig in Hc1, Hc2. rewrite Hc1 in Hc2.
  injection Hc2 as E1 E2 E3 E4 E5.
  rewrite E1, E3, E5, Hv2, Hv1 in Ht3.
  rewrite lastEnd_app in Ht3.
  eexists. split.
  - rewrite Ht3, Ht2, Ht1. rewrite <- !app_assoc. reflexivity.
  - split.
    + rewrite !existsb_app. rewrite Hq1a.
      rewrite existsb_frameEvents. cbn.
      rewrite existsb_app, existsb_frameEvents. cbn.
      exact Hqa.
    + rewrite !durationsSet_app. rewrite Hq1d.
      rewrite (proj2 (frameEvents_quiet s1 ps)). cbn.
      rewrite durationsSet_app.
      rewrite (proj2 (frameEvents_quiet s2 (Webm.flushed nat'))).
      cbn. rewrite Hqd. reflexivity.
Qed.

(** ** Exact arithmetic keeps the order of packet times *)




End SessionProofs.

(** C6. A muxer started with empty audio caps never adds an audio track
    between [init] and the end of [uninit], whatever packets it is handed,
    and the one duration it writes at finalize is the video stream's: the
    video duration the application set when positive, otherwise the end
    of the last video packet. This holds for [init] on an element that is
    not initialized followed by [uninit], and for the Playing transition
    of a reachable element in the Null state followed by the Null
    transition. *)
Theorem video_only_session :
  forall (R : Type) (ops : QReal.Ops R) (nat nat' : Webm.Native)
         (s : Webm.State R) (ps : list Webm.AkPacket),
    Ak.compressedAudioCapsValid (Webm.audioCaps s) = false ->
    (Webm.m_initialized s = false ->
     fst (Webm.init nat s) = true ->
     exists added,
       Webm.trace (Webm.uninit nat' (Webm.packetsReady ps
                                       (snd (Webm.init nat s))))
       = Webm.trace s ++ added
       /\ existsb Webm.isAddAudioTrack added = false
       /\ Webm.durationsSet added
          = [segmentTicks (Webm.m_timeCodeScale s)
               (streamSeconds
                  (Webm.videoStreamDuration s)
                  (QReal.fracValue
                     (Rav1e.v_fps (Rav1e.cv_rawCaps (Webm.videoCaps s))))
                  (lastEnd false (QReal.of_int 0)
                           (ps ++ Webm.flushed nat')))])
    /\ (Reachable s ->
        Webm.state s = Ak.ElementStateNull ->
        fst (Webm.setState nat Ak.ElementStatePlaying s) = true ->
        exists added,
          Webm.trace
            (snd (Webm.setState nat' Ak.ElementStateNull
                    (Webm.packetsReady ps
                       (snd (Webm.setState nat Ak.ElementStatePlaying s)))))
          = Webm.trace s ++ added
          /\ existsb Webm.isAddAudioTrack added = false
          /\ Webm.durationsSet added
             = [segmentTicks (Webm.m_timeCodeScale s)
                  (streamSeconds
                     (Webm.videoStreamDuration s)
                     (QReal.fracValue
                        (Rav1e.v_fps (Rav1e.cv_rawCaps (Webm.videoCaps s))))
                     (lastEnd false (QReal.of_int 0)
                              (ps ++ Webm.flushed nat')))]).
Proof.
  intros R ops nat nat' s ps Ha.
  assert (Hcore : Webm.m_initialized s = false ->
                  fst (Webm.init nat s) = true ->
                  Continues s (snd (Webm.init nat s))
                  /\ Webm.m_audioTrackIndex (snd (Webm.init nat s)) = 0
                  /\ Webm.m_videoDuration (snd (Webm.init nat s))
                     = QReal.of_int 0
                  /\ Webm.m_initialized (snd (Webm.init nat s)) = true).
  { intros Hi Hok.
    destruct (MuxerTraceProofs.init_video_only nat s Hi Ha Hok)
      as (Hc & Hai & _ & Hv).
    destruct (MuxerInitProofs.init_fields nat s) as [_ Hinit].
    rewrite Hok in Hinit.
    split; [exact Hc|]. split; [exact Hai|]. split; [exact Hv | exact Hinit]. }
  split.
  - intros Hi Hok. destruct (Hcore Hi Hok) as (Hc & Hai & Hv & Hinit).
    apply SessionProofs.session_from_started; assumption.
  - intros Hr Hst.
    assert (Hi : Webm.m_initialized s = false)
      by (apply (MuxerInitProofs.reachable_invariant s Hr Hst)).
    assert (Hplay : Webm.setState nat Ak.ElementStatePlaying s
                    = (let '(ok, s1) := Webm.init nat s in
                       if negb ok then (false, Webm.set_m_paused false s1)
                       else (true,
                             Webm.set_state Ak.ElementStatePlaying s1)))
      by (unfold Webm.setState; rewrite Hst; reflexivity).
    rewrite Hplay. clear Hplay.
    assert (Hcore' := Hcore Hi).
    destruct (Webm.init nat s) as [ok s1].
    cbn [fst snd] in Hcore'.
    destruct ok; cbn [negb fst snd]; [|discriminate].
    intros _. destruct (Hcore' eq_refl) as (Hc & Hai & Hv & Hinit).
    set (s1' := Webm.set_state Ak.ElementStatePlaying s1).
    assert (Hstate : Webm.state (Webm.packetsReady ps s1')
                     = Ak.ElementStatePlaying)
      by (rewrite LifeCycleProofs.webm_packetsReady_state; reflexivity).
    unfold Webm.setState. rewrite Hstate. cbn [snd].
    change (Webm.trace
              (Webm.set_state Ak.ElementStateNull
                 (Webm.uninit nat' (Webm.packetsReady ps s1'))))
      with (Webm.trace (Webm.uninit nat' (Webm.packetsReady ps s1'))).
    apply SessionProofs.session_from_started; assumption.
Qed.

(** The theorem on a new video-only muxer that is set to Playing, writes
    frames 0 and 1 and is set to Null: no audio track in the whole
    trace, and the segment gets the two frames' 1/15 s, 667 ticks. *)
Lemma video_only_session_witness :
  existsb Webm.isAddAudioTrack
    (Webm.trace
       (snd (Webm.setState Sample.webmNative Ak.ElementStateNull
               (Webm.packetsReady
                  [Sample.videoPacket 0; Sample.videoPacket 1]
                  (snd (Webm.setState Sample.webmNative
                          Ak.ElementStatePlaying
                          (Sample.muxer Sample.vp8Caps 0)))))))
  = false
  /\ Webm.durationsSet
       (Webm.trace
          (snd (Webm.setState Sample.webmNative Ak.ElementStateNull
                  (Webm.packetsReady
                     [Sample.videoPacket 0; Sample.videoPacket 1]
                     (snd (Webm.setState Sample.webmNative
                             Ak.ElementStatePlaying
                             (Sample.muxer Sample.vp8Caps 0)))))))
     = [667].
Proof.
  assert (Hr : Reachable (Sample.muxer Sample.vp8Caps 0))
    by (apply Reachable_new; reflexivity).
  destruct (proj2 (video_only_session Q QReal.Q_ops Sample.webmNative
                     Sample.webmNative (Sample.muxer Sample.vp8Caps 0)
                     [Sample.videoPacket 0; Sample.videoPacket 1] eq_refl)
                  Hr eq_refl eq_refl) as (added & Ht & Ha & Hd).
  rewrite Ht. cbn [Webm.trace Sample.muxer app].
  split; [exact Ha|]. rewrite Hd. vm_compute. reflexivity.
Defined.



(* ===================================================================== *)
(** * Bits, bytes and the AAC header *)
(* ===================================================================== *)

From Stdlib Require Import ZifyNat.

(** Linear arithmetic with quotients and remainders by constants. *)
Ltac dlia := zify; Z.div_mod_to_equations; lia.

Module BitProofs.
Import MachineInt Faac.

Lemma setBit_length ba i b : length (setBit ba i b) = length ba.
Proof.
  revert i. induction ba as [|x ba IH]; intros [|i]; simpl; auto.
Qed.

Lemma setBit_app pre x post b :
  setBit (pre ++ x :: post) (length pre) b = pre ++ b :: post.
Proof.
  induction pre as [|y pre IH]; simpl; [reflexivity|]. now rewrite IH.
Qed.

Lemma resize_grow ba n : resize ba (length ba + n) = ba ++ repeat false n.
Proof.
  unfold resize. rewrite firstn_all2 by lia. f_equal. f_equal. lia.
Qed.

Lemma repeat_snoc {A} (x : A) n : repeat x (S n) = repeat x n ++ [x].
Proof. induction n; simpl; [reflexivity|]. now rewrite <- IHn. Qed.

Lemma odd_land_shiftr v i :
  Z.odd (Z.land (Z.shiftr v (Z.of_nat i)) 1) = Z.testbit v (Z.of_nat i).
Proof.
  rewrite <- Z.bit0_odd. rewrite Z.land_spec, Z.shiftr_spec by lia.
  simpl. rewrite andb_true_r. reflexivity.
Qed.

Lemma putBits_loop_spec v todo :
  forall pre tail,
    putBits_loop (pre ++ repeat false todo ++ tail) (length tail) todo v
    = pre
      ++ rev (map (fun j => Z.testbit v (Z.of_nat (length tail + j)))
                  (seq 0 todo))
      ++ tail.
Proof.
  induction todo as [|todo IH]; intros pre tail.
  - reflexivity.
  - cbn [putBits_loop]. cbv zeta.
    rewrite repeat_snoc. rewrite <- !app_assoc. cbn [app].
    replace (length (pre ++ repeat false todo ++ false :: tail)
             - length tail - 1)%nat
      with (length (pre ++ repeat false todo)).
    2:{ repeat (rewrite length_app; cbn [length]). lia. }
    rewrite (app_assoc pre (repeat false todo)).
    rewrite setBit_app. rewrite <- app_assoc.
    rewrite odd_land_shiftr.
    specialize (IH pre (Z.testbit v (Z.of_nat (length tail)) :: tail)).
    cbn [length] in IH. rewrite IH.
    f_equal. cbn [seq map rev]. rewrite <- seq_shift, map_map.
    rewrite <- app_assoc. cbn [app]. rewrite Nat.add_0_r.
    f_equal. f_equal. apply map_ext. intros j. f_equal. lia.
Qed.

Lemma putBits_append ba n v :
  putBits ba n v = ba ++ bitsOf n (to_quint32 v).
Proof.
  unfold putBits. rewrite resize_grow.
  pose proof (putBits_loop_spec (to_quint32 v) n ba []) as H.
  cbn [length] in H. rewrite !app_nil_r in H. exact H.
Qed.

Lemma bitsOf_length n v : length (bitsOf n v) = n.
Proof. unfold bitsOf. now rewrite length_rev, length_map, length_seq. Qed.

Lemma orByte_length bytes i v : length (orByte bytes i v) = length bytes.
Proof.
  revert i. induction bytes as [|x bytes IH]; intros [|i]; simpl; auto.
Qed.

Lemma orByte_nth bytes i v j :
  nth j (orByte bytes i v) 0
  = if ((j =? i) && (i <? length bytes))%nat
    then Z.lor (nth j bytes 0) v else nth j bytes 0.
Proof.
  revert i j. induction bytes as [|x bytes IH]; intros i j.
  - destruct i, j; simpl; try reflexivity; rewrite ?andb_false_r; reflexivity.
  - destruct i as [|i], j as [|j]; cbn [orByte nth]; try reflexivity.
    rewrite IH. cbn [length]. reflexivity.
Qed.

Lemma testbit_flag (b : bool) n p :
  0 <= n -> 0 <= p ->
  Z.testbit (Z.shiftl (if b then 1 else 0) n) p = b && (p =? n).
Proof.
  intros Hn Hp. rewrite Z.shiftl_spec by lia.
  destruct b; cbn [andb]; [|apply Z.bits_0].
  destruct (Z.eqb_spec p n) as [->|Hne].
  - rewrite Z.sub_diag. reflexivity.
  - destruct (Z.ltb_spec p n).
    + apply Z.testbit_neg_r. lia.
    + replace 1 with (2 ^ 0) by reflexivity.
      apply Z.pow2_bits_false. lia.
Qed.

Lemma bitsToByteArray_loop_length rest :
  forall i bytes,
    length (bitsToByteArray_loop rest i bytes) = length bytes.
Proof.
  induction rest as [|b rest IH]; intros i bytes; simpl; [reflexivity|].
  rewrite IH. apply orByte_length.
Qed.

(** Bit [p] of byte [j] after the loop: it was set before, or one of the
    bits walked over is set and lands there. *)
Lemma bitsToByteArray_loop_testbit rest :
  forall i bytes j p,
    0 <= p ->
    Z.testbit (nth j (bitsToByteArray_loop rest i bytes) 0) p = true
    <-> Z.testbit (nth j bytes 0) p = true
        \/ ((j < length bytes)%nat
            /\ exists t, (t < length rest)%nat
                         /\ nth t rest false = true
                         /\ Nat.div (i + t) 8 = j
                         /\ Z.of_nat (Nat.modulo (i + t) 8) = 7 - p).
Proof.
  induction rest as [|b rest IH]; intros i bytes j p Hp.
  - cbn [bitsToByteArray_loop]. split; [auto|].
    intros [H | (_ & t & Ht & _)]; [exact H | cbn in Ht; lia].
  - cbn [bitsToByteArray_loop]. cbv zeta. rewrite IH by exact Hp.
    rewrite orByte_length, orByte_nth.
    split.
    + intros [H | (Hj & t & Ht & Hb & Hd & Hm)].
      * destruct ((j =? Nat.div i 8)%nat && (Nat.div i 8 <? length bytes)%nat)
          eqn:E; [|left; exact H].
        apply andb_prop in E. destruct E as [E1 E2].
        apply Nat.eqb_eq in E1. apply Nat.ltb_lt in E2.
        rewrite Z.lor_spec in H. apply orb_prop in H.
        destruct H as [H | H]; [left; exact H|].
        rewrite testbit_flag in H by dlia.
        apply andb_prop in H. destruct H as [Hb Hpe].
        apply Z.eqb_eq in Hpe.
        right. split; [lia|]. exists 0%nat. cbn [length nth].
        rewrite Nat.add_0_r. repeat split; [lia | exact Hb | lia | dlia].
      * right. split; [exact Hj|]. exists (S t). cbn [length nth].
        repeat split; [lia | exact Hb | |].
        -- rewrite <- Hd. f_equal. lia.
        -- rewrite <- Hm. f_equal. f_equal. lia.
    + intros [H | (Hj & t & Ht & Hb & Hd & Hm)].
      * left.
        destruct ((j =? Nat.div i 8)%nat && (Nat.div i 8 <? length bytes)%nat);
          [|exact H].
        rewrite Z.lor_spec, H. reflexivity.
      * destruct t as [|t].
        -- left. rewrite Nat.add_0_r in Hd, Hm. cbn [nth] in Hb.
           assert (E : ((j =? Nat.div i 8)%nat
                        && (Nat.div i 8 <? length bytes)%nat) = true).
           { apply andb_true_intro. split.
             - apply Nat.eqb_eq. lia.
             - apply Nat.ltb_lt. lia. }
           rewrite E, Z.lor_spec, testbit_flag by dlia.
           rewrite Hb. cbn [andb].
           replace (p =? 7 - Z.of_nat i mod 8) with true;
             [apply orb_true_r|].
           symmetry. apply Z.eqb_eq. dlia.
        -- right. split; [exact Hj|]. exists t. cbn [length nth] in *.
           repeat split; [lia | exact Hb | |].
           ++ rewrite <- Hd. f_equal. lia.
           ++ rewrite <- Hm. f_equal. f_equal. lia.
Qed.

Lemma nth_repeat_0 j n : nth j (repeat 0 n) 0 = 0.
Proof.
  revert j. induction n as [|n IH]; intros [|j]; simpl; auto.
Qed.

Lemma bitsToByteArray_length bits :
  length (bitsToByteArray bits) = Nat.div (length bits + 7) 8.
Proof.
  unfold bitsToByteArray.
  now rewrite bitsToByteArray_loop_length, repeat_length.
Qed.

(** Reading bit [i] of the packed bytes gives bit [i] of the array, and
    a cleared bit past its end. *)
Lemma bitAt_bitsToByteArray bits i :
  bitAt (bitsToByteArray bits) i = nth i bits false.
Proof.
  apply eq_true_iff_eq. unfold bitAt, bitsToByteArray.
  rewrite bitsToByteArray_loop_testbit by lia.
  rewrite nth_repeat_0, Z.bits_0, repeat_length. cbn [plus].
  split.
  - intros [H | (Hj & t & Ht & Hb & Hd & Hm)]; [discriminate|].
    replace i with t by dlia. exact Hb.
  - intros Hb. right.
    assert (Hi : (i < length bits)%nat).
    { destruct (Nat.lt_ge_cases i (length bits)) as [Hlt | Hge];
        [exact Hlt|].
      rewrite nth_overflow in Hb by exact Hge. discriminate. }
    split; [dlia|]. exists i. repeat split; [exact Hi | exact Hb | dlia].
Qed.

Lemma fold_left_nth_map {A} (f : Z -> A -> Z) (g : nat -> A) l a :
  fold_left (fun acc j => f acc (g j)) l a = fold_left f (map g l) a.
Proof.
  revert a. induction l as [|x l IH]; intros a; simpl; [reflexivity|].
  apply IH.
Qed.

Lemma readBits_packed bits off len :
  readBits (bitsToByteArray bits) off len
  = bitsValue (map (fun j => nth (off + j) bits false) (seq 0 len)).
Proof.
  unfold readBits, bitsValue.
  rewrite <- (fold_left_nth_map (fun acc b => 2 * acc + Z.b2z b)).
  generalize (seq 0 len). intros l. generalize 0.
  induction l as [|j l IH]; intros a; [reflexivity|].
  cbn [fold_left]. rewrite bitAt_bitsToByteArray. apply IH.
Qed.

Lemma slice_field (field : list bool) :
  forall pre post,
    map (fun j => nth (length pre + j) (pre ++ field ++ post) false)
        (seq 0 (length field))
    = field.
Proof.
  induction field as [|b field IH]; intros pre post; [reflexivity|].
  cbn [length seq map]. f_equal.
  - rewrite Nat.add_0_r, app_nth2, Nat.sub_diag by lia. reflexivity.
  - rewrite <- seq_shift, map_map.
    specialize (IH (pre ++ [b]) post).
    rewrite <- app_assoc in IH. cbn [app] in IH.
    etransitivity; [|exact IH]. apply map_ext. intros j.
    f_equal. rewrite length_app. cbn [length]. lia.
Qed.

(** A field of the bit array is read back from the packed bytes. *)
Lemma readBits_field pre field post :
  readBits (bitsToByteArray (pre ++ field ++ post))
           (length pre) (length field)
  = bitsValue field.
Proof. rewrite readBits_packed, slice_field. reflexivity. Qed.

Lemma bitsValue_from l :
  forall a,
    fold_left (fun acc b => 2 * acc + Z.b2z b) l a
    = a * 2 ^ Z.of_nat (length l) + bitsValue l.
Proof.
  unfold bitsValue.
  induction l as [|b l IH]; intros a.
  - cbn. lia.
  - cbn [fold_left length]. rewrite IH. rewrite (IH (2 * 0 + Z.b2z b)).
    rewrite Nat2Z.inj_succ, Z.pow_succ_r by lia. lia.
Qed.

Lemma bitsOf_succ n v :
  bitsOf (S n) v = Z.testbit v (Z.of_nat n) :: bitsOf n v.
Proof.
  unfold bitsOf. rewrite seq_S, map_app, rev_app_distr. reflexivity.
Qed.

(** The bits of [v] spell [v] modulo [2 ^ n]. *)
Lemma bitsValue_bitsOf n v : bitsValue (bitsOf n v) = v mod 2 ^ Z.of_nat n.
Proof.
  induction n as [|n IH].
  - cbn. now rewrite Z.mod_1_r.
  - rewrite bitsOf_succ. unfold bitsValue. cbn [fold_left].
    rewrite bitsValue_from, bitsOf_length, IH.
    rewrite Nat2Z.inj_succ, Z.pow_succ_r by lia.
    replace (2 * 2 ^ Z.of_nat n) with (2 ^ Z.of_nat n * 2) by lia.
    assert (Hpos : 0 < 2 ^ Z.of_nat n) by (apply Z.pow_pos_nonneg; lia).
    rewrite Z.rem_mul_r by lia.
    rewrite Z.testbit_spec' by lia. lia.
Qed.

Lemma bitsValue_zero n : bitsValue (repeat false n) = 0.
Proof.
  unfold bitsValue. induction n as [|n IH]; [reflexivity|]. exact IH.
Qed.

Lemma quint32_low v n :
  0 <= n <= 32 -> to_quint32 v mod 2 ^ n = v mod 2 ^ n.
Proof.
  intros Hn. unfold to_quint32, to_unsigned.
  apply Z.mod_mod_divide.
  exists (2 ^ (32 - n)). rewrite <- Z.pow_add_r by lia. f_equal. lia.
Qed.

Lemma sampleRateIndex_loop_spec tbl :
  forall i rate,
    (forall r, In r tbl -> r <> 0) ->
    (exists n, (n < length tbl)%nat /\ nth n tbl 0 = rate
               /\ sampleRateIndex_loop (tbl ++ [0]) i rate = i + Z.of_nat n)
    \/ (sampleRateIndex_loop (tbl ++ [0]) i rate = 15 /\ ~ In rate tbl).
Proof.
  induction tbl as [|r tbl IH]; intros i rate Hnz.
  - right. split; [reflexivity | intros []].
  - cbn [app sampleRateIndex_loop].
    assert (Hr : r <> 0) by (apply Hnz; left; reflexivity).
    apply Z.eqb_neq in Hr. rewrite Hr.
    destruct (Z.eqb_spec r rate) as [<- | Hne].
    + left. exists 0%nat. cbn [length nth]. split; [lia|]. split; [reflexivity|].
      lia.
    + destruct (IH (i + 1) rate) as [(n & Hn & Hnth & Hk) | (Hk & Hin)].
      * intros x Hx. apply Hnz. right. exact Hx.
      * left. exists (S n). cbn [length nth]. split; [lia|].
        split; [exact Hnth|]. rewrite Hk. lia.
      * right. split; [exact Hk|]. intros [Heq | Hx]; [exact (Hne Heq)|].
        exact (Hin Hx).
Qed.

(** [sampleRateIndex] finds the place of a rate in its table, and says
    15 for a rate the table does not have. *)
Lemma sampleRateIndex_spec rate :
  (0 <= sampleRateIndex rate <= 12
   /\ nth (Z.to_nat (sampleRateIndex rate)) indexedRates 0 = rate)
  \/ (sampleRateIndex rate = 15 /\ ~ In rate indexedRates).
Proof.
  change (sampleRateIndex rate)
    with (sampleRateIndex_loop (indexedRates ++ [0]) 0 rate).
  destruct (sampleRateIndex_loop_spec indexedRates 0 rate)
    as [(n & Hn & Hnth & Hk) | H].
  - intros r Hr. cbn in Hr.
    repeat (destruct Hr as [<- | Hr]; [discriminate|]). destruct Hr.
  - left. rewrite Hk. cbn [length indexedRates] in Hn.
    split; [lia|]. rewrite Z.add_0_l, Nat2Z.id. exact Hnth.
  - right. exact H.
Qed.

End BitProofs.

Module HeaderProofs.
Import MachineInt Ak Faac BitProofs.

Lemma resize_pad ba n :
  (length ba <= n)%nat -> resize ba n = ba ++ repeat false (n - length ba).
Proof. intros Hn. unfold resize. now rewrite firstn_all2 by lia. Qed.

(** The bits [updateHeaders] packs, field by field. *)
Lemma audioSpecificConfig_fields objectType rate channels :
  audioSpecificConfig objectType rate channels
  = bitsOf 5 (to_quint32 objectType)
    ++ bitsOf 4 (to_quint32 (sampleRateIndex rate))
    ++ (if 15 <=? sampleRateIndex rate
        then bitsOf 24 (to_quint32 rate) else [])
    ++ bitsOf 4 (to_quint32 channels)
    ++ bitsOf 3 0
    ++ bitsOf 11 (to_quint32 0x2b7)
    ++ bitsOf 5 (to_quint32 5)
    ++ bitsOf 1 0.
Proof.
  unfold audioSpecificConfig. cbv zeta.
  destruct (15 <=? sampleRateIndex rate);
    rewrite !putBits_append; cbn [app]; rewrite <- !app_assoc; reflexivity.
Qed.

Lemma readBits_at (bits pre field post : list bool) off len :
  bits = pre ++ field ++ post ->
  length pre = off -> length field = len ->
  readBits (bitsToByteArray bits) off len = bitsValue field.
Proof. intros -> <- <-. apply readBits_field. Qed.

Ltac field_lengths :=
  repeat (rewrite length_app || rewrite bitsOf_length
          || rewrite repeat_length);
  reflexivity.

Ltac read_field pre field post :=
  rewrite (readBits_at _ pre field post);
  [ | repeat rewrite <- app_assoc; reflexivity
    | field_lengths | field_lengths ].

Lemma short_header objectType rate channels :
  sampleRateIndex rate < 15 ->
  let h := bitsToByteArray
             (resize (audioSpecificConfig objectType rate channels)
                     (32 * 8)) in
  readBits h 0 5 = objectType mod 32
  /\ readBits h 5 4 = sampleRateIndex rate mod 16
  /\ readBits h 9 4 = channels mod 16
  /\ readBits h 13 3 = 0
  /\ readBits h 16 11 = 0x2b7
  /\ readBits h 27 5 = 5
  /\ readBits h 32 224 = 0.
Proof.
  intros Hsri h. subst h.
  rewrite audioSpecificConfig_fields.
  replace (15 <=? sampleRateIndex rate) with false
    by (symmetry; apply Z.leb_gt; exact Hsri).
  cbn [app]. repeat rewrite <- app_assoc.
  rewrite resize_pad by (repeat (rewrite length_app || rewrite bitsOf_length);
                         cbn; lia).
  replace (32 * 8 - _)%nat with 223%nat
    by (repeat (rewrite length_app || rewrite bitsOf_length); reflexivity).
  set (O := bitsOf 5 (to_quint32 objectType)).
  set (I := bitsOf 4 (to_quint32 (sampleRateIndex rate))).
  set (C := bitsOf 4 (to_quint32 channels)).
  set (Z3 := bitsOf 3 0).
  set (S11 := bitsOf 11 (to_quint32 695)).
  set (E5 := bitsOf 5 (to_quint32 5)).
  set (Z1 := bitsOf 1 0).
  set (P := repeat false 223).
  split; [|split; [|split; [|split; [|split; [|split]]]]].
  - read_field (@nil bool) O (I ++ C ++ Z3 ++ S11 ++ E5 ++ Z1 ++ P).
    subst O. rewrite bitsValue_bitsOf. apply (quint32_low _ 5). lia.
  - read_field O I (C ++ Z3 ++ S11 ++ E5 ++ Z1 ++ P).
    subst I. rewrite bitsValue_bitsOf. apply (quint32_low _ 4). lia.
  - read_field (O ++ I) C (Z3 ++ S11 ++ E5 ++ Z1 ++ P).
    subst C. rewrite bitsValue_bitsOf. apply (quint32_low _ 4). lia.
  - read_field (O ++ I ++ C) Z3 (S11 ++ E5 ++ Z1 ++ P). reflexivity.
  - read_field (O ++ I ++ C ++ Z3) S11 (E5 ++ Z1 ++ P). reflexivity.
  - read_field (O ++ I ++ C ++ Z3 ++ S11) E5 (Z1 ++ P). reflexivity.
  - read_field (O ++ I ++ C ++ Z3 ++ S11 ++ E5) (Z1 ++ P) (@nil bool).
    apply (bitsValue_zero 224).
Qed.

Lemma long_header objectType rate channels :
  sampleRateIndex rate = 15 ->
  let h := bitsToByteArray
             (resize (audioSpecificConfig objectType rate channels)
                     (32 * 8)) in
  readBits h 0 5 = objectType mod 32
  /\ readBits h 5 4 = 15
  /\ readBits h 9 24 = rate mod 2 ^ 24
  /\ readBits h 33 4 = channels mod 16
  /\ readBits h 37 3 = 0
  /\ readBits h 40 11 = 0x2b7
  /\ readBits h 51 5 = 5
  /\ readBits h 56 200 = 0.
Proof.
  intros Hsri h. subst h.
  rewrite audioSpecificConfig_fields. rewrite Hsri.
  change (15 <=? 15) with true. cbv iota.
  rewrite resize_pad by (repeat (rewrite length_app || rewrite bitsOf_length);
                         cbn; lia).
  replace (32 * 8 - _)%nat with 199%nat
    by (repeat (rewrite length_app || rewrite bitsOf_length); reflexivity).
  set (O := bitsOf 5 (to_quint32 objectType)).
  set (I := bitsOf 4 (to_quint32 15)).
  set (F := bitsOf 24 (to_quint32 rate)).
  set (C := bitsOf 4 (to_quint32 channels)).
  set (Z3 := bitsOf 3 0).
  set (S11 := bitsOf 11 (to_quint32 695)).
  set (E5 := bitsOf 5 (to_quint32 5)).
  set (Z1 := bitsOf 1 0).
  set (P := repeat false 199).
  repeat rewrite <- app_assoc.
  split; [|split; [|split; [|split; [|split; [|split; [|split]]]]]].
  - read_field (@nil bool) O (I ++ F ++ C ++ Z3 ++ S11 ++ E5 ++ Z1 ++ P).
    subst O. rewrite bitsValue_bitsOf. apply (quint32_low _ 5). lia.
  - read_field O I (F ++ C ++ Z3 ++ S11 ++ E5 ++ Z1 ++ P). reflexivity.
  - read_field (O ++ I) F (C ++ Z3 ++ S11 ++ E5 ++ Z1 ++ P).
    subst F. rewrite bitsValue_bitsOf. apply (quint32_low _ 24). lia.
  - read_field (O ++ I ++ F) C (Z3 ++ S11 ++ E5 ++ Z1 ++ P).
    subst C. rewrite bitsValue_bitsOf. apply (quint32_low _ 4). lia.
  - read_field (O ++ I ++ F ++ C) Z3 (S11 ++ E5 ++ Z1 ++ P). reflexivity.
  - read_field (O ++ I ++ F ++ C ++ Z3) S11 (E5 ++ Z1 ++ P). reflexivity.
  - read_field (O ++ I ++ F ++ C ++ Z3 ++ S11) E5 (Z1 ++ P). reflexivity.
  - read_field (O ++ I ++ F ++ C ++ Z3 ++ S11 ++ E5) (Z1 ++ P) (@nil bool).
    apply (bitsValue_zero 200).
Qed.

Lemma header_length objectType rate channels :
  length (bitsToByteArray
            (resize (audioSpecificConfig objectType rate channels) (32 * 8)))
  = 32%nat.
Proof.
  rewrite bitsToByteArray_length.
  assert (Hlen : length (resize (audioSpecificConfig objectType rate channels)
                                (32 * 8)) = 256%nat).
  { rewrite audioSpecificConfig_fields, resize_pad;
      destruct (15 <=? sampleRateIndex rate);
      repeat (rewrite length_app || rewrite bitsOf_length
              || rewrite repeat_length); cbn [length]; lia. }
  rewrite Hlen. reflexivity.
Qed.

(** The rates [nearestSampleRate] can answer all have an index. *)
Lemma supported_rate_indexed r :
  In r supportedRates -> 0 <= sampleRateIndex r <= 11.
Proof.
  intros Hr. cbn in Hr.
  repeat (destruct Hr as [<- | Hr]; [vm_compute; split; discriminate|]).
  destruct Hr.
Qed.

Lemma bitsOf_quint32 n v :
  (n <= 32)%nat -> bitsOf n (to_quint32 v) = bitsOf n v.
Proof.
  intros Hn. unfold bitsOf. f_equal. apply map_ext_in. intros j Hj.
  apply in_seq in Hj. unfold to_quint32, to_unsigned.
  apply Z.mod_pow2_bits_low. lia.
Qed.

(** One or two channels come out of [qBound(1, channels, 2)]. *)
Lemma bound_channels c :
  Ak.layoutChannels (Ak.defaultChannelLayout (qBound 1 c 2)) = 1
  \/ Ak.layoutChannels (Ak.defaultChannelLayout (qBound 1 c 2)) = 2.
Proof.
  assert (H : qBound 1 c 2 = 1 \/ qBound 1 c 2 = 2)
    by (unfold qBound; lia).
  destruct H as [-> | ->]; [left | right]; reflexivity.
Qed.

End HeaderProofs.

Module ByteProofs.
Import MachineInt Faac BitProofs.

Lemma orByte_nonneg bytes i v :
  0 <= v -> Forall (fun b => 0 <= b) bytes ->
  Forall (fun b => 0 <= b) (orByte bytes i v).
Proof.
  intros Hv. revert i. induction bytes as [|x bytes IH]; intros i Hb;
    [destruct i; constructor|].
  inversion Hb as [|? ? Hx Hrest]; subst.
  destruct i as [|i]; cbn [orByte]; constructor; auto.
  apply Z.lor_nonneg. split; assumption.
Qed.

Lemma bitsToByteArray_loop_nonneg rest :
  forall i bytes,
    Forall (fun b => 0 <= b) bytes ->
    Forall (fun b => 0 <= b) (bitsToByteArray_loop rest i bytes).
Proof.
  induction rest as [|b rest IH]; intros i bytes Hb; [exact Hb|].
  cbn [bitsToByteArray_loop]. cbv zeta. apply IH, orByte_nonneg; [|exact Hb].
  apply Z.shiftl_nonneg. destruct b; lia.
Qed.

(** A number without bits from position 8 on is a byte. *)
Lemma byte_of_bits x :
  0 <= x -> (forall p, 8 <= p -> Z.testbit x p = false) -> x < 256.
Proof.
  intros Hx Hbits.
  destruct (Z.lt_ge_cases x 256) as [Hlt | Hge]; [exact Hlt|].
  exfalso.
  assert (Hlog : 8 <= Z.log2 x)
    by (change 8 with (Z.log2 256); apply Z.log2_le_mono; exact Hge).
  pose proof (Z.bit_log2 x ltac:(lia)) as Hb.
  rewrite (Hbits (Z.log2 x) Hlog) in Hb. discriminate.
Qed.

Lemma bitsToByteArray_bytes bits :
  Forall (fun b => 0 <= b < 256) (bitsToByteArray bits).
Proof.
  apply Forall_forall. intros x Hx.
  apply (In_nth _ _ 0) in Hx. destruct Hx as (j & Hj & <-).
  assert (Hnn : Forall (fun b => 0 <= b) (bitsToByteArray bits)).
  { apply bitsToByteArray_loop_nonneg. apply Forall_forall.
    intros y Hy. apply repeat_spec in Hy. lia. }
  assert (H0 : 0 <= nth j (bitsToByteArray bits) 0).
  { rewrite Forall_forall in Hnn. apply Hnn, nth_In, Hj. }
  split; [exact H0|]. apply byte_of_bits; [exact H0|].
  intros p Hp. apply not_true_is_false. intros Ht.
  unfold bitsToByteArray in Ht.
  apply bitsToByteArray_loop_testbit in Ht; [|lia].
  rewrite nth_repeat_0, Z.bits_0 in Ht.
  destruct Ht as [Ht | (_ & t & _ & _ & _ & Hm)]; [discriminate|].
  dlia.
Qed.

End ByteProofs.

(** [putBits] appends: the bits already there stay, and the new ones are
    the [bits] low bits of the value, most significant first. *)
Theorem putBits_appends_low_bits :
  forall (ba : Faac.QBitArray) (bits : nat) (value : Z),
    (bits <= 32)%nat ->
    Faac.putBits ba bits value = ba ++ bitsOf bits value
    /\ length (Faac.putBits ba bits value) = (length ba + bits)%nat
    /\ bitsValue (bitsOf bits value) = value mod 2 ^ Z.of_nat bits.
Proof.
  intros ba bits value Hbits.
  rewrite BitProofs.putBits_append, HeaderProofs.bitsOf_quint32 by exact Hbits.
  split; [reflexivity|]. split.
  - rewrite length_app, BitProofs.bitsOf_length. reflexivity.
  - apply BitProofs.bitsValue_bitsOf.
Qed.

Lemma putBits_appends_low_bits_witness :
  Faac.putBits [true] 4 4 = [true; false; true; false; false]
  /\ bitsValue (bitsOf 4 4) = 4.
Proof.
  destruct (putBits_appends_low_bits [true] 4 4 ltac:(lia)) as (H1 & _ & H3).
  split; [exact H1 | exact H3].
Defined.

(** [bitsToByteArray] packs eight bits into each byte, first bit highest:
    every bit is read back from the bytes, the bits of the last byte past
    the end of the array are clear. *)
Theorem bitsToByteArray_round_trip :
  forall bits : Faac.QBitArray,
    length (Faac.bitsToByteArray bits) = Nat.div (length bits + 7) 8
    /\ (forall i, bitAt (Faac.bitsToByteArray bits) i = nth i bits false)
    /\ Forall (fun b => 0 <= b < 256) (Faac.bitsToByteArray bits).
Proof.
  intros bits. split; [apply BitProofs.bitsToByteArray_length|].
  split; [apply BitProofs.bitAt_bitsToByteArray|].
  apply ByteProofs.bitsToByteArray_bytes.
Qed.

(** [sampleRateIndex] is the place of the rate in its table of thirteen
    rates, and 15 exactly for the rates the table does not have; every
    place of the table is the index of its rate. *)
Theorem sampleRateIndex_is_table_position :
  (forall rate : Z,
      (0 <= Faac.sampleRateIndex rate <= 12
       /\ nth (Z.to_nat (Faac.sampleRateIndex rate)) indexedRates 0 = rate)
      \/ (Faac.sampleRateIndex rate = 15 /\ ~ In rate indexedRates))
  /\ (forall i : nat,
         (i < 13)%nat ->
         Faac.sampleRateIndex (nth i indexedRates 0) = Z.of_nat i).
Proof.
  split; [exact BitProofs.sampleRateIndex_spec|].
  intros i Hi.
  do 13 (destruct i as [|i]; [reflexivity|]). lia.
Qed.

Lemma sampleRateIndex_is_table_position_witness :
  Faac.sampleRateIndex 7350 = 12 /\ Faac.sampleRateIndex 50000 = 15.
Proof.
  destruct sampleRateIndex_is_table_position as [Hall Hnth].
  split.
  - exact (Hnth 12%nat ltac:(lia)).
  - destruct (Hall 50000) as [[_ Hn] | [H15 _]]; [|exact H15].
    exfalso. revert Hn. vm_compute. discriminate.
Defined.

(** The header [updateHeaders] stores is 32 bytes long and laid out as an
    AudioSpecificConfig: 5 bits of object type, 4 bits of sample-rate
    index, the rate itself in 24 bits when it has no index, 4 bits of
    channel count, three clear bits, the sync extension 0x2b7 in 11 bits,
    object type 5 in 5 bits, a clear bit, and clear bits to the end. *)
Theorem audio_specific_config_layout :
  forall (cfg : Faac.faacEncConfiguration) (s : Faac.State),
    let caps := Ak.ca_rawCaps (Faac.m_outputCaps s) in
    let h := Faac.m_headers (Faac.updateHeaders cfg s) in
    let sri := Faac.sampleRateIndex (Ak.a_rate caps) in
    length h = 32%nat
    /\ readBits h 0 5 = Faac.aacObjectType cfg mod 32
    /\ readBits h 5 4 = sri
    /\ (sri < 15 ->
        readBits h 9 4 = Ak.a_channels caps mod 16
        /\ readBits h 13 3 = 0
        /\ readBits h 16 11 = 0x2b7
        /\ readBits h 27 5 = 5
        /\ readBits h 32 224 = 0)
    /\ (sri = 15 ->
        readBits h 9 24 = Ak.a_rate caps mod 2 ^ 24
        /\ readBits h 33 4 = Ak.a_channels caps mod 16
        /\ readBits h 37 3 = 0
        /\ readBits h 40 11 = 0x2b7
        /\ readBits h 51 5 = 5
        /\ readBits h 56 200 = 0).
Proof.
  intros cfg s caps h sri. subst h.
  rewrite FaacProofs.updateHeaders_headers. fold caps. fold sri.
  split; [apply HeaderProofs.header_length|].
  destruct (BitProofs.sampleRateIndex_spec (Ak.a_rate caps))
    as [[Hrange _] | [H15 _]].
  - fold sri in Hrange. destruct (HeaderProofs.short_header (Faac.aacObjectType cfg)
                (Ak.a_rate caps) (Ak.a_channels caps) ltac:(fold sri; lia))
      as (H0 & H5 & Hrest).
    fold sri in H5. rewrite Z.mod_small in H5 by lia.
    split; [exact H0|]. split; [exact H5|]. split.
    + intros _. exact Hrest.
    + intros Heq. lia.
  - fold sri in H15.
    destruct (HeaderProofs.long_header (Faac.aacObjectType cfg)
                (Ak.a_rate caps) (Ak.a_channels caps) H15)
      as (H0 & H5 & Hrest).
    split; [exact H0|]. split; [rewrite H15; exact H5|]. split.
    + intros Hlt. lia.
    + intros _. exact Hrest.
Qed.

Lemma audio_specific_config_layout_witness :
  let h := Faac.m_headers
             (Faac.updateHeaders
                (Faac.mkConfig Faac.LOW 0 0 1 64000 0 0 Faac.FAAC_INPUT_16BIT)
                (Faac.setInputCaps Sample.stereo44100
                                   (Faac.newElement true))) in
  readBits h 5 4 = 4 /\ readBits h 9 4 = 2 /\ readBits h 16 11 = 0x2b7.
Proof.
  pose proof (audio_specific_config_layout
                (Faac.mkConfig Faac.LOW 0 0 1 64000 0 0 Faac.FAAC_INPUT_16BIT)
                (Faac.setInputCaps Sample.stereo44100
                                   (Faac.newElement true)))
    as (_ & _ & H5 & Hshort & _).
  destruct (Hshort ltac:(vm_compute; reflexivity)) as (H9 & _ & H16 & _).
  split; [exact H5|]. split; [exact H9 | exact H16].
Defined.

(** After caps negotiation the header is always of the short form: the
    rate [updateOutputCaps] settles on has an index of its own (0 to 11),
    the channel count is 1 or 2, and nothing follows bit 32. *)
Theorem negotiated_caps_give_short_header :
  forall (inCaps : Ak.AkAudioCaps) (cfg : Faac.faacEncConfiguration)
         (s : Faac.State),
    Ak.audioCapsValid inCaps = true ->
    Faac.codecID (Faac.codec s) <> Ak.AudioCodecID_unknown ->
    let s' := Faac.updateOutputCaps inCaps s in
    let h := Faac.m_headers (Faac.updateHeaders cfg s') in
    let sri := Faac.sampleRateIndex
                 (Ak.a_rate (Ak.ca_rawCaps (Faac.m_outputCaps s'))) in
    0 <= sri <= 11
    /\ readBits h 5 4 = sri
    /\ 1 <= readBits h 9 4 <= 2
    /\ readBits h 32 224 = 0.
Proof.
  intros inCaps cfg s Hv Hc s' h sri. subst h.
  rewrite FaacProofs.updateHeaders_headers.
  assert (Hcaps : Faac.m_outputCaps s'
                  = faacDerived inCaps (Faac.codecID (Faac.codec s)))
    by (apply CapsProofs.faac_updateOutputCaps_main; assumption).
  assert (Hsri : 0 <= sri <= 11).
  { subst sri. rewrite Hcaps. cbn [faacDerived Ak.ca_rawCaps Ak.a_rate].
    apply HeaderProofs.supported_rate_indexed.
    apply (NearestProofs.FirstLeast_least
             (kdist (Ak.a_rate inCaps))).
    apply NearestProofs.nearestSampleRate_first_least. }
  destruct (HeaderProofs.short_header (Faac.aacObjectType cfg)
              (Ak.a_rate (Ak.ca_rawCaps (Faac.m_outputCaps s')))
              (Ak.a_channels (Ak.ca_rawCaps (Faac.m_outputCaps s')))
              ltac:(fold sri; lia))
    as (_ & H5 & H9 & _ & _ & _ & Htail).
  fold sri in H5. rewrite Z.mod_small in H5 by lia.
  split; [exact Hsri|]. split; [exact H5|]. split; [|exact Htail].
  rewrite H9, Hcaps.
  change (Ak.a_channels
            (Ak.ca_rawCaps (faacDerived inCaps (Faac.codecID (Faac.codec s)))))
    with (Ak.layoutChannels
            (Ak.defaultChannelLayout
               (MachineInt.qBound 1 (Ak.a_channels inCaps) 2))).
  destruct (HeaderProofs.bound_channels (Ak.a_channels inCaps)) as [-> | ->];
    split; vm_compute; intros Hgt; discriminate Hgt.
Qed.

Lemma negotiated_caps_give_short_header_witness :
  let s' := Faac.updateOutputCaps Sample.surroundFloat
                                  (Faac.newElement true) in
  Faac.sampleRateIndex (Ak.a_rate (Ak.ca_rawCaps (Faac.m_outputCaps s'))) = 3
  /\ 0 <= Faac.sampleRateIndex
            (Ak.a_rate (Ak.ca_rawCaps (Faac.m_outputCaps s'))) <= 11.
Proof.
  split; [reflexivity|].
  exact (proj1 (negotiated_caps_give_short_header
                  Sample.surroundFloat
                  (Faac.mkConfig Faac.LOW 0 0 1 64000 0 0
                                 Faac.FAAC_INPUT_16BIT)
                  (Faac.newElement true) eq_refl
                  ltac:(discriminate))).
Defined.


(* ===================================================================== *)
(** * The life cycle, the clocks and the signals of the encoders *)
(* ===================================================================== *)

Module FaacLifeProofs.
Import MachineInt Ak Faac FaacElement.

Lemma encodeFrame_life wb src s :
  state (encodeFrame wb src s) = state s
  /\ m_paused (encodeFrame wb src s) = m_paused s
  /\ m_initialized (encodeFrame wb src s) = m_initialized s
  /\ m_fillAudioGaps (encodeFrame wb src s) = m_fillAudioGaps s.
Proof.
  unfold encodeFrame, sendFrame.
  destruct (audioPacketValid src); cbn [negb]; [|repeat split].
  cbv zeta. destruct (wb <? 0); [repeat split|].
  destruct (0 <? wb); repeat split.
Qed.

Lemma encodeFrames_life frames :
  forall s,
    state (encodeFrames frames s) = state s
    /\ m_paused (encodeFrames frames s) = m_paused s
    /\ m_initialized (encodeFrames frames s) = m_initialized s
    /\ m_fillAudioGaps (encodeFrames frames s) = m_fillAudioGaps s.
Proof.
  induction frames as [|[wb src] frames IH]; intros s; [repeat split|].
  cbn [encodeFrames].
  destruct (IH (encodeFrame wb src s)) as (H1 & H2 & H3 & H4).
  destruct (encodeFrame_life wb src s) as (G1 & G2 & G3 & G4).
  rewrite H1, H2, H3, H4. repeat split; assumption.
Qed.

(** [uninit] of an initialized element: not initialized and not paused
    afterwards, the state as before. *)
Lemma uninit_life nat s :
  m_initialized s = true ->
  state (uninit nat s) = state s
  /\ m_initialized (uninit nat s) = false
  /\ m_paused (uninit nat s) = false.
Proof.
  intros Hi. unfold uninit. rewrite Hi. cbn [negb]. cbv zeta.
  cbn [m_fillAudioGaps set_m_initialized].
  destruct (m_fillAudioGaps s).
  - match goal with |- context [encodeFrames ?f ?st] =>
      destruct (encodeFrames_life f st) as (H1 & H2 & H3 & H4);
      set (e := encodeFrames f st) in *
    end.
    cbn in H1, H2, H3, H4.
    destruct (m_encoder e); cbn; rewrite H1, H3; repeat split.
  - cbn. destruct (m_encoder s); repeat split.
Qed.

Lemma updateHeaders_life cfg s :
  state (updateHeaders cfg s) = state s
  /\ m_paused (updateHeaders cfg s) = m_paused s
  /\ m_initialized (updateHeaders cfg s) = m_initialized s
  /\ m_fillAudioGaps (updateHeaders cfg s) = m_fillAudioGaps s.
Proof.
  unfold updateHeaders. cbv zeta.
  match goal with |- context [QByteArray_eqb ?a ?b] =>
    destruct (QByteArray_eqb a b) end; repeat split.
Qed.

(** [init] on an element that is not initialized: it succeeds exactly
    when the input caps are valid and libfaac plays along; the state and
    the paused flag stay, and the element is initialized exactly on
    success. *)
Lemma init_life nat s :
  m_initialized s = false ->
  (fst (init nat s) = true
   <-> audioCapsValid (inputCaps s) = true /\ FaacNativeOk nat)
  /\ state (snd (init nat s)) = state s
  /\ m_paused (snd (init nat s)) = m_paused s
  /\ m_initialized (snd (init nat s)) = fst (init nat s).
Proof.
  intros Hi. unfold init, FaacNativeOk.
  rewrite (LifeCycleProofs.faac_uninit_not_initialized nat s Hi).
  destruct (audioCapsValid (inputCaps s)) eqn:Hv; cbn [negb].
  2:{ repeat split; try exact Hi; try discriminate.
      intros [Hf _]. discriminate. }
  cbv zeta.
  destruct (encOpen nat) as [[[h inputSamples] maxOut]|] eqn:Ho.
  2:{ cbn. repeat split; try exact Hi; try discriminate.
      intros (_ & Hn & _). contradiction. }
  destruct (versionMatches nat) eqn:Hver; cbn [negb].
  2:{ cbn. repeat split; try exact Hi; try discriminate.
      intros (_ & _ & Hf & _). discriminate. }
  destruct (setConfigurationOk nat) eqn:Hset; cbn [negb].
  2:{ cbn. repeat split; try exact Hi; try discriminate.
      intros (_ & _ & _ & Hf). discriminate. }
  match goal with |- context [updateHeaders ?c ?st] =>
    destruct (updateHeaders_life c st) as (H1 & H2 & H3 & H4);
    set (u := updateHeaders c st) in *
  end.
  cbn in H1, H2, H3, H4.
  destruct (m_fillAudioGaps u); cbn; rewrite H1, H2;
    repeat split; try discriminate.
Qed.

Lemma setInputCaps_life inCaps s :
  state (setInputCaps inCaps s) = state s
  /\ m_paused (setInputCaps inCaps s) = m_paused s
  /\ m_initialized (setInputCaps inCaps s) = m_initialized s.
Proof.
  unfold setInputCaps, updateOutputCaps. cbv zeta.
  cbn [m_outputCaps set_inputCaps codec m_fillAudioGaps].
  repeat match goal with
         | |- context [if ?c then _ else _] => destruct c
         end; repeat split.
Qed.

Lemma faac_setState_life nat target s :
  FaacLifeCycle s -> FaacLifeCycle (snd (setState nat target s)).
Proof.
  unfold FaacLifeCycle. intros Hs. unfold setState.
  destruct (state s) eqn:Est; destruct Hs as [Hi Hp].
  - destruct target; cbn [ElementState_eqb].
    + cbn [snd]. rewrite Est. split; assumption.
    + destruct (init_life nat (set_m_paused true s) Hi)
        as (_ & Hst & Hpa & Hin).
      destruct (init nat (set_m_paused true s)) as [ok s1].
      cbn [fst snd] in *. destruct ok; cbn [negb AkElement_setState snd].
      * cbn. rewrite Hin, Hpa. split; reflexivity.
      * cbn. rewrite Hst. cbn. rewrite Est. split; [exact Hin | reflexivity].
    + destruct (init_life nat s Hi) as (_ & Hst & Hpa & Hin).
      destruct (init nat s) as [ok s1].
      cbn [fst snd] in *. destruct ok; cbn [negb AkElement_setState snd].
      * cbn. rewrite Hin, Hpa. split; [reflexivity | exact Hp].
      * cbn. rewrite Hst, Est. split; [exact Hin | reflexivity].
  - destruct target; cbn [AkElement_setState snd].
    + destruct (uninit_life nat s Hi) as (_ & Hin & Hpa).
      cbn. split; assumption.
    + cbn [snd]. rewrite Est. split; assumption.
    + cbn. split; [exact Hi | reflexivity].
  - destruct target; cbn [AkElement_setState snd].
    + destruct (uninit_life nat s Hi) as (_ & Hin & Hpa).
      cbn. split; assumption.
    + cbn. split; [exact Hi | reflexivity].
    + cbn [snd]. rewrite Est. split; assumption.
Qed.

Lemma faac_reachable_life s : FaacReachable s -> FaacLifeCycle s.
Proof.
  induction 1 as [gaps | c b f m o s _ IH | inCaps s _ IH
                  | nat target s _ IH | released s _ IH].
  - split; reflexivity.
  - exact IH.
  - unfold FaacLifeCycle in *.
    destruct (setInputCaps_life inCaps s) as (H1 & H2 & H3).
    rewrite H1, H2, H3. exact IH.
  - apply faac_setState_life, IH.
  - unfold FaacLifeCycle, iAudioStream in *.
    destruct (m_paused s || negb (m_initialized s) || negb (m_fillAudioGaps s));
      [exact IH|].
    destruct (encodeFrames_life released s) as (H1 & H2 & H3 & _).
    rewrite H1, H2, H3. exact IH.
Qed.

End FaacLifeProofs.

(** In every state the element can reach, the life-cycle flags go with
    the element state; so a packet fed to [iAudioStream] off the Playing
    state is dropped, and in the Playing state it goes to the helper
    whenever that exists. *)
Theorem faac_packets_only_while_playing :
  forall s : Faac.State,
    FaacReachable s ->
    FaacLifeCycle s
    /\ (forall released,
           Faac.state s <> Ak.ElementStatePlaying ->
           FaacElement.iAudioStream released s = s)
    /\ (forall released,
           Faac.state s = Ak.ElementStatePlaying ->
           Faac.m_fillAudioGaps s = true ->
           FaacElement.iAudioStream released s
           = Faac.encodeFrames released s).
Proof.
  intros s Hr. pose proof (FaacLifeProofs.faac_reachable_life s Hr) as Hl.
  split; [exact Hl|].
  unfold FaacLifeCycle in Hl. unfold FaacElement.iAudioStream.
  split.
  - intros released Hst.
    destruct (Faac.state s); destruct Hl as [Hi Hp]; rewrite Hi, Hp;
      try reflexivity. contradiction.
  - intros released Hst Hg. rewrite Hst in Hl. destruct Hl as [Hi Hp].
    rewrite Hi, Hp, Hg. reflexivity.
Qed.

Lemma faac_packets_only_while_playing_witness :
  let paused := snd (Faac.setState Sample.faacNative Ak.ElementStatePaused
                                   Sample.faacElement) in
  Faac.state paused = Ak.ElementStatePaused
  /\ FaacElement.iAudioStream Sample.faacFrames paused = paused.
Proof.
  split; [reflexivity|].
  apply (faac_packets_only_while_playing
           (snd (Faac.setState Sample.faacNative Ak.ElementStatePaused
                               Sample.faacElement))).
  - apply FaacReachable_setState, FaacReachable_setInputCaps,
          FaacReachable_new.
  - discriminate.
Defined.

(** [setState] succeeds exactly on a transition to another state that,
    out of Null, finds valid input caps and a libfaac that plays along;
    on success the element is in the target state, otherwise in the state
    it was in. This is for the transitions that have defined behaviour:
    one out of Null runs [init], which must not divide by zero
    channels. *)
Theorem faac_setState_transitions :
  forall (nat : Faac.Native) (target : Ak.ElementState) (s : Faac.State),
    FaacReachable s ->
    (Faac.state s = Ak.ElementStateNull ->
     target <> Ak.ElementStateNull ->
     Faac.initDefined nat s = true) ->
    (fst (Faac.setState nat target s) = true
     <-> target <> Faac.state s
         /\ (Faac.state s = Ak.ElementStateNull ->
             Ak.audioCapsValid (Faac.inputCaps s) = true
             /\ FaacNativeOk nat))
    /\ Faac.state (snd (Faac.setState nat target s))
       = (if fst (Faac.setState nat target s)
          then target else Faac.state s).
Proof.
  intros nat target s Hr _.
  pose proof (FaacLifeProofs.faac_reachable_life s Hr) as Hl.
  unfold FaacLifeCycle in Hl. unfold Faac.setState.
  destruct (Faac.state s) eqn:Est; destruct Hl as [Hi Hp].
  - destruct target; cbn [Ak.ElementState_eqb].
    + cbn [fst snd]. rewrite Est. split; [|reflexivity].
      split; [discriminate | intros [Hne _]; contradiction].
    + destruct (FaacLifeProofs.init_life nat (Faac.set_m_paused true s) Hi)
        as (Hiff & Hst & _ & _).
      cbn [Faac.inputCaps Faac.set_m_paused] in Hiff.
      destruct (Faac.init nat (Faac.set_m_paused true s)) as [ok s1].
      cbn [fst snd] in *. destruct ok; cbn [negb Ak.AkElement_setState fst snd].
      * split; [|reflexivity]. split; [|reflexivity].
        intros _. split; [discriminate|]. intros _. apply Hiff. reflexivity.
      * cbn. rewrite Hst. cbn. split; [|exact Est].
        split; [discriminate|]. intros [_ Hok].
        apply Hiff. apply Hok. reflexivity.
    + destruct (FaacLifeProofs.init_life nat s Hi) as (Hiff & Hst & _ & _).
      destruct (Faac.init nat s) as [ok s1].
      cbn [fst snd] in *. destruct ok; cbn [negb Ak.AkElement_setState fst snd].
      * split; [|reflexivity]. split; [|reflexivity].
        intros _. split; [discriminate|]. intros _. apply Hiff. reflexivity.
      * cbn. rewrite Hst. split; [|exact Est].
        split; [discriminate|]. intros [_ Hok].
        apply Hiff. apply Hok. reflexivity.
  - destruct target; cbn [Ak.AkElement_setState fst snd].
    + split; [|reflexivity]. split; [|reflexivity].
      intros _. split; discriminate.
    + rewrite Est. split; [|reflexivity].
      split; [discriminate | intros [Hne _]; contradiction].
    + split; [|reflexivity]. split; [|reflexivity].
      intros _. split; discriminate.
  - destruct target; cbn [Ak.AkElement_setState fst snd].
    + split; [|reflexivity]. split; [|reflexivity].
      intros _. split; discriminate.
    + split; [|reflexivity]. split; [|reflexivity].
      intros _. split; discriminate.
    + rewrite Est. split; [|reflexivity].
      split; [discriminate | intros [Hne _]; contradiction].
Qed.

Lemma faac_setState_transitions_witness :
  Faac.initDefined Sample.faacNative Sample.faacElement = true
  /\ fst (Faac.setState Sample.faacNative Ak.ElementStatePlaying
                        Sample.faacElement) = true
  /\ fst (Faac.setState Sample.faacNative Ak.ElementStatePlaying
                        (Faac.newElement true)) = false.
Proof.
  split; [reflexivity|]. split.
  - apply (faac_setState_transitions Sample.faacNative
             Ak.ElementStatePlaying Sample.faacElement).
    + apply FaacReachable_setInputCaps, FaacReachable_new.
    + intros _ _. reflexivity.
    + split; [discriminate|]. intros _. split; [reflexivity|].
      split; [discriminate | split; reflexivity].
  - reflexivity.
Defined.

Module FaacInitProofs.
Import MachineInt Ak Faac FaacElement.

Lemma init_after_uninit nat s : init nat s = init nat (uninit nat s).
Proof.
  unfold init.
  rewrite (LifeCycleProofs.faac_uninit_not_initialized nat (uninit nat s)
             (LifeCycleProofs.faac_uninit_initialized nat s)).
  reflexivity.
Qed.

(** A failed [init] that had opened the encoder closes it last. *)
Lemma init_failure_closes nat s h n m :
  m_initialized s = false ->
  audioCapsValid (inputCaps s) = true ->
  encOpen nat = Some (h, n, m) ->
  fst (init nat s) = false ->
  exists before, trace (snd (init nat s)) = before ++ [EvEncClose h].
Proof.
  intros Hi Hv Ho. unfold init.
  rewrite (LifeCycleProofs.faac_uninit_not_initialized nat s Hi).
  rewrite Hv, Ho. cbn [negb]. cbv zeta.
  destruct (versionMatches nat); cbn [negb].
  2:{ intros _. eexists. cbn. reflexivity. }
  destruct (setConfigurationOk nat); cbn [negb].
  2:{ intros _. eexists. cbn. reflexivity. }
  discriminate.
Qed.

(** What a successful [init] leaves: both clocks at zero and the handle
    libfaac gave. *)
Lemma init_success_fields nat s :
  fst (init nat s) = true ->
  m_pts (snd (init nat s)) = 0
  /\ m_encodedTimePts (snd (init nat s)) = 0
  /\ exists h n m, encOpen nat = Some (h, n, m)
                   /\ m_encoder (snd (init nat s)) = Some h
                   /\ m_maxOutputBytes (snd (init nat s)) = m.
Proof.
  unfold init.
  destruct (negb (audioCapsValid (inputCaps (uninit nat s))));
    [discriminate|].
  destruct (encOpen nat) as [[[h inputSamples] maxOut]|]; [|discriminate].
  cbv zeta.
  destruct (negb (versionMatches nat)); [discriminate|].
  destruct (negb (setConfigurationOk nat)); [discriminate|].
  intros _. split; [reflexivity|]. split; [reflexivity|].
  exists h, inputSamples, maxOut. split; [reflexivity|].
  unfold updateHeaders. cbv zeta.
  match goal with |- context [QByteArray_eqb ?a ?b] =>
    destruct (QByteArray_eqb a b) end;
    cbn [m_fillAudioGaps set_m_headers emit set_m_config set_m_maxOutputBytes
         set_m_encoder];
    destruct (m_fillAudioGaps (uninit nat s)); split; reflexivity.
Qed.

End FaacInitProofs.

(** A run of [init] has defined behaviour unless it gets to the
    divisions with output caps of no channels: the input caps are valid,
    the encoder opens and has the expected version. A run with defined
    behaviour succeeds exactly when the input caps are valid and libfaac
    opens, has the expected version and takes the configuration, whatever
    the element was doing before. The element is then initialized exactly
    on success; a successful [init] starts both clocks at zero and keeps
    the handle; a failed one that had opened the encoder closes it as its
    last native call. *)
Theorem faac_init_outcome :
  forall (nat : Faac.Native) (s : Faac.State),
    (Faac.initDefined nat s = false
     <-> Ak.audioCapsValid (Faac.inputCaps s) = true
         /\ (exists h n m, Faac.encOpen nat = Some (h, n, m))
         /\ Faac.versionMatches nat = true
         /\ Ak.a_channels (Ak.ca_rawCaps (Faac.m_outputCaps s)) = 0)
    /\ (Faac.initDefined nat s = true ->
        (fst (Faac.init nat s) = true
         <-> Ak.audioCapsValid (Faac.inputCaps s) = true
             /\ FaacNativeOk nat)
        /\ Faac.m_initialized (snd (Faac.init nat s))
           = fst (Faac.init nat s)
        /\ (fst (Faac.init nat s) = true ->
            Faac.m_pts (snd (Faac.init nat s)) = 0
            /\ Faac.m_encodedTimePts (snd (Faac.init nat s)) = 0
            /\ exists h n m,
                 Faac.encOpen nat = Some (h, n, m)
                 /\ Faac.m_encoder (snd (Faac.init nat s)) = Some h
                 /\ Faac.m_maxOutputBytes (snd (Faac.init nat s)) = m)
        /\ (fst (Faac.init nat s) = false ->
            forall h n m,
              Ak.audioCapsValid (Faac.inputCaps s) = true ->
              Faac.encOpen nat = Some (h, n, m) ->
              exists before,
                Faac.trace (snd (Faac.init nat s))
                = before ++ [Faac.EvEncClose h])).
Proof.
  intros nat s. split.
  { unfold Faac.initDefined.
    rewrite !orb_false_iff, !negb_false_iff, Z.eqb_eq.
    destruct (Faac.encOpen nat) as [[[h n] m]|].
    - rewrite negb_false_iff. split.
      + intros [[Hv Hver] Hch]. split; [exact Hv|].
        split; [exists h, n, m; reflexivity|]. split; assumption.
      + intros (Hv & _ & Hver & Hch). repeat split; assumption.
    - split.
      + intros [[_ Hf] _]. discriminate Hf.
      + intros (_ & (h & n & m & Hf) & _). discriminate Hf. }
  intros _.
  pose proof (LifeCycleProofs.faac_uninit_initialized nat s) as Hu.
  destruct (FaacLifeProofs.init_life nat (Faac.uninit nat s) Hu)
    as (Hiff & _ & _ & Hin).
  rewrite <- FaacInitProofs.init_after_uninit in Hiff, Hin.
  assert (Hcaps : Faac.inputCaps (Faac.uninit nat s) = Faac.inputCaps s)
    by apply FaacProofs.uninit_fields.
  rewrite Hcaps in Hiff.
  split; [exact Hiff|]. split; [exact Hin|]. split.
  - apply FaacInitProofs.init_success_fields.
  - intros Hf h n m Hv Ho.
    rewrite FaacInitProofs.init_after_uninit in Hf |- *.
    apply (FaacInitProofs.init_failure_closes nat _ h n m Hu);
      [rewrite Hcaps; exact Hv | exact Ho | exact Hf].
Qed.

Lemma faac_init_outcome_witness :
  Faac.initDefined Sample.faacNative Sample.faacElement = true
  /\ fst (Faac.init Sample.faacNative Sample.faacElement) = true
  /\ Faac.m_pts (snd (Faac.init Sample.faacNative Sample.faacElement)) = 0.
Proof.
  split; [reflexivity|].
  destruct (proj2 (faac_init_outcome Sample.faacNative Sample.faacElement)
                  eq_refl)
    as (Hiff & _ & Hok & _).
  assert (Ht : fst (Faac.init Sample.faacNative Sample.faacElement) = true).
  { apply Hiff. split; [reflexivity|].
    split; [discriminate | split; reflexivity]. }
  split; [exact Ht | apply (Hok Ht)].
Defined.

Module FaacClockProofs.
Import MachineInt Ak Faac FaacElement.

Lemma valid_packet_has_samples src :
  audioPacketValid src = true -> 0 < ap_samples src.
Proof.
  unfold audioPacketValid. intros H. apply andb_prop in H.
  destruct H as [_ H]. apply Z.ltb_lt. exact H.
Qed.

Lemma encodeFrame_clocks wb src s :
  0 <= m_pts s ->
  0 <= m_encodedTimePts s ->
  m_encodedTimePts s + samplesAccepted [(wb, src)] <= qint64_max ->
  m_pts s + samplesEmitted [(wb, src)] <= qint64_max ->
  m_encodedTimePts (encodeFrame wb src s)
  = m_encodedTimePts s + samplesAccepted [(wb, src)]
  /\ m_pts (encodeFrame wb src s) = m_pts s + samplesEmitted [(wb, src)]
  /\ 0 <= samplesEmitted [(wb, src)] <= samplesAccepted [(wb, src)].
Proof.
  intros Hp He Hmax Hmax'. unfold encodeFrame.
  cbn [samplesAccepted samplesEmitted] in *.
  destruct (audioPacketValid src) eqn:Hv; cbn [negb andb] in *;
    [|repeat split; lia].
  apply valid_packet_has_samples in Hv.
  cbv zeta. destruct (wb <? 0) eqn:Hneg.
  - apply Z.ltb_lt in Hneg.
    replace (0 <=? wb) with false in * by (symmetry; apply Z.leb_gt; lia).
    replace (0 <? wb) with false in * by (symmetry; apply Z.ltb_ge; lia).
    cbn. repeat split; lia.
  - apply Z.ltb_ge in Hneg.
    replace (0 <=? wb) with true in * by (symmetry; apply Z.leb_le; lia).
    destruct (0 <? wb) eqn:Hw.
    + unfold sendFrame. cbv zeta. cbn.
      rewrite !SessionProofs.to_qint64_small by lia. repeat split; lia.
    + cbn. rewrite SessionProofs.to_qint64_small by lia. repeat split; lia.
Qed.

Lemma samplesAccepted_cons wb src frames :
  samplesAccepted ((wb, src) :: frames)
  = samplesAccepted [(wb, src)] + samplesAccepted frames.
Proof. cbn [samplesAccepted]. lia. Qed.

Lemma samplesEmitted_cons wb src frames :
  samplesEmitted ((wb, src) :: frames)
  = samplesEmitted [(wb, src)] + samplesEmitted frames.
Proof. cbn [samplesEmitted]. lia. Qed.

Lemma samples_bounds frames :
  0 <= samplesEmitted frames <= samplesAccepted frames.
Proof.
  induction frames as [|[wb src] frames IH]; [cbn; lia|].
  cbn [samplesAccepted samplesEmitted].
  destruct (audioPacketValid src) eqn:Hv; cbn [andb]; [|lia].
  apply valid_packet_has_samples in Hv.
  destruct (Z.ltb_spec 0 wb), (Z.leb_spec 0 wb); lia.
Qed.

Lemma encodeFrames_clocks frames :
  forall s,
    0 <= m_pts s ->
    0 <= m_encodedTimePts s ->
    m_encodedTimePts s + samplesAccepted frames <= qint64_max ->
    m_pts s + samplesEmitted frames <= qint64_max ->
    m_encodedTimePts (encodeFrames frames s)
    = m_encodedTimePts s + samplesAccepted frames
    /\ m_pts (encodeFrames frames s) = m_pts s + samplesEmitted frames.
Proof.
  induction frames as [|[wb src] frames IH]; intros s Hp He Hmax Hmax'.
  - cbn. split; lia.
  - rewrite samplesAccepted_cons in *. rewrite samplesEmitted_cons in *.
    pose proof (samples_bounds frames) as Hb.
    pose proof (samples_bounds [(wb, src)]) as Hb1.
    destruct (encodeFrame_clocks wb src s Hp He ltac:(lia) ltac:(lia))
      as (H1 & H2 & _).
    cbn [encodeFrames].
    destruct (IH (encodeFrame wb src s)) as (G1 & G2);
      [lia | lia | lia | lia |].
    rewrite G1, G2, H1, H2. split; lia.
Qed.

End FaacClockProofs.

(** The encoder's two clocks. [m_encodedTimePts] advances by the samples
    of every frame libfaac took in, [m_pts] only by those of the frames
    that made it put out a packet; an invalid frame and a frame libfaac
    failed on advance neither. So the packet clock never runs ahead of
    the encoded time. *)
Theorem faac_encoder_clocks :
  forall (frames : list (Z * Ak.AkAudioPacket)) (s : Faac.State),
    0 <= Faac.m_pts s ->
    0 <= Faac.m_encodedTimePts s ->
    Faac.m_encodedTimePts s + samplesAccepted frames
    <= MachineInt.qint64_max ->
    Faac.m_pts s + samplesEmitted frames <= MachineInt.qint64_max ->
    let s' := Faac.encodeFrames frames s in
    Faac.m_encodedTimePts s'
    = Faac.m_encodedTimePts s + samplesAccepted frames
    /\ Faac.m_pts s' = Faac.m_pts s + samplesEmitted frames
    /\ 0 <= samplesEmitted frames <= samplesAccepted frames
    /\ (Faac.m_pts s <= Faac.m_encodedTimePts s ->
        Faac.m_pts s' <= Faac.m_encodedTimePts s').
Proof.
  intros frames s Hp He Hmax Hmax' s'. subst s'.
  destruct (FaacClockProofs.encodeFrames_clocks frames s Hp He Hmax Hmax')
    as (H1 & H2).
  pose proof (FaacClockProofs.samples_bounds frames) as Hb.
  rewrite H1, H2. repeat split; lia.
Qed.

Lemma faac_encoder_clocks_witness :
  let started := snd (Faac.init Sample.faacNative Sample.faacElement) in
  let s' := Faac.encodeFrames
              ((-1, Sample.rawFrame 1024) :: Sample.faacFrames) started in
  Faac.m_encodedTimePts s' = 3072 /\ Faac.m_pts s' = 2048.
Proof.
  destruct (faac_encoder_clocks
              ((-1, Sample.rawFrame 1024) :: Sample.faacFrames)
              (snd (Faac.init Sample.faacNative Sample.faacElement)))
    as (H1 & H2 & _); try (vm_compute; intros Hgt; discriminate Hgt).
  split; [exact H1 | exact H2].
Defined.

Module SignalProofs.
Import MachineInt Ak.

Lemma outputCapsSignals_app a b :
  FaacElement.outputCapsSignals (a ++ b)
  = FaacElement.outputCapsSignals a ++ FaacElement.outputCapsSignals b.
Proof.
  induction a as [|e a IH]; [reflexivity|].
  destruct e; cbn [app FaacElement.outputCapsSignals]; rewrite IH;
    reflexivity.
Qed.

Lemma headersSignals_app a b :
  FaacElement.headersSignals (a ++ b)
  = FaacElement.headersSignals a ++ FaacElement.headersSignals b.
Proof.
  induction a as [|e a IH]; [reflexivity|].
  destruct e; cbn [app FaacElement.headersSignals]; rewrite IH; reflexivity.
Qed.

Lemma AkAudioCaps_eqb_refl a : AkAudioCaps_eqb a a = true.
Proof.
  unfold AkAudioCaps_eqb.
  destruct a as [f l p r]; cbn [a_format a_layout a_planar a_rate].
  rewrite Z.eqb_refl, Bool.eqb_reflx.
  destruct f; destruct l; cbn; rewrite ?Z.eqb_refl; reflexivity.
Qed.

Lemma AkCompressedAudioCaps_eqb_neq a b :
  AkCompressedAudioCaps_eqb a b = false -> a <> b.
Proof.
  intros Hf <-. unfold AkCompressedAudioCaps_eqb in Hf.
  rewrite AkAudioCaps_eqb_refl in Hf. destruct (ca_codec a); discriminate.
Qed.

Lemma AkCompressedVideoCaps_eqb_neq a b :
  Rav1e.AkCompressedVideoCaps_eqb a b = false -> a <> b.
Proof.
  intros Hf <-.
  unfold Rav1e.AkCompressedVideoCaps_eqb, Rav1e.AkVideoCaps_eqb,
    Rav1e.AkFrac_eqb, Rav1e.VideoCodecID_eqb, Rav1e.PixelFormat_eqb in Hf.
  rewrite !Z.eqb_refl in Hf.
  destruct (Rav1e.VideoCodecID_eq_dec (Rav1e.cv_codec a) (Rav1e.cv_codec a));
    [|congruence].
  destruct (Rav1e.PixelFormat_eq_dec
              (Rav1e.v_format (Rav1e.cv_rawCaps a))
              (Rav1e.v_format (Rav1e.cv_rawCaps a))); [|congruence].
  discriminate.
Qed.

Lemma faac_outputCaps_signal inCaps s :
  let s' := Faac.updateOutputCaps inCaps s in
  (Faac.m_outputCaps s' = Faac.m_outputCaps s
   /\ FaacElement.outputCapsSignals (Faac.trace s')
      = FaacElement.outputCapsSignals (Faac.trace s))
  \/ (Faac.m_outputCaps s' <> Faac.m_outputCaps s
      /\ FaacElement.outputCapsSignals (Faac.trace s')
         = FaacElement.outputCapsSignals (Faac.trace s)
           ++ [Faac.m_outputCaps s']).
Proof.
  assert (Hclear :
    forall s0 : Faac.State,
      compressedAudioCapsValid (Faac.m_outputCaps s0) = true ->
      emptyCompressedAudioCaps <> Faac.m_outputCaps s0).
  { intros s0 Hv He. rewrite <- He in Hv. discriminate. }
  cbv zeta. unfold Faac.updateOutputCaps.
  destruct (audioCapsValid inCaps); cbn [negb].
  - cbv zeta.
    destruct (AudioCodecID_eqb (Faac.codecID (Faac.codec s))
                               AudioCodecID_unknown).
    + destruct (compressedAudioCapsValid (Faac.m_outputCaps s)) eqn:Hv;
        cbn [negb]; [right | left; split; reflexivity].
      cbn. rewrite outputCapsSignals_app. split; [|reflexivity].
      apply Hclear, Hv.
    + match goal with |- context [AkCompressedAudioCaps_eqb _ ?d] =>
        set (derived := d) end.
      match goal with |- context [Faac.EvGapsSetOutputCaps ?r] =>
        set (raw := r) end.
      clearbody derived raw.
      destruct (Faac.m_fillAudioGaps s);
        cbn [Faac.m_outputCaps Faac.emit];
        destruct (AkCompressedAudioCaps_eqb (Faac.m_outputCaps s) derived)
          eqn:Eq.
      * left. split; [reflexivity|]. cbn. rewrite outputCapsSignals_app.
        cbn. apply app_nil_r.
      * right. apply AkCompressedAudioCaps_eqb_neq in Eq.
        cbn. rewrite !outputCapsSignals_app. cbn. rewrite app_nil_r.
        split; [congruence | reflexivity].
      * left. split; reflexivity.
      * right. apply AkCompressedAudioCaps_eqb_neq in Eq.
        cbn. rewrite !outputCapsSignals_app.
        split; [congruence | reflexivity].
  - destruct (compressedAudioCapsValid (Faac.m_outputCaps s)) eqn:Hv;
      cbn [negb]; [right | left; split; reflexivity].
    cbn. rewrite outputCapsSignals_app. split; [|reflexivity].
    apply Hclear, Hv.
Qed.

Lemma faac_headers_signal cfg s :
  let s' := Faac.updateHeaders cfg s in
  (Faac.m_headers s' = Faac.m_headers s
   /\ FaacElement.headersSignals (Faac.trace s')
      = FaacElement.headersSignals (Faac.trace s))
  \/ (Faac.m_headers s' <> Faac.m_headers s
      /\ FaacElement.headersSignals (Faac.trace s')
         = FaacElement.headersSignals (Faac.trace s) ++ [Faac.m_headers s']).
Proof.
  cbv zeta. unfold Faac.updateHeaders. cbv zeta.
  match goal with |- context [Faac.QByteArray_eqb ?a ?b] =>
    set (headers := b); clearbody headers;
    destruct (Faac.QByteArray_eqb a headers) eqn:E end.
  - left. split; reflexivity.
  - right. cbn. rewrite headersSignals_app. split; [|reflexivity].
    intros Heq. unfold Faac.QByteArray_eqb in E.
    destruct (list_eq_dec Z.eq_dec (Faac.m_headers s) headers);
      [discriminate | congruence].
Qed.

Lemma rav1e_outputCaps_signal inCaps s :
  let s' := Rav1e.updateOutputCaps inCaps s in
  (Rav1e.m_outputCaps s' = Rav1e.m_outputCaps s
   /\ rav1eOutputCapsSignals (Rav1e.trace s')
      = rav1eOutputCapsSignals (Rav1e.trace s))
  \/ (Rav1e.m_outputCaps s' <> Rav1e.m_outputCaps s
      /\ rav1eOutputCapsSignals (Rav1e.trace s')
         = rav1eOutputCapsSignals (Rav1e.trace s)
           ++ [Rav1e.m_outputCaps s']).
Proof.
  assert (Hclear :
    forall s0 : Rav1e.State,
      Rav1e.compressedVideoCapsValid (Rav1e.m_outputCaps s0) = true ->
      Rav1e.emptyCompressedVideoCaps <> Rav1e.m_outputCaps s0).
  { intros s0 Hv He. rewrite <- He in Hv. discriminate. }
  cbv zeta. unfold Rav1e.updateOutputCaps, Rav1e.clearOutputCaps,
    rav1eOutputCapsSignals.
  destruct (Rav1e.videoCapsValid inCaps); cbn [negb].
  - cbv zeta.
    destruct (Rav1e.VideoCodecID_eqb (Rav1e.codecID (Rav1e.codec s))
                                     Rav1e.VideoCodecID_unknown).
    + destruct (Rav1e.compressedVideoCapsValid (Rav1e.m_outputCaps s)) eqn:Hv;
        cbn [negb]; [right | left; split; reflexivity].
      cbn. rewrite map_app. split; [|reflexivity]. apply Hclear, Hv.
    + match goal with |- context [Rav1e.AkCompressedVideoCaps_eqb _ ?d] =>
        set (derived := d)
      end.
      match goal with |- context [Rav1e.mkState _ _ _ _ ?c _ _ _] =>
        set (conv := c) end.
      clearbody derived conv.
      destruct (Rav1e.AkCompressedVideoCaps_eqb (Rav1e.m_outputCaps s)
                                                derived) eqn:Eq.
      * left. split; reflexivity.
      * right. apply AkCompressedVideoCaps_eqb_neq in Eq.
        cbn. rewrite map_app. split; [congruence | reflexivity].
  - destruct (Rav1e.compressedVideoCapsValid (Rav1e.m_outputCaps s)) eqn:Hv;
      cbn [negb]; [right | left; split; reflexivity].
    cbn. rewrite map_app. split; [|reflexivity]. apply Hclear, Hv.
Qed.

End SignalProofs.

(** The change signals are emitted on change only. [updateOutputCaps] of
    either encoder and [updateHeaders] either leave the stored value as
    it is and emit nothing, or store a different value and emit the
    signal once, with the value stored. *)
Theorem change_signals_only_on_change :
  (forall (inCaps : Ak.AkAudioCaps) (s : Faac.State),
      let s' := Faac.updateOutputCaps inCaps s in
      (Faac.m_outputCaps s' = Faac.m_outputCaps s
       /\ FaacElement.outputCapsSignals (Faac.trace s')
          = FaacElement.outputCapsSignals (Faac.trace s))
      \/ (Faac.m_outputCaps s' <> Faac.m_outputCaps s
          /\ FaacElement.outputCapsSignals (Faac.trace s')
             = FaacElement.outputCapsSignals (Faac.trace s)
               ++ [Faac.m_outputCaps s']))
  /\ (forall (cfg : Faac.faacEncConfiguration) (s : Faac.State),
         let s' := Faac.updateHeaders cfg s in
         (Faac.m_headers s' = Faac.m_headers s
          /\ FaacElement.headersSignals (Faac.trace s')
             = FaacElement.headersSignals (Faac.trace s))
         \/ (Faac.m_headers s' <> Faac.m_headers s
             /\ FaacElement.headersSignals (Faac.trace s')
                = FaacElement.headersSignals (Faac.trace s)
                  ++ [Faac.m_headers s']))
  /\ (forall (inCaps : Rav1e.AkVideoCaps) (s : Rav1e.State),
         let s' := Rav1e.updateOutputCaps inCaps s in
         (Rav1e.m_outputCaps s' = Rav1e.m_outputCaps s
          /\ rav1eOutputCapsSignals (Rav1e.trace s')
             = rav1eOutputCapsSignals (Rav1e.trace s))
         \/ (Rav1e.m_outputCaps s' <> Rav1e.m_outputCaps s
             /\ rav1eOutputCapsSignals (Rav1e.trace s')
                = rav1eOutputCapsSignals (Rav1e.trace s)
                  ++ [Rav1e.m_outputCaps s'])).
Proof.
  split; [exact SignalProofs.faac_outputCaps_signal|].
  split; [exact SignalProofs.faac_headers_signal|].
  exact SignalProofs.rav1e_outputCaps_signal.
Qed.


(* ===================================================================== *)
(** * The outcome of the muxer's [init] and [uninit] *)
(* ===================================================================== *)

Module MuxerOutcomeProofs.
Import MachineInt Ak Rav1e.
Import MuxerInitProofs.

Section Muxer.
Context {R : Type} `{QReal.Ops R}.
Implicit Types s : Webm.State R.


Lemma setup_fields s s' :
  muxerSetup s' = muxerSetup s ->
  Webm.state s' = Webm.state s
  /\ Webm.location s' = Webm.location s
  /\ Webm.videoCaps s' = Webm.videoCaps s
  /\ Webm.audioCaps s' = Webm.audioCaps s
  /\ Webm.m_cuesBeforeClusters s' = Webm.m_cuesBeforeClusters s
  /\ Webm.m_packetSync s' = Webm.m_packetSync s.
Proof.
  unfold muxerSetup. intros Heq.
  injection Heq as H1 H2 H3 H4 H5 H6. repeat split; assumption.
Qed.

Lemma closeAndRemove_outcome path s :
  muxerSetup (Webm.closeAndRemove path s) = muxerSetup s
  /\ Webm.m_paused (Webm.closeAndRemove path s) = Webm.m_paused s
  /\ Webm.disk (Webm.closeAndRemove path s) = Webm.removeFile path (Webm.disk s)
  /\ endsWith (Webm.trace (Webm.closeAndRemove path s))
              Webm.EvWriterClose (Webm.EvFileRemove path).
Proof.
  unfold Webm.closeAndRemove. cbv zeta. cbn.
  repeat split. exists (Webm.trace s). rewrite <- app_assoc. reflexivity.
Qed.

Lemma configureSegment_outcome s :
  muxerSetup (Webm.configureSegment s) = muxerSetup s
  /\ Webm.m_paused (Webm.configureSegment s) = Webm.m_paused s
  /\ Webm.disk (Webm.configureSegment s) = Webm.disk s.
Proof.
  unfold Webm.configureSegment. cbv zeta.
  repeat break_if; repeat split.
Qed.

Lemma writeHeadersAndStart_outcome nat s :
  muxerSetup (Webm.writeHeadersAndStart nat s) = muxerSetup s
  /\ Webm.m_paused (Webm.writeHeadersAndStart nat s) = Webm.m_paused s
  /\ Webm.disk (Webm.writeHeadersAndStart nat s) = Webm.disk s
  /\ Webm.m_videoTrackIndex (Webm.writeHeadersAndStart nat s)
     = Webm.m_videoTrackIndex s
  /\ Webm.m_audioTrackIndex (Webm.writeHeadersAndStart nat s)
     = Webm.m_audioTrackIndex s.
Proof.
  unfold Webm.writeHeadersAndStart. cbv zeta.
  destruct (compressedAudioCapsValid (Webm.audioCaps s));
    destruct (Webm.videoHeaders s); cbn;
    destruct (Webm.audioHeaders s); cbn;
    destruct (Webm.audioTrackFound nat); repeat split.
Qed.


Lemma addAudioAndStart_outcome nat acodec s :
  StageOutcome s (Webm.addAudioAndStart nat acodec s)
  /\ (fst (Webm.addAudioAndStart nat acodec s) = true
      <-> (compressedAudioCapsValid (Webm.audioCaps s) = true ->
           1 <= to_quint64 (Webm.addAudioTrack nat)
           /\ Webm.audioTrackFound nat = true))
  /\ (fst (Webm.addAudioAndStart nat acodec s) = true ->
      Webm.m_videoTrackIndex (snd (Webm.addAudioAndStart nat acodec s))
      = Webm.m_videoTrackIndex s
      /\ Webm.m_audioTrackIndex (snd (Webm.addAudioAndStart nat acodec s))
         = if compressedAudioCapsValid (Webm.audioCaps s)
           then to_quint64 (Webm.addAudioTrack nat)
           else Webm.m_audioTrackIndex s).
Proof.
  unfold Webm.addAudioAndStart, StageOutcome. cbv zeta.
  destruct (compressedAudioCapsValid (Webm.audioCaps s)) eqn:Ha.
  - cbn [Webm.m_audioTrackIndex Webm.set_m_audioTrackIndex Webm.emit].
    destruct (Z.ltb_spec (to_quint64 (Webm.addAudioTrack nat)) 1) as [Hlt|Hge].
    + match goal with |- context [Webm.closeAndRemove ?p ?st] =>
        destruct (closeAndRemove_outcome p st) as (K1 & K2 & K3 & K4) end.
      cbn [fst snd]. cbn [Webm.location Webm.set_m_audioTrackIndex Webm.emit]
        in *.
      repeat split; try discriminate; try assumption.
      intros Hok. destruct (Hok eq_refl) as [Hok1 _]. lia.
    + destruct (Webm.audioTrackFound nat) eqn:Hf; cbn [negb].
      * cbn [fst snd].
        match goal with |- context [Webm.writeHeadersAndStart nat ?st] =>
          destruct (writeHeadersAndStart_outcome nat st)
            as (K1 & K2 & K3 & K4 & K5) end.
        rewrite K1, K2, K3, K4, K5.
        repeat split; try discriminate; try assumption; try lia.
      * match goal with |- context [Webm.closeAndRemove ?p ?st] =>
          destruct (closeAndRemove_outcome p st) as (K1 & K2 & K3 & K4) end.
        cbn [fst snd].
        cbn [Webm.location Webm.set_m_audioTrackIndex Webm.emit] in *.
        repeat split; try discriminate; try assumption.
        intros Hok. destruct (Hok eq_refl) as [_ Hok2]. discriminate.
  - cbn [fst snd].
    destruct (writeHeadersAndStart_outcome nat s)
      as (K1 & K2 & K3 & K4 & K5).
    rewrite K1, K2, K3, K4, K5.
    repeat split; try discriminate; try assumption.
Qed.

Lemma addVideoAndStart_outcome nat vcodec acodec s :
  StageOutcome s (Webm.addVideoAndStart nat vcodec acodec s)
  /\ (fst (Webm.addVideoAndStart nat vcodec acodec s) = true
      <-> 1 <= to_quint64 (Webm.addVideoTrack nat)
          /\ Webm.videoTrackFound nat = true
          /\ (compressedAudioCapsValid (Webm.audioCaps s) = true ->
              1 <= to_quint64 (Webm.addAudioTrack nat)
              /\ Webm.audioTrackFound nat = true))
  /\ (fst (Webm.addVideoAndStart nat vcodec acodec s) = true ->
      Webm.m_videoTrackIndex (snd (Webm.addVideoAndStart nat vcodec acodec s))
      = to_quint64 (Webm.addVideoTrack nat)
      /\ Webm.m_audioTrackIndex
           (snd (Webm.addVideoAndStart nat vcodec acodec s))
         = if compressedAudioCapsValid (Webm.audioCaps s)
           then to_quint64 (Webm.addAudioTrack nat)
           else Webm.m_audioTrackIndex s).
Proof.
  unfold Webm.addVideoAndStart, StageOutcome. cbv zeta.
  cbn [Webm.m_videoTrackIndex Webm.set_m_videoTrackIndex Webm.emit].
  destruct (Z.ltb_spec (to_quint64 (Webm.addVideoTrack nat)) 1) as [Hlt|Hge].
  - match goal with |- context [Webm.closeAndRemove ?p ?st] =>
      destruct (closeAndRemove_outcome p st) as (K1 & K2 & K3 & K4) end.
    cbn [fst snd]. cbn [Webm.location Webm.set_m_videoTrackIndex Webm.emit]
      in *.
    repeat split; try discriminate; try assumption.
    intros (Hok & _). lia.
  - destruct (Webm.videoTrackFound nat) eqn:Hf; cbn [negb].
    + match goal with |- context [Webm.addAudioAndStart nat ?c ?st] =>
        destruct (addAudioAndStart_outcome nat c st)
          as ((K1 & K2 & K3 & K4) & Kiff & Kok);
        set (r := Webm.addAudioAndStart nat c st) in *
      end.
      cbn [Webm.location Webm.audioCaps Webm.disk Webm.m_paused
           Webm.m_videoTrackIndex Webm.m_audioTrackIndex
           Webm.set_m_videoTrackIndex Webm.emit] in *.
      split; [|split].
      * split; [exact K1|]. split; [exact K2|]. split; [exact K3 | exact K4].
      * rewrite Kiff. split.
        -- intros Ha. split; [lia|]. split; [reflexivity | exact Ha].
        -- intros (_ & _ & Ha). exact Ha.
      * exact Kok.
    + match goal with |- context [Webm.closeAndRemove ?p ?st] =>
        destruct (closeAndRemove_outcome p st) as (K1 & K2 & K3 & K4) end.
      cbn [fst snd].
      cbn [Webm.location Webm.set_m_videoTrackIndex Webm.emit] in *.
      repeat split; try discriminate; try assumption.
      intros (_ & Hok & _). discriminate.
Qed.

(** [openAndStart], the part of [init] after the checks: it succeeds
    exactly when libwebm plays along; then the output file is on disk,
    and the tracks are numbered as libwebm numbered them. On failure the
    disk is as before when the file could not be opened, and otherwise
    the output file is removed. *)
Lemma openAndStart_outcome nat vcodec acodec s :
  muxerSetup (snd (Webm.openAndStart nat vcodec acodec s)) = muxerSetup s
  /\ Webm.m_paused (snd (Webm.openAndStart nat vcodec acodec s))
     = Webm.m_paused s
  /\ (fst (Webm.openAndStart nat vcodec acodec s) = true
      <-> WebmNativeOk nat s)
  /\ (fst (Webm.openAndStart nat vcodec acodec s) = true ->
      Webm.disk (snd (Webm.openAndStart nat vcodec acodec s))
      = Webm.createFile (Webm.location s) (Webm.disk s)
      /\ Webm.m_videoTrackIndex (snd (Webm.openAndStart nat vcodec acodec s))
         = to_quint64 (Webm.addVideoTrack nat)
      /\ Webm.m_audioTrackIndex
           (snd (Webm.openAndStart nat vcodec acodec s))
         = if compressedAudioCapsValid (Webm.audioCaps s)
           then to_quint64 (Webm.addAudioTrack nat)
           else Webm.m_audioTrackIndex s)
  /\ (fst (Webm.openAndStart nat vcodec acodec s) = false ->
      if Webm.writerOpenOk nat
      then Webm.disk (snd (Webm.openAndStart nat vcodec acodec s))
           = Webm.removeFile (Webm.location s)
               (Webm.createFile (Webm.location s) (Webm.disk s))
           /\ endsWith (Webm.trace (snd (Webm.openAndStart nat vcodec acodec s)))
                       Webm.EvWriterClose
                       (Webm.EvFileRemove (Webm.location s))
      else Webm.disk (snd (Webm.openAndStart nat vcodec acodec s))
           = Webm.disk s).
Proof.
  unfold Webm.openAndStart, WebmNativeOk. cbv zeta.
  destruct (Webm.writerOpenOk nat) eqn:Ho; cbn [negb].
  2:{ cbn [fst snd]. repeat split; try discriminate.
      intros (Hf & _). discriminate. }
  destruct (Webm.segmentInitOk nat) eqn:Hs; cbn [negb].
  2:{ match goal with |- context [Webm.closeAndRemove ?p ?st] =>
        destruct (closeAndRemove_outcome p st) as (K1 & K2 & K3 & K4) end.
      cbn [fst snd]. cbn [Webm.location Webm.disk Webm.set_disk Webm.emit]
        in *.
      repeat split; try discriminate; try assumption.
      intros (_ & Hf & _). discriminate. }
  match goal with
  | |- context [Webm.addVideoAndStart nat ?v ?a (Webm.configureSegment ?st0)] =>
    destruct (addVideoAndStart_outcome nat v a (Webm.configureSegment st0))
      as ((K1 & K2 & K3 & K4) & Kiff & Kok);
    destruct (configureSegment_outcome st0) as (C1 & C2 & C3);
    assert (Hidx : Webm.m_audioTrackIndex (Webm.configureSegment st0)
                   = Webm.m_audioTrackIndex s)
      by (unfold Webm.configureSegment; cbv zeta; repeat break_if;
          reflexivity);
    set (r := Webm.addVideoAndStart nat v a (Webm.configureSegment st0)) in *;
    set (c := Webm.configureSegment st0) in *
  end.
  destruct (setup_fields _ _ C1) as (_ & Hloc & _ & Haud & _).
  cbn [Webm.location Webm.audioCaps Webm.emit Webm.set_disk] in Hloc, Haud.
  rewrite Hloc in K4. rewrite Haud in Kiff, Kok. rewrite Hidx in Kok.
  rewrite C3 in K3, K4. rewrite C2 in K2.
  cbn [Webm.disk Webm.set_disk Webm.emit Webm.location Webm.m_paused]
    in K2, K3, K4, C1.
  split; [rewrite K1; exact C1|]. split; [exact K2|]. split; [|split].
  - rewrite Kiff. split.
    + intros (Hv & Hf & Ha).
      split; [reflexivity|]. split; [reflexivity|]. split; [exact Hv|].
      split; [exact Hf | exact Ha].
    + intros (_ & _ & Hv & Hf & Ha).
      split; [exact Hv|]. split; [exact Hf | exact Ha].
  - intros Hok. split; [exact (K3 Hok) | exact (Kok Hok)].
  - exact K4.
Qed.


(** Without a configuration error [init] gets to open the file. *)
Lemma init_passes_checks nat s :
  Webm.m_initialized s = false ->
  ~ ConfigurationError s ->
  Webm.init nat s
  = Webm.openAndStart nat
      (Webm.v_str (Webm.VideoCodecsTable_byCodecID
                     (cv_codec (Webm.videoCaps s))))
      (Webm.a_str (Webm.AudioCodecsTable_byCodecID
                     (ca_codec (Webm.audioCaps s))))
      (resetForInit s).
Proof.
  intros Hi Hok. unfold Webm.init.
  rewrite (LifeCycleProofs.webm_uninit_not_initialized nat s Hi).
  cbv zeta.
  destruct (Webm.m_packetSync s) eqn:Hsync; cbn [negb].
  2:{ exfalso. apply Hok. left. exact Hsync. }
  cbn [Webm.videoCaps Webm.audioCaps Webm.set_m_videoTrackIndex
       Webm.set_m_audioTrackIndex Webm.set_m_videoDuration
       Webm.set_m_audioDuration].
  destruct (compressedVideoCapsValid (Webm.videoCaps s)) eqn:Hv; cbn [negb].
  2:{ exfalso. apply Hok. right. left. exact Hv. }
  destruct (VideoCodecID_eqb
              (Webm.v_codecID
                 (Webm.VideoCodecsTable_byCodecID
                    (cv_codec (Webm.videoCaps s))))
              VideoCodecID_unknown) eqn:Hvc.
  { exfalso. apply Hok. right. right. left.
    apply video_codec_unknown_iff. exact Hvc. }
  destruct (compressedAudioCapsValid (Webm.audioCaps s)
            && AudioCodecID_eqb
                 (Webm.a_codecID
                    (Webm.AudioCodecsTable_byCodecID
                       (ca_codec (Webm.audioCaps s))))
                 AudioCodecID_unknown) eqn:Hac.
  { exfalso. apply Hok. right. right. right.
    apply andb_prop in Hac. destruct Hac as [Ha Hu].
    apply audio_codec_unknown_iff in Hu. destruct Hu as [Hu1 Hu2].
    split; [exact Ha|]. split; assumption. }
  reflexivity.
Qed.

Lemma init_outcome nat s :
  Webm.m_initialized s = false ->
  (fst (Webm.init nat s) = true
   <-> ~ ConfigurationError s /\ WebmNativeOk nat s)
  /\ muxerSetup (snd (Webm.init nat s)) = muxerSetup s
  /\ Webm.m_paused (snd (Webm.init nat s)) = Webm.m_paused s
  /\ (fst (Webm.init nat s) = true ->
      Webm.disk (snd (Webm.init nat s))
      = Webm.createFile (Webm.location s) (Webm.disk s)
      /\ Webm.m_videoTrackIndex (snd (Webm.init nat s))
         = to_quint64 (Webm.addVideoTrack nat)
      /\ Webm.m_audioTrackIndex (snd (Webm.init nat s))
         = if compressedAudioCapsValid (Webm.audioCaps s)
           then to_quint64 (Webm.addAudioTrack nat) else 0)
  /\ (fst (Webm.init nat s) = false ->
      ~ ConfigurationError s ->
      if Webm.writerOpenOk nat
      then Webm.disk (snd (Webm.init nat s))
           = Webm.removeFile (Webm.location s)
               (Webm.createFile (Webm.location s) (Webm.disk s))
           /\ endsWith (Webm.trace (snd (Webm.init nat s)))
                       Webm.EvWriterClose
                       (Webm.EvFileRemove (Webm.location s))
      else Webm.disk (snd (Webm.init nat s)) = Webm.disk s).
Proof.
  intros Hi.
  assert (Hdec : ConfigurationError s \/ ~ ConfigurationError s).
  { unfold ConfigurationError.
    destruct (Webm.m_packetSync s); [|left; left; reflexivity].
    destruct (compressedVideoCapsValid (Webm.videoCaps s));
      [|left; right; left; reflexivity].
    destruct (in_dec VideoCodecID_eq_dec (cv_codec (Webm.videoCaps s))
                     Webm.VideoCodecsTable_codecs) as [Hin | Hnin];
      [|left; right; right; left; exact Hnin].
    destruct (compressedAudioCapsValid (Webm.audioCaps s));
      [|right; intros [Hf | [Hf | [Hf | [Hf _]]]];
        try discriminate; contradiction].
    destruct (ca_codec (Webm.audioCaps s)) eqn:Hc;
      try (left; right; right; right;
           split; [reflexivity | split; discriminate]);
      right; intros [Hf | [Hf | [Hf | (_ & Hn1 & Hn2)]]];
      try discriminate; try contradiction. }
  destruct Hdec as [Herr | Hok].
  - destruct (init_configuration_error nat s Hi Herr) as (Hf & Ht & Hd).
    assert (Hsame : muxerSetup (snd (Webm.init nat s)) = muxerSetup s
                    /\ Webm.m_paused (snd (Webm.init nat s))
                       = Webm.m_paused s).
    { unfold Webm.init.
      rewrite (LifeCycleProofs.webm_uninit_not_initialized nat s Hi).
      cbv zeta. clear Hf Ht Hd.
      destruct (Webm.m_packetSync s) eqn:Hsync; cbn [negb];
        [|split; reflexivity].
      cbn [Webm.videoCaps Webm.audioCaps Webm.set_m_videoTrackIndex
           Webm.set_m_audioTrackIndex Webm.set_m_videoDuration
           Webm.set_m_audioDuration].
      destruct (compressedVideoCapsValid (Webm.videoCaps s)) eqn:Hv;
        cbn [negb]; [|split; reflexivity].
      destruct (VideoCodecID_eqb _ VideoCodecID_unknown) eqn:Hvc;
        [split; reflexivity|].
      destruct (compressedAudioCapsValid (Webm.audioCaps s) && _) eqn:Hac;
        [split; reflexivity|].
      exfalso. destruct Herr as [He | [He | [He | (Ha & Hn1 & Hn2)]]].
      - rewrite He in Hsync. discriminate.
      - rewrite He in Hv. discriminate.
      - apply video_codec_unknown_iff in He. rewrite He in Hvc.
        discriminate.
      - rewrite Ha in Hac. cbn [andb] in Hac.
        assert (Hu : AudioCodecID_eqb
                       (Webm.a_codecID
                          (Webm.AudioCodecsTable_byCodecID
                             (ca_codec (Webm.audioCaps s))))
                       AudioCodecID_unknown = true)
          by (apply audio_codec_unknown_iff; split; assumption).
        rewrite Hu in Hac. discriminate. }
    destruct Hsame as [Hs1 Hs2].
    split; [|split; [exact Hs1 | split; [exact Hs2|]]].
    + rewrite Hf. split; [discriminate | intros [Hn _]; contradiction].
    + rewrite Hf. split; [discriminate | intros _ Hn; contradiction].
  - rewrite (init_passes_checks nat s Hi Hok).
    match goal with |- context [Webm.openAndStart nat ?v ?a ?st] =>
      destruct (openAndStart_outcome nat v a st)
        as (K1 & K2 & Kiff & Kok & Kfail);
      set (r := Webm.openAndStart nat v a st) in *
    end.
    clearbody r.
    change (muxerSetup (resetForInit s)) with (muxerSetup s) in K1.
    change (Webm.m_paused (resetForInit s)) with (Webm.m_paused s) in K2.
    change (WebmNativeOk nat (resetForInit s)) with (WebmNativeOk nat s)
      in Kiff.
    change (Webm.location (resetForInit s)) with (Webm.location s)
      in Kok, Kfail.
    change (Webm.disk (resetForInit s)) with (Webm.disk s) in Kok, Kfail.
    change (Webm.audioCaps (resetForInit s)) with (Webm.audioCaps s) in Kok.
    change (Webm.m_audioTrackIndex (resetForInit s)) with 0 in Kok.
    split; [|split; [exact K1 | split; [exact K2 | split]]].
    + rewrite Kiff. split; [intros Hn; split; assumption | intros [_ Hn]].
      exact Hn.
    + exact Kok.
    + intros Hf _. exact (Kfail Hf).
Qed.

(** ** The files on disk *)

Lemma onDisk_removeFile_same p l : Webm.onDisk p (Webm.removeFile p l) = false.
Proof.
  unfold Webm.onDisk, Webm.removeFile.
  induction l as [|f l IH]; [reflexivity|]. cbn [filter].
  destruct (String.eqb p f) eqn:E; cbn [negb]; [exact IH|].
  cbn [existsb]. rewrite E. exact IH.
Qed.

Lemma onDisk_removeFile_other q p l :
  q <> p -> Webm.onDisk q (Webm.removeFile p l) = Webm.onDisk q l.
Proof.
  intros Hne. unfold Webm.onDisk, Webm.removeFile.
  induction l as [|f l IH]; [reflexivity|]. cbn [filter existsb].
  destruct (String.eqb_spec p f) as [<- | Hpf]; cbn [negb].
  - rewrite IH. apply String.eqb_neq in Hne. rewrite Hne. reflexivity.
  - cbn [existsb]. rewrite IH. reflexivity.
Qed.

Lemma onDisk_createFile_same p l : Webm.onDisk p (Webm.createFile p l) = true.
Proof.
  unfold Webm.createFile. destruct (Webm.onDisk p l) eqn:E; [exact E|].
  unfold Webm.onDisk. cbn [existsb]. rewrite String.eqb_refl. reflexivity.
Qed.

Lemma onDisk_createFile_other q p l :
  q <> p -> Webm.onDisk q (Webm.createFile p l) = Webm.onDisk q l.
Proof.
  intros Hne. unfold Webm.createFile.
  destruct (Webm.onDisk p l); [reflexivity|].
  unfold Webm.onDisk. cbn [existsb]. apply String.eqb_neq in Hne.
  rewrite Hne. reflexivity.
Qed.

(** ** [uninit] *)

Lemma packetReady_keeps p s :
  muxerSetup (Webm.packetReady p s) = muxerSetup s
  /\ Webm.m_paused (Webm.packetReady p s) = Webm.m_paused s
  /\ Webm.disk (Webm.packetReady p s) = Webm.disk s.
Proof.
  unfold Webm.packetReady. cbv zeta.
  destruct (Webm.isAudioPacket p); repeat split.
Qed.

Lemma packetsReady_keeps ps :
  forall s,
    muxerSetup (Webm.packetsReady ps s) = muxerSetup s
    /\ Webm.m_paused (Webm.packetsReady ps s) = Webm.m_paused s
    /\ Webm.disk (Webm.packetsReady ps s) = Webm.disk s.
Proof.
  induction ps as [|p ps IH]; intros s; [repeat split|].
  cbn [Webm.packetsReady].
  destruct (IH (Webm.packetReady p s)) as (H1 & H2 & H3).
  destruct (packetReady_keeps p s) as (G1 & G2 & G3).
  rewrite H1, H2, H3. repeat split; assumption.
Qed.

(** The block that moves the cues: the recording stays at its location,
    and when the block is gone through no temporary file is left. *)
Lemma moveCues_outcome nat s :
  muxerSetup (fst (Webm.moveCues nat s)) = muxerSetup s
  /\ Webm.m_paused (fst (Webm.moveCues nat s)) = Webm.m_paused s
  /\ (snd (Webm.moveCues nat s) = true
      <-> Webm.readerOpen nat = 0 /\ Webm.tempDirValid nat = true)
  /\ (snd (Webm.moveCues nat s) = false ->
      Webm.disk (fst (Webm.moveCues nat s)) = Webm.disk s)
  /\ (Webm.tmpPath nat <> Webm.location s ->
      Webm.onDisk (Webm.location s) (Webm.disk s) = true ->
      Webm.onDisk (Webm.location s) (Webm.disk (fst (Webm.moveCues nat s)))
      = true
      /\ (snd (Webm.moveCues nat s) = true ->
          Webm.onDisk (Webm.tmpPath nat)
                      (Webm.disk (fst (Webm.moveCues nat s))) = false)).
Proof.
  unfold Webm.moveCues. cbv zeta.
  destruct (Z.eqb_spec (Webm.readerOpen nat) 0) as [Hr | Hr]; cbn [negb].
  2:{ cbn [fst snd]. repeat split; try discriminate; try assumption.
      intros (Hf & _). contradiction. }
  destruct (Webm.tempDirValid nat) eqn:Ht; cbn [negb].
  2:{ cbn [fst snd]. repeat split; try discriminate; try assumption.
      intros (_ & Hf). discriminate. }
  assert (Hloc : forall q : string,
             Webm.tmpPath nat <> q ->
             Webm.onDisk q (Webm.removeFile (Webm.tmpPath nat) (Webm.disk s))
             = Webm.onDisk q (Webm.disk s)).
  { intros q Hq. apply onDisk_removeFile_other. congruence. }
  destruct (Webm.tmpOpenOk nat).
  - destruct (Webm.copyCuesOk nat).
    + cbn [fst snd].
      split; [reflexivity|]. split; [reflexivity|].
      split; [split; [intros _; split; [exact Hr | reflexivity]
                     | reflexivity]|].
      split; [discriminate|].
      cbn [Webm.disk Webm.set_disk Webm.emit Webm.location].
      intros Hne Hon. unfold Webm.renameFile.
      rewrite onDisk_removeFile_other by exact Hne.
      rewrite onDisk_createFile_same, onDisk_removeFile_same. cbn [negb andb].
      split.
      * unfold Webm.onDisk. cbn [existsb]. rewrite String.eqb_refl.
        reflexivity.
      * intros _. unfold Webm.onDisk at 1. cbn [existsb].
        apply String.eqb_neq in Hne. rewrite Hne. cbn [orb].
        apply onDisk_removeFile_same.
    + unfold Webm.dropTemporary.
      match goal with |- context [Webm.closeAndRemove ?p ?st] =>
        destruct (closeAndRemove_outcome p st) as (K1 & K2 & K3 & _);
        set (c := Webm.closeAndRemove p st) in *
      end.
      cbn [fst snd]. cbn [Webm.disk Webm.set_disk Webm.emit] in K3.
      split; [exact K1|]. split; [exact K2|].
      split; [split; [intros _; split; [exact Hr | reflexivity]
                     | reflexivity]|].
      split; [discriminate|].
      intros Hne Hon. rewrite K3. split.
      * rewrite onDisk_removeFile_other by congruence.
        rewrite onDisk_createFile_other by congruence.
        rewrite Hloc by exact Hne. exact Hon.
      * intros _. apply onDisk_removeFile_same.
  - unfold Webm.dropTemporary.
    match goal with |- context [Webm.closeAndRemove ?p ?st] =>
      destruct (closeAndRemove_outcome p st) as (K1 & K2 & K3 & _);
      set (c := Webm.closeAndRemove p st) in *
    end.
    cbn [fst snd]. cbn [Webm.disk Webm.set_disk Webm.emit] in K3.
    split; [exact K1|]. split; [exact K2|].
    split; [split; [intros _; split; [exact Hr | reflexivity]
                   | reflexivity]|].
    split; [discriminate|].
    intros Hne Hon. rewrite K3. split.
    + rewrite onDisk_removeFile_other by congruence.
      rewrite Hloc by exact Hne. exact Hon.
    + intros _. apply onDisk_removeFile_same.
Qed.

(** [uninit] of an initialized muxer. *)
Lemma uninit_outcome nat s :
  Webm.m_initialized s = true ->
  muxerSetup (Webm.uninit nat s) = muxerSetup s
  /\ Webm.m_paused (Webm.uninit nat s)
     = (if Webm.m_cuesBeforeClusters s
           && negb ((Webm.readerOpen nat =? 0) && Webm.tempDirValid nat)
        then Webm.m_paused s else false)
  /\ (Webm.m_cuesBeforeClusters s = false ->
      Webm.disk (Webm.uninit nat s) = Webm.disk s)
  /\ (Webm.tmpPath nat <> Webm.location s ->
      Webm.onDisk (Webm.location s) (Webm.disk s) = true ->
      Webm.onDisk (Webm.location s) (Webm.disk (Webm.uninit nat s)) = true
      /\ (Webm.m_cuesBeforeClusters s = true ->
          Webm.readerOpen nat = 0 ->
          Webm.tempDirValid nat = true ->
          Webm.onDisk (Webm.tmpPath nat) (Webm.disk (Webm.uninit nat s))
          = false)).
Proof.
  intros Hi. unfold Webm.uninit. rewrite Hi. cbn [negb]. cbv zeta.
  match goal with |- context [Webm.packetsReady ?ps ?st] =>
    destruct (packetsReady_keeps ps st) as (P1 & P2 & P3);
    set (p := Webm.packetsReady ps st) in *
  end.
  clearbody p.
  change (muxerSetup
            (Webm.emit (Webm.EvSyncSetState ElementStateNull)
               (Webm.set_m_initialized false s)))
    with (muxerSetup s) in P1.
  cbn [Webm.m_paused Webm.disk Webm.emit Webm.set_m_initialized] in P2, P3.
  destruct (setup_fields _ _ P1) as (_ & Hloc & _ & _ & Hcues & _).
  cbn [Webm.m_cuesBeforeClusters Webm.emit].
  rewrite Hcues.
  destruct (Webm.m_cuesBeforeClusters s) eqn:Hc; cbn [andb].
  - match goal with |- context [Webm.moveCues nat ?st] =>
      destruct (moveCues_outcome nat st) as (M1 & M2 & Mthrough & Mdisk & Mon);
      destruct (Webm.moveCues nat st) as [s' through]
    end.
    cbn [fst snd] in *.
    change (muxerSetup
              (Webm.emit Webm.EvWriterClose
                 (Webm.emit Webm.EvFinalize
                    (Webm.emit (Webm.EvSetDuration (Webm.durationTicks p))
                               p))))
      with (muxerSetup p) in M1.
    cbn [Webm.m_paused Webm.disk Webm.location Webm.emit] in M2, Mdisk, Mon.
    rewrite Hloc, P3 in Mon.
    assert (Hthrough : through
                       = (Webm.readerOpen nat =? 0) && Webm.tempDirValid nat).
    { destruct through.
      - destruct (proj1 Mthrough eq_refl) as [Hr Ht].
        rewrite Hr, Ht. reflexivity.
      - destruct (Z.eqb_spec (Webm.readerOpen nat) 0) as [Hr | Hr];
          [|reflexivity].
        destruct (Webm.tempDirValid nat) eqn:Ht; [|reflexivity].
        apply Mthrough. split; [exact Hr | reflexivity]. }
    rewrite <- Hthrough.
    destruct through; cbn [negb].
    + split; [rewrite <- P1, <- M1; reflexivity|].
      split; [reflexivity|]. split; [discriminate|].
      intros Hne Hon. destruct (Mon Hne Hon) as [Mon1 Mon2].
      split; [exact Mon1|]. intros _ _ _. apply Mon2. reflexivity.
    + split; [rewrite <- P1, <- M1; reflexivity|].
      split; [rewrite M2; exact P2|]. split; [discriminate|].
      intros Hne Hon. destruct (Mon Hne Hon) as [Mon1 _].
      split; [exact Mon1|]. intros _ Hr Ht.
      rewrite Hr, Ht in Hthrough. discriminate.
  - cbn. split; [exact P1|]. split; [reflexivity|].
    split; [intros _; exact P3|].
    intros Hne Hon. rewrite P3. split; [exact Hon|]. discriminate.
Qed.

End Muxer.
End MuxerOutcomeProofs.

Module MuxerLifeProofs.
Import MachineInt Ak Rav1e.
Import MuxerInitProofs MuxerOutcomeProofs.

Section MuxerLife.
Context {R : Type} `{QReal.Ops R}.
Implicit Types s : Webm.State R.


Lemma webm_setState_life nat target s :
  WebmLifeCycle s /\ PausedOnlyInPaused s ->
  WebmLifeCycle (snd (Webm.setState nat target s))
  /\ PausedOnlyInPaused (snd (Webm.setState nat target s))
  /\ Webm.m_cuesBeforeClusters (snd (Webm.setState nat target s))
     = Webm.m_cuesBeforeClusters s.
Proof.
  unfold WebmLifeCycle, PausedOnlyInPaused. intros [Hl Hp].
  unfold Webm.setState.
  destruct (Webm.state s) eqn:Est.
  - destruct target; cbn [ElementState_eqb].
    + cbn [snd]. rewrite Est. repeat split; assumption.
    + destruct (init_outcome nat (Webm.set_m_paused true s) Hl)
        as (_ & Hsetup & Hpa & _).
      destruct (init_fields nat (Webm.set_m_paused true s)) as [_ Hin].
      destruct (setup_fields _ _ Hsetup) as (Hst & _ & _ & _ & Hcu & _).
      destruct (Webm.init nat (Webm.set_m_paused true s)) as [ok s1].
      cbn [fst snd] in *. cbn in Hst, Hcu, Hpa.
      destruct ok; cbn [negb AkElement_setState snd].
      * cbn. repeat split; try assumption. intros _ Hf. contradiction.
      * cbn. rewrite Hst, Est. repeat split; assumption.
    + destruct (init_outcome nat s Hl) as (_ & Hsetup & Hpa & _).
      destruct (init_fields nat s) as [_ Hin].
      destruct (setup_fields _ _ Hsetup) as (Hst & _ & _ & _ & Hcu & _).
      destruct (Webm.init nat s) as [ok s1].
      cbn [fst snd] in *.
      destruct ok; cbn [negb AkElement_setState snd].
      * cbn. repeat split; try assumption.
        intros Hc _. rewrite Hpa. apply Hp; [congruence | discriminate].
      * cbn. rewrite Hst, Est. repeat split; assumption.
  - destruct Hl as [Hi Hpa].
    destruct target; cbn [AkElement_setState snd].
    + destruct (uninit_outcome nat s Hi) as (Hsetup & Hpa' & _).
      destruct (setup_fields _ _ Hsetup) as (_ & _ & _ & _ & Hcu & _).
      cbn. split; [apply LifeCycleProofs.webm_uninit_initialized|].
      split; [|exact Hcu].
      intros Hc _. rewrite Hpa'. rewrite Hcu in Hc. rewrite Hc. reflexivity.
    + cbn [snd]. rewrite Est. repeat split; assumption.
    + cbn. repeat split; assumption.
  - destruct target; cbn [AkElement_setState snd].
    + destruct (uninit_outcome nat s Hl) as (Hsetup & Hpa' & _).
      destruct (setup_fields _ _ Hsetup) as (_ & _ & _ & _ & Hcu & _).
      cbn. split; [apply LifeCycleProofs.webm_uninit_initialized|].
      split; [|exact Hcu].
      intros Hc _. rewrite Hpa'. rewrite Hcu in Hc. rewrite Hc. reflexivity.
    + cbn. repeat split; try assumption. intros _ Hf. contradiction.
    + cbn [snd]. rewrite Est. repeat split; assumption.
Qed.

Lemma webm_reachable_life s :
  Reachable s -> WebmLifeCycle s /\ PausedOnlyInPaused s.
Proof.
  induction 1 as [s Hst Hi Hp Ht Hcues | v a l vh ah ad vd s Hr IH
                  | nat target s Hr IH | released s Hr IH].
  - unfold WebmLifeCycle, PausedOnlyInPaused. rewrite Hst.
    split; [exact Hi | intros _ _; exact Hp].
  - exact IH.
  - destruct (webm_setState_life nat target s IH) as (H1 & H2 & _).
    split; assumption.
  - unfold Webm.iStream.
    destruct (Webm.m_paused s || negb (Webm.m_initialized s)
              || negb (Webm.m_packetSync s)); [exact IH|].
    destruct (packetsReady_keeps released s) as (K1 & K2 & _).
    destruct (setup_fields _ _ K1) as (Hst & _ & _ & _ & Hcu & _).
    unfold WebmLifeCycle, PausedOnlyInPaused in *.
    rewrite Hst, K2, Hcu, LifeCycleProofs.webm_packetsReady_initialized.
    exact IH.
Qed.

End MuxerLife.
End MuxerLifeProofs.

(** [init] of the muxer on an element that is not initialized succeeds
    exactly when there is no configuration error and libwebm and the file
    system play along. On success the element is initialized, the output
    file is on disk, the video track has a number from 1 on, and the audio
    track has one exactly when there are audio caps. *)
Theorem webm_init_outcome :
  forall (R : Type) (ops : QReal.Ops R) (nat : Webm.Native)
         (s : Webm.State R),
    Webm.m_initialized s = false ->
    (fst (Webm.init nat s) = true
     <-> ~ ConfigurationError s /\ WebmNativeOk nat s)
    /\ Webm.m_initialized (snd (Webm.init nat s)) = fst (Webm.init nat s)
    /\ Webm.state (snd (Webm.init nat s)) = Webm.state s
    /\ Webm.m_paused (snd (Webm.init nat s)) = Webm.m_paused s
    /\ (fst (Webm.init nat s) = true ->
        Webm.onDisk (Webm.location s) (Webm.disk (snd (Webm.init nat s)))
        = true
        /\ 1 <= Webm.m_videoTrackIndex (snd (Webm.init nat s))
        /\ (if Ak.compressedAudioCapsValid (Webm.audioCaps s)
            then 1 <= Webm.m_audioTrackIndex (snd (Webm.init nat s))
            else Webm.m_audioTrackIndex (snd (Webm.init nat s)) = 0)).
Proof.
  intros R ops nat s Hi.
  destruct (MuxerOutcomeProofs.init_outcome nat s Hi)
    as (Hiff & Hsetup & Hpa & Hok & _).
  destruct (MuxerInitProofs.init_fields nat s) as [_ Hin].
  destruct (MuxerOutcomeProofs.setup_fields _ _ Hsetup) as (Hst & _).
  split; [exact Hiff|]. split; [exact Hin|]. split; [exact Hst|].
  split; [exact Hpa|].
  intros Ht. destruct (Hok Ht) as (Hd & Hv & Ha).
  destruct (proj1 Hiff Ht) as (_ & _ & _ & Hv1 & _ & Haok).
  rewrite Hd, Hv, Ha.
  split; [apply MuxerOutcomeProofs.onDisk_createFile_same|].
  split; [exact Hv1|].
  destruct (Ak.compressedAudioCapsValid (Webm.audioCaps s));
    [apply Haok; reflexivity | reflexivity].
Qed.

Lemma webm_init_outcome_witness :
  fst (Webm.init Sample.webmNative Sample.avMuxer) = true
  /\ Webm.m_audioTrackIndex (snd (Webm.init Sample.webmNative Sample.avMuxer))
     = 2.
Proof.
  destruct (webm_init_outcome Q QReal.Q_ops Sample.webmNative Sample.avMuxer
                              eq_refl) as (Hiff & _).
  split; [|reflexivity].
  apply Hiff. split.
  - intros [Hf | [Hf | [Hf | (_ & Hf & _)]]]; try discriminate.
    + apply Hf. cbn. tauto.
    + apply Hf. reflexivity.
  - repeat split; try reflexivity; vm_compute; intros Hgt; discriminate Hgt.
Defined.

(** A failed [init] of the muxer leaves no output file behind. When
    there is no configuration error and the file was opened, every later
    failure closes the writer and removes the file as its last two native
    calls; when the file could not be opened the disk is as it was. In
    both cases the element is not initialized. *)
Theorem webm_failed_init_removes_file :
  forall (R : Type) (ops : QReal.Ops R) (nat : Webm.Native)
         (s : Webm.State R),
    Webm.m_initialized s = false ->
    ~ ConfigurationError s ->
    fst (Webm.init nat s) = false ->
    Webm.m_initialized (snd (Webm.init nat s)) = false
    /\ (Webm.writerOpenOk nat = true ->
        Webm.onDisk (Webm.location s) (Webm.disk (snd (Webm.init nat s)))
        = false
        /\ endsWith (Webm.trace (snd (Webm.init nat s)))
                    Webm.EvWriterClose
                    (Webm.EvFileRemove (Webm.location s)))
    /\ (Webm.writerOpenOk nat = false ->
        Webm.disk (snd (Webm.init nat s)) = Webm.disk s).
Proof.
  intros R ops nat s Hi Hok Hf.
  destruct (MuxerOutcomeProofs.init_outcome nat s Hi)
    as (_ & _ & _ & _ & Hfail).
  destruct (MuxerInitProofs.init_fields nat s) as [_ Hin].
  specialize (Hfail Hf Hok).
  split; [rewrite Hin; exact Hf|].
  destruct (Webm.writerOpenOk nat).
  - split; [|discriminate]. intros _. destruct Hfail as [Hd He].
    split; [|exact He]. rewrite Hd.
    apply MuxerOutcomeProofs.onDisk_removeFile_same.
  - split; [discriminate|]. intros _. exact Hfail.
Qed.

Lemma webm_failed_init_removes_file_witness :
  let nat := Webm.mkNative true true 0 2 true true [] 0 true
                           "tmp/out_tmp.webm" true true in
  fst (Webm.init nat (Sample.muxer Sample.vp8Caps 0)) = false
  /\ Webm.onDisk "out.webm"
       (Webm.disk (snd (Webm.init nat (Sample.muxer Sample.vp8Caps 0))))
     = false.
Proof.
  split; [reflexivity|].
  apply (webm_failed_init_removes_file
           Q QReal.Q_ops
           (Webm.mkNative true true 0 2 true true [] 0 true
                          "tmp/out_tmp.webm" true true)
           (Sample.muxer Sample.vp8Caps 0));
    try reflexivity.
  intros [Hf | [Hf | [Hf | (Hf & _)]]]; try discriminate.
  apply Hf. cbn. tauto.
Defined.

(** The muxer takes packets in the Playing state only. In every state
    the element can reach, the life-cycle flags go with the element
    state, so [iStream] drops a packet fed off the Playing state; in the
    Playing state the packet goes to the helper, provided the option
    that moves the cues is off. *)
Theorem webm_packets_only_while_playing :
  forall (R : Type) (ops : QReal.Ops R) (s : Webm.State R),
    Reachable s ->
    WebmLifeCycle s
    /\ (forall released,
           Webm.state s <> Ak.ElementStatePlaying ->
           Webm.iStream released s = s)
    /\ (forall released,
           Webm.state s = Ak.ElementStatePlaying ->
           Webm.m_cuesBeforeClusters s = false ->
           Webm.m_packetSync s = true ->
           Webm.iStream released s = Webm.packetsReady released s).
Proof.
  intros R ops s Hr.
  destruct (MuxerLifeProofs.webm_reachable_life s Hr) as [Hl Hp].
  split; [exact Hl|].
  unfold WebmLifeCycle in Hl. unfold PausedOnlyInPaused in Hp.
  unfold Webm.iStream. split.
  - intros released Hst. destruct (Webm.state s).
    + rewrite Hl. rewrite orb_true_r. reflexivity.
    + destruct Hl as [_ Hpa]. rewrite Hpa. reflexivity.
    + contradiction.
  - intros released Hst Hc Hsync. rewrite Hst in Hl, Hp.
    rewrite Hl, Hsync, (Hp Hc ltac:(discriminate)). reflexivity.
Qed.

Lemma webm_packets_only_while_playing_witness :
  let paused := snd (Webm.setState Sample.webmNative Ak.ElementStatePaused
                                   Sample.avMuxer) in
  Webm.state paused = Ak.ElementStatePaused
  /\ Webm.iStream Sample.interleaved paused = paused.
Proof.
  split; [reflexivity|].
  apply (webm_packets_only_while_playing
           Q QReal.Q_ops
           (snd (Webm.setState Sample.webmNative Ak.ElementStatePaused
                               Sample.avMuxer))).
  - apply Reachable_setState, Reachable_new; reflexivity.
  - discriminate.
Defined.

(** The recording survives [uninit]. With [m_cuesBeforeClusters] off,
    as it is in every element, [uninit] of an initialized muxer does no
    file operation: the disk is as it was. It leaves the element not
    initialized and not paused, with the state, the location and the
    caps it had, and ends with the finalization of the segment and the
    closing of the writer. So a recording that [init] started is on disk
    at its location after the packets and [uninit], whatever was
    written. *)
Theorem webm_uninit_keeps_recording :
  forall (R : Type) (ops : QReal.Ops R) (nat : Webm.Native)
         (s : Webm.State R),
    Webm.m_cuesBeforeClusters s = false ->
    (Webm.m_initialized s = true ->
     Webm.disk (Webm.uninit nat s) = Webm.disk s
     /\ Webm.m_initialized (Webm.uninit nat s) = false
     /\ Webm.m_paused (Webm.uninit nat s) = false
     /\ muxerSetup (Webm.uninit nat s) = muxerSetup s
     /\ endsWith (Webm.trace (Webm.uninit nat s))
                 Webm.EvFinalize Webm.EvWriterClose)
    /\ (forall (nat' : Webm.Native) (ps : list Webm.AkPacket),
           Webm.m_initialized s = false ->
           fst (Webm.init nat s) = true ->
           Webm.onDisk
             (Webm.location s)
             (Webm.disk
                (Webm.uninit nat'
                   (Webm.packetsReady ps (snd (Webm.init nat s)))))
           = true).
Proof.
  intros R ops nat s Hcues.
  assert (Huninit :
            forall nat0 (s0 : Webm.State R),
              Webm.m_cuesBeforeClusters s0 = false ->
              Webm.m_initialized s0 = true ->
              Webm.disk (Webm.uninit nat0 s0) = Webm.disk s0
              /\ Webm.m_initialized (Webm.uninit nat0 s0) = false
              /\ Webm.m_paused (Webm.uninit nat0 s0) = false
              /\ muxerSetup (Webm.uninit nat0 s0) = muxerSetup s0
              /\ endsWith (Webm.trace (Webm.uninit nat0 s0))
                          Webm.EvFinalize Webm.EvWriterClose).
  { intros nat0 s0 Hc Hi.
    destruct (MuxerOutcomeProofs.uninit_outcome nat0 s0 Hi)
      as (Hsetup & Hpa & Hdisk & _).
    split; [apply Hdisk, Hc|].
    split; [apply LifeCycleProofs.webm_uninit_initialized|].
    split; [rewrite Hpa, Hc; reflexivity|].
    split; [exact Hsetup|].
    unfold Webm.uninit. rewrite Hi. cbn [negb]. cbv zeta.
    match goal with
    | |- context [Webm.packetsReady ?ps ?st] =>
        destruct (MuxerOutcomeProofs.packetsReady_keeps ps st) as (P1 & _);
        set (p := Webm.packetsReady ps st) in *
    end.
    clearbody p.
    destruct (MuxerOutcomeProofs.setup_fields _ _ P1)
      as (_ & _ & _ & _ & Hcu & _).
    cbn [Webm.m_cuesBeforeClusters Webm.emit Webm.set_m_initialized] in Hcu.
    cbn [Webm.m_cuesBeforeClusters Webm.emit]. rewrite Hcu, Hc.
    cbn [Webm.trace Webm.set_m_paused Webm.emit].
    eexists. rewrite <- app_assoc. reflexivity. }
  split; [intros Hi; apply Huninit; assumption|].
  intros nat' ps Hi Hok.
  destruct (MuxerOutcomeProofs.init_outcome nat s Hi)
    as (_ & Hsetup & _ & Hdisk & _).
  destruct (Hdisk Hok) as (Hd & _).
  destruct (MuxerOutcomeProofs.setup_fields _ _ Hsetup)
    as (_ & _ & _ & _ & Hcu & _).
  destruct (MuxerOutcomeProofs.packetsReady_keeps
              ps (snd (Webm.init nat s))) as (P1 & _ & P3).
  destruct (MuxerOutcomeProofs.setup_fields _ _ P1)
    as (_ & _ & _ & _ & Hcu' & _).
  destruct (MuxerInitProofs.init_fields nat s) as [_ Hin].
  destruct (Huninit nat' (Webm.packetsReady ps (snd (Webm.init nat s))))
    as (Hsame & _).
  - rewrite Hcu', Hcu. exact Hcues.
  - rewrite LifeCycleProofs.webm_packetsReady_initialized, Hin. exact Hok.
  - rewrite Hsame, P3, Hd.
    apply MuxerOutcomeProofs.onDisk_createFile_same.
Qed.

Lemma webm_uninit_keeps_recording_witness :
  let started := snd (Webm.init Sample.webmNative Sample.avMuxer) in
  Webm.disk Sample.avMuxer = []
  /\ Webm.onDisk "out.webm"
       (Webm.disk
          (Webm.uninit Sample.webmNative
             (Webm.packetsReady Sample.interleaved started))) = true.
Proof.
  split; [reflexivity|].
  apply (proj2 (webm_uninit_keeps_recording
                  Q QReal.Q_ops Sample.webmNative Sample.avMuxer eq_refl)
               Sample.webmNative Sample.interleaved eq_refl).
  vm_compute. reflexivity.
Defined.


(* ===================================================================== *)
(** * The PipeWire device: formats and the stream buffer *)
(* ===================================================================== *)

Module FormatProofs.
Import MachineInt Ak PipeWire PipeWireIO.

Lemma SampleFormat_eqb_iff a b : SampleFormat_eqb a b = true <-> a = b.
Proof.
  split; [apply CapsProofs.SampleFormat_eqb_eq|].
  intros <-. destruct a; reflexivity.
Qed.

Lemma ChannelLayout_eqb_iff a b : ChannelLayout_eqb a b = true <-> a = b.
Proof.
  split; [apply CapsProofs.ChannelLayout_eqb_eq|].
  intros <-. destruct a; cbn; rewrite ?Z.eqb_refl; reflexivity.
Qed.

Lemma existsb_eqb_In {A : Type} (eqb : A -> A -> bool) :
  (forall a b, eqb a b = true <-> a = b) ->
  forall x l, existsb (eqb x) l = true <-> In x l.
Proof.
  intros Heq x l. rewrite existsb_exists. split.
  - intros (y & Hy & He). apply Heq in He. subst. exact Hy.
  - intros Hx. exists x. split; [exact Hx | apply Heq; reflexivity].
Qed.

(** The loop that collects without repeating, for any projection [key]
    of the formats: what was collected stays in front, and what is
    added are the keys not yet seen, once each. *)
Section Collect.
Context {A B : Type} (eqb : B -> B -> bool) (key : A -> B).
Hypothesis eqb_iff : forall a b, eqb a b = true <-> a = b.

Lemma collect_spec fs :
  forall acc,
    NoDup acc ->
    NoDup (collect eqb key fs acc)
    /\ (forall b, In b (collect eqb key fs acc)
                  <-> In b acc \/ exists f, In f fs /\ key f = b)
    /\ exists added, collect eqb key fs acc = acc ++ added.
Proof.
  induction fs as [|f fs IH]; intros acc Hnd.
  - cbn [collect]. split; [exact Hnd|]. split.
    + intros b. split; [auto | intros [H | (f & [] & _)]; exact H].
    + exists []. now rewrite app_nil_r.
  - cbn [collect].
    destruct (existsb (eqb (key f)) acc) eqn:E.
    + apply (existsb_eqb_In eqb eqb_iff) in E.
      destruct (IH acc Hnd) as (H1 & H2 & H3).
      split; [exact H1|]. split; [|exact H3].
      intros b. rewrite H2. split.
      * intros [H | (g & Hg & Hk)]; [left; exact H|].
        right. exists g. split; [right; exact Hg | exact Hk].
      * intros [H | (g & [<- | Hg] & Hk)].
        -- left. exact H.
        -- left. rewrite <- Hk. exact E.
        -- right. exists g. split; assumption.
    + assert (Hnin : ~ In (key f) acc).
      { intros Hin. apply (existsb_eqb_In eqb eqb_iff) in Hin.
        rewrite Hin in E. discriminate. }
      assert (Hnd' : NoDup (acc ++ [key f])).
      { apply NoDup_app; [exact Hnd | repeat constructor; intros []|].
        intros x Hx [<- | []]. exact (Hnin Hx). }
      destruct (IH (acc ++ [key f]) Hnd') as (H1 & H2 & (added & H3)).
      split; [exact H1|]. split.
      * intros b. rewrite H2, in_app_iff. cbn [In]. split.
        -- intros [[H | [<- | []]] | (g & Hg & Hk)].
           ++ left. exact H.
           ++ right. exists f. split; [left; reflexivity | reflexivity].
           ++ right. exists g. split; [right; exact Hg | exact Hk].
        -- intros [H | (g & [<- | Hg] & Hk)].
           ++ left. left. exact H.
           ++ left. right. left. exact Hk.
           ++ right. exists g. split; assumption.
      * exists (key f :: added). rewrite H3, <- app_assoc. reflexivity.
Qed.

End Collect.

Lemma supportedFormats_collect fs acc :
  supportedFormats_loop fs acc = collect SampleFormat_eqb af_format fs acc.
Proof.
  revert acc. induction fs as [|f fs IH]; intros acc; [reflexivity|].
  cbn [supportedFormats_loop collect]. apply IH.
Qed.

Lemma supportedChannelLayouts_collect fs acc :
  supportedChannelLayouts_loop fs acc
  = collect ChannelLayout_eqb af_layout fs acc.
Proof.
  revert acc. induction fs as [|f fs IH]; intros acc; [reflexivity|].
  cbn [supportedChannelLayouts_loop collect]. apply IH.
Qed.

End FormatProofs.

(** [supportedFormats] and [supportedChannelLayouts] list what the
    formats of a device have, each sample format and each layout once;
    a device without formats has none. *)
Theorem supported_formats_listed_once :
  forall (m_formats : PipeWireIO.FormatsMap) (device : string),
    let fs := PipeWireIO.formats_value device m_formats in
    NoDup (PipeWireIO.supportedFormats m_formats device)
    /\ (forall f, In f (PipeWireIO.supportedFormats m_formats device)
                  <-> exists a, In a fs /\ PipeWireIO.af_format a = f)
    /\ NoDup (PipeWireIO.supportedChannelLayouts m_formats device)
    /\ (forall l, In l (PipeWireIO.supportedChannelLayouts m_formats device)
                  <-> exists a, In a fs /\ PipeWireIO.af_layout a = l).
Proof.
  intros m_formats device fs.
  unfold PipeWireIO.supportedFormats, PipeWireIO.supportedChannelLayouts.
  fold fs.
  rewrite FormatProofs.supportedFormats_collect,
    FormatProofs.supportedChannelLayouts_collect.
  destruct (FormatProofs.collect_spec
              Ak.SampleFormat_eqb PipeWireIO.af_format
              FormatProofs.SampleFormat_eqb_iff fs [] (NoDup_nil _))
    as (F1 & F2 & _).
  destruct (FormatProofs.collect_spec
              Ak.ChannelLayout_eqb PipeWireIO.af_layout
              FormatProofs.ChannelLayout_eqb_iff fs [] (NoDup_nil _))
    as (L1 & L2 & _).
  split; [exact F1|]. split.
  - intros f. rewrite F2. split; [intros [[] | Hf]; exact Hf | auto].
  - split; [exact L1|].
    intros l. rewrite L2. split; [intros [[] | Hl]; exact Hl | auto].
Qed.

Module PreferredProofs.
Import MachineInt Ak PipeWire PipeWireIO.

Lemma supportedFormats_nil m device :
  supportedFormats m device = [] <-> formats_value device m = [].
Proof.
  unfold supportedFormats. rewrite FormatProofs.supportedFormats_collect.
  destruct (FormatProofs.collect_spec
              SampleFormat_eqb af_format FormatProofs.SampleFormat_eqb_iff
              (formats_value device m) [] (NoDup_nil _)) as (_ & H2 & _).
  split.
  - intros He. destruct (formats_value device m) as [|a fs] eqn:Ef;
      [reflexivity|].
    exfalso. assert (Hin : In (af_format a) []).
    { rewrite <- He. apply H2. right. exists a.
      split; [left; reflexivity | reflexivity]. }
    destruct Hin.
  - intros ->. reflexivity.
Qed.

Lemma supportedChannelLayouts_nil m device :
  supportedChannelLayouts m device = [] <-> formats_value device m = [].
Proof.
  unfold supportedChannelLayouts.
  rewrite FormatProofs.supportedChannelLayouts_collect.
  destruct (FormatProofs.collect_spec
              ChannelLayout_eqb af_layout FormatProofs.ChannelLayout_eqb_iff
              (formats_value device m) [] (NoDup_nil _)) as (_ & H2 & _).
  split.
  - intros He. destruct (formats_value device m) as [|a fs] eqn:Ef;
      [reflexivity|].
    exfalso. assert (Hin : In (af_layout a) []).
    { rewrite <- He. apply H2. right. exists a.
      split; [left; reflexivity | reflexivity]. }
    destruct Hin.
  - intros ->. reflexivity.
Qed.

(** The choice [contains(x) ? x : first()] is an element of a list that
    is not empty: [x] when the list has it, and otherwise the element
    the list starts with. *)
Lemma preferred_choice {A : Type} (eqb : A -> A -> bool) (x d : A) l :
  (forall a b, eqb a b = true <-> a = b) ->
  l <> [] ->
  In (if existsb (eqb x) l then x else first d l) l
  /\ (In x l -> (if existsb (eqb x) l then x else first d l) = x)
  /\ (~ In x l ->
      hd_error l = Some (if existsb (eqb x) l then x else first d l)).
Proof.
  intros Heq Hne. destruct (existsb (eqb x) l) eqn:E.
  - split; [|split; [reflexivity|]].
    + apply (FormatProofs.existsb_eqb_In eqb Heq). exact E.
    + intros Hnin. exfalso. apply Hnin.
      apply (FormatProofs.existsb_eqb_In eqb Heq). exact E.
  - split; [|split].
    + destruct l as [|y l]; [contradiction | left; reflexivity].
    + intros Hin. apply (FormatProofs.existsb_eqb_In eqb Heq) in Hin.
      rewrite Hin in E. discriminate.
    + intros _. destruct l as [|y l]; [contradiction | reflexivity].
Qed.

End PreferredProofs.

(** [preferredFormat] answers with empty caps for a device without
    formats and for a device that is neither a sink nor a source.
    Otherwise the caps are made of a supported sample format, which is
    [s16] when that is among them and else the first of them, and of a
    supported layout, which is stereo for a sink and mono for a source
    when that is supported and else the first of them; they are not
    planar, at 48000 Hz for a sink and 8000 Hz for a source. *)
Theorem preferredFormat_among_supported :
  forall (m_formats : PipeWireIO.FormatsMap) (s : PipeWire.State)
         (device : string),
    let caps := PipeWireIO.preferredFormat m_formats s device in
    let formats := PipeWireIO.supportedFormats m_formats device in
    let layouts := PipeWireIO.supportedChannelLayouts m_formats device in
    let isSink := existsb (String.eqb device) (PipeWire.outputs s) in
    let isSource := existsb (String.eqb device) (PipeWire.inputs s) in
    let wanted := if isSink then Ak.Layout_stereo else Ak.Layout_mono in
    (PipeWireIO.formats_value device m_formats = []
     \/ (isSink = false /\ isSource = false) ->
     caps = Ak.emptyAudioCaps)
    /\ (PipeWireIO.formats_value device m_formats <> [] ->
        isSink || isSource = true ->
        In (Ak.a_format caps) formats
        /\ In (Ak.a_layout caps) layouts
        /\ Ak.a_planar caps = false
        /\ Ak.a_rate caps = (if isSink then 48000 else 8000)
        /\ (In Ak.SampleFormat_s16 formats ->
            Ak.a_format caps = Ak.SampleFormat_s16)
        /\ (~ In Ak.SampleFormat_s16 formats ->
            hd_error formats = Some (Ak.a_format caps))
        /\ (In wanted layouts -> Ak.a_layout caps = wanted)
        /\ (~ In wanted layouts ->
            hd_error layouts = Some (Ak.a_layout caps))).
Proof.
  intros m_formats s device caps formats layouts isSink isSource wanted.
  pose proof (PreferredProofs.supportedFormats_nil m_formats device) as Hf.
  pose proof (PreferredProofs.supportedChannelLayouts_nil m_formats device)
    as Hl.
  fold formats in Hf. fold layouts in Hl.
  subst caps. unfold PipeWireIO.preferredFormat. fold formats layouts.
  change (PipeWire.qmap_values (PipeWire.m_sinks s)) with (PipeWire.outputs s).
  change (PipeWire.qmap_values (PipeWire.m_sources s))
    with (PipeWire.inputs s).
  fold isSink isSource.
  split.
  - intros [He | [Hs1 Hs2]].
    + apply Hf in He. rewrite He. reflexivity.
    + rewrite Hs1, Hs2. destruct formats; [reflexivity|].
      destruct layouts; reflexivity.
  - intros Hne Hknown.
    assert (Hfne : formats <> []) by (intros He; apply Hne, Hf, He).
    assert (Hlne : layouts <> []) by (intros He; apply Hne, Hl, He).
    destruct (PreferredProofs.preferred_choice
                Ak.SampleFormat_eqb Ak.SampleFormat_s16 Ak.SampleFormat_none
                formats FormatProofs.SampleFormat_eqb_iff Hfne)
      as (Hc1 & Hc2 & Hc3).
    destruct (PreferredProofs.preferred_choice
                Ak.ChannelLayout_eqb Ak.Layout_stereo Ak.Layout_none
                layouts FormatProofs.ChannelLayout_eqb_iff Hlne)
      as (Hs1 & Hs2 & Hs3).
    destruct (PreferredProofs.preferred_choice
                Ak.ChannelLayout_eqb Ak.Layout_mono Ak.Layout_none
                layouts FormatProofs.ChannelLayout_eqb_iff Hlne)
      as (Hm1 & Hm2 & Hm3).
    subst wanted.
    destruct formats as [|f0 formats']; [contradiction|].
    destruct layouts as [|l0 layouts']; [contradiction|].
    destruct isSink.
    + cbn [Ak.a_format Ak.a_layout Ak.a_planar Ak.a_rate].
      split; [exact Hc1|]. split; [exact Hs1|]. split; [reflexivity|].
      split; [reflexivity|]. split; [exact Hc2|]. split; [exact Hc3|].
      split; [exact Hs2 | exact Hs3].
    + cbn [orb] in Hknown. rewrite Hknown.
      cbn [Ak.a_format Ak.a_layout Ak.a_planar Ak.a_rate].
      split; [exact Hc1|]. split; [exact Hm1|]. split; [reflexivity|].
      split; [reflexivity|]. split; [exact Hc2|]. split; [exact Hc3|].
      split; [exact Hm2 | exact Hm3].
Qed.

(** The theorem on a sink whose formats are float mono, float stereo
    and 32-bit stereo, in this order: there is no [s16], so the format
    is the first one, float, and the layout is stereo, which is there. *)
Lemma preferredFormat_among_supported_witness :
  let m := [("speakers"%string,
             [PipeWireIO.mkAudioFormat Ak.SampleFormat_flt Ak.Layout_mono false;
              PipeWireIO.mkAudioFormat Ak.SampleFormat_flt
                                       Ak.Layout_stereo false;
              PipeWireIO.mkAudioFormat Ak.SampleFormat_s32
                                       Ak.Layout_stereo false])] in
  let s := PipeWire.deviceAdded 7 true
             (Some (PipeWire.mkProps (Some "Audio/Sink"%string)
                                     (Some "speakers"%string) None))
             (Some 1) PipeWire.newDevice in
  PipeWireIO.supportedFormats m "speakers"
  = [Ak.SampleFormat_flt; Ak.SampleFormat_s32]
  /\ PipeWireIO.preferredFormat m s "speakers"
     = Ak.mkAudioCaps Ak.SampleFormat_flt Ak.Layout_stereo false 48000
  /\ hd_error (PipeWireIO.supportedFormats m "speakers")
     = Some (Ak.a_format (PipeWireIO.preferredFormat m s "speakers")).
Proof.
  split; [reflexivity|]. split; [reflexivity|].
  apply (preferredFormat_among_supported
           [("speakers"%string,
             [PipeWireIO.mkAudioFormat Ak.SampleFormat_flt Ak.Layout_mono false;
              PipeWireIO.mkAudioFormat Ak.SampleFormat_flt
                                       Ak.Layout_stereo false;
              PipeWireIO.mkAudioFormat Ak.SampleFormat_s32
                                       Ak.Layout_stereo false])]
           (PipeWire.deviceAdded 7 true
              (Some (PipeWire.mkProps (Some "Audio/Sink"%string)
                                      (Some "speakers"%string) None))
              (Some 1) PipeWire.newDevice)
           "speakers"%string);
    [discriminate | reflexivity |].
  cbn. intros [Hf | [Hf | []]]; discriminate Hf.
Defined.

Module BufferProofs.
Import MachineInt Ak PipeWire PipeWireIO.

Lemma played_app a b : played (a ++ b) = played a ++ played b.
Proof.
  induction a as [|e a IH]; [reflexivity|].
  destruct e as [st | st [bytes|] | | ]; cbn [app played];
    rewrite IH, ?app_assoc; reflexivity.
Qed.

(** [mid] from a position inside the array to its end. *)
Lemma mid_to_end bytes pos :
  0 <= pos <= size bytes ->
  mid bytes pos (size bytes - pos) = skipn (Z.to_nat pos) bytes.
Proof.
  intros Hp. unfold mid, size in *.
  replace (Z.of_nat (length bytes) <? pos) with false
    by (symmetry; apply Z.ltb_ge; lia).
  replace (pos <? 0) with false by (symmetry; apply Z.ltb_ge; lia).
  replace (Z.of_nat (length bytes) - pos <? 0) with false
    by (symmetry; apply Z.ltb_ge; lia).
  rewrite Z.ltb_irrefl. cbn [orb].
  apply firstn_all2. rewrite length_skipn. lia.
Qed.

(** [mid] for the last [n] bytes. *)
Lemma mid_last bytes n :
  0 <= n <= size bytes ->
  mid bytes (size bytes - n) n = skipn (Z.to_nat (size bytes - n)) bytes.
Proof.
  intros Hn. rewrite <- (mid_to_end bytes (size bytes - n)) by lia.
  f_equal. lia.
Qed.

(** A playback callback moves bytes from the front of the buffer into
    the buffer queued back: nothing is lost and nothing made up. *)
Lemma onProcess_playback buffer d :
  m_isCapture d = false ->
  m_isCapture (onProcess buffer d) = false
  /\ played (streamTrace (onProcess buffer d))
       ++ m_buffers (device (onProcess buffer d))
     = played (streamTrace d) ++ m_buffers (device d).
Proof.
  intros Hc. unfold onProcess. cbv zeta.
  destruct buffer as [buffer|].
  2:{ cbn. rewrite played_app. cbn. rewrite app_nil_r.
      split; [exact Hc | reflexivity]. }
  destruct (hasData buffer); cbn [negb].
  2:{ cbn. rewrite played_app. cbn. rewrite app_nil_r.
      split; [exact Hc | reflexivity]. }
  cbn [m_isCapture emitStream device]. rewrite Hc.
  set (buffers := m_buffers (device d)).
  set (copySize := Z.min (maxsize buffer) (size buffers)).
  assert (Hsize : 0 <= size buffers) by (unfold size; lia).
  assert (Hsplit : (if 0 <? copySize
                    then firstn (Z.to_nat copySize) buffers else [])
                   ++ (if 0 <? size buffers - copySize
                       then mid buffers copySize (size buffers - copySize)
                       else [])
                   = buffers).
  { destruct (Z.ltb_spec 0 copySize) as [Hpos | Hnpos].
    - destruct (Z.ltb_spec 0 (size buffers - copySize)) as [Hrem | Hnrem].
      + rewrite mid_to_end by lia. apply firstn_skipn.
      + rewrite app_nil_r. apply firstn_all2. unfold size in *. lia.
    - destruct (Z.ltb_spec 0 (size buffers - copySize)) as [Hrem | Hnrem].
      + cbn [app]. destruct (Z.eq_dec copySize 0) as [Hz | Hnz].
        * rewrite Hz. rewrite (mid_to_end buffers 0) by lia.
          reflexivity.
        * unfold mid. fold (size buffers).
          replace (size buffers <? copySize) with false
            by (symmetry; apply Z.ltb_ge; lia).
          replace (copySize <? 0) with true
            by (symmetry; apply Z.ltb_lt; lia).
          replace (size buffers <=? size buffers - copySize + copySize)
            with true by (symmetry; apply Z.leb_le; lia).
          rewrite orb_true_r. reflexivity.
      + cbn [app]. assert (Hz : size buffers = 0) by lia.
        unfold size in Hz. destruct buffers; [reflexivity | cbn in Hz; lia]. }
  clearbody buffers copySize.
  assert (Hemit : forall e (x : Stream),
             played (streamTrace (emitStream e x))
             = played (streamTrace x) ++ played [e])
    by (intros e x; cbn [emitStream streamTrace]; apply played_app).
  split.
  - destruct (0 <? size buffers - copySize);
      cbn [m_isCapture emitStream set_buffers device];
      match goal with |- context [if ?c then _ else _] => destruct c end;
      exact Hc.
  - etransitivity; [|apply (f_equal (app _)); exact Hsplit].
    destruct (0 <? size buffers - copySize), (0 <? copySize);
      cbn [m_isCapture emitStream set_buffers device m_buffers
           set_m_buffers streamTrace];
      match goal with |- context [if ?c then _ else _] => destruct c end;
      cbn [m_isCapture emitStream set_buffers device m_buffers
           set_m_buffers streamTrace];
      rewrite !played_app; cbn [played app];
      rewrite ?app_nil_r, <- ?app_assoc; reflexivity.
Qed.

Lemma onProcesses_playback buffers :
  forall d,
    m_isCapture d = false ->
    m_isCapture (onProcesses buffers d) = false
    /\ played (streamTrace (onProcesses buffers d))
         ++ m_buffers (device (onProcesses buffers d))
       = played (streamTrace d) ++ m_buffers (device d).
Proof.
  induction buffers as [|b buffers IH]; intros d Hc;
    [split; [exact Hc | reflexivity]|].
  cbn [onProcesses].
  destruct (onProcess_playback b d Hc) as [Hc1 H1].
  destruct (IH (onProcess b d) Hc1) as [Hc2 H2].
  split; [exact Hc2 | rewrite H2; exact H1].
Qed.

Lemma write_playback packet converted wait d :
  m_isCapture d = false ->
  m_isCapture (snd (write packet converted wait d)) = false
  /\ played (streamTrace (snd (write packet converted wait d)))
       ++ m_buffers (device (snd (write packet converted wait d)))
     = played (streamTrace d) ++ m_buffers (device d)
       ++ stepWritten (StepWrite packet converted wait) d.
Proof.
  intros Hc. cbn [stepWritten]. unfold write.
  destruct (audioPacketValid packet); cbn [negb];
    [|cbn; rewrite app_nil_r; split; [exact Hc | reflexivity]].
  destruct (m_pwStream (device d)) as [stream|];
    [|cbn; rewrite app_nil_r; split; [exact Hc | reflexivity]].
  cbv zeta.
  destruct (m_maxBufferSize d <=? size (m_buffers (device d))).
  - destruct (onProcesses_playback (meanwhile wait) d Hc) as [Hc1 H1].
    set (d1 := onProcesses (meanwhile wait) d) in *. clearbody d1.
    destruct (woken wait); cbn [andb negb fst snd].
    + destruct converted as [bytes|]; cbn [fst snd].
      * cbn. rewrite app_assoc, H1, <- app_assoc.
        split; [exact Hc1 | reflexivity].
      * rewrite app_nil_r. split; [exact Hc1 | exact H1].
    + rewrite app_nil_r. split; [exact Hc1 | exact H1].
  - cbn [andb]. destruct converted as [bytes|]; cbn [fst snd].
    + cbn. split; [exact Hc | reflexivity].
    + rewrite app_nil_r. split; [exact Hc | reflexivity].
Qed.

Lemma runStream_playback steps :
  forall d,
    m_isCapture d = false ->
    played (streamTrace (runStream steps d))
      ++ m_buffers (device (runStream steps d))
    = played (streamTrace d) ++ m_buffers (device d) ++ written steps d.
Proof.
  induction steps as [|st steps IH]; intros d Hc.
  - cbn. rewrite app_nil_r. reflexivity.
  - cbn [runStream written].
    assert (Hstep : m_isCapture (stepStream st d) = false
                    /\ played (streamTrace (stepStream st d))
                         ++ m_buffers (device (stepStream st d))
                       = played (streamTrace d) ++ m_buffers (device d)
                         ++ stepWritten st d).
    { destruct st as [buffer | packet converted wait].
      - cbn [stepStream stepWritten]. rewrite app_nil_r.
        apply onProcess_playback, Hc.
      - apply write_playback, Hc. }
    destruct Hstep as [Hc1 H1].
    rewrite (IH _ Hc1), app_assoc, H1, <- !app_assoc. reflexivity.
Qed.

End BufferProofs.

(** Playback is first in, first out. Whatever the order of the writes
    of the application and the callbacks of the stream thread, waits
    included, the bytes played so far followed by the bytes still in the
    buffer are the bytes that were there followed by the bytes of the
    writes that reported success: no byte is lost, repeated or moved. *)
Theorem playback_first_in_first_out :
  forall (steps : list PipeWireIO.StreamStep) (d : PipeWireIO.Stream),
    PipeWireIO.m_isCapture d = false ->
    let d' := PipeWireIO.runStream steps d in
    PipeWireIO.played (PipeWireIO.streamTrace d')
      ++ PipeWire.m_buffers (PipeWireIO.device d')
    = PipeWireIO.played (PipeWireIO.streamTrace d)
        ++ PipeWire.m_buffers (PipeWireIO.device d)
        ++ PipeWireIO.written steps d.
Proof.
  intros steps d Hc. apply BufferProofs.runStream_playback, Hc.
Qed.

Lemma playback_first_in_first_out_witness :
  let d := PipeWireIO.mkStream
             (PipeWire.set_m_pwStream (Some 1) PipeWire.newDevice)
             8 false [] in
  let steps :=
    [PipeWireIO.StepWrite (Sample.rawFrame 3) (Some [1; 2; 3])
                          (PipeWireIO.mkWait true []);
     PipeWireIO.StepProcess (Some (PipeWireIO.mkPwBuffer true [] 2));
     PipeWireIO.StepWrite (Sample.rawFrame 2) (Some [4; 5])
                          (PipeWireIO.mkWait true [])] in
  let d' := PipeWireIO.runStream steps d in
  PipeWireIO.played (PipeWireIO.streamTrace d') = [1; 2]
  /\ PipeWire.m_buffers (PipeWireIO.device d') = [3; 4; 5]
  /\ PipeWireIO.played (PipeWireIO.streamTrace d')
       ++ PipeWire.m_buffers (PipeWireIO.device d')
     = [1; 2; 3; 4; 5].
Proof.
  split; [reflexivity|]. split; [reflexivity|].
  exact (playback_first_in_first_out
           [PipeWireIO.StepWrite (Sample.rawFrame 3) (Some [1; 2; 3])
                                 (PipeWireIO.mkWait true []);
            PipeWireIO.StepProcess (Some (PipeWireIO.mkPwBuffer true [] 2));
            PipeWireIO.StepWrite (Sample.rawFrame 2) (Some [4; 5])
                                 (PipeWireIO.mkWait true [])]
           (PipeWireIO.mkStream
              (PipeWire.set_m_pwStream (Some 1) PipeWire.newDevice)
              8 false [])
           eq_refl).
Defined.

Module CaptureProofs.
Import MachineInt Ak PipeWire PipeWireIO.

Lemma onProcess_capture_buffers b d :
  m_isCapture d = true ->
  hasData b = true ->
  m_maxBufferSize d <= int_max ->
  size (m_buffers (device d)) + size (chunk b) <= quint64_max ->
  m_buffers (device (onProcess (Some b) d))
  = (if m_maxBufferSize d <=? size (chunk b) then chunk b
     else skipn (Z.to_nat
                   (size (m_buffers (device d)) + size (chunk b)
                    - Z.min (size (m_buffers (device d)) + size (chunk b))
                            (m_maxBufferSize d)))
                (m_buffers (device d))
          ++ chunk b)
  /\ streamTrace (onProcess (Some b) d)
     = streamTrace d
       ++ [EvStreamDequeueBuffer (m_pwStream (device d)); EvWakeNotEmpty;
           EvStreamQueueBuffer (m_pwStream (device d)) None].
Proof.
  intros Hc Hd Hmax Hfit. unfold onProcess. cbv zeta.
  rewrite Hd. cbn [negb m_isCapture m_maxBufferSize emitStream device].
  rewrite Hc.
  set (buffers := m_buffers (device d)) in *.
  assert (Hs : 0 <= size buffers) by (unfold size; lia).
  assert (Hk : 0 <= size (chunk b)) by (unfold size; lia).
  unfold int_max, quint64_max in *.
  destruct (Z.leb_spec (m_maxBufferSize d) (size (chunk b))) as [Hle | Hgt].
  - cbn. rewrite <- !app_assoc. split; reflexivity.
  - rewrite (NearestProofs.to_quint64_small (size buffers + size (chunk b)))
      by lia.
    set (total := Z.min (size buffers + size (chunk b)) (m_maxBufferSize d)).
    assert (Ht : size (chunk b) <= total <= size buffers + size (chunk b))
      by (unfold total; lia).
    rewrite (NearestProofs.to_quint64_small (total - size (chunk b))) by lia.
    rewrite NearestProofs.to_int_small by (unfold total; lia).
    rewrite BufferProofs.mid_last by lia.
    cbn. rewrite <- !app_assoc. split; [|reflexivity].
    f_equal. f_equal. f_equal. unfold buffers. lia.
Qed.

End CaptureProofs.

(** Capture keeps the newest bytes. After a capture callback the buffer
    is an end piece of what was there followed by the chunk, with the
    whole chunk in it; it holds the chunk alone when that fills the
    limit, and otherwise all of both up to the limit. The reader is
    woken and the buffer queued back, and a [read] that follows takes
    all of it and leaves none. *)
Theorem capture_keeps_newest :
  forall (b : PipeWireIO.PwBuffer) (d : PipeWireIO.Stream),
    PipeWireIO.m_isCapture d = true ->
    PipeWireIO.hasData b = true ->
    PipeWireIO.m_maxBufferSize d <= MachineInt.int_max ->
    PipeWireIO.size (PipeWire.m_buffers (PipeWireIO.device d))
    + PipeWireIO.size (PipeWireIO.chunk b) <= MachineInt.quint64_max ->
    let before := PipeWire.m_buffers (PipeWireIO.device d) in
    let d' := PipeWireIO.onProcess (Some b) d in
    let after := PipeWire.m_buffers (PipeWireIO.device d') in
    (exists dropped, before ++ PipeWireIO.chunk b = dropped ++ after)
    /\ (exists kept, after = kept ++ PipeWireIO.chunk b)
    /\ PipeWireIO.size after
       = (if PipeWireIO.m_maxBufferSize d <=? PipeWireIO.size (PipeWireIO.chunk b)
          then PipeWireIO.size (PipeWireIO.chunk b)
          else Z.min (PipeWireIO.size before
                      + PipeWireIO.size (PipeWireIO.chunk b))
                     (PipeWireIO.m_maxBufferSize d))
    /\ (exists earlier,
           PipeWireIO.streamTrace d'
           = earlier
             ++ [PipeWireIO.EvWakeNotEmpty;
                 PipeWireIO.EvStreamQueueBuffer
                   (PipeWire.m_pwStream (PipeWireIO.device d)) None])
    /\ (forall wait,
           PipeWire.m_pwStream (PipeWireIO.device d) <> None ->
           after <> [] ->
           fst (PipeWireIO.read wait d') = after
           /\ PipeWire.m_buffers
                (PipeWireIO.device (snd (PipeWireIO.read wait d'))) = []).
Proof.
  intros b d Hc Hd Hmax Hfit before d' after.
  destruct (CaptureProofs.onProcess_capture_buffers b d Hc Hd Hmax Hfit)
    as [Hb Ht].
  fold before in Hb, Hfit. fold d' in Hb, Ht. fold after in Hb.
  assert (Hs : 0 <= PipeWireIO.size before)
    by (unfold PipeWireIO.size; lia).
  assert (Hk : 0 <= PipeWireIO.size (PipeWireIO.chunk b))
    by (unfold PipeWireIO.size; lia).
  split; [|split; [|split; [|split]]].
  - rewrite Hb.
    destruct (PipeWireIO.m_maxBufferSize d
              <=? PipeWireIO.size (PipeWireIO.chunk b)).
    + exists before. reflexivity.
    + eexists. rewrite app_assoc. f_equal. symmetry. apply firstn_skipn.
  - rewrite Hb.
    destruct (PipeWireIO.m_maxBufferSize d
              <=? PipeWireIO.size (PipeWireIO.chunk b)).
    + exists []. reflexivity.
    + eexists. reflexivity.
  - rewrite Hb.
    destruct (Z.leb_spec (PipeWireIO.m_maxBufferSize d)
                         (PipeWireIO.size (PipeWireIO.chunk b)));
      [reflexivity|].
    unfold PipeWireIO.size in *. rewrite length_app, length_skipn. lia.
  - rewrite Ht.
    exists (PipeWireIO.streamTrace d
            ++ [PipeWireIO.EvStreamDequeueBuffer
                  (PipeWire.m_pwStream (PipeWireIO.device d))]).
    rewrite <- app_assoc. reflexivity.
  - intros wait Hstream Hne. unfold PipeWireIO.read.
    assert (Hsame : PipeWire.m_pwStream (PipeWireIO.device d')
                    = PipeWire.m_pwStream (PipeWireIO.device d)).
    { subst d'. unfold PipeWireIO.onProcess. cbv zeta.
      rewrite Hd. cbn [negb PipeWireIO.m_isCapture PipeWireIO.m_maxBufferSize
                       PipeWireIO.emitStream PipeWireIO.device].
      rewrite Hc.
      destruct (PipeWireIO.m_maxBufferSize d
                <=? PipeWireIO.size (PipeWireIO.chunk b)); reflexivity. }
    rewrite Hsame.
    destruct (PipeWire.m_pwStream (PipeWireIO.device d)); [|contradiction].
    fold after. destruct after as [|x rest]; [contradiction|].
    split; reflexivity.
Qed.

Lemma capture_keeps_newest_witness :
  let d := PipeWireIO.mkStream
             (PipeWire.set_m_buffers [1; 2; 3]
                (PipeWire.set_m_pwStream (Some 1) PipeWire.newDevice))
             4 true [] in
  let b := PipeWireIO.mkPwBuffer true [4; 5] 0 in
  PipeWire.m_buffers (PipeWireIO.device (PipeWireIO.onProcess (Some b) d))
  = [2; 3; 4; 5]
  /\ PipeWireIO.size
       (PipeWire.m_buffers
          (PipeWireIO.device (PipeWireIO.onProcess (Some b) d))) = 4.
Proof.
  split; [reflexivity|].
  apply (capture_keeps_newest
           (PipeWireIO.mkPwBuffer true [4; 5] 0)
           (PipeWireIO.mkStream
              (PipeWire.set_m_buffers [1; 2; 3]
                 (PipeWire.set_m_pwStream (Some 1) PipeWire.newDevice))
              4 true []));
    try reflexivity; vm_compute; intros Hgt; discriminate Hgt.
Defined.


(* ===================================================================== *)
(** * The PipeWire device: the registry, and the pixel format table *)
(* ===================================================================== *)

Module RegistryProofs.
Import PipeWire PipeWireRegistry PipeWireProofs.

(** Reading a member through the setters and [emit]. *)
Ltac fields :=
  cbn [m_sinks m_sources m_deviceIds m_defaultSource m_defaultSink
       set_m_sinks set_m_sources set_m_deviceIds set_m_defaultSource
       set_m_defaultSink emit].

Lemma contains_In id m :
  qmap_contains id m = true <-> exists name, In (id, name) m.
Proof.
  unfold qmap_contains. rewrite existsb_exists. split.
  - intros [[k v] [Hin He]]. cbn in He. apply Z.eqb_eq in He. subst k.
    exists v. exact Hin.
  - intros [name Hin]. exists (id, name). split; [exact Hin|].
    cbn. apply Z.eqb_refl.
Qed.

Lemma not_contains_In id m e :
  qmap_contains id m = false -> In e m -> fst e <> id.
Proof.
  intros Hc Hin He. destruct e as [k v]. cbn in He. subst k.
  assert (Ht : qmap_contains id m = true)
    by (apply contains_In; exists v; exact Hin).
  rewrite Hc in Ht. discriminate Ht.
Qed.

Lemma In_insert_inv key value m e :
  In e (qmap_insert key value m) -> e = (key, value) \/ In e m.
Proof.
  induction m as [|[k v] m IH]; cbn [qmap_insert].
  - intros [<- | []]. left; reflexivity.
  - destruct (key <? k).
    + intros [<- | Hin]; [left; reflexivity | right; exact Hin].
    + destruct (key =? k).
      * intros [<- | Hin]; [left; reflexivity | right; right; exact Hin].
      * intros [<- | Hin]; [right; left; reflexivity|].
        destruct (IH Hin) as [-> | Hm]; [left; reflexivity|].
        right; right; exact Hm.
Qed.

Lemma In_insert_new key value m : In (key, value) (qmap_insert key value m).
Proof.
  induction m as [|[k v] m IH]; cbn [qmap_insert].
  - left; reflexivity.
  - destruct (key <? k); [left; reflexivity|].
    destruct (key =? k); [left; reflexivity | right; exact IH].
Qed.

Lemma In_insert_old key value m e :
  In e m -> fst e <> key -> In e (qmap_insert key value m).
Proof.
  induction m as [|[k v] m IH]; cbn [qmap_insert]; intros Hin Hne.
  - destruct Hin.
  - destruct (key <? k); [right; exact Hin|].
    destruct (key =? k) eqn:E.
    + apply Z.eqb_eq in E. subst k.
      destruct Hin as [<- | Hin]; [cbn in Hne; contradiction|].
      right; exact Hin.
    + destruct Hin as [<- | Hin]; [left; reflexivity|].
      right. apply IH; assumption.
Qed.

Lemma In_remove key m e :
  In e (qmap_remove key m) <-> In e m /\ fst e <> key.
Proof.
  unfold qmap_remove. rewrite filter_In. split; intros [Hin Hne].
  - split; [exact Hin|]. apply negb_true_iff, Z.eqb_neq in Hne. exact Hne.
  - split; [exact Hin|]. apply negb_true_iff, Z.eqb_neq. exact Hne.
Qed.

(** [map.value(key)] right after [map[key] = value]. *)
Lemma value_insert key value m : qmap_value key (qmap_insert key value m) = value.
Proof.
  induction m as [|[k v] m IH]; cbn [qmap_insert qmap_value].
  - rewrite Z.eqb_refl. reflexivity.
  - destruct (key <? k) eqn:E1; cbn [qmap_value].
    + rewrite Z.eqb_refl. reflexivity.
    + destruct (key =? k) eqn:E2; cbn [qmap_value].
      * rewrite Z.eqb_refl. reflexivity.
      * rewrite Z.eqb_sym, E2. exact IH.
Qed.

(** In an ordered map a key has one value. *)
Lemma value_In key value m :
  qmap_ordered m -> In (key, value) m -> qmap_value key m = value.
Proof.
  unfold qmap_ordered. induction m as [|[k v] m IH]; cbn; intros Hs Hin.
  - destruct Hin.
  - apply StronglySorted_inv in Hs. destruct Hs as [Hs Hall].
    destruct Hin as [E | Hin].
    + injection E as -> ->. rewrite Z.eqb_refl. reflexivity.
    + rewrite Forall_forall in Hall.
      assert (Hlt : k < key) by (apply Hall; apply (in_map fst _ _ Hin)).
      destruct (Z.eqb_spec k key) as [E | _]; [lia|].
      apply IH; assumption.
Qed.

(** [map.remove(key)] undoes [map[key] = value] for a new key. *)
Lemma remove_insert key value m :
  qmap_contains key m = false ->
  qmap_remove key (qmap_insert key value m) = m.
Proof.
  unfold qmap_contains, qmap_remove.
  induction m as [|[k v] m IH]; cbn [qmap_insert existsb fst]; intros Hc.
  - cbn. rewrite Z.eqb_refl. reflexivity.
  - apply orb_false_iff in Hc. destruct Hc as [Hk Hc].
    assert (Hm : filter (fun e => negb (fst e =? key)) m = m).
    { clear IH Hk. induction m as [|[k' v'] m IHm]; [reflexivity|].
      cbn [existsb fst] in Hc. apply orb_false_iff in Hc.
      destruct Hc as [Hk' Hc]. cbn [filter fst]. rewrite Hk'. cbn [negb].
      f_equal. apply IHm, Hc. }
    destruct (key <? k) eqn:E1.
    + cbn [filter fst]. rewrite Z.eqb_refl, Hk. cbn [negb]. f_equal. exact Hm.
    + rewrite Z.eqb_sym, Hk. cbn [filter fst]. rewrite Hk. cbn [negb].
      f_equal. apply IH, Hc.
Qed.

Lemma contains_insert key value m id :
  qmap_contains id (qmap_insert key value m)
  = (id =? key) || qmap_contains id m.
Proof.
  destruct (qmap_contains id (qmap_insert key value m)) eqn:E1;
    destruct ((id =? key) || qmap_contains id m) eqn:E2; try reflexivity.
  - apply contains_In in E1. destruct E1 as [name Hin].
    apply orb_false_iff in E2. destruct E2 as [Hne Hc].
    apply In_insert_inv in Hin. destruct Hin as [E | Hin].
    + injection E as -> _. rewrite Z.eqb_refl in Hne. discriminate Hne.
    + assert (Ht : qmap_contains id m = true)
        by (apply contains_In; exists name; exact Hin).
      rewrite Hc in Ht. discriminate Ht.
  - assert (Ht : qmap_contains id (qmap_insert key value m) = true).
    { apply contains_In. apply orb_true_iff in E2.
      destruct E2 as [He | Hc].
      - apply Z.eqb_eq in He. subst id. exists value. apply In_insert_new.
      - destruct (Z.eqb_spec id key) as [-> | Hne].
        + exists value. apply In_insert_new.
        + apply contains_In in Hc. destruct Hc as [name Hin].
          exists name. apply In_insert_old; [exact Hin | exact Hne]. }
    rewrite E1 in Ht. discriminate Ht.
Qed.

Lemma contains_remove key m id :
  qmap_contains id (qmap_remove key m) = true -> qmap_contains id m = true.
Proof.
  rewrite !contains_In. intros [name Hin]. apply In_remove in Hin.
  exists name. apply Hin.
Qed.

Lemma values_In name m : In name (qmap_values m) <-> exists id, In (id, name) m.
Proof.
  unfold qmap_values. rewrite in_map_iff. split.
  - intros [[k v] [<- Hin]]. exists k. exact Hin.
  - intros [id Hin]. exists (id, name). split; [reflexivity | exact Hin].
Qed.

Lemma firstName_listed m :
  firstName m = EmptyString \/ In (firstName m) (qmap_values m).
Proof.
  destruct m as [|[k v] m]; [left; reflexivity|]. right. left. reflexivity.
Qed.

(** What [deviceAdded] does to the maps and the defaults: nothing, or the
    new binding in [m_deviceIds] and among the sinks or the sources, and
    a default that was not set. *)
Lemma deviceAdded_fields id isNode props node s :
  let s' := deviceAdded id isNode props node s in
  (m_sinks s' = m_sinks s /\ m_sources s' = m_sources s
   /\ m_deviceIds s' = m_deviceIds s
   /\ m_defaultSource s' = m_defaultSource s
   /\ m_defaultSink s' = m_defaultSink s)
  \/ exists name,
      m_deviceIds s' = qmap_insert id name (m_deviceIds s)
      /\ ((m_sinks s' = qmap_insert id name (m_sinks s)
           /\ m_sources s' = m_sources s
           /\ m_defaultSource s' = m_defaultSource s
           /\ (m_defaultSink s' = m_defaultSink s
               \/ m_defaultSink s' = name))
          \/ (m_sinks s' = m_sinks s
              /\ m_sources s' = qmap_insert id name (m_sources s)
              /\ m_defaultSink s' = m_defaultSink s
              /\ (m_defaultSource s' = m_defaultSource s
                  \/ m_defaultSource s' = name))).
Proof.
  cbv zeta. unfold deviceAdded.
  destruct isNode; cbn [negb]; [|left; repeat split; reflexivity].
  destruct props as [props|]; [|left; repeat split; reflexivity].
  destruct (mediaClass props) as [cls|]; [|left; repeat split; reflexivity].
  destruct (existsb (String.eqb cls) pipewireAudioSupportedClasses);
    cbn [negb]; [|left; repeat split; reflexivity].
  destruct node as [n|]; [|left; repeat split; reflexivity].
  right. exists (QString_of (nodeName props)). cbv zeta.
  destruct (String.eqb cls "Audio/Sink") eqn:Es.
  - apply String.eqb_eq in Es. subst cls.
    change (String.eqb "Audio/Sink" "Audio/Source") with false.
    change (String.eqb "Audio/Sink" "Audio/Sink") with true.
    rewrite andb_false_r, andb_true_r. fields.
    split; [destruct (isEmpty (m_defaultSink s)); reflexivity|]. left.
    destruct (isEmpty (m_defaultSink s)); fields;
      (split; [reflexivity|]); (split; [reflexivity|]);
      (split; [reflexivity|]); (left; reflexivity) || (right; reflexivity).
  - fields. rewrite andb_false_r.
    split; [destruct (isEmpty (m_defaultSource s)
                      && String.eqb cls "Audio/Source"); reflexivity|].
    right.
    destruct (isEmpty (m_defaultSource s) && String.eqb cls "Audio/Source");
      fields;
      (split; [reflexivity|]); (split; [reflexivity|]);
      (split; [reflexivity|]); (left; reflexivity) || (right; reflexivity).
Qed.

(** What [deviceRemoved] does to the maps and the defaults. *)
Lemma deviceRemoved_fields id s :
  let s' := deviceRemoved id s in
  let name := qmap_value id (m_deviceIds s) in
  (name = EmptyString /\ s' = s)
  \/ (name <> EmptyString
      /\ m_deviceIds s' = qmap_remove id (m_deviceIds s)
      /\ m_sinks s' = (if qmap_contains id (m_sinks s)
                       then qmap_remove id (m_sinks s) else m_sinks s)
      /\ m_sources s' = (if qmap_contains id (m_sinks s)
                         then m_sources s
                         else qmap_remove id (m_sources s))
      /\ m_defaultSource s'
         = (if String.eqb (m_defaultSource s) name
            then firstName (m_sources s') else m_defaultSource s)
      /\ m_defaultSink s'
         = (if String.eqb (m_defaultSink s) name
            then firstName (m_sinks s') else m_defaultSink s)).
Proof.
  cbv zeta. unfold deviceRemoved.
  destruct (isEmpty (qmap_value id (m_deviceIds s))) eqn:Ee.
  - left. split; [apply isEmpty_true, Ee | reflexivity].
  - right. split; [apply isEmpty_false, Ee|]. cbv zeta.
    destruct (qmap_contains id (m_sinks s)); fields;
      destruct (String.eqb (m_defaultSource s)
                           (qmap_value id (m_deviceIds s))); fields;
      destruct (String.eqb (m_defaultSink s)
                           (qmap_value id (m_deviceIds s))); fields;
      rewrite ?first_value;
      (split; [reflexivity|]); (split; [reflexivity|]);
      (split; [reflexivity|]); split; reflexivity.
Qed.

Lemma newDevice_ok : RegistryOk newDevice.
Proof.
  constructor; cbn; try (constructor; fail); try (intros e []);
    try (left; reflexivity); try (intros id Hc; discriminate Hc).
Qed.

Lemma listed_insert name0 id name m :
  qmap_contains id m = false ->
  In name0 (qmap_values m) -> In name0 (qmap_values (qmap_insert id name m)).
Proof.
  intros Hc Hin. apply values_In in Hin. destruct Hin as [k Hin].
  apply values_In. exists k. apply In_insert_old; [exact Hin|].
  apply (not_contains_In id m (k, name0) Hc Hin).
Qed.

Lemma deviceAdded_ok id isNode props node s :
  qmap_contains id (m_deviceIds s) = false ->
  RegistryOk s -> RegistryOk (deviceAdded id isNode props node s).
Proof.
  intros Hfresh Hok.
  destruct Hok as [Hsi Hso Hids Hks Hko Hap Hds Hdk].
  assert (Hnsi : qmap_contains id (m_sinks s) = false).
  { destruct (qmap_contains id (m_sinks s)) eqn:E; [|reflexivity].
    apply contains_In in E. destruct E as [name Hin].
    assert (Ht : qmap_contains id (m_deviceIds s) = true)
      by (apply contains_In; exists name; apply Hks, Hin).
    rewrite Hfresh in Ht. discriminate Ht. }
  assert (Hnso : qmap_contains id (m_sources s) = false).
  { destruct (qmap_contains id (m_sources s)) eqn:E; [|reflexivity].
    apply contains_In in E. destruct E as [name Hin].
    assert (Ht : qmap_contains id (m_deviceIds s) = true)
      by (apply contains_In; exists name; apply Hko, Hin).
    rewrite Hfresh in Ht. discriminate Ht. }
  destruct (deviceAdded_fields id isNode props node s)
    as [(E1 & E2 & E3 & E4 & E5)
       | (name & E3 & [(E1 & E2 & E4 & E5) | (E1 & E2 & E5 & E4)])];
    constructor; unfold inputs, outputs;
    rewrite ?E1, ?E2, ?E3; try assumption;
    try (apply qmap_insert_ordered; assumption).
  - rewrite E4. exact Hds.
  - rewrite E5. exact Hdk.
  - (* sink: sinks known *)
    intros e Hin. apply In_insert_inv in Hin. destruct Hin as [-> | Hin].
    + apply In_insert_new.
    + apply In_insert_old; [apply Hks, Hin|].
      apply (not_contains_In id _ e Hnsi Hin).
  - intros e Hin. apply In_insert_old; [apply Hko, Hin|].
    apply (not_contains_In id _ e Hnso Hin).
  - intros k Hc. rewrite contains_insert in Hc.
    apply orb_true_iff in Hc. destruct Hc as [He | Hc].
    + apply Z.eqb_eq in He. subst k. exact Hnso.
    + apply Hap, Hc.
  - rewrite E4. exact Hds.
  - destruct E5 as [E5 | E5]; rewrite E5.
    + destruct Hdk as [Hd | Hd]; [left; exact Hd | right].
      apply listed_insert; assumption.
    + right. apply values_In. exists id. apply In_insert_new.
  - (* source: sinks known *)
    intros e Hin. apply In_insert_old; [apply Hks, Hin|].
    apply (not_contains_In id _ e Hnsi Hin).
  - intros e Hin. apply In_insert_inv in Hin. destruct Hin as [-> | Hin].
    + apply In_insert_new.
    + apply In_insert_old; [apply Hko, Hin|].
      apply (not_contains_In id _ e Hnso Hin).
  - intros k Hc. rewrite contains_insert.
    apply orb_false_iff. split; [|apply Hap, Hc].
    apply Z.eqb_neq. intros ->. rewrite Hnsi in Hc. discriminate Hc.
  - destruct E4 as [E4 | E4]; rewrite E4.
    + destruct Hds as [Hd | Hd]; [left; exact Hd | right].
      apply listed_insert; assumption.
    + right. apply values_In. exists id. apply In_insert_new.
  - rewrite E5. exact Hdk.
Qed.

(** A listed name other than the one bound to [id] stays listed when
    [id] is removed. *)
Lemma listed_remove name0 id m ids :
  qmap_ordered ids ->
  (forall e, In e m -> In e ids) ->
  name0 <> qmap_value id ids ->
  In name0 (qmap_values m) -> In name0 (qmap_values (qmap_remove id m)).
Proof.
  intros Hord Hknown Hne Hin. apply values_In in Hin.
  destruct Hin as [k Hin]. apply values_In. exists k.
  apply In_remove. split; [exact Hin|]. cbn. intros ->.
  apply Hne. symmetry. apply value_In; [exact Hord | apply Hknown, Hin].
Qed.

Lemma deviceRemoved_ok id s :
  RegistryOk s -> RegistryOk (deviceRemoved id s).
Proof.
  intros Hok.
  destruct (deviceRemoved_fields id s)
    as [[_ ->] | (Hne & E3 & E1 & E2 & E4 & E5)]; [exact Hok|].
  destruct Hok as [Hsi Hso Hids Hks Hko Hap Hds Hdk].
  assert (Hsources :
            forall name0, name0 <> qmap_value id (m_deviceIds s) ->
                          In name0 (qmap_values (m_sources s)) ->
                          In name0 (qmap_values
                                      (m_sources (deviceRemoved id s)))).
  { intros name0 Hn Hin. rewrite E2.
    destruct (qmap_contains id (m_sinks s)); [exact Hin|].
    apply (listed_remove name0 id _ (m_deviceIds s)); assumption. }
  assert (Hsinks :
            forall name0, name0 <> qmap_value id (m_deviceIds s) ->
                          In name0 (qmap_values (m_sinks s)) ->
                          In name0 (qmap_values
                                      (m_sinks (deviceRemoved id s)))).
  { intros name0 Hn Hin. rewrite E1.
    destruct (qmap_contains id (m_sinks s)); [|exact Hin].
    apply (listed_remove name0 id _ (m_deviceIds s)); assumption. }
  constructor; unfold inputs, outputs in *.
  - rewrite E1. destruct (qmap_contains id (m_sinks s));
      [apply qmap_remove_ordered|]; assumption.
  - rewrite E2. destruct (qmap_contains id (m_sinks s));
      [|apply qmap_remove_ordered]; assumption.
  - rewrite E3. apply qmap_remove_ordered. assumption.
  - rewrite E1, E3. intros e Hin. apply In_remove.
    destruct (qmap_contains id (m_sinks s)) eqn:Ec.
    + apply In_remove in Hin. split; [apply Hks|]; apply Hin.
    + split; [apply Hks, Hin|]. apply (not_contains_In id _ e Ec Hin).
  - rewrite E2, E3. intros e Hin. apply In_remove.
    destruct (qmap_contains id (m_sinks s)) eqn:Ec.
    + split; [apply Hko, Hin|].
      apply (not_contains_In id _ e (Hap id Ec) Hin).
    + apply In_remove in Hin. split; [apply Hko|]; apply Hin.
  - rewrite E1, E2. intros k Hc.
    destruct (qmap_contains id (m_sinks s)).
    + apply Hap. apply (contains_remove id _ k Hc).
    + destruct (qmap_contains k (qmap_remove id (m_sources s))) eqn:Ek;
        [|reflexivity].
      apply contains_remove in Ek. rewrite (Hap k Hc) in Ek.
      discriminate Ek.
  - rewrite E4.
    destruct (String.eqb_spec (m_defaultSource s)
                              (qmap_value id (m_deviceIds s))) as [_ | Hn].
    + apply firstName_listed.
    + destruct Hds as [Hd | Hd]; [left; exact Hd | right].
      apply Hsources; assumption.
  - rewrite E5.
    destruct (String.eqb_spec (m_defaultSink s)
                              (qmap_value id (m_deviceIds s))) as [_ | Hn].
    + apply firstName_listed.
    + destruct Hdk as [Hd | Hd]; [left; exact Hd | right].
      apply Hsinks; assumption.
Qed.

Lemma deviceIdRef_ok id s : RegistryOk s -> RegistryOk (deviceIdRef id s).
Proof.
  intros Hok. unfold deviceIdRef.
  destruct (qmap_contains id (m_deviceIds s)) eqn:Ec; [exact Hok|].
  destruct Hok as [Hsi Hso Hids Hks Hko Hap Hds Hdk].
  constructor; cbn; try assumption.
  - apply qmap_insert_ordered. assumption.
  - intros e Hin. apply In_insert_old; [apply Hks, Hin|].
    apply (not_contains_In id _ e Ec (Hks e Hin)).
  - intros e Hin. apply In_insert_old; [apply Hko, Hin|].
    apply (not_contains_In id _ e Ec (Hko e Hin)).
Qed.

Lemma registry_ok s : Registry s -> RegistryOk s.
Proof.
  induction 1 as [| id isNode props node s _ IH Hfresh | id s _ IH
                 | id s _ IH].
  - apply newDevice_ok.
  - apply deviceAdded_ok; assumption.
  - apply deviceRemoved_ok; assumption.
  - apply deviceIdRef_ok; assumption.
Qed.

End RegistryProofs.

Module TableProofs.
Import Rav1e.

Lemma byAv1Format_rows cs d :
  pixFormat (byAv1Format cs d) <> Format_none ->
  av1Format (byAv1Format cs d) = cs /\ depth (byAv1Format cs d) = d
  /\ byPixFormat (pixFormat (byAv1Format cs d)) = byAv1Format cs d.
Proof.
  unfold byAv1Format.
  destruct (Z.eq_dec d 8) as [-> | H8];
    [destruct cs; cbn; intros Hne;
     try (exfalso; apply Hne; reflexivity);
     (split; [reflexivity | split; reflexivity])|].
  destruct (Z.eq_dec d 10) as [-> | H10];
    [destruct cs; cbn; intros Hne;
     try (exfalso; apply Hne; reflexivity);
     (split; [reflexivity | split; reflexivity])|].
  destruct (Z.eq_dec d 12) as [-> | H12];
    [destruct cs; cbn; intros Hne;
     try (exfalso; apply Hne; reflexivity);
     (split; [reflexivity | split; reflexivity])|].
  intros Hne. exfalso. apply Hne.
  assert (E8 : (8 =? d) = false) by (apply Z.eqb_neq; lia).
  assert (E10 : (10 =? d) = false) by (apply Z.eqb_neq; lia).
  assert (E12 : (12 =? d) = false) by (apply Z.eqb_neq; lia).
  unfold table. cbn [byAv1Format_from pixFormat av1Format depth].
  change (PixelFormat_eqb Format_none Format_none) with true.
  repeat match goal with
         | |- context [PixelFormat_eqb ?a Format_none] =>
             change (PixelFormat_eqb a Format_none) with false
         end.
  cbv iota. rewrite E8, E10, E12, !andb_false_r. reflexivity.
Qed.

End TableProofs.

(** Adding devices under ids that are new and removing devices keeps the
    registry coherent: every listed sink and source is bound in
    [m_deviceIds] under the same id and name, no id is both a sink and a
    source, and the default input is one of the inputs whenever there is
    an input and empty when there is none; likewise for the default
    output. *)
Theorem registry_default_is_listed :
  forall s : PipeWire.State,
    PipeWireRegistry.Registry s ->
    (forall e, In e (PipeWire.m_sinks s) \/ In e (PipeWire.m_sources s) ->
               In e (PipeWire.m_deviceIds s))
    /\ (forall id, PipeWire.qmap_contains id (PipeWire.m_sinks s) = true ->
                   PipeWire.qmap_contains id (PipeWire.m_sources s) = false)
    /\ (PipeWire.inputs s <> [] ->
        In (PipeWire.defaultInput s) (PipeWire.inputs s))
    /\ (PipeWire.inputs s = [] -> PipeWire.defaultInput s = EmptyString)
    /\ (PipeWire.outputs s <> [] ->
        In (PipeWire.defaultOutput s) (PipeWire.outputs s))
    /\ (PipeWire.outputs s = [] -> PipeWire.defaultOutput s = EmptyString).
Proof.
  intros s Hr. apply RegistryProofs.registry_ok in Hr.
  destruct Hr as [Hsi Hso Hids Hks Hko Hap Hds Hdk].
  assert (Hdefault :
            forall default (values : list string),
              default = EmptyString \/ In default values ->
              let answer := if PipeWire.isEmpty default
                            then PipeWire.qlist_value values 0
                            else default in
              (values <> [] -> In answer values)
              /\ (values = [] -> answer = EmptyString)).
  { intros default values Hd. cbv zeta.
    destruct (PipeWire.isEmpty default) eqn:Ee.
    - split.
      + intros Hne. destruct values as [|v values]; [contradiction|].
        left. reflexivity.
      + intros ->. reflexivity.
    - apply PipeWireProofs.isEmpty_false in Ee.
      destruct Hd as [Hd | Hd]; [contradiction|]. split.
      + intros _. exact Hd.
      + intros ->. destruct Hd. }
  split; [intros e [Hin | Hin]; [apply Hks | apply Hko]; exact Hin|].
  split; [exact Hap|].
  destruct (Hdefault (PipeWire.m_defaultSource s) (PipeWire.inputs s) Hds)
    as [Hi1 Hi2].
  destruct (Hdefault (PipeWire.m_defaultSink s) (PipeWire.outputs s) Hdk)
    as [Ho1 Ho2].
  split; [exact Hi1|]. split; [exact Hi2|]. split; [exact Ho1 | exact Ho2].
Qed.

Lemma registry_default_is_listed_witness :
  PipeWire.inputs sinkLeft = []
  /\ PipeWire.outputs sinkLeft = ["speakers"%string]
  /\ PipeWire.defaultInput sinkLeft = EmptyString
  /\ In (PipeWire.defaultOutput sinkLeft) (PipeWire.outputs sinkLeft).
Proof.
  assert (Hr : PipeWireRegistry.Registry sinkLeft).
  { unfold sinkLeft. apply PipeWireRegistry.Registry_removed.
    apply PipeWireRegistry.Registry_added; [|reflexivity].
    apply PipeWireRegistry.Registry_added; [|reflexivity].
    apply PipeWireRegistry.Registry_new. }
  split; [reflexivity|]. split; [reflexivity|].
  destruct (registry_default_is_listed sinkLeft Hr)
    as (_ & _ & _ & Hi & Ho & _).
  split; [apply Hi; reflexivity | apply Ho; discriminate].
Defined.

(** A device announced without a node name, or with an empty one, is
    listed under the empty name, and [deviceRemoved] for its id does
    nothing at all: the device stays listed and no signal is sent. *)
Theorem nameless_device_is_never_removed :
  forall (id : Z) (props : PipeWire.NodeProps) (cls : string) (node : Z)
         (s : PipeWire.State),
    PipeWire.mediaClass props = Some cls ->
    In cls PipeWire.pipewireAudioSupportedClasses ->
    PipeWire.QString_of (PipeWire.nodeName props) = EmptyString ->
    let s' := PipeWire.deviceAdded id true (Some props) (Some node) s in
    PipeWire.deviceRemoved id s' = s'
    /\ (if String.eqb cls "Audio/Sink"
        then In (id, EmptyString) (PipeWire.m_sinks s')
             /\ In EmptyString (PipeWire.outputs s')
        else In (id, EmptyString) (PipeWire.m_sources s')
             /\ In EmptyString (PipeWire.inputs s')).
Proof.
  intros id props cls node s Hcls Hsup Hname s'.
  assert (Hex : existsb (String.eqb cls) PipeWire.pipewireAudioSupportedClasses
                = true).
  { apply existsb_exists. exists cls. split; [exact Hsup|].
    apply String.eqb_refl. }
  assert (Hfields :
            PipeWire.m_deviceIds s'
            = PipeWire.qmap_insert id EmptyString (PipeWire.m_deviceIds s)
            /\ (if String.eqb cls "Audio/Sink"
                then PipeWire.m_sinks s'
                     = PipeWire.qmap_insert id EmptyString (PipeWire.m_sinks s)
                else PipeWire.m_sources s'
                     = PipeWire.qmap_insert id EmptyString
                                            (PipeWire.m_sources s))).
  { subst s'. unfold PipeWire.deviceAdded. cbn [negb]. rewrite Hcls, Hex.
    cbn [negb]. cbv zeta. rewrite Hname.
    destruct (String.eqb cls "Audio/Sink"); RegistryProofs.fields;
      repeat match goal with
             | |- context [if ?c then _ else _] =>
                 destruct c; RegistryProofs.fields
             end;
      split; reflexivity. }
  destruct Hfields as [Hids Hmap]. split.
  - unfold PipeWire.deviceRemoved. rewrite Hids, RegistryProofs.value_insert.
    reflexivity.
  - destruct (String.eqb cls "Audio/Sink"); rewrite ?Hmap;
      unfold PipeWire.outputs, PipeWire.inputs; rewrite Hmap;
      (split; [apply RegistryProofs.In_insert_new|]);
      apply RegistryProofs.values_In; exists id;
      apply RegistryProofs.In_insert_new.
Qed.

Lemma nameless_device_is_never_removed_witness :
  PipeWire.deviceRemoved 5 Sample.namelessSource = Sample.namelessSource
  /\ In (5, EmptyString) (PipeWire.m_sources Sample.namelessSource)
  /\ In EmptyString (PipeWire.inputs Sample.namelessSource).
Proof.
  exact (nameless_device_is_never_removed
           5 (PipeWire.mkProps (Some "Audio/Source"%string) None None)
           "Audio/Source"%string 1 PipeWire.newDevice
           eq_refl (or_intror (or_intror (or_introl eq_refl))) eq_refl).
Defined.

(** A named device announced under an id the device does not know, and
    then removed, leaves the three maps, and so the inputs and the
    outputs, as they were. The default of its kind is not always as it
    was: when the device became the default, or bears the default's
    name, the default afterwards is the first device listed. *)
Theorem device_added_then_removed :
  forall (id : Z) (props : PipeWire.NodeProps) (cls : string) (node : Z)
         (s : PipeWire.State),
    PipeWire.mediaClass props = Some cls ->
    In cls PipeWire.pipewireAudioSupportedClasses ->
    PipeWire.QString_of (PipeWire.nodeName props) <> EmptyString ->
    PipeWire.qmap_contains id (PipeWire.m_deviceIds s) = false ->
    PipeWire.qmap_contains id (PipeWire.m_sinks s) = false ->
    PipeWire.qmap_contains id (PipeWire.m_sources s) = false ->
    let name := PipeWire.QString_of (PipeWire.nodeName props) in
    let s' := PipeWire.deviceRemoved id
                (PipeWire.deviceAdded id true (Some props) (Some node) s) in
    PipeWire.m_deviceIds s' = PipeWire.m_deviceIds s
    /\ PipeWire.m_sinks s' = PipeWire.m_sinks s
    /\ PipeWire.m_sources s' = PipeWire.m_sources s
    /\ PipeWire.inputs s' = PipeWire.inputs s
    /\ PipeWire.outputs s' = PipeWire.outputs s
    /\ PipeWire.m_defaultSource s'
       = (if (PipeWire.isEmpty (PipeWire.m_defaultSource s)
              && String.eqb cls "Audio/Source")
             || String.eqb (PipeWire.m_defaultSource s) name
          then firstName (PipeWire.m_sources s)
          else PipeWire.m_defaultSource s)
    /\ PipeWire.m_defaultSink s'
       = (if (PipeWire.isEmpty (PipeWire.m_defaultSink s)
              && String.eqb cls "Audio/Sink")
             || String.eqb (PipeWire.m_defaultSink s) name
          then firstName (PipeWire.m_sinks s)
          else PipeWire.m_defaultSink s).
Proof.
  intros id props cls node s Hcls Hsup Hname Hids Hsi Hso name s'.
  assert (Hex : existsb (String.eqb cls) PipeWire.pipewireAudioSupportedClasses
                = true).
  { apply existsb_exists. exists cls. split; [exact Hsup|].
    apply String.eqb_refl. }
  set (a := PipeWire.deviceAdded id true (Some props) (Some node) s) in *.
  assert (Ha :
            PipeWire.m_deviceIds a
            = PipeWire.qmap_insert id name (PipeWire.m_deviceIds s)
            /\ PipeWire.m_sinks a
               = (if String.eqb cls "Audio/Sink"
                  then PipeWire.qmap_insert id name (PipeWire.m_sinks s)
                  else PipeWire.m_sinks s)
            /\ PipeWire.m_sources a
               = (if String.eqb cls "Audio/Sink"
                  then PipeWire.m_sources s
                  else PipeWire.qmap_insert id name (PipeWire.m_sources s))
            /\ PipeWire.m_defaultSource a
               = (if PipeWire.isEmpty (PipeWire.m_defaultSource s)
                     && String.eqb cls "Audio/Source"
                  then name else PipeWire.m_defaultSource s)
            /\ PipeWire.m_defaultSink a
               = (if PipeWire.isEmpty (PipeWire.m_defaultSink s)
                     && String.eqb cls "Audio/Sink"
                  then name else PipeWire.m_defaultSink s)).
  { subst a. unfold PipeWire.deviceAdded. cbn [negb]. rewrite Hcls, Hex.
    cbn [negb]. cbv zeta. fold name.
    destruct (String.eqb cls "Audio/Sink"); RegistryProofs.fields;
      destruct (PipeWire.isEmpty (PipeWire.m_defaultSource s)
                && String.eqb cls "Audio/Source");
      RegistryProofs.fields;
      destruct (PipeWire.isEmpty (PipeWire.m_defaultSink s));
      cbn [andb]; RegistryProofs.fields;
      (split; [reflexivity|]); (split; [reflexivity|]);
      (split; [reflexivity|]); split; reflexivity. }
  destruct Ha as (Ea3 & Ea1 & Ea2 & Ea4 & Ea5).
  destruct (RegistryProofs.deviceRemoved_fields id a)
    as [[Hn _] | (_ & E3 & E1 & E2 & E4 & E5)].
  { exfalso. rewrite Ea3, RegistryProofs.value_insert in Hn.
    apply Hname, Hn. }
  fold s' in E1, E2, E3, E4, E5.
  rewrite Ea3, RegistryProofs.value_insert in E4, E5.
  rewrite Ea3, RegistryProofs.remove_insert in E3 by exact Hids.
  assert (Hsinks : PipeWire.m_sinks s' = PipeWire.m_sinks s).
  { rewrite E1, Ea1. destruct (String.eqb cls "Audio/Sink").
    - rewrite RegistryProofs.contains_insert, Z.eqb_refl. cbn [orb].
      apply RegistryProofs.remove_insert, Hsi.
    - rewrite Hsi. reflexivity. }
  assert (Hsources : PipeWire.m_sources s' = PipeWire.m_sources s).
  { rewrite E2, Ea1, Ea2. destruct (String.eqb cls "Audio/Sink").
    - rewrite RegistryProofs.contains_insert, Z.eqb_refl. reflexivity.
    - rewrite Hsi. apply RegistryProofs.remove_insert, Hso. }
  apply PipeWireProofs.isEmpty_false in Hname. fold name in Hname.
  split; [exact E3|]. split; [exact Hsinks|]. split; [exact Hsources|].
  split; [unfold PipeWire.inputs; rewrite Hsources; reflexivity|].
  split; [unfold PipeWire.outputs; rewrite Hsinks; reflexivity|].
  split.
  - rewrite E4, Ea4, Hsources.
    destruct (PipeWire.isEmpty (PipeWire.m_defaultSource s)
              && String.eqb cls "Audio/Source") eqn:Ec; cbn [orb].
    + rewrite String.eqb_refl. reflexivity.
    + reflexivity.
  - rewrite E5, Ea5, Hsinks.
    destruct (PipeWire.isEmpty (PipeWire.m_defaultSink s)
              && String.eqb cls "Audio/Sink") eqn:Ec; cbn [orb].
    + rewrite String.eqb_refl. reflexivity.
    + reflexivity.
Qed.

Lemma device_added_then_removed_witness :
  let props := PipeWire.mkProps (Some "Audio/Source"%string)
                                (Some "microphone"%string) None in
  let s' := PipeWire.deviceRemoved 31
              (PipeWire.deviceAdded 31 true (Some props) (Some 3)
                                    Sample.twoStreams) in
  PipeWire.m_defaultSource Sample.twoStreams = EmptyString
  /\ PipeWire.inputs s' = ["browser"%string; "player"%string]
  /\ PipeWire.m_defaultSource s' = "browser"%string.
Proof.
  split; [reflexivity|]. split; [reflexivity|].
  apply (device_added_then_removed
           31 (PipeWire.mkProps (Some "Audio/Source"%string)
                                (Some "microphone"%string) None)
           "Audio/Source"%string 3 Sample.twoStreams eq_refl
           (or_intror (or_intror (or_introl eq_refl))));
    [discriminate | reflexivity | reflexivity | reflexivity].
Defined.

(** The two lookups of the pixel format table agree: the row found for a
    pixel format is the row found for its chroma sampling and depth, and
    the row found for a chroma sampling and a depth has these and is the
    row found for its pixel format. A lookup fails, giving the closing
    row, exactly for a pixel format the table does not have. *)
Theorem pixel_format_table_lookups_agree :
  (forall fmt : Rav1e.PixelFormat,
      Rav1e.pixFormat (Rav1e.byPixFormat fmt) <> Rav1e.Format_none ->
      Rav1e.pixFormat (Rav1e.byPixFormat fmt) = fmt
      /\ byAv1Format (Rav1e.av1Format (Rav1e.byPixFormat fmt))
                     (Rav1e.depth (Rav1e.byPixFormat fmt))
         = Rav1e.byPixFormat fmt)
  /\ (forall (cs : Rav1e.RaChromaSampling) (d : Z),
         Rav1e.pixFormat (byAv1Format cs d) <> Rav1e.Format_none ->
         Rav1e.av1Format (byAv1Format cs d) = cs
         /\ Rav1e.depth (byAv1Format cs d) = d
         /\ Rav1e.byPixFormat (Rav1e.pixFormat (byAv1Format cs d))
            = byAv1Format cs d)
  /\ (forall fmt : Rav1e.PixelFormat,
         Rav1e.pixFormat (Rav1e.byPixFormat fmt) = Rav1e.Format_none
         <-> (fmt = Rav1e.Format_none
              \/ ~ In fmt (map Rav1e.pixFormat Rav1e.table))).
Proof.
  split; [|split].
  - intros fmt Hne. destruct fmt; cbn in Hne |- *;
      try (exfalso; apply Hne; reflexivity); split; reflexivity.
  - apply TableProofs.byAv1Format_rows.
  - intros fmt. split.
    + intros Hnone.
      destruct fmt; cbn in Hnone; try discriminate Hnone;
        try (left; reflexivity);
        right; cbn; intros Hin;
        repeat (destruct Hin as [Hin | Hin]; [discriminate Hin|]);
        exact Hin.
    + intros [-> | Hnot]; [reflexivity|].
      destruct fmt; try reflexivity; exfalso; apply Hnot; cbn; tauto.
Qed.

Lemma pixel_format_table_lookups_agree_witness :
  Rav1e.byPixFormat Rav1e.Format_yuv422p10
  = Rav1e.mkPix Rav1e.Format_yuv422p10 Rav1e.RA_CHROMA_SAMPLING_CS422 10
  /\ byAv1Format Rav1e.RA_CHROMA_SAMPLING_CS422 10
     = Rav1e.byPixFormat Rav1e.Format_yuv422p10.
Proof.
  split; [reflexivity|].
  apply (proj1 pixel_format_table_lookups_agree Rav1e.Format_yuv422p10).
  discriminate.
Defined.


(* ===================================================================== *)
(** * The state transitions of the muxer *)
(* ===================================================================== *)

Module MuxerStateProofs.
Import MachineInt Ak Rav1e.
Import MuxerInitProofs MuxerOutcomeProofs MuxerLifeProofs.

Lemma ElementState_same_or_not (a b : ElementState) : a = b \/ a <> b.
Proof. destruct a, b; (left; reflexivity) || (right; discriminate). Qed.

Section MuxerState.
Context {R : Type} `{QReal.Ops R}.
Implicit Types s : Webm.State R.

(** Leaving the Null state for [target] is [init], after [m_paused] was
    set for the Paused state: success takes the element to [target],
    failure leaves it in Null with [m_paused] clear. *)
Lemma setState_from_null nat target s :
  Webm.state s = ElementStateNull ->
  Webm.m_initialized s = false ->
  target <> ElementStateNull ->
  (fst (Webm.setState nat target s) = true
   <-> ~ ConfigurationError s /\ WebmNativeOk nat s)
  /\ Webm.state (snd (Webm.setState nat target s))
     = (if fst (Webm.setState nat target s) then target
        else ElementStateNull)
  /\ Webm.m_initialized (snd (Webm.setState nat target s))
     = fst (Webm.setState nat target s)
  /\ Webm.m_paused (snd (Webm.setState nat target s))
     = (if fst (Webm.setState nat target s)
        then ElementState_eqb target ElementStatePaused || Webm.m_paused s
        else false).
Proof.
  intros Est Hi Hne. unfold Webm.setState. rewrite Est.
  assert (Hinit :
            forall b,
              (fst (Webm.init nat (Webm.set_m_paused b s)) = true
               <-> ~ ConfigurationError s /\ WebmNativeOk nat s)
              /\ Webm.state (snd (Webm.init nat (Webm.set_m_paused b s)))
                 = ElementStateNull
              /\ Webm.m_paused (snd (Webm.init nat (Webm.set_m_paused b s)))
                 = b
              /\ Webm.m_initialized
                   (snd (Webm.init nat (Webm.set_m_paused b s)))
                 = fst (Webm.init nat (Webm.set_m_paused b s))).
  { intros b.
    destruct (init_outcome nat (Webm.set_m_paused b s) Hi)
      as (Hiff & Hsetup & Hpa & _).
    destruct (setup_fields _ _ Hsetup) as (Hst & _).
    destruct (init_fields nat (Webm.set_m_paused b s)) as [_ Hin].
    split; [exact Hiff|]. split; [rewrite Hst; exact Est|].
    split; [exact Hpa | exact Hin]. }
  destruct target; [contradiction| |].
  - cbn [ElementState_eqb]. destruct (Hinit true) as (Hiff & Hst & Hpa & Hin).
    destruct (Webm.init nat (Webm.set_m_paused true s)) as [ok s1].
    cbn [fst snd] in *. destruct ok; cbn [negb AkElement_setState fst snd].
    + cbn. split; [exact Hiff|]. split; [reflexivity|].
      split; [exact Hin | exact Hpa].
    + cbn. split; [exact Hiff|]. split; [exact Hst|].
      split; [exact Hin | reflexivity].
  - assert (Hs : Webm.init nat s
                 = Webm.init nat (Webm.set_m_paused (Webm.m_paused s) s))
      by (destruct s; reflexivity).
    rewrite Hs.
    destruct (Hinit (Webm.m_paused s)) as (Hiff & Hst & Hpa & Hin).
    destruct (Webm.init nat (Webm.set_m_paused (Webm.m_paused s) s))
      as [ok s1].
    cbn [fst snd] in *. destruct ok; cbn [negb AkElement_setState fst snd].
    + cbn. split; [exact Hiff|]. split; [reflexivity|].
      split; [exact Hin | exact Hpa].
    + cbn. split; [exact Hiff|]. split; [exact Hst|].
      split; [exact Hin | reflexivity].
Qed.

(** Leaving the Paused or the Playing state always succeeds. *)
Lemma setState_from_started nat target s :
  Webm.state s <> ElementStateNull ->
  Webm.m_initialized s = true ->
  target <> Webm.state s ->
  fst (Webm.setState nat target s) = true
  /\ Webm.state (snd (Webm.setState nat target s)) = target
  /\ Webm.m_initialized (snd (Webm.setState nat target s))
     = negb (ElementState_eqb target ElementStateNull).
Proof.
  intros Hst Hi Hne. unfold Webm.setState.
  destruct (Webm.state s) eqn:Est; [contradiction| |];
    destruct target; try contradiction;
    cbn [AkElement_setState fst snd ElementState_eqb negb];
    (split; [reflexivity|]); (split; [reflexivity|]); cbn;
    try exact Hi; apply LifeCycleProofs.webm_uninit_initialized.
Qed.

Lemma setState_same nat s :
  Webm.setState nat (Webm.state s) s = (false, s).
Proof. unfold Webm.setState. destruct (Webm.state s); reflexivity. Qed.

End MuxerState.
End MuxerStateProofs.

(** [setState] of the muxer, in every state the element can reach. It
    succeeds exactly on a transition to another state for which, out of
    Null, there is no configuration error and libwebm and the file
    system play along; the element is then in the target state, and
    otherwise in the state it was in. Out of Null the element is
    initialized exactly on success; a failed start leaves [m_paused]
    clear, a start to Paused sets it, and a start to Playing leaves it
    as it was. A transition to Null leaves the element not
    initialized. *)
Theorem webm_setState_transitions :
  forall (R : Type) (ops : QReal.Ops R) (nat : Webm.Native)
         (target : Ak.ElementState) (s : Webm.State R),
    Reachable s ->
    let r := Webm.setState nat target s in
    (fst r = true
     <-> target <> Webm.state s
         /\ (Webm.state s = Ak.ElementStateNull ->
             ~ ConfigurationError s /\ WebmNativeOk nat s))
    /\ Webm.state (snd r) = (if fst r then target else Webm.state s)
    /\ (Webm.state s = Ak.ElementStateNull ->
        target <> Ak.ElementStateNull ->
        Webm.m_initialized (snd r) = fst r
        /\ Webm.m_paused (snd r)
           = (if fst r
              then Ak.ElementState_eqb target Ak.ElementStatePaused
                   || Webm.m_paused s
              else false))
    /\ (target = Ak.ElementStateNull ->
        Webm.m_initialized (snd r) = false).
Proof.
  intros R ops nat target s Hr r.
  destruct (MuxerLifeProofs.webm_reachable_life s Hr) as [Hl _].
  unfold WebmLifeCycle in Hl.
  destruct (MuxerStateProofs.ElementState_same_or_not target (Webm.state s))
    as [Heq | Hne].
  - subst target r. rewrite MuxerStateProofs.setState_same. cbn [fst snd].
    split; [split; [discriminate | intros [Hf _]; contradiction]|].
    split; [reflexivity|].
    split; [intros Hn Hf; contradiction|].
    intros Hn. rewrite Hn in Hl. exact Hl.
  - destruct (MuxerStateProofs.ElementState_same_or_not
                (Webm.state s) Ak.ElementStateNull) as [Hn | Hs].
    + rewrite Hn in Hl, Hne.
      destruct (MuxerStateProofs.setState_from_null nat target s Hn Hl Hne)
        as (Hiff & Hst & Hin & Hpa).
      fold r in Hiff, Hst, Hin, Hpa.
      split; [|split; [|split]].
      * rewrite Hiff, Hn. split.
        -- intros Hok. split; [exact Hne | intros _; exact Hok].
        -- intros [_ Hok]. apply Hok. reflexivity.
      * rewrite Hst, Hn. reflexivity.
      * intros _ _. split; [exact Hin | exact Hpa].
      * intros Ht. contradiction.
    + assert (Hi : Webm.m_initialized s = true).
      { destruct (Webm.state s); [contradiction | apply Hl | exact Hl]. }
      destruct (MuxerStateProofs.setState_from_started nat target s Hs Hi Hne)
        as (Hok & Hst & Hin).
      fold r in Hok, Hst, Hin.
      split; [|split; [|split]].
      * rewrite Hok. split; [|reflexivity].
        intros _. split; [exact Hne | intros Hn; contradiction].
      * rewrite Hok. exact Hst.
      * intros Hn. contradiction.
      * intros ->. exact Hin.
Qed.

Lemma webm_setState_transitions_witness :
  let r := Webm.setState Sample.webmNative Ak.ElementStatePaused
                         Sample.avMuxer in
  fst r = true
  /\ Webm.state (snd r) = Ak.ElementStatePaused
  /\ Webm.m_paused (snd r) = true.
Proof.
  destruct (webm_setState_transitions
              Q QReal.Q_ops Sample.webmNative Ak.ElementStatePaused
              Sample.avMuxer
              (Reachable_new Sample.avMuxer eq_refl eq_refl eq_refl eq_refl
                             eq_refl))
    as (_ & Hst & Hnull & _).
  split; [reflexivity|]. split; [exact Hst|].
  exact (proj2 (Hnull eq_refl ltac:(discriminate))).
Defined.
